(** * simple-stop-motion: the WebM export pipeline

    A shallow embedding of the byte stream writer, the EBML element writer,
    the WebM muxer, the export loop and the clip compositor of the
    repository, with the properties its specification states about them.

    JavaScript numbers that hold integers are modelled by [Z]; the 32-bit
    conversions that the bitwise operators perform, and the 8-bit conversion
    that a store into a [Uint8Array] performs, are written out. *)

From Stdlib Require Import ZArith QArith Qround Reals String Lia Lra Lqa.
From stdpp Require Import base option list.

Local Open Scope Z_scope.

(** ** Exceptions

    The sources throw plain [Error] objects; one constructor per [throw]
    site, carrying the value that the message prints. *)

Inductive exn : Type :=
| BadVINTSize (width : Z)          (* "Bad EBML VINT size " + width *)
| VINTSizeNotSupported (val : Z)   (* "EBML VINT size not supported " + val *)
| BadUINTSize (width : Z)          (* "Bad UINT size " + width *)
| PosBeyondEnd                     (* "ArrayBufferDataStream's pos lies beyond end of buffer" *)
| BadEBMLDatatype                  (* "Bad EBML datatype " + typeof ebml.data *)
| BadTrackNumber                   (* "TrackNumber must be > 0 and < 127" *)
| ClipCannotBeRendered             (* "clip cannot be rendered" *)
| ImageLoadFailed                  (* the image's error event rejects asImage *)
| TypeError.                       (* property access on undefined *)

Definition result (A : Type) : Type := exn + A.

Abbreviation ok := (@inr exn _).
Abbreviation throw := (@inl exn _).

#[global] Instance result_ret : MRet result := fun A a => inr a.
#[global] Instance result_bind : MBind result := fun A B f m =>
  match m with
  | inl e => inl e
  | inr a => f a
  end.

(** ** Number conversions of the bitwise operators *)

Module JS.

Definition ToInt32 (x : Z) : Z := (x + 2 ^ 31) mod 2 ^ 32 - 2 ^ 31.

(** Conversion of a store into a [Uint8Array] element. *)
Definition ToUint8 (x : Z) : Z := x mod 2 ^ 8.

(** [a << n] *)
Definition shl (a n : Z) : Z := ToInt32 (Z.shiftl (ToInt32 a) (n mod 32)).

(** [a >> n] *)
Definition sar (a n : Z) : Z := Z.shiftr (ToInt32 a) (n mod 32).

(** [a | b] *)
Definition bor (a b : Z) : Z := Z.lor (ToInt32 a) (ToInt32 b).

(** [a & b] *)
Definition band (a b : Z) : Z := Z.land (ToInt32 a) (ToInt32 b).

(** [a % b] on integers: the remainder has the sign of the dividend. *)
Definition rem (a b : Z) : Z := Z.rem a b.

End JS.

(** ** ArrayBufferDataStream

    [data] is the [Uint8Array]; [pos] the write cursor.  A store at an index
    outside the array is dropped by a typed array, and the cursor advances
    all the same. *)

Module ArrayBufferDataStream.

Record t : Type := mk { data : list Z; pos : Z }.

(** [new ArrayBufferDataStream(length)] *)
Definition new (length : Z) : t :=
  {| data := replicate (Z.to_nat length) 0; pos := 0 |}.

Definition byteLength (s : t) : Z := Z.of_nat (length (data s)).

(** [arr[i] = b] on a [Uint8Array]. *)
Definition store (arr : list Z) (i b : Z) : list Z :=
  if 0 <=? i then <[Z.to_nat i := JS.ToUint8 b]> arr else arr.

Definition seek (toOffset : Z) (s : t) : t :=
  {| data := data s; pos := toOffset |}.

Definition writeByte (b : Z) (s : t) : t :=
  {| data := store (data s) (pos s) b; pos := pos s + 1 |}.

Definition writeBytes (arr : list Z) (s : t) : t :=
  fold_left (fun s b => writeByte b s) arr s.

Definition writeU8 (b : Z) (s : t) : t := writeByte b s.

Definition writeU16BE (u : Z) (s : t) : t :=
  let s := writeByte (JS.sar u 8) s in
  writeByte u s.

(** A double is held as its IEEE 754 binary64 bit pattern; the bytes of
    the [Float64Array] are written from the last (most significant) to the
    first. *)
Definition writeDoubleBE (bits : Z) (s : t) : t :=
  writeBytes (map (fun k => Z.shiftr bits (8 * k)) [7; 6; 5; 4; 3; 2; 1; 0]) s.

(** The same for the binary32 pattern of the value rounded to single. *)
Definition writeFloatBE (bits : Z) (s : t) : t :=
  writeBytes (map (fun k => Z.shiftr bits (8 * k)) [3; 2; 1; 0]) s.

Definition charCode (c : Ascii.ascii) : Z := Z.of_N (Ascii.N_of_ascii c).

Definition charCodes (str : string) : list Z :=
  map charCode (list_ascii_of_string str).

Definition writeString (str : string) (s : t) : t :=
  fold_left (fun s c => writeByte c s) (charCodes str) s.

Definition writeEBMLVarIntWidth (i width : Z) (s : t) : result t :=
  if width =? 1 then
    ok (writeU8 (JS.bor (JS.shl 1 7) i) s)
  else if width =? 2 then
    let s := writeU8 (JS.bor (JS.shl 1 6) (JS.sar i 8)) s in
    ok (writeU8 i s)
  else if width =? 3 then
    let s := writeU8 (JS.bor (JS.shl 1 5) (JS.sar i 16)) s in
    let s := writeU8 (JS.sar i 8) s in
    ok (writeU8 i s)
  else if width =? 4 then
    let s := writeU8 (JS.bor (JS.shl 1 4) (JS.sar i 24)) s in
    let s := writeU8 (JS.sar i 16) s in
    let s := writeU8 (JS.sar i 8) s in
    ok (writeU8 i s)
  else if width =? 5 then
    (* [i / 4294967296] is a float; [&] truncates it towards zero *)
    let s := writeU8 (JS.bor (JS.shl 1 3) (JS.band (Z.quot i 4294967296) 7)) s in
    let s := writeU8 (JS.sar i 24) s in
    let s := writeU8 (JS.sar i 16) s in
    let s := writeU8 (JS.sar i 8) s in
    ok (writeU8 i s)
  else throw (BadVINTSize width).

Definition measureEBMLVarInt (val : Z) : result Z :=
  if val <? JS.shl 1 7 - 1 then ok 1
  else if val <? JS.shl 1 14 - 1 then ok 2
  else if val <? JS.shl 1 21 - 1 then ok 3
  else if val <? JS.shl 1 28 - 1 then ok 4
  else if val <? 34359738367 then ok 5
  else throw (VINTSizeNotSupported val).

Definition writeEBMLVarInt (i : Z) (s : t) : result t :=
  width ← measureEBMLVarInt i;
  writeEBMLVarIntWidth i width s.

Definition measureUnsignedInt (val : Z) : Z :=
  if val <? JS.shl 1 8 then 1
  else if val <? JS.shl 1 16 then 2
  else if val <? JS.shl 1 24 then 3
  else if val <? 4294967296 then 4
  else 5.

(** [width = None] is the omitted argument.  The cases of the [switch]
    fall through, so width [k] writes the [k] low bytes. *)
Definition writeUnsignedIntBE (u : Z) (width : option Z) (s : t) : result t :=
  let width := default (measureUnsignedInt u) width in
  if (1 <=? width) && (width <=? 5) then
    let s := if 5 <=? width then writeU8 (u / 4294967296) s else s in
    let s := if 4 <=? width then writeU8 (JS.sar u 24) s else s in
    let s := if 3 <=? width then writeU8 (JS.sar u 16) s else s in
    let s := if 2 <=? width then writeU8 (JS.sar u 8) s else s in
    ok (writeU8 u s)
  else throw (BadUINTSize width).

(** [arr.subarray(0, end)]: a negative [end] counts from the end of the
    array, and the result is clamped to the array. *)
Definition subarray0 (arr : list Z) (end_ : Z) : list Z :=
  let len := Z.of_nat (length arr) in
  let e := if end_ <? 0 then Z.max (len + end_) 0 else Z.min end_ len in
  take (Z.to_nat e) arr.

Definition getAsDataArray (s : t) : result (list Z) :=
  if pos s <? byteLength s then ok (subarray0 (data s) (pos s))
  else if pos s =? byteLength s then ok (data s)
  else throw PosBeyondEnd.

End ArrayBufferDataStream.

Module ABDS := ArrayBufferDataStream.


(** ** The EBML element tree

    The values [writeEBML] is applied to: an array of siblings, a string or
    a [Uint8Array] of raw data, or an object with an [id].  The [data] of an
    object is again such a value (an array of children, a string, bytes), a
    number, or a tagged float.  [size], [offset] and [dataOffset] are the
    fields [writeEBML] reads and assigns; [None] is [undefined]. *)

Module EBML.

Unset Elimination Schemes.

Inductive t : Type :=
| Array (items : list t)
| Str (s : string)
| Bytes (b : list Z)                    (* Uint8Array *)
| Number (n : Z)
| Float64 (bits : Z)                    (* EBMLFloat64 *)
| Float32 (bits : Z)                    (* EBMLFloat32 *)
| Element (id : Z) (size : option Z) (data : t) (offset dataOffset : option Z)
| Other.                                (* any other value *)

Set Elimination Schemes.

(** Structural induction, with the hypothesis for every item of an array. *)
Section Induction.

Variable P : t -> Prop.
Hypothesis HArray : forall items, Forall P items -> P (Array items).
Hypothesis HStr : forall s, P (Str s).
Hypothesis HBytes : forall b, P (Bytes b).
Hypothesis HNumber : forall n, P (Number n).
Hypothesis HFloat64 : forall bits, P (Float64 bits).
Hypothesis HFloat32 : forall bits, P (Float32 bits).
Hypothesis HElement :
  forall id size data offset dataOffset,
    P data -> P (Element id size data offset dataOffset).
Hypothesis HOther : P Other.

Fixpoint t_ind (e : t) : P e :=
  match e with
  | Array items =>
      HArray items
        ((fix all (l : list t) : Forall P l :=
            match l with
            | [] => @List.Forall_nil _ P
            | x :: l => @List.Forall_cons _ P x l (t_ind x) (all l)
            end) items)
  | Str s => HStr s
  | Bytes b => HBytes b
  | Number n => HNumber n
  | Float64 bits => HFloat64 bits
  | Float32 bits => HFloat32 bits
  | Element id size data offset dataOffset =>
      HElement id size data offset dataOffset (t_ind data)
  | Other => HOther
  end.

End Induction.

(** An object literal [{id, data}]. *)
Definition elem (id : Z) (data : t) : t := Element id None data None None.

(** An object literal [{id, size, data}]. *)
Definition elemSized (id size : Z) (data : t) : t :=
  Element id (Some size) data None None.

Definition offsetOf (e : t) : option Z :=
  match e with Element _ _ _ o _ => o | _ => None end.

Definition dataOffsetOf (e : t) : option Z :=
  match e with Element _ _ _ _ d => d | _ => None end.

Definition sizeOf (e : t) : option Z :=
  match e with Element _ sz _ _ _ => sz | _ => None end.

(** [!ebml.size] *)
Definition falsy (size : option Z) : bool :=
  match size with None => true | Some n => n =? 0 end.

(** [ebml.size === -1] *)
Definition unbounded (size : option Z) : bool :=
  match size with Some n => n =? -1 | None => false end.

(** [writeEBML(buffer, bufferFileOffset, ebml)].  The function returns the
    stream and the tree with the fields it has assigned. *)
Fixpoint writeEBML (buffer : ABDS.t) (bufferFileOffset : Z) (ebml : t)
  : result (ABDS.t * t) :=
  match ebml with
  | Array items =>
      '(buffer, items) ←
        (fix siblings (buffer : ABDS.t) (l : list t) : result (ABDS.t * list t) :=
           match l with
           | [] => ok (buffer, [])
           | x :: l =>
               '(buffer, x) ← writeEBML buffer bufferFileOffset x;
               '(buffer, l) ← siblings buffer l;
               ok (buffer, x :: l)
           end) buffer items;
      ok (buffer, Array items)
  | Str s => ok (ABDS.writeString s buffer, ebml)
  | Bytes b => ok (ABDS.writeBytes b buffer, ebml)
  | Element id size data _ _ =>
      if id =? 0 then throw BadEBMLDatatype else
      let offset := ABDS.pos buffer + bufferFileOffset in
      buffer ← ABDS.writeUnsignedIntBE id None buffer;
      match data with
      | Array _ =>
          let sizePos := ABDS.pos buffer in
          let buffer :=
            if unbounded size then ABDS.writeByte 255 buffer
            else ABDS.writeBytes [0; 0; 0; 0] buffer in
          let dataBegin := ABDS.pos buffer in
          let dataOffset := dataBegin + bufferFileOffset in
          '(buffer, data) ← writeEBML buffer bufferFileOffset data;
          if unbounded size then
            ok (buffer, Element id size data (Some offset) (Some dataOffset))
          else
            let dataEnd := ABDS.pos buffer in
            let size := dataEnd - dataBegin in
            let buffer := ABDS.seek sizePos buffer in
            buffer ← ABDS.writeEBMLVarIntWidth size 4 buffer;
            let buffer := ABDS.seek dataEnd buffer in
            ok (buffer, Element id (Some size) data (Some offset) (Some dataOffset))
      | Str s =>
          buffer ← ABDS.writeEBMLVarInt (Z.of_nat (String.length s)) buffer;
          let dataOffset := ABDS.pos buffer + bufferFileOffset in
          ok (ABDS.writeString s buffer,
              Element id size data (Some offset) (Some dataOffset))
      | Number n =>
          let size := if falsy size then ABDS.measureUnsignedInt n
                      else default 0 size in
          buffer ← ABDS.writeEBMLVarInt size buffer;
          let dataOffset := ABDS.pos buffer + bufferFileOffset in
          buffer ← ABDS.writeUnsignedIntBE n (Some size) buffer;
          ok (buffer, Element id (Some size) data (Some offset) (Some dataOffset))
      | Float64 bits =>
          buffer ← ABDS.writeEBMLVarInt 8 buffer;
          let dataOffset := ABDS.pos buffer + bufferFileOffset in
          ok (ABDS.writeDoubleBE bits buffer,
              Element id size data (Some offset) (Some dataOffset))
      | Float32 bits =>
          buffer ← ABDS.writeEBMLVarInt 4 buffer;
          let dataOffset := ABDS.pos buffer + bufferFileOffset in
          ok (ABDS.writeFloatBE bits buffer,
              Element id size data (Some offset) (Some dataOffset))
      | Bytes b =>
          buffer ← ABDS.writeEBMLVarInt (Z.of_nat (length b)) buffer;
          let dataOffset := ABDS.pos buffer + bufferFileOffset in
          ok (ABDS.writeBytes b buffer,
              Element id size data (Some offset) (Some dataOffset))
      | _ => throw BadEBMLDatatype
      end
  | _ => throw BadEBMLDatatype
  end.

(** The loop of [writeEBML] over an array of siblings. *)
Definition writeSiblings (bufferFileOffset : Z)
  : ABDS.t -> list t -> result (ABDS.t * list t) :=
  fix siblings (buffer : ABDS.t) (l : list t) : result (ABDS.t * list t) :=
    match l with
    | [] => ok (buffer, [])
    | x :: l =>
        '(buffer, x) ← writeEBML buffer bufferFileOffset x;
        '(buffer, l) ← siblings buffer l;
        ok (buffer, x :: l)
    end.

End EBML.


(** ** The output sink *)

Module BlobBuffer.

(** Modelled from the spec: [BlobBuffer] is imported by the muxer but is not
    among the sources.  The spec gives the sink as append-only at a movable
    cursor, with [write(bytes)] at the current position and [seek(offset)];
    the model keeps the cursor and the log of writes, each with the offset it
    went to. *)
Record t : Type := mk { pos : Z; writes : list (Z * list Z) }.

Definition empty : t := {| pos := 0; writes := [] |}.

Definition write (bytes : list Z) (b : t) : t :=
  {| pos := pos b + Z.of_nat (length bytes);
     writes := writes b ++ [(pos b, bytes)] |}.

Definition seek (offset : Z) (b : t) : t :=
  {| pos := offset; writes := writes b |}.

End BlobBuffer.


(** ** WebMWriter

    The variables captured by the closures of the constructor become the
    fields of a state record.  Times are in milliseconds and are fractions
    ([frame.intime / 1000]), held exactly in [Q]. *)

Module WebMWriter.

Definition MAX_CLUSTER_DURATION_MSEC : Z := 5000.
Definition DEFAULT_TRACK_NUMBER : Z := 1.

(** [Math.round]: the nearest integer, halves towards plus infinity. *)
Definition round (x : Q) : Z := Qfloor (x + (1 # 2))%Q.

Record Options : Type := {
  codec : string;
  width : Z;
  height : Z;
}.

(** A frame of the cluster buffer.  [addFrame] creates it with [frame],
    [intime] and [type]; [addFrameToCluster] assigns [trackNumber] and
    [timecode]. *)
Record Frame : Type := {
  frame : list Z;
  intime : Z;
  type : string;
  trackNumber : Z;
  timecode : Z;
}.

(** The argument of [addFrame]: an [EncodedVideoChunk] (its bytes, its
    timestamp in microseconds and its type), or anything else. *)
Inductive Chunk : Type :=
| EncodedVideoChunk (bytes : list Z) (timestamp : Z) (type : string)
| NotAChunk.

(** The [data] of the three [positionEBML] elements of [seekPoints]. *)
Record SeekPositions : Type := {
  seekCues : Z;
  seekSegmentInfo : Z;
  seekTracks : Z;
}.

Record t : Type := mk {
  options : Options;
  writtenHeader : bool;
  videoWidth : Z;
  videoHeight : Z;
  firstTimestampEver : bool;
  earliestTimestamp : Q;
  clusterFrameBuffer : list Frame;
  clusterStartTime : Q;
  clusterDuration : Z;
  lastTimeCode : Q;
  seekPoints : SeekPositions;
  ebmlSegment : option EBML.t;
  seekHead : option EBML.t;
  cues : list EBML.t;
  blobBuffer : BlobBuffer.t;
}.

(** [new WebMWriter(options)] *)
Definition new (options : Options) : t :=
  {| options := options;
     writtenHeader := false;
     videoWidth := 0;
     videoHeight := 0;
     firstTimestampEver := true;
     earliestTimestamp := 0;
     clusterFrameBuffer := [];
     clusterStartTime := 0;
     clusterDuration := 0;
     lastTimeCode := 0;
     seekPoints := {| seekCues := 0; seekSegmentInfo := 0; seekTracks := 0 |};
     ebmlSegment := None;
     seekHead := None;
     cues := [];
     blobBuffer := BlobBuffer.empty |}.

(** Assignments to the captured variables. *)

Definition set_header (w h : Z) (seg sh : option EBML.t) (sp : SeekPositions)
    (b : BlobBuffer.t) (st : t) : t :=
  mk (options st) true w h (firstTimestampEver st) (earliestTimestamp st)
     (clusterFrameBuffer st) (clusterStartTime st) (clusterDuration st)
     (lastTimeCode st) sp seg sh (cues st) b.

Definition set_video (w h : Z) (st : t) : t :=
  mk (options st) (writtenHeader st) w h (firstTimestampEver st)
     (earliestTimestamp st) (clusterFrameBuffer st) (clusterStartTime st)
     (clusterDuration st) (lastTimeCode st) (seekPoints st) (ebmlSegment st)
     (seekHead st) (cues st) (blobBuffer st).

Definition set_earliest (first : bool) (earliest : Q) (st : t) : t :=
  mk (options st) (writtenHeader st) (videoWidth st) (videoHeight st) first
     earliest (clusterFrameBuffer st) (clusterStartTime st)
     (clusterDuration st) (lastTimeCode st) (seekPoints st) (ebmlSegment st)
     (seekHead st) (cues st) (blobBuffer st).

Definition set_lastTimeCode (time : Q) (st : t) : t :=
  mk (options st) (writtenHeader st) (videoWidth st) (videoHeight st)
     (firstTimestampEver st) (earliestTimestamp st) (clusterFrameBuffer st)
     (clusterStartTime st) (clusterDuration st) time (seekPoints st)
     (ebmlSegment st) (seekHead st) (cues st) (blobBuffer st).

Definition set_clusterStartTime (time : Q) (st : t) : t :=
  mk (options st) (writtenHeader st) (videoWidth st) (videoHeight st)
     (firstTimestampEver st) (earliestTimestamp st) (clusterFrameBuffer st)
     time (clusterDuration st) (lastTimeCode st) (seekPoints st)
     (ebmlSegment st) (seekHead st) (cues st) (blobBuffer st).

Definition set_cluster (buf : list Frame) (duration : Z) (st : t) : t :=
  mk (options st) (writtenHeader st) (videoWidth st) (videoHeight st)
     (firstTimestampEver st) (earliestTimestamp st) buf
     (clusterStartTime st) duration (lastTimeCode st) (seekPoints st)
     (ebmlSegment st) (seekHead st) (cues st) (blobBuffer st).

Definition set_cues (c : list EBML.t) (st : t) : t :=
  mk (options st) (writtenHeader st) (videoWidth st) (videoHeight st)
     (firstTimestampEver st) (earliestTimestamp st) (clusterFrameBuffer st)
     (clusterStartTime st) (clusterDuration st) (lastTimeCode st)
     (seekPoints st) (ebmlSegment st) (seekHead st) c (blobBuffer st).

Definition set_blobBuffer (b : BlobBuffer.t) (st : t) : t :=
  mk (options st) (writtenHeader st) (videoWidth st) (videoHeight st)
     (firstTimestampEver st) (earliestTimestamp st) (clusterFrameBuffer st)
     (clusterStartTime st) (clusterDuration st) (lastTimeCode st)
     (seekPoints st) (ebmlSegment st) (seekHead st) (cues st) b.

(** [fileOffset - ebmlSegment.dataOffset].  Before [writeHeader] has run
    there is no segment and the access throws; a segment without a
    [dataOffset] (which [writeEBML] always assigns) is treated alike. *)
Definition fileOffsetToSegmentRelative (st : t) (fileOffset : Z) : result Z :=
  match ebmlSegment st with
  | Some seg =>
      match EBML.dataOffsetOf seg with
      | Some d => ok (fileOffset - d)
      | None => throw TypeError
      end
  | None => throw TypeError
  end.

Definition seekPositionEBMLTemplate : EBML.t :=
  EBML.elemSized 0x53ac 5 (EBML.Number 0).            (* SeekPosition *)

Definition seekPointIds : list (list Z) :=
  [ [0x1c; 0x53; 0xbb; 0x6b];                          (* Cues *)
    [0x15; 0x49; 0xa9; 0x66];                          (* SegmentInfo *)
    [0x16; 0x54; 0xae; 0x6b] ].                        (* Tracks *)

Definition createSeekHead : EBML.t :=
  EBML.elem 0x114d9b74                                 (* SeekHead *)
    (EBML.Array
       (map (fun id =>
               EBML.elem 0x4dbb                        (* Seek *)
                 (EBML.Array
                    [ EBML.elem 0x53ab (EBML.Bytes id); (* SeekID *)
                      seekPositionEBMLTemplate ]))
            seekPointIds)).

Definition segmentDuration : EBML.t :=
  EBML.elem 0x4489 (EBML.Float64 0).                   (* Duration *)

Definition ebmlHeader : EBML.t :=
  EBML.elem 0x1a45dfa3                                 (* EBML *)
    (EBML.Array
       [ EBML.elem 0x4286 (EBML.Number 1);             (* EBMLVersion *)
         EBML.elem 0x42f7 (EBML.Number 1);             (* EBMLReadVersion *)
         EBML.elem 0x42f2 (EBML.Number 4);             (* EBMLMaxIDLength *)
         EBML.elem 0x42f3 (EBML.Number 8);             (* EBMLMaxSizeLength *)
         EBML.elem 0x4282 (EBML.Str "webm");           (* DocType *)
         EBML.elem 0x4287 (EBML.Number 2);             (* DocTypeVersion *)
         EBML.elem 0x4285 (EBML.Number 2) ]).          (* DocTypeReadVersion *)

Definition segmentInfo : EBML.t :=
  EBML.elem 0x1549a966                                 (* Info *)
    (EBML.Array
       [ EBML.elem 0x2ad7b1 (EBML.Number 1000000);     (* TimecodeScale *)
         EBML.elem 0x4d80 (EBML.Str "webm-writer-js"); (* MuxingApp *)
         EBML.elem 0x5741 (EBML.Str "webm-writer-js"); (* WritingApp *)
         segmentDuration ]).

Definition tracks (st : t) : EBML.t :=
  let videoProperties :=
    [ EBML.elem 0xb0 (EBML.Number (videoWidth st));    (* PixelWidth *)
      EBML.elem 0xba (EBML.Number (videoHeight st)) ]  (* PixelHeight *) in
  EBML.elem 0x1654ae6b                                 (* Tracks *)
    (EBML.Array
       [ EBML.elem 0xae                                (* TrackEntry *)
           (EBML.Array
              [ EBML.elem 0xd7 (EBML.Number DEFAULT_TRACK_NUMBER);   (* TrackNumber *)
                EBML.elem 0x73c5 (EBML.Number DEFAULT_TRACK_NUMBER); (* TrackUID *)
                EBML.elem 0x83 (EBML.Number 1);        (* TrackType *)
                EBML.elem 0xe0 (EBML.Array videoProperties); (* Video *)
                EBML.elem 0x9c (EBML.Number 0);        (* FlagLacing *)
                EBML.elem 0x22b59c (EBML.Str "und");   (* Language *)
                EBML.elem 0xb9 (EBML.Number 1);        (* FlagEnabled *)
                EBML.elem 0x88 (EBML.Number 1);        (* FlagDefault *)
                EBML.elem 0x55aa (EBML.Number 0);      (* FlagForced *)
                EBML.elem 0x86                         (* CodecID *)
                  (EBML.Str (String.append "V_" (codec (options st)))) ]) ]).

(** The [i]th child of a written element. *)
Definition child (i : nat) (e : EBML.t) : option EBML.t :=
  match e with
  | EBML.Element _ _ (EBML.Array l) _ _ => l !! i
  | _ => None
  end.

Definition writeHeader (st : t) : result t :=
  let seekHead := createSeekHead in
  let ebmlSegment :=
    EBML.elemSized 0x18538067 (-1)                     (* Segment *)
      (EBML.Array [seekHead; segmentInfo; tracks st]) in
  let bufferStream := ABDS.new 256 in
  '(bufferStream, written) ←
    EBML.writeEBML bufferStream (BlobBuffer.pos (blobBuffer st))
      (EBML.Array [ebmlHeader; ebmlSegment]);
  bytes ← ABDS.getAsDataArray bufferStream;
  let blob := BlobBuffer.write bytes (blobBuffer st) in
  match written with
  | EBML.Array [_; segment] =>
      match child 0 segment, child 1 segment, child 2 segment with
      | Some seekHead, Some segmentInfo, Some tracks =>
          match EBML.dataOffsetOf segment,
                EBML.offsetOf segmentInfo, EBML.offsetOf tracks with
          | Some d, Some infoOffset, Some tracksOffset =>
              ok (set_header (videoWidth st) (videoHeight st)
                    (Some segment) (Some seekHead)
                    {| seekCues := seekCues (seekPoints st);
                       seekSegmentInfo := infoOffset - d;
                       seekTracks := tracksOffset - d |}
                    blob st)
          | _, _, _ => throw TypeError
          end
      | _, _, _ => throw TypeError
      end
  | _ => throw TypeError
  end.

Definition createSimpleBlockForframe (f : Frame) : result EBML.t :=
  let bufferStream := ABDS.new (1 + 2 + 1) in
  if negb ((0 <? trackNumber f) && (trackNumber f <? 127)) then
    throw BadTrackNumber
  else
    bufferStream ← ABDS.writeEBMLVarInt (trackNumber f) bufferStream;
    let bufferStream := ABDS.writeU16BE (timecode f) bufferStream in
    let bufferStream :=
      ABDS.writeByte (JS.shl (if String.eqb (type f) "key" then 1 else 0) 7)
        bufferStream in
    header ← ABDS.getAsDataArray bufferStream;
    ok (EBML.elem 0xa3 (EBML.Array [EBML.Bytes header; EBML.Bytes (frame f)])).

(** [createCluster(cluster)], with the blocks that the caller pushes onto
    its [data]. *)
Definition createCluster (timecode : Q) (blocks : list EBML.t) : EBML.t :=
  EBML.elem 0x1f43b675
    (EBML.Array (EBML.elem 0xe7 (EBML.Number (round timecode)) :: blocks)).

Definition cuePoint (trackIndex clusterTime position : Z) : EBML.t :=
  EBML.elem 0xbb                                       (* Cue *)
    (EBML.Array
       [ EBML.elem 0xb3 (EBML.Number clusterTime);     (* CueTime *)
         EBML.elem 0xb7                                (* CueTrackPositions *)
           (EBML.Array
              [ EBML.elem 0xf7 (EBML.Number trackIndex);    (* CueTrack *)
                EBML.elem 0xf1 (EBML.Number position) ]) ]). (* CueClusterPosition *)

Definition addCuePoint (trackIndex clusterTime clusterFileOffset : Z) (st : t)
  : result t :=
  position ← fileOffsetToSegmentRelative st clusterFileOffset;
  ok (set_cues (cues st ++ [cuePoint trackIndex clusterTime position]) st).

Definition flushClusterFrameBuffer (st : t) : result t :=
  match clusterFrameBuffer st with
  | [] => ok st
  | _ =>
      let rawImageSize :=
        fold_left (fun n f => n + Z.of_nat (length (frame f)))
          (clusterFrameBuffer st) 0 in
      let buffer :=
        ABDS.new (rawImageSize + Z.of_nat (length (clusterFrameBuffer st)) * 64) in
      blocks ← mapM createSimpleBlockForframe (clusterFrameBuffer st);
      let cluster := createCluster (inject_Z (round (clusterStartTime st))) blocks in
      '(buffer, cluster) ←
        EBML.writeEBML buffer (BlobBuffer.pos (blobBuffer st)) cluster;
      bytes ← ABDS.getAsDataArray buffer;
      let st := set_blobBuffer (BlobBuffer.write bytes (blobBuffer st)) st in
      match EBML.offsetOf cluster with
      | Some offset =>
          st ← addCuePoint DEFAULT_TRACK_NUMBER (round (clusterStartTime st)) offset st;
          ok (set_cluster [] 0 st)
      | None => throw TypeError
      end
  end.

(** The first part of [addFrameToCluster], up to the assignment of
    [clusterDuration]: the frame is stamped and appended. *)
Definition queueFrame (f : Frame) (st : t) : t :=
  let time := (inject_Z (intime f) / 1000)%Q in
  let '(time, st) :=
    if firstTimestampEver st then (0%Q, set_earliest false time st)
    else ((time - earliestTimestamp st)%Q, st) in
  let st := set_lastTimeCode time st in
  let st := if clusterDuration st =? 0 then set_clusterStartTime time st else st in
  let timecode := round (time - clusterStartTime st) in
  let f := {| frame := frame f; intime := intime f; type := type f;
              trackNumber := DEFAULT_TRACK_NUMBER; timecode := timecode |} in
  set_cluster (clusterFrameBuffer st ++ [f]) (timecode + 1) st.

Definition addFrameToCluster (f : Frame) (st : t) : result t :=
  let st := queueFrame f st in
  if MAX_CLUSTER_DURATION_MSEC <=? clusterDuration st then
    flushClusterFrameBuffer st
  else ok st.

Definition addFrame (c : Chunk) (st : t) : result t :=
  st ← (if writtenHeader st then ok st
        else writeHeader (set_video (width (options st)) (height (options st)) st));
  match c with
  | EncodedVideoChunk bytes timestamp type =>
      addFrameToCluster
        {| frame := bytes; intime := timestamp; type := type;
           trackNumber := 0; timecode := 0 |} st
  | NotAChunk => ok st
  end.

(** A sequence of [addFrame] calls. *)
Definition run (chunks : list Chunk) (st : t) : result t :=
  foldl (fun r c => r ≫= addFrame c) (ok st) chunks.

End WebMWriter.


(** ** Numbers of the compositor and of the export loop

    Times and frame counts are fractions, and a division by zero yields an
    infinity or [NaN], which the comparisons and [Math.min]/[Math.max] then
    propagate: the finite values are held exactly in [Q], next to the three
    special values.  (The sign of a zero is not tracked.) *)

Module Num.

Inductive t : Type :=
| Fin (q : Q)
| PInf
| NInf
| NaN.

Definition ofZ (z : Z) : t := Fin (inject_Z z).

Definition ltb (x y : t) : bool :=
  match x, y with
  | NaN, _ | _, NaN => false
  | Fin p, Fin q => negb (Qle_bool q p)
  | Fin _, PInf => true
  | NInf, Fin _ => true
  | NInf, PInf => true
  | _, _ => false
  end.

(** [x <= y] *)
Definition leb (x y : t) : bool :=
  match x, y with
  | NaN, _ | _, NaN => false
  | _, _ => negb (ltb y x)
  end.

Definition sub (x y : t) : t :=
  match x, y with
  | NaN, _ | _, NaN => NaN
  | Fin p, Fin q => Fin (p - q)
  | PInf, PInf | NInf, NInf => NaN
  | PInf, _ | _, NInf => PInf
  | NInf, _ | _, PInf => NInf
  end.

Definition add (x y : t) : t :=
  match x, y with
  | NaN, _ | _, NaN => NaN
  | Fin p, Fin q => Fin (p + q)
  | PInf, NInf | NInf, PInf => NaN
  | PInf, _ | _, PInf => PInf
  | NInf, _ | _, NInf => NInf
  end.

(** The sign of a finite value: [Lt], [Eq] or [Gt] against zero. *)
Definition sign (q : Q) : comparison := (q ?= 0)%Q.

Definition neg (x : t) : t :=
  match x with
  | Fin q => Fin (- q)
  | PInf => NInf
  | NInf => PInf
  | NaN => NaN
  end.

(** An infinity with the sign [s]; [NaN] for a zero. *)
Definition signed (s : comparison) (inf : t) : t :=
  match s with
  | Gt => inf
  | Lt => neg inf
  | Eq => NaN
  end.

Definition mul (x y : t) : t :=
  match x, y with
  | NaN, _ | _, NaN => NaN
  | Fin p, Fin q => Fin (p * q)
  | Fin p, inf | inf, Fin p => signed (sign p) inf
  | PInf, PInf | NInf, NInf => PInf
  | PInf, NInf | NInf, PInf => NInf
  end.

Definition div (x y : t) : t :=
  match x, y with
  | NaN, _ | _, NaN => NaN
  | Fin p, Fin q =>
      match sign q with
      | Eq => signed (sign p) PInf
      | _ => Fin (p / q)
      end
  | Fin _, _ => Fin 0
  | inf, Fin q =>
      match sign q with
      | Lt => neg inf
      | _ => inf
      end
  | _, _ => NaN
  end.

(** [Math.floor] *)
Definition floor (x : t) : t :=
  match x with
  | Fin q => Fin (inject_Z (Qfloor q))
  | _ => x
  end.

(** [Math.max(x, y)] *)
Definition max (x y : t) : t :=
  match x, y with
  | NaN, _ | _, NaN => NaN
  | _, _ => if ltb x y then y else x
  end.

(** [Math.min(x, y)] *)
Definition min (x y : t) : t :=
  match x, y with
  | NaN, _ | _, NaN => NaN
  | _, _ => if ltb y x then y else x
  end.

(** The array index a number denotes, when it is a non-negative integer. *)
Definition index (x : t) : option nat :=
  match x with
  | Fin q =>
      if Qeq_bool q (inject_Z (Qfloor q)) && (0 <=? Qfloor q)
      then Some (Z.to_nat (Qfloor q)) else None
  | _ => None
  end.

End Num.


(** ** The drawing surface

    The part of [CanvasRenderingContext2D] the compositor uses: the current
    transformation matrix and the images drawn.  A matrix [(a, b, c, d, e, f)]
    maps the point [(x, y)] to [(a x + c y + e, b x + d y + f)];
    [transform] and [rotate] multiply the current matrix on the right, as the
    canvas does.  The entries are reals. *)

Module Canvas.

Record DOMMatrix : Type := matrix { ma : R; mb : R; mc : R; md : R; me : R; mf : R }.

Definition multiply (m n : DOMMatrix) : DOMMatrix :=
  {| ma := ma m * ma n + mc m * mb n;
     mb := mb m * ma n + md m * mb n;
     mc := ma m * mc n + mc m * md n;
     md := mb m * mc n + md m * md n;
     me := ma m * me n + mc m * mf n + me m;
     mf := mb m * me n + md m * mf n + mf m |}%R.

(** The image of a point under a matrix. *)
Definition apply (m : DOMMatrix) (p : R * R) : R * R :=
  (ma m * fst p + mc m * snd p + me m, mb m * fst p + md m * snd p + mf m)%R.

Definition scaling (sx sy : R) : DOMMatrix := matrix sx 0 0 sy 0 0.
Definition translation (tx ty : R) : DOMMatrix := matrix 1 0 0 1 tx ty.
Definition rotation (angle : R) : DOMMatrix :=
  matrix (cos angle) (sin angle) (- sin angle) (cos angle) 0 0.

(** An image handle. *)
Definition HTMLImageElement : Type := Z.

(** A [drawImage(image, dx, dy, dw, dh)] call, with the matrix in force. *)
Record DrawImage : Type := {
  image : HTMLImageElement;
  dx : Num.t;
  dy : Num.t;
  dw : Num.t;
  dh : Num.t;
  under : DOMMatrix;
}.

Record t : Type := mk { currentTransform : DOMMatrix; drawn : list DrawImage }.

Definition getTransform (canvas : t) : DOMMatrix := currentTransform canvas.

Definition setTransform (m : DOMMatrix) (canvas : t) : t :=
  {| currentTransform := m; drawn := drawn canvas |}.

Definition transform (a b c d e f : R) (canvas : t) : t :=
  setTransform (multiply (currentTransform canvas) (matrix a b c d e f)) canvas.

Definition rotate (angle : R) (canvas : t) : t :=
  setTransform (multiply (currentTransform canvas) (rotation angle)) canvas.

Definition drawImage (img : HTMLImageElement) (x y w h : Num.t) (canvas : t) : t :=
  {| currentTransform := currentTransform canvas;
     drawn := drawn canvas ++
       [ {| image := img; dx := x; dy := y; dw := w; dh := h;
            under := currentTransform canvas |} ] |}.

End Canvas.

(** ** Clips *)

Module Clip.

Record ClipProperties : Type := {
  renderStart : Num.t;
  renderLength : Num.t;
  posTop : R;
  posLeft : R;
  posWidth : R;
  posHeight : R;
  rotation : R;
}.

(** The optional method [simpleRender(canvas, time, width, height)]. *)
Definition SimpleRender : Type :=
  Canvas.t -> Num.t -> Num.t -> Num.t -> result Canvas.t.

Record t : Type := mk {
  properties : ClipProperties;
  simpleRender : option SimpleRender;
}.

Definition needsRender (clip : t) (time : Num.t) : bool :=
  Num.leb (renderStart (properties clip)) time
  && Num.ltb time
       (Num.add (renderStart (properties clip)) (renderLength (properties clip))).

Definition render (clip : t) (canvas : Canvas.t) (time width height : Num.t)
  : result Canvas.t :=
  match simpleRender clip with
  | Some simpleRender =>
      let oldTransform := Canvas.getTransform canvas in
      let canvas :=
        Canvas.transform
          (posWidth (properties clip)) 0 0 (posHeight (properties clip))
          (posLeft (properties clip)) (posTop (properties clip)) canvas in
      let canvas := Canvas.rotate (rotation (properties clip)) canvas in
      canvas ← simpleRender canvas
                 (Num.sub time (renderStart (properties clip))) width height;
      ok (Canvas.setTransform oldTransform canvas)
  | None => throw ClipCannotBeRendered
  end.

End Clip.

(** [ImageResource]: [asImage] resolves to the decoded image, or rejects
    when the image fails to load. *)
Module ImageResource.

Record t : Type := mk { file : string; asImage : result Canvas.HTMLImageElement }.

End ImageResource.

Module ImageSequenceClip.

Definition clamp (num min max : Num.t) : Num.t :=
  Num.min (Num.max num min) max.

Record t : Type := mk {
  properties : Clip.ClipProperties;
  resources : list ImageResource.t;
  microsecondsPerClip : Num.t;
}.

Definition length_ (c : t) : Num.t := Num.ofZ (Z.of_nat (length (resources c))).

Definition update (c : t) : t :=
  {| properties := properties c;
     resources := resources c;
     microsecondsPerClip :=
       Num.div (Clip.renderLength (properties c)) (length_ c) |}.

(** The constructor: the field initialiser, then [this.update()]. *)
Definition new (properties : Clip.ClipProperties) (resources : list ImageResource.t) : t :=
  update {| properties := properties; resources := resources;
            microsecondsPerClip := Num.ofZ 0 |}.

Definition resourceIndex (c : t) (time : Num.t) : Num.t :=
  clamp (Num.floor (Num.div time (microsecondsPerClip c)))
        (Num.ofZ 0) (Num.sub (length_ c) (Num.ofZ 1)).

Definition simpleRender (c : t) (canvas : Canvas.t) (time width height : Num.t)
  : result Canvas.t :=
  if Num.ltb (length_ c) (Num.ofZ 1) then ok canvas
  else
    match Num.index (resourceIndex c time) ≫= (resources c !!.) with
    | Some resource =>
        img ← ImageResource.asImage resource;
        ok (Canvas.drawImage img (Num.ofZ 0) (Num.ofZ 0) width height canvas)
    | None => throw TypeError   (* [resource] is [undefined] *)
    end.

(** The clip as the compositor sees it. *)
Definition asClip (c : t) : Clip.t :=
  {| Clip.properties := properties c;
     Clip.simpleRender := Some (simpleRender c) |}.

End ImageSequenceClip.

(** ** The export loop *)

Module VideoBackend.

Definition MAX_ENCODER_QUEUE_SIZE : Z := 30.
Definition KEYFRAME_FREQUENCY : Z := 150.

Record RenderOptions : Type := {
  start : Num.t;
  length : Num.t;
  width : Num.t;
  height : Num.t;
  fps : Num.t;
}.

(** A call [encoder.encode(frame, { keyFrame })], with the index of the
    iteration that made it. *)
Record Encode : Type := {
  frameIndex : Z;
  frameCanvas : Canvas.t;
  timestamp : Num.t;
  duration : Num.t;
  keyFrame : bool;
}.

Inductive Outcome : Type :=
| Completed
| Threw (e : exn)
| StillRunning.

Definition totalFrames (options : RenderOptions) : Num.t :=
  Num.mul (fps options) (Num.div (length options) (Num.ofZ 1000000)).

Definition frameLength (options : RenderOptions) : Num.t :=
  Num.div (length options) (totalFrames options).

(** The [for] loop of [renderToWritableStream], from [frameIndex] on, run for
    at most [fuel] iterations; [renderFrame] is the compositor.  The result is
    the [encode] calls made, and how the loop ended.  The wait on the
    encoder's queue between rendering and encoding suspends the loop without
    changing what it submits, and is left out. *)
Fixpoint frameLoop (renderFrame : Num.t -> Num.t -> Num.t -> result Canvas.t)
    (options : RenderOptions) (fuel : nat) (frameIndex : Z)
  : list Encode * Outcome :=
  match fuel with
  | O => ([], StillRunning)
  | S fuel =>
      if Num.ltb (Num.ofZ frameIndex) (totalFrames options) then
        let frameStart :=
          Num.add (start options)
            (Num.mul (Num.ofZ frameIndex) (frameLength options)) in
        match renderFrame frameStart (width options) (height options) with
        | inl e => ([], Threw e)
        | inr frameCanvas =>
            let keyFrame := JS.rem frameIndex KEYFRAME_FREQUENCY =? 0 in
            let call :=
              {| frameIndex := frameIndex; frameCanvas := frameCanvas;
                 timestamp := frameStart; duration := frameLength options;
                 keyFrame := keyFrame |} in
            let '(calls, outcome) :=
              frameLoop renderFrame options fuel (frameIndex + 1) in
            (call :: calls, outcome)
        end
      else ([], Completed)
  end.

Definition renderToWritableStream
    (renderFrame : Num.t -> Num.t -> Num.t -> result Canvas.t)
    (options : RenderOptions) (fuel : nat) : list Encode * Outcome :=
  frameLoop renderFrame options fuel 0.

End VideoBackend.


(** ** Reading the output back

    What the properties below compare the writer with: the decoder of an
    EBML variable-length integer, and the bytes of a buffer at an offset. *)

Module VINT.

(** The width class of a VINT, read off its first byte: one more than the
    number of leading zero bits. *)
Definition width (b0 : Z) : option nat :=
  if 128 <=? b0 then Some 1%nat
  else if 64 <=? b0 then Some 2%nat
  else if 32 <=? b0 then Some 3%nat
  else if 16 <=? b0 then Some 4%nat
  else if 8 <=? b0 then Some 5%nat
  else if 4 <=? b0 then Some 6%nat
  else if 2 <=? b0 then Some 7%nat
  else if 1 <=? b0 then Some 8%nat
  else None.

(** Big-endian accumulation of continuation bytes. *)
Definition accumulate (acc : Z) (bytes : list Z) : Z :=
  fold_left (fun acc b => acc * 256 + b) bytes acc.

(** A conformant decoder: the leading byte's high bits give the width [w];
    the marker bit is cleared, and the remaining bits with the [w - 1]
    continuation bytes give the value.  Returns the value and the bytes that
    follow the VINT. *)
Definition decode (bytes : list Z) : option (Z * list Z) :=
  match bytes with
  | [] => None
  | b0 :: rest =>
      w ← width b0;
      if (length rest <? w - 1)%nat then None
      else Some (accumulate (b0 - 2 ^ (8 - Z.of_nat w)) (take (w - 1) rest),
                 drop (w - 1) rest)
  end.

(** The arguments of the [writeU8] calls that [writeEBMLVarIntWidth(i, width)]
    makes, in order, for a width from 1 to 5. *)
Definition written (i width : Z) : list Z :=
  if width =? 1 then [JS.bor (JS.shl 1 7) i]
  else if width =? 2 then [JS.bor (JS.shl 1 6) (JS.sar i 8); i]
  else if width =? 3 then [JS.bor (JS.shl 1 5) (JS.sar i 16); JS.sar i 8; i]
  else if width =? 4 then
    [JS.bor (JS.shl 1 4) (JS.sar i 24); JS.sar i 16; JS.sar i 8; i]
  else
    [JS.bor (JS.shl 1 3) (JS.band (Z.quot i 4294967296) 7);
     JS.sar i 24; JS.sar i 16; JS.sar i 8; i].

(** The arguments of the [writeU8] calls that [writeUnsignedIntBE(u, width)]
    makes, in order, for a width from 1 to 5. *)
Definition writtenUInt (u width : Z) : list Z :=
  (if 5 <=? width then [u / 4294967296] else []) ++
  (if 4 <=? width then [JS.sar u 24] else []) ++
  (if 3 <=? width then [JS.sar u 16] else []) ++
  (if 2 <=? width then [JS.sar u 8] else []) ++ [u].

(** The largest value of a width class that is not its all-ones pattern. *)
Definition usableMax (w : Z) : Z := 2 ^ (7 * w) - 2.

End VINT.

(** [s'] continues [s]: the cursor has not moved back, the capacity is the
    same, and the bytes before the cursor of [s] are untouched. *)
Definition extends (s s' : ABDS.t) : Prop :=
  ABDS.pos s <= ABDS.pos s' /\
  length (ABDS.data s') = length (ABDS.data s) /\
  forall j : nat, Z.of_nat j < ABDS.pos s -> ABDS.data s' !! j = ABDS.data s !! j.

(** The id of a Cluster element, as its four bytes in the file. *)
Definition clusterId : list Z := [0x1f; 0x43; 0xb6; 0x75].

(** The Cluster elements in the output: the writes that start with the id. *)
Definition clustersWritten (b : BlobBuffer.t) : nat :=
  length (filter (fun w => take 4 w.2 = clusterId) (BlobBuffer.writes b)).

(** Timestamps that never decrease from one chunk to the next. *)
Definition nondecreasing (ts : list Z) : Prop :=
  forall (i : nat) (a b : Z), ts !! i = Some a -> ts !! S i = Some b -> a <= b.

(** An encoded chunk as its bytes, its timestamp and its type. *)
Definition chunk (c : list Z * Z * string) : WebMWriter.Chunk :=
  WebMWriter.EncodedVideoChunk c.1.1 c.1.2 c.2.

(** The muxer has seen chunks, the first stamped [first] and the latest
    [latest]: the header is out, times are counted from the first chunk, the
    open cluster started no later than the latest chunk, and
    [clusterDuration] is 0 exactly when the buffer is empty. *)
Definition tracking (first latest : Z) (st : WebMWriter.t) : Prop :=
  WebMWriter.writtenHeader st = true /\
  WebMWriter.firstTimestampEver st = false /\
  WebMWriter.earliestTimestamp st = (inject_Z first / 1000)%Q /\
  (WebMWriter.lastTimeCode st == inject_Z latest / 1000 - inject_Z first / 1000)%Q /\
  (WebMWriter.clusterStartTime st <= WebMWriter.lastTimeCode st)%Q /\
  (WebMWriter.clusterFrameBuffer st = [] <-> WebMWriter.clusterDuration st = 0).

(** The muxer can flush: once the header is written the segment knows
    where its data starts, and every buffered frame is on the default track. *)
Definition ready (st : WebMWriter.t) : Prop :=
  (WebMWriter.writtenHeader st = true ->
   exists seg dOff, WebMWriter.ebmlSegment st = Some seg /\
                    EBML.dataOffsetOf seg = Some dOff) /\
  Forall (fun f => WebMWriter.trackNumber f = WebMWriter.DEFAULT_TRACK_NUMBER)
         (WebMWriter.clusterFrameBuffer st).

(** The [n] bytes of [arr] from offset [from] on. *)
Definition slice (from : Z) (n : nat) (arr : list Z) : list Z :=
  take n (drop (Z.to_nat from) arr).


(** * The output, as a function of the state

    What follows restates what the writers do without a buffer or a cursor:
    the bytes of a tree, the places of its elements, the state a call leaves.
    The properties relate these to the functions above. *)

(** ** The bits of a number

    [writeDoubleBE] stores a number through a [Float64Array], which holds
    the IEEE 754 binary64 number nearest to it, ties to even.  The
    properties of [complete] hold whatever the encoding is; this one is the
    encoding of a rational. *)

Module IEEE.

Definition float64 (x : Q) : Z :=
  let n := Z.abs (Qnum x) in
  let d := Zpos (Qden x) in
  let sign := if Qnum x <? 0 then 2 ^ 63 else 0 in
  if n =? 0 then 0
  else
    (* 2^e <= n/d < 2^(e+1) *)
    let e0 := Z.log2 n - Z.log2 d in
    let e := if n * 2 ^ Z.max 0 (- e0) <? d * 2 ^ Z.max 0 e0 then e0 - 1 else e0 in
    (* the subnormal numbers share the exponent of the least normal one *)
    let e := Z.max e (-1022) in
    (* the significand: n/d * 2^(52 - e), rounded *)
    let num := n * 2 ^ Z.max 0 (52 - e) in
    let den := d * 2 ^ Z.max 0 (e - 52) in
    let q := num / den in
    let r := num mod den in
    let m :=
      if 2 * r <? den then q
      else if den <? 2 * r then q + 1
      else if Z.even q then q else q + 1 in
    let e := if m =? 2 ^ 53 then e + 1 else e in
    let m := if m =? 2 ^ 53 then 2 ^ 52 else m in
    if 1023 <? e then sign + 0x7ff0000000000000          (* infinity *)
    else if m <? 2 ^ 52 then sign + m                    (* subnormal *)
    else sign + (e + 1023) * 2 ^ 52 + (m - 2 ^ 52).

End IEEE.

(** ** The bytes of an element tree

    What [writeEBML] is compared with: the serialisation of a tree as a
    plain list of bytes, without a buffer, a cursor or a patch. *)

Module Encoding.

(** The id of an element, in the bytes [writeUnsignedIntBE(id)] stores. *)
Definition idBytes (id : Z) : list Z :=
  map JS.ToUint8 (VINT.writtenUInt id (ABDS.measureUnsignedInt id)).

(** The size field of a leaf, in the bytes [writeEBMLVarInt(n)] stores. *)
Definition vint (n : Z) : list Z :=
  match ABDS.measureEBMLVarInt n with
  | inr w => map JS.ToUint8 (VINT.written n w)
  | inl _ => []
  end.

(** The four bytes of the size field of a container. *)
Definition vint4 (n : Z) : list Z := map JS.ToUint8 (VINT.written n 4).

(** The width of a number: the [size] the element brings, or else the
    measured one. *)
Definition numberSize (size : option Z) (n : Z) : Z :=
  if EBML.falsy size then ABDS.measureUnsignedInt n else default 0 size.

Definition floatBytes (bits : Z) (ks : list Z) : list Z :=
  map JS.ToUint8 (map (fun k => Z.shiftr bits (8 * k)) ks).

Fixpoint encode (e : EBML.t) : list Z :=
  match e with
  | EBML.Array items => concat (map encode items)
  | EBML.Str s => map JS.ToUint8 (ABDS.charCodes s)
  | EBML.Bytes b => map JS.ToUint8 b
  | EBML.Element id size data _ _ =>
      match data with
      | EBML.Array items =>
          let payload := concat (map encode items) in
          idBytes id
            ++ (if EBML.unbounded size then [255]
                else vint4 (Z.of_nat (length payload)))
            ++ payload
      | EBML.Str s =>
          idBytes id ++ vint (Z.of_nat (String.length s))
            ++ map JS.ToUint8 (ABDS.charCodes s)
      | EBML.Number n =>
          idBytes id ++ vint (numberSize size n)
            ++ map JS.ToUint8 (VINT.writtenUInt n (numberSize size n))
      | EBML.Float64 bits =>
          idBytes id ++ vint 8 ++ floatBytes bits [7; 6; 5; 4; 3; 2; 1; 0]
      | EBML.Float32 bits =>
          idBytes id ++ vint 4 ++ floatBytes bits [3; 2; 1; 0]
      | EBML.Bytes b =>
          idBytes id ++ vint (Z.of_nat (length b)) ++ map JS.ToUint8 b
      | _ => []
      end
  | _ => []
  end.

(** The trees [writeEBML] accepts. *)
Fixpoint writable (e : EBML.t) : bool :=
  match e with
  | EBML.Array items => forallb writable items
  | EBML.Str _ | EBML.Bytes _ => true
  | EBML.Element id size data _ _ =>
      negb (id =? 0) &&
      match data with
      | EBML.Array items => forallb writable items
      | EBML.Str s => Z.of_nat (String.length s) <? 34359738367
      | EBML.Number n =>
          (1 <=? numberSize size n) && (numberSize size n <=? 5)
      | EBML.Float64 _ | EBML.Float32 _ => true
      | EBML.Bytes b => Z.of_nat (length b) <? 34359738367
      | _ => false
      end
  | _ => false
  end.

(** The payload of an element: the bytes after its size field. *)
Definition payload (e : EBML.t) : list Z :=
  match e with
  | EBML.Element _ size data _ _ =>
      match data with
      | EBML.Array items => concat (map encode items)
      | EBML.Str s => map JS.ToUint8 (ABDS.charCodes s)
      | EBML.Number n => map JS.ToUint8 (VINT.writtenUInt n (numberSize size n))
      | EBML.Float64 bits => floatBytes bits [7; 6; 5; 4; 3; 2; 1; 0]
      | EBML.Float32 bits => floatBytes bits [3; 2; 1; 0]
      | EBML.Bytes b => map JS.ToUint8 b
      | _ => []
      end
  | _ => []
  end.

(** Whether [writeEBML] assigns [ebml.size]: it does for a container of
    determinate size and for a number. *)
Definition sizeAssigned (e : EBML.t) : bool :=
  match e with
  | EBML.Element _ size (EBML.Array _) _ _ => negb (EBML.unbounded size)
  | EBML.Element _ _ (EBML.Number _) _ _ => true
  | _ => false
  end.

(** The size field of an element. *)
Definition sizeField (e : EBML.t) : list Z :=
  match e with
  | EBML.Element _ size (EBML.Array _) _ _ =>
      if EBML.unbounded size then [255]
      else vint4 (Z.of_nat (length (payload e)))
  | _ => vint (Z.of_nat (length (payload e)))
  end.

(** The tree as [writeEBML] leaves it when it writes it at the file
    position [p]: every element with its [offset], its [dataOffset] and,
    where it is assigned, its [size]. *)
Fixpoint placed (p : Z) (e : EBML.t) : EBML.t :=
  match e with
  | EBML.Array items =>
      EBML.Array
        ((fix siblings (p : Z) (l : list EBML.t) : list EBML.t :=
            match l with
            | [] => []
            | x :: l => placed p x :: siblings (p + Z.of_nat (length (encode x))) l
            end) p items)
  | EBML.Element id size data _ _ =>
      let dataOffset :=
        p + Z.of_nat (length (idBytes id)) + Z.of_nat (length (sizeField e)) in
      EBML.Element id
        (if sizeAssigned e then Some (Z.of_nat (length (payload e))) else size)
        (match data with
         | EBML.Array _ => placed dataOffset data
         | _ => data
         end)
        (Some p) (Some dataOffset)
  | _ => e
  end.

Definition placedSiblings : Z -> list EBML.t -> list EBML.t :=
  fix siblings (p : Z) (l : list EBML.t) : list EBML.t :=
    match l with
    | [] => []
    | x :: l => placed p x :: siblings (p + Z.of_nat (length (encode x))) l
    end.

Definition completes {A : Type} (r : result A) : bool :=
  match r with inr _ => true | inl _ => false end.

End Encoding.

(** What a write leaves: a stream that continues the old one, with the
    cursor moved by the length of [bytes], and, when the cursor stayed
    within the array, [bytes] stored from the old cursor on. *)
Definition wrote (s s' : ABDS.t) (bytes : list Z) : Prop :=
  extends s s' /\
  ABDS.pos s' = ABDS.pos s + Z.of_nat (length bytes) /\
  (0 <= ABDS.pos s -> ABDS.pos s' <= ABDS.byteLength s ->
   slice (ABDS.pos s) (length bytes) (ABDS.data s') = bytes).

(** ** Reading elements back *)

Module Reader.

(** An element id: as many bytes as the marker of its first byte says, at
    most four, the marker included. *)
Definition readId (bytes : list Z) : option (Z * list Z) :=
  match bytes with
  | [] => None
  | b0 :: _ =>
      w ← VINT.width b0;
      if (4 <? w)%nat || (length bytes <? w)%nat then None
      else Some (VINT.accumulate 0 (take w bytes), drop w bytes)
  end.

(** An element: its id, its size and as many bytes of payload.  A size
    field that is all ones says that the size is unknown: the payload is
    then all that follows.  Returns the id, the payload and the bytes after
    the element. *)
Definition readElement (bytes : list Z) : option (Z * list Z * list Z) :=
  '(id, rest) ← readId bytes;
  '(size, rest') ← VINT.decode rest;
  let w := Z.of_nat (length rest - length rest') in
  if size =? 2 ^ (7 * w) - 1 then Some (id, rest', [])
  else if Z.of_nat (length rest') <? size then None
  else Some (id, take (Z.to_nat size) rest', drop (Z.to_nat size) rest').

(** A sequence of elements, to the end of the bytes. *)
Fixpoint readElements (fuel : nat) (bytes : list Z) : option (list (Z * list Z)) :=
  match bytes, fuel with
  | [], _ => Some []
  | _, O => None
  | _, S fuel =>
      '(id, payload, rest) ← readElement bytes;
      l ← readElements fuel rest;
      Some ((id, payload) :: l)
  end.

(** An id that carries the marker of its own width. *)
Definition validId (id : Z) : bool :=
  let w := ABDS.measureUnsignedInt id in
  (w <=? 4) && (2 ^ (7 * w) <=? id) && (id <? 2 ^ (7 * w + 1)).

(** An element that has a known size when written: its id is valid, it is
    not declared unbounded, and, for a container, the children take fewer
    than [2^28 - 1] bytes. *)
Definition framed (e : EBML.t) : bool :=
  match e with
  | EBML.Element id size data _ _ =>
      validId id &&
      match data with
      | EBML.Array _ =>
          negb (EBML.unbounded size)
          && (Z.of_nat (length (Encoding.payload e)) <? 2 ^ 28 - 1)
      | _ => true
      end
  | _ => false
  end.

Definition idOf (e : EBML.t) : Z :=
  match e with EBML.Element id _ _ _ _ => id | _ => 0 end.

End Reader.

Definition size (e : EBML.t) : Z := Z.of_nat (length (Encoding.encode e)).

Definition headerTree (st : WebMWriter.t) : EBML.t :=
  EBML.Array [WebMWriter.ebmlHeader;
              EBML.elemSized 0x18538067 (-1)
                (EBML.Array [WebMWriter.createSeekHead; WebMWriter.segmentInfo;
                  WebMWriter.tracks st])].

Definition codecLength (st : WebMWriter.t) : Z :=
  Z.of_nat (String.length (WebMWriter.codec (WebMWriter.options st))).

(** The written segment: the seek head, the segment information and the
    tracks, at their places after the 44 bytes that precede them. *)
Definition placedSegment (off : Z) (st : WebMWriter.t) : EBML.t :=
  EBML.Element 0x18538067 (Some (-1))
    (EBML.Array [Encoding.placed (off + 44) WebMWriter.createSeekHead;
                 Encoding.placed (off + 44 + 71) WebMWriter.segmentInfo;
                 Encoding.placed (off + 44 + 131) (WebMWriter.tracks st)])
    (Some (off + 39)) (Some (off + 44)).

(** ** Finishing the file

    [complete] and the functions it calls.  [firstCueWritten] is the
    variable declared beside [writeCues]; it joins the state of the writer.
    The three [positionEBML] objects of [seekPoints] are nodes of the seek
    head: an assignment to [positionEBML.data] changes the tree that
    [rewriteSeekHead] writes.  The IEEE 754 encoding of a number, which
    [writeDoubleBE] obtains from a [Float64Array], is a parameter. *)

Module Completion.

Import WebMWriter.

Record t : Type := mk { writer : WebMWriter.t; firstCueWritten : bool }.

(** The state in which the constructor leaves a writer. *)
Definition new (options : Options) : t :=
  {| writer := WebMWriter.new options; firstCueWritten := false |}.

Definition addFrame (c : Chunk) (x : t) : result t :=
  st ← WebMWriter.addFrame c (writer x);
  ok {| writer := st; firstCueWritten := firstCueWritten x |}.

(** The calls [addFrame(c)] for the chunks of a list, in order. *)
Definition run (chunks : list Chunk) (x : t) : result t :=
  foldl (fun r c => r ≫= addFrame c) (ok x) chunks.

Definition set_seekCues (p : Z) (st : WebMWriter.t) : WebMWriter.t :=
  WebMWriter.mk (options st) (writtenHeader st) (videoWidth st) (videoHeight st)
    (firstTimestampEver st) (earliestTimestamp st) (clusterFrameBuffer st)
    (clusterStartTime st) (clusterDuration st) (lastTimeCode st)
    {| seekCues := p;
       seekSegmentInfo := seekSegmentInfo (seekPoints st);
       seekTracks := seekTracks (seekPoints st) |}
    (ebmlSegment st) (seekHead st) (cues st) (blobBuffer st).

Definition set_seekHead (sh : EBML.t) (st : WebMWriter.t) : WebMWriter.t :=
  WebMWriter.mk (options st) (writtenHeader st) (videoWidth st) (videoHeight st)
    (firstTimestampEver st) (earliestTimestamp st) (clusterFrameBuffer st)
    (clusterStartTime st) (clusterDuration st) (lastTimeCode st)
    (seekPoints st) (ebmlSegment st) (Some sh) (cues st) (blobBuffer st).

(** The children of a written element. *)
Definition children (e : EBML.t) : list EBML.t :=
  match e with
  | EBML.Element _ _ (EBML.Array l) _ _ => l
  | _ => []
  end.

Definition writeCues (x : t) : result t :=
  if firstCueWritten x then ok x
  else
    let st := writer x in
    let ebml := EBML.elem 0x1c53bb6b (EBML.Array (cues st)) in
    let cuesBuffer := ABDS.new (16 + Z.of_nat (length (cues st)) * 32) in
    '(cuesBuffer, ebml) ←
      EBML.writeEBML cuesBuffer (BlobBuffer.pos (blobBuffer st)) ebml;
    bytes ← ABDS.getAsDataArray cuesBuffer;
    let st := set_blobBuffer (BlobBuffer.write bytes (blobBuffer st)) st in
    match EBML.offsetOf ebml with
    | Some offset =>
        position ← fileOffsetToSegmentRelative st offset;
        ok {| writer := set_seekCues position (set_cues (children ebml) st);
              firstCueWritten := true |}
    | None => throw TypeError
    end.

(** A Seek entry of the seek head, with the [data] of its [positionEBML]. *)
Definition withPosition (position : Z) (seek : EBML.t) : EBML.t :=
  match seek with
  | EBML.Element id size
      (EBML.Array [seekID; EBML.Element pid psize _ poffset pdataOffset])
      offset dataOffset =>
      EBML.Element id size
        (EBML.Array [seekID;
                     EBML.Element pid psize (EBML.Number position) poffset pdataOffset])
        offset dataOffset
  | _ => seek
  end.

(** [seekHead.data], with the positions that [seekPoints] holds. *)
Definition seekHeadData (st : WebMWriter.t) (seekHead : EBML.t) : EBML.t :=
  EBML.Array
    (zip_with withPosition
       [seekCues (seekPoints st); seekSegmentInfo (seekPoints st);
        seekTracks (seekPoints st)]
       (children seekHead)).

Definition withData (data : EBML.t) (e : EBML.t) : EBML.t :=
  match e with
  | EBML.Element id size _ offset dataOffset =>
      EBML.Element id size data offset dataOffset
  | _ => e
  end.

(** A seek head without a [size] or a [dataOffset], which [writeEBML]
    always assigns, is treated as a missing one. *)
Definition rewriteSeekHead (st : WebMWriter.t) : result WebMWriter.t :=
  match seekHead st with
  | Some seekHead =>
      match EBML.sizeOf seekHead, EBML.dataOffsetOf seekHead with
      | Some size, Some dataOffset =>
          let seekHeadBuffer := ABDS.new size in
          let oldPos := BlobBuffer.pos (blobBuffer st) in
          '(seekHeadBuffer, data) ←
            EBML.writeEBML seekHeadBuffer dataOffset (seekHeadData st seekHead);
          let blob := BlobBuffer.seek dataOffset (blobBuffer st) in
          bytes ← ABDS.getAsDataArray seekHeadBuffer;
          let blob := BlobBuffer.write bytes blob in
          let blob := BlobBuffer.seek oldPos blob in
          ok (set_blobBuffer blob (set_seekHead (withData data seekHead) st))
      | _, _ => throw TypeError
      end
  | None => throw TypeError
  end.

(** [segmentDuration] is the fourth child of the segment information, which
    is the second child of the segment. *)
Definition segmentDurationDataOffset (st : WebMWriter.t) : option Z :=
  segment ← ebmlSegment st;
  info ← child 1 segment;
  duration ← child 3 info;
  EBML.dataOffsetOf duration.

Section Float64.

Variable float64 : Q -> Z.

Definition rewriteDuration (st : WebMWriter.t) : result WebMWriter.t :=
  let buffer := ABDS.new 8 in
  let oldPos := BlobBuffer.pos (blobBuffer st) in
  let buffer := ABDS.writeDoubleBE (float64 (lastTimeCode st)) buffer in
  match segmentDurationDataOffset st with
  | Some dataOffset =>
      let blob := BlobBuffer.seek dataOffset (blobBuffer st) in
      bytes ← ABDS.getAsDataArray buffer;
      let blob := BlobBuffer.write bytes blob in
      let blob := BlobBuffer.seek oldPos blob in
      ok (set_blobBuffer blob st)
  | None => throw TypeError
  end.

(** [complete], up to the call of [blobBuffer.complete]. *)
Definition complete (x : t) : result t :=
  st ← (if writtenHeader (writer x) then ok (writer x)
        else writeHeader (writer x));
  let st := set_earliest true (earliestTimestamp st) st in
  st ← flushClusterFrameBuffer st;
  x ← writeCues {| writer := st; firstCueWritten := firstCueWritten x |};
  st ← rewriteSeekHead (writer x);
  st ← rewriteDuration st;
  ok {| writer := st; firstCueWritten := firstCueWritten x |}.

(** The life of a writer: made for [options], given the chunks, completed. *)
Definition session (options : Options) (chunks : list Chunk) : result t :=
  x ← run chunks (new options);
  complete x.

End Float64.

End Completion.

(** The SimpleBlock [createSimpleBlockForframe] makes of a buffered frame. *)
Definition simpleBlock (f : WebMWriter.Frame) : EBML.t :=
  EBML.elem 0xa3
    (EBML.Array
       [ EBML.Bytes
           (map JS.ToUint8
              [ JS.bor (JS.shl 1 7) (WebMWriter.trackNumber f);
                JS.sar (WebMWriter.timecode f) 8;
                WebMWriter.timecode f;
                JS.shl (if String.eqb (WebMWriter.type f) "key" then 1 else 0) 7 ]);
         EBML.Bytes (WebMWriter.frame f) ]).

(** The Cluster that a flush writes. *)
Definition clusterOf (st : WebMWriter.t) : EBML.t :=
  WebMWriter.createCluster
    (inject_Z (WebMWriter.round (WebMWriter.clusterStartTime st)))
    (map simpleBlock (WebMWriter.clusterFrameBuffer st)).

(** The state a flush of a non-empty buffer leaves, for a segment whose data
    starts at [d]. *)
Definition flushed (d : Z) (st : WebMWriter.t) : WebMWriter.t :=
  WebMWriter.set_cluster [] 0
    (WebMWriter.set_cues
       (WebMWriter.cues st ++
          [WebMWriter.cuePoint WebMWriter.DEFAULT_TRACK_NUMBER
             (WebMWriter.round (WebMWriter.clusterStartTime st))
             (BlobBuffer.pos (WebMWriter.blobBuffer st) - d)])
       (WebMWriter.set_blobBuffer
          (BlobBuffer.write (Encoding.encode (clusterOf st)) (WebMWriter.blobBuffer st))
          st)).

Definition onDefaultTrack (frames : list WebMWriter.Frame) : Prop :=
  Forall (fun f => WebMWriter.trackNumber f = WebMWriter.DEFAULT_TRACK_NUMBER) frames.

Definition overwrite (file : list Z) (offset : Z) (bytes : list Z) : list Z :=
  take (Z.to_nat offset) (file ++ replicate (Z.to_nat offset - length file) 0)
    ++ bytes ++ drop (Z.to_nat offset + length bytes) file.

Definition fileOf (b : BlobBuffer.t) : list Z :=
  foldl (fun file w => overwrite file w.1 w.2) [] (BlobBuffer.writes b).

Definition isCue (e : EBML.t) : Prop :=
  exists time position,
    e = WebMWriter.cuePoint WebMWriter.DEFAULT_TRACK_NUMBER time position.

(** The header for a video of [w] by [h] pixels fits the 256 bytes of its
    buffer. *)
Definition fits (w h : Z) (options : WebMWriter.Options) : Prop :=
  ABDS.measureUnsignedInt w + ABDS.measureUnsignedInt h
    + Z.of_nat (String.length (WebMWriter.codec options)) <= 25.

(** A writer made for [options] that has written its header at the start of
    the file: what the header left in the state, and a file that is the
    header followed by what was appended since. *)
Record muxing (options : WebMWriter.Options) (st : WebMWriter.t) : Prop := {
  mux_options : WebMWriter.options st = options;
  mux_header : WebMWriter.writtenHeader st = true;
  mux_segment : WebMWriter.ebmlSegment st = Some (placedSegment 0 st);
  mux_seekHead :
    WebMWriter.seekHead st = Some (Encoding.placed 44 WebMWriter.createSeekHead);
  mux_seekPoints :
    WebMWriter.seekPoints st =
      {| WebMWriter.seekCues := 0; WebMWriter.seekSegmentInfo := 71;
         WebMWriter.seekTracks := 131 |};
  mux_frames : onDefaultTrack (WebMWriter.clusterFrameBuffer st);
  mux_cues : Forall isCue (WebMWriter.cues st);
  mux_file :
    exists clusters,
      fileOf (WebMWriter.blobBuffer st) = Encoding.encode (headerTree st) ++ clusters;
  mux_pos :
    BlobBuffer.pos (WebMWriter.blobBuffer st)
      = Z.of_nat (length (fileOf (WebMWriter.blobBuffer st)));
}.

(** The state after [addFrame], on a writer whose header is written. *)
Definition afterFrame (c : WebMWriter.Chunk) (st : WebMWriter.t) : WebMWriter.t :=
  match c with
  | WebMWriter.EncodedVideoChunk bytes timestamp type =>
      let queued :=
        WebMWriter.queueFrame
          {| WebMWriter.frame := bytes; WebMWriter.intime := timestamp;
             WebMWriter.type := type; WebMWriter.trackNumber := 0;
             WebMWriter.timecode := 0 |} st in
      if WebMWriter.MAX_CLUSTER_DURATION_MSEC <=? WebMWriter.clusterDuration queued
      then flushed 44 queued else queued
  | WebMWriter.NotAChunk => st
  end.

(** The state after the header is written, on a new writer. *)
Definition afterHeader (w h : Z) (options : WebMWriter.Options) : WebMWriter.t :=
  let st := WebMWriter.set_video w h (WebMWriter.new options) in
  WebMWriter.set_header w h
    (Some (placedSegment 0 st))
    (Some (Encoding.placed 44 WebMWriter.createSeekHead))
    {| WebMWriter.seekCues := 0; WebMWriter.seekSegmentInfo := 71;
       WebMWriter.seekTracks := 131 |}
    (BlobBuffer.write (Encoding.encode (headerTree st)) BlobBuffer.empty) st.

(** The fields no frame changes. *)
Definition static (st st' : WebMWriter.t) : Prop :=
  WebMWriter.options st' = WebMWriter.options st /\
  WebMWriter.videoWidth st' = WebMWriter.videoWidth st /\
  WebMWriter.videoHeight st' = WebMWriter.videoHeight st /\
  WebMWriter.writtenHeader st' = WebMWriter.writtenHeader st /\
  WebMWriter.ebmlSegment st' = WebMWriter.ebmlSegment st /\
  WebMWriter.seekHead st' = WebMWriter.seekHead st /\
  WebMWriter.seekPoints st' = WebMWriter.seekPoints st.

(** The Cues element that [writeCues] writes. *)
Definition cuesElement (st : WebMWriter.t) : EBML.t :=
  EBML.elem 0x1c53bb6b (EBML.Array (WebMWriter.cues st)).

(** The children of the seek head as [rewriteSeekHead] writes them. *)
Definition seekEntries (cues info tracks : Z) : EBML.t :=
  EBML.Array
    (zip_with Completion.withPosition [cues; info; tracks]
       (Completion.children (Encoding.placed 44 WebMWriter.createSeekHead))).

(** The writer after the flush that [complete] starts with. *)
Definition drained (st : WebMWriter.t) : WebMWriter.t :=
  let st :=
    WebMWriter.set_earliest true (WebMWriter.earliestTimestamp st) st in
  match WebMWriter.clusterFrameBuffer st with
  | [] => st
  | _ => flushed 44 st
  end.

(** The writer after [writeCues], for the first time, on a drained one. *)
Definition indexed (st : WebMWriter.t) : WebMWriter.t :=
  let P := BlobBuffer.pos (WebMWriter.blobBuffer st) in
  Completion.set_seekCues (P - 44)
    (WebMWriter.set_cues
       (Completion.children (Encoding.placed P (cuesElement st)))
       (WebMWriter.set_blobBuffer
          (BlobBuffer.write (Encoding.encode (cuesElement st))
             (WebMWriter.blobBuffer st)) st)).

(** The writer after [rewriteSeekHead] and [rewriteDuration]. *)
Definition patched (duration : list Z) (st : WebMWriter.t) : WebMWriter.t :=
  let c := WebMWriter.seekCues (WebMWriter.seekPoints st) in
  let i := WebMWriter.seekSegmentInfo (WebMWriter.seekPoints st) in
  let t := WebMWriter.seekTracks (WebMWriter.seekPoints st) in
  let P := BlobBuffer.pos (WebMWriter.blobBuffer st) in
  let blob :=
    BlobBuffer.seek P
      (BlobBuffer.write (Encoding.encode (seekEntries c i t))
         (BlobBuffer.seek 52 (WebMWriter.blobBuffer st))) in
  let blob := BlobBuffer.seek P (BlobBuffer.write duration (BlobBuffer.seek 167 blob)) in
  WebMWriter.set_blobBuffer blob
    (Completion.set_seekHead
       (Completion.withData (Encoding.placed 52 (seekEntries c i t))
          (Encoding.placed 44 WebMWriter.createSeekHead))
       st).

(** The bytes of the Duration that [rewriteDuration] writes. *)
Definition durationBytes (float64 : Q -> Z) (st : WebMWriter.t) : list Z :=
  Encoding.floatBytes (float64 (WebMWriter.lastTimeCode st)) [7; 6; 5; 4; 3; 2; 1; 0].

(** The 52 bytes of the file before the payload of the seek head: the EBML
    header, the head of the segment and the head of the seek head. *)
Definition beforeSeekHead : list Z :=
  Encoding.encode WebMWriter.ebmlHeader
    ++ Encoding.idBytes 0x18538067 ++ [255]
    ++ Encoding.idBytes 0x114d9b74 ++ Encoding.vint4 63.

(** The 52 bytes between the seek head and the payload of the Duration. *)
Definition beforeDuration : list Z := take 52 (Encoding.encode WebMWriter.segmentInfo).

(** The payload of the SimpleBlock of a buffered frame: the track number,
    the timecode, the flags and the frame itself. *)
Definition blockBytes (f : WebMWriter.Frame) : list Z :=
  map JS.ToUint8
    [ JS.bor (JS.shl 1 7) (WebMWriter.trackNumber f);
      JS.sar (WebMWriter.timecode f) 8;
      WebMWriter.timecode f;
      JS.shl (if String.eqb (WebMWriter.type f) "key" then 1 else 0) 7 ]
    ++ map JS.ToUint8 (WebMWriter.frame f).

(** The bytes of the Timecode of the Cluster that a flush writes. *)
Definition clusterTimecodeBytes (st : WebMWriter.t) : list Z :=
  let t := WebMWriter.round (inject_Z (WebMWriter.round (WebMWriter.clusterStartTime st))) in
  map JS.ToUint8 (VINT.writtenUInt t (ABDS.measureUnsignedInt t)).

(** One entry of a seek head: the id it names, and the position it gives. *)
Definition readSeekEntry (payload : list Z) : option (Z * Z) :=
  l ← Reader.readElements (length payload) payload;
  match l with
  | [(i, idBytes); (p, position)] =>
      if (i =? 0x53ab) && (p =? 0x53ac)
      then Some (VINT.accumulate 0 idBytes, VINT.accumulate 0 position)
      else None
  | _ => None
  end.

(** The entries of the payload of a seek head. *)
Definition readSeekHead (payload : list Z) : option (list (Z * Z)) :=
  l ← Reader.readElements (length payload) payload;
  mapM (fun e : Z * list Z => if e.1 =? 0x4dbb then readSeekEntry e.2 else None) l.

(** The writer that [complete] leaves. *)
Definition finished (float64 : Q -> Z) (st : WebMWriter.t) : WebMWriter.t :=
  patched (durationBytes float64 st) (indexed (drained st)).

(** The seek head after [rewriteSeekHead] wrote the position [cues]. *)
Definition rewrittenSeekHead (cues : Z) : EBML.t :=
  Completion.withData (Encoding.placed 52 (seekEntries cues 71 131))
    (Encoding.placed 44 WebMWriter.createSeekHead).

(** A writer for a video of 640 by 480, and two chunks a thirtieth of a
    second apart. *)
Definition sampleOptions : WebMWriter.Options :=
  {| WebMWriter.codec := "VP8"; WebMWriter.width := 640; WebMWriter.height := 480 |}.

Definition sampleChunks : list WebMWriter.Chunk :=
  [ WebMWriter.EncodedVideoChunk [1; 2; 3] 0 "key";
    WebMWriter.EncodedVideoChunk [4; 5] 33333 "delta" ].

(** The writer after the first of them. *)
Definition sampleQueued : WebMWriter.t :=
  afterFrame (WebMWriter.EncodedVideoChunk [1; 2; 3] 0 "key")
    (afterHeader 640 480 sampleOptions).

(** ** The lists of the backend

    The methods of [Array.prototype] that [VideoBackend] and [App] call,
    with an array as the list of its elements. *)

Module JSArray.

Section Methods.

Context {A : Type}.

(** [arr.find(p)]: the first element that satisfies [p]. *)
Fixpoint find (p : A -> bool) (arr : list A) : option A :=
  match arr with
  | [] => None
  | x :: arr => if p x then Some x else find p arr
  end.

(** [arr.findIndex(p)]: the index of the first element that satisfies [p],
    and [-1] when there is none. *)
Fixpoint findIndexFrom (p : A -> bool) (i : Z) (arr : list A) : Z :=
  match arr with
  | [] => -1
  | x :: arr => if p x then i else findIndexFrom p (i + 1) arr
  end.

Definition findIndex (p : A -> bool) (arr : list A) : Z := findIndexFrom p 0 arr.

(** [arr.splice(start, deleteCount)], the array it leaves: a negative
    [start] counts from the end, and no more is deleted than there is. *)
Definition splice (start deleteCount : Z) (arr : list A) : list A :=
  let len := Z.of_nat (length arr) in
  let actualStart := if start <? 0 then Z.max (len + start) 0 else Z.min start len in
  let actualDeleteCount := Z.min (Z.max deleteCount 0) (len - actualStart) in
  take (Z.to_nat actualStart) arr
    ++ drop (Z.to_nat (actualStart + actualDeleteCount)) arr.

(** [arr.filter(p)] *)
Fixpoint filter (p : A -> bool) (arr : list A) : list A :=
  match arr with
  | [] => []
  | x :: arr => if p x then x :: filter p arr else filter p arr
  end.

End Methods.

End JSArray.

(** The items of the two lists of [VideoBackend], each with the [id] its
    constructor drew.  [clipFromId] and [removeClipById] are
    [resourceFromId] and [removeResourceById] on the clips, word for word:
    the four are written once, for the items of either list.  An id is a
    number, and [===] on two numbers is their equality. *)

Module Items.

Section ById.

Variable Item : Type.
Variable id : Item -> Q.

Definition hasId (x : Q) (item : Item) : bool := Qeq_bool (id item) x.

(** [resourceFromId(id)], [clipFromId(id)] *)
Definition fromId (x : Q) (items : list Item) : option Item :=
  JSArray.find (hasId x) items.

(** [removeResourceById(id)], [removeClipById(id)]: the list they leave. *)
Definition removeById (x : Q) (items : list Item) : list Item :=
  JSArray.splice (JSArray.findIndex (hasId x) items) 1 items.

(** The ids of a list are pairwise different. *)
Definition distinctIds (items : list Item) : Prop :=
  forall i j a b, items !! i = Some a -> items !! j = Some b ->
                  (id a == id b)%Q -> i = j.

End ById.

End Items.

(** ** The list of resources of the application

    [App] keeps the ids of the resources in its state, beside the resources
    of the backend.  [ResourcesList] shows the resources of these ids that
    the backend still has, each with a button that calls [removeResource]
    with the index of the entry. *)

Module App.

Section Resources.

Variable Resource : Type.
Variable id : Resource -> Q.

Record t : Type := mk {
  backendResources : list Resource;
  resources : list Q;
}.

Definition removeResource (x : Q) (app : t) : t :=
  {| resources := JSArray.filter (fun resource => negb (Qeq_bool resource x))
                    (resources app);
     backendResources := Items.removeById Resource id x (backendResources app) |}.

(** The resources that [ResourcesList] shows. *)
Definition shown (app : t) : list Resource :=
  omap (fun resourceId => Items.fromId Resource id resourceId (backendResources app))
    (resources app).

(** The [onClick] of the button of the entry at index [i]. *)
Definition deleteButton (i : nat) (app : t) : t :=
  removeResource (inject_Z (Z.of_nat i)) app.

End Resources.

End App.

(** What [Math.random] answers, and so every id: a number from 0, included,
    to 1, excluded. *)
Definition random (q : Q) : Prop := (0 <= q)%Q /\ (q < 1)%Q.

(** Three resources with the ids their constructors drew, in an application
    whose state agrees with the backend. *)
Definition sampleApp : App.t (Q * string) :=
  {| App.backendResources := [((1 # 4)%Q, "a.png"%string); ((5 # 8)%Q, "b.png"%string); ((7 # 8)%Q, "c.png"%string)];
     App.resources := [(1 # 4)%Q; (5 # 8)%Q; (7 # 8)%Q] |}.

(** ** The image clip *)

Module ImageClip.

Record t : Type := mk {
  properties : Clip.ClipProperties;
  resource : ImageResource.t;
}.

Definition simpleRender (c : t) (canvas : Canvas.t) (_time width height : Num.t)
  : result Canvas.t :=
  img ← ImageResource.asImage (resource c);
  ok (Canvas.drawImage img (Num.ofZ 0) (Num.ofZ 0) width height canvas).

(** The clip as the compositor sees it. *)
Definition asClip (c : t) : Clip.t :=
  {| Clip.properties := properties c;
     Clip.simpleRender := Some (simpleRender c) |}.

End ImageClip.

(** ** The frame

    [renderFrame] calls an [async] function on every clip, one after the
    other, and awaits them all.  Each call runs up to its first [await]: for
    a clip that needs rendering, the one in [simpleRender], on the image,
    which [render] reaches after it has multiplied the matrix of the clip
    onto that of the canvas.  What remains of a call runs later, in two
    parts: the drawing, when the image is there, and after it the end of
    [render], which puts back the matrix it saved.  The parts of different
    calls run in the order in which what they await arrives: a schedule names
    the call that goes on next.

    The clips are those of the two classes of the repository.  The canvas is
    taken to have a rendering context. *)

Module RenderFrame.

Inductive AnyClip : Type :=
| Image (c : ImageClip.t)
| Sequence (c : ImageSequenceClip.t).

Definition asClip (clip : AnyClip) : Clip.t :=
  match clip with
  | Image c => ImageClip.asClip c
  | Sequence c => ImageSequenceClip.asClip c
  end.

(** How far [simpleRender] runs when it is called: to its end, to the
    [await] of an image that it will draw, or to an exception. *)
Inductive Await : Type :=
| Return
| AwaitImage (resource : ImageResource.t) (width height : Num.t)
| Throw (e : exn).

Definition simpleRender (clip : AnyClip) (time width height : Num.t) : Await :=
  match clip with
  | Image c => AwaitImage (ImageClip.resource c) width height
  | Sequence c =>
      if Num.ltb (ImageSequenceClip.length_ c) (Num.ofZ 1) then Return
      else
        match Num.index (ImageSequenceClip.resourceIndex c time)
                ≫= (ImageSequenceClip.resources c !!.) with
        | Some resource => AwaitImage resource width height
        | None => Throw TypeError   (* [resource] is [undefined] *)
        end
  end.

(** The rest of [simpleRender]. *)
Definition resume (a : Await) (canvas : Canvas.t) : result Canvas.t :=
  match a with
  | Return => ok canvas
  | AwaitImage resource width height =>
      img ← ImageResource.asImage resource;
      ok (Canvas.drawImage img (Num.ofZ 0) (Num.ofZ 0) width height canvas)
  | Throw e => throw e
  end.

(** A call of the function that [renderFrame] maps over the clips: it has
    returned, or it waits in [simpleRender] for an image, or it waits in
    [render] for [simpleRender], with the matrix that [render] saved, or it
    has thrown. *)
Inductive Task : Type :=
| Fulfilled
| InSimpleRender (resource : ImageResource.t) (width height : Num.t)
    (oldTransform : Canvas.DOMMatrix)
| InRender (oldTransform : Canvas.DOMMatrix)
| Rejected (e : exn).

(** The canvas, the calls in the order of the clips, and the exception of
    the first call that threw, with which [Promise.all] rejects. *)
Record t : Type := mk {
  canvas : Canvas.t;
  tasks : list Task;
  rejection : option exn;
}.

Definition reject (e : exn) (rejection : option exn) : option exn :=
  match rejection with
  | Some first => Some first
  | None => Some e
  end.

(** [document.createElement("canvas")]: the matrix is the identity. *)
Definition createCanvas : Canvas.t := Canvas.mk (Canvas.matrix 1 0 0 1 0 0) [].

(** [canvas.transform(...)] and [canvas.rotate(...)] as [render] calls them. *)
Definition place (p : Clip.ClipProperties) (canvas : Canvas.t) : Canvas.t :=
  Canvas.rotate (Clip.rotation p)
    (Canvas.transform (Clip.posWidth p) 0 0 (Clip.posHeight p)
       (Clip.posLeft p) (Clip.posTop p) canvas).

(** The call on one clip, up to its first [await]. *)
Definition call (time width height : Num.t) (st : t) (clip : AnyClip) : t :=
  if Clip.needsRender (asClip clip) time then
    let p := Clip.properties (asClip clip) in
    let oldTransform := Canvas.getTransform (canvas st) in
    let canvas := place p (canvas st) in
    match simpleRender clip (Num.sub time (Clip.renderStart p)) width height with
    | Return =>
        {| canvas := canvas; tasks := tasks st ++ [InRender oldTransform];
           rejection := rejection st |}
    | AwaitImage resource width height =>
        {| canvas := canvas;
           tasks := tasks st ++ [InSimpleRender resource width height oldTransform];
           rejection := rejection st |}
    | Throw e =>
        {| canvas := canvas; tasks := tasks st ++ [Rejected e];
           rejection := reject e (rejection st) |}
    end
  else
    {| canvas := canvas st; tasks := tasks st ++ [Fulfilled];
       rejection := rejection st |}.

(** [this.clips.map(async (clip) => ...)] on a new canvas. *)
Definition start (clips : list AnyClip) (time width height : Num.t) : t :=
  foldl (call time width height)
    {| canvas := createCanvas; tasks := []; rejection := None |} clips.

(** The call at index [k] goes on, to its next [await] or to its end. *)
Definition step (k : nat) (st : t) : t :=
  match tasks st !! k with
  | Some (InSimpleRender resource width height oldTransform) =>
      match ImageResource.asImage resource with
      | inr img =>
          {| canvas := Canvas.drawImage img (Num.ofZ 0) (Num.ofZ 0) width height
                         (canvas st);
             tasks := <[k := InRender oldTransform]> (tasks st);
             rejection := rejection st |}
      | inl e =>
          {| canvas := canvas st;
             tasks := <[k := Rejected e]> (tasks st);
             rejection := reject e (rejection st) |}
      end
  | Some (InRender oldTransform) =>
      {| canvas := Canvas.setTransform oldTransform (canvas st);
         tasks := <[k := Fulfilled]> (tasks st);
         rejection := rejection st |}
  | _ => st
  end.

Definition run (schedule : list nat) (st : t) : t :=
  foldl (fun st k => step k st) st schedule.

Definition isFulfilled (task : Task) : bool :=
  match task with
  | Fulfilled => true
  | _ => false
  end.

(** What [await Promise.all(...)] has come to: nothing yet, an exception, or
    the end of all the calls, after which [renderFrame] returns the canvas. *)
Definition settled (st : t) : option (result Canvas.t) :=
  match rejection st with
  | Some e => Some (throw e)
  | None => if forallb isFulfilled (tasks st) then Some (ok (canvas st)) else None
  end.

Definition renderFrame (schedule : list nat) (clips : list AnyClip)
    (time width height : Num.t) : option (result Canvas.t) :=
  settled (run schedule (start clips time width height)).

(** What a call leaves of a canvas when it runs to its end with no other
    call in between. *)
Definition finish (task : Task) (canvas : Canvas.t) : result Canvas.t :=
  match task with
  | Fulfilled => ok canvas
  | InSimpleRender resource width height oldTransform =>
      img ← ImageResource.asImage resource;
      ok (Canvas.setTransform oldTransform
            (Canvas.drawImage img (Num.ofZ 0) (Num.ofZ 0) width height canvas))
  | InRender oldTransform => ok (Canvas.setTransform oldTransform canvas)
  | Rejected e => throw e
  end.

(** One call among calls that have returned, with the outcome it runs to. *)
Definition single (n1 n2 : nat) (outcome : result Canvas.t) (st : t) : Prop :=
  exists task,
    tasks st = replicate n1 Fulfilled ++ task :: replicate n2 Fulfilled /\
    finish task (canvas st) = outcome /\
    rejection st = match task with Rejected e => Some e | _ => None end.

(** Two calls that wait for their images, on a canvas with the matrix
    [both]; the first saved the matrix [m0], the second [m1]. *)
Definition twoCalls (file1 file2 : string) (img1 img2 : Canvas.HTMLImageElement)
    (width height : Num.t) (m0 m1 both : Canvas.DOMMatrix) : t :=
  {| canvas := Canvas.mk both [];
     tasks := [InSimpleRender (ImageResource.mk file1 (ok img1)) width height m0;
               InSimpleRender (ImageResource.mk file2 (ok img2)) width height m1];
     rejection := None |}.

(** The orders in which the parts of two calls can run, and their
    beginnings. *)
Definition interleavings : list (list nat) :=
  [ []; [0]; [1]; [0; 0]; [0; 1]; [1; 0]; [1; 1];
    [0; 0; 1]; [0; 1; 0]; [0; 1; 1]; [1; 0; 0]; [1; 0; 1]; [1; 1; 0];
    [0; 0; 1; 1]; [0; 1; 0; 1]; [0; 1; 1; 0];
    [1; 0; 0; 1]; [1; 0; 1; 0]; [1; 1; 0; 0] ]%nat.

End RenderFrame.

(** The clip that [render] of [App] gives the backend: all the resources,
    each for [1 / fps] seconds, over the whole frame, turned by half a
    turn. *)
Definition exportClip (fps : Num.t) (resources : list ImageResource.t)
  : ImageSequenceClip.t :=
  ImageSequenceClip.new
    {| Clip.posHeight := 1; Clip.posLeft := 0; Clip.posTop := 0; Clip.posWidth := 1;
       Clip.renderLength :=
         Num.mul (Num.div (Num.ofZ (Z.of_nat (length resources))) fps)
           (Num.ofZ 1000000);
       Clip.renderStart := Num.ofZ 0;
       Clip.rotation := PI |}
    resources.

(** The options with which [renderToWritableStream] makes its writer. *)
Definition exportWriter (width height : Z) : WebMWriter.Options :=
  {| WebMWriter.codec := "VP9"; WebMWriter.width := width;
     WebMWriter.height := height |}.

(** Two clips over the left and the right half of the frame, and their
    images. *)
Definition sampleLeft : RenderFrame.AnyClip :=
  RenderFrame.Image
    (ImageClip.mk
       {| Clip.renderStart := Num.ofZ 0; Clip.renderLength := Num.ofZ 1000000;
          Clip.posTop := 0; Clip.posLeft := 0; Clip.posWidth := 1 / 2;
          Clip.posHeight := 1; Clip.rotation := 0 |}
       (ImageResource.mk "left.png" (ok 1))).

Definition sampleRight : RenderFrame.AnyClip :=
  RenderFrame.Image
    (ImageClip.mk
       {| Clip.renderStart := Num.ofZ 0; Clip.renderLength := Num.ofZ 1000000;
          Clip.posTop := 0; Clip.posLeft := 800; Clip.posWidth := 1 / 2;
          Clip.posHeight := 1; Clip.rotation := 0 |}
       (ImageResource.mk "right.png" (ok 2))).


(** * Properties *)

Import ArrayBufferDataStream.

(** Inversion of a successful bind. *)
Tactic Notation "bind_ok" hyp(H) "as" ident(E) :=
  match type of H with
  | (?m ≫= _) = ok _ =>
      destruct m as [?|?] eqn:E; [discriminate H|]; cbn [mbind result_bind] in H
  end.

(** ** The 32-bit and 8-bit conversions *)

Section Conversions.

Lemma ToInt32_small (x : Z) : - 2 ^ 31 <= x < 2 ^ 31 -> JS.ToInt32 x = x.
Proof. unfold JS.ToInt32. intros H. rewrite Z.mod_small; lia. Qed.

Lemma ToUint8_range (x : Z) : 0 <= JS.ToUint8 x < 256.
Proof. unfold JS.ToUint8. apply Z.mod_pos_bound. lia. Qed.

Lemma ToUint8_small (x : Z) : 0 <= x < 256 -> JS.ToUint8 x = x.
Proof. unfold JS.ToUint8. intros H. apply Z.mod_small. lia. Qed.

(** A store of [x >> n] keeps bits [n] to [n + 7] of [x], whatever the
    magnitude of [x]. *)
Lemma ToUint8_sar_8 (x : Z) : JS.ToUint8 (JS.sar x 8) = (x / 2 ^ 8) mod 2 ^ 8.
Proof.
  unfold JS.ToUint8, JS.sar, JS.ToInt32.
  change (8 mod 32) with 8. rewrite Z.shiftr_div_pow2 by lia.
  change (2 ^ 31) with 2147483648. change (2 ^ 32) with 4294967296.
  change (2 ^ 8) with 256.
  Z.div_mod_to_equations. lia.
Qed.

Lemma ToUint8_sar_16 (x : Z) : JS.ToUint8 (JS.sar x 16) = (x / 2 ^ 16) mod 2 ^ 8.
Proof.
  unfold JS.ToUint8, JS.sar, JS.ToInt32.
  change (16 mod 32) with 16. rewrite Z.shiftr_div_pow2 by lia.
  change (2 ^ 31) with 2147483648. change (2 ^ 32) with 4294967296.
  change (2 ^ 8) with 256. change (2 ^ 16) with 65536.
  Z.div_mod_to_equations. lia.
Qed.

Lemma ToUint8_sar_24 (x : Z) : JS.ToUint8 (JS.sar x 24) = (x / 2 ^ 24) mod 2 ^ 8.
Proof.
  unfold JS.ToUint8, JS.sar, JS.ToInt32.
  change (24 mod 32) with 24. rewrite Z.shiftr_div_pow2 by lia.
  change (2 ^ 31) with 2147483648. change (2 ^ 32) with 4294967296.
  change (2 ^ 8) with 256. change (2 ^ 24) with 16777216.
  Z.div_mod_to_equations. lia.
Qed.

Lemma land_pow2_low (k y : Z) : 0 <= k -> 0 <= y < 2 ^ k -> Z.land (2 ^ k) y = 0.
Proof.
  intros Hk Hy. apply Z.bits_inj'. intros n Hn.
  rewrite Z.land_spec, Z.bits_0, Z.pow2_bits_eqb by lia.
  destruct (Z.eqb_spec k n) as [->|Hne]; [|reflexivity].
  simpl. destruct (Z.eq_dec y 0) as [->|Hy0]; [apply Z.bits_0|].
  apply Z.bits_above_log2; [lia|]. apply Z.log2_lt_pow2; lia.
Qed.

(** Setting a marker bit above the value's bits adds it. *)
Lemma lor_pow2_low (k y : Z) : 0 <= k -> 0 <= y < 2 ^ k -> Z.lor (2 ^ k) y = 2 ^ k + y.
Proof.
  intros Hk Hy. pose proof (land_pow2_low k y Hk Hy) as H0.
  rewrite <- Z.lxor_lor by exact H0. symmetry. apply Z.add_nocarry_lxor. exact H0.
Qed.

Lemma bor_marker (k y : Z) :
  0 <= k < 31 -> 0 <= y < 2 ^ k -> JS.bor (2 ^ k) y = 2 ^ k + y.
Proof.
  intros Hk Hy. unfold JS.bor.
  assert (2 ^ k < 2 ^ 31) by (apply Z.pow_lt_mono_r; lia).
  rewrite !ToInt32_small by lia. apply lor_pow2_low; lia.
Qed.

End Conversions.

(** ** The byte stream writer *)

Section Stream.

Implicit Types (s : ABDS.t) (arr : list Z).

Lemma length_store arr (i b : Z) : length (store arr i b) = length arr.
Proof. unfold store. destruct (0 <=? i); [apply length_insert|reflexivity]. Qed.

Lemma lookup_store_ne arr (i b : Z) (j : nat) :
  Z.of_nat j <> i -> store arr i b !! j = arr !! j.
Proof.
  intros Hne. unfold store. destruct (Z.leb_spec 0 i); [|reflexivity].
  apply list_lookup_insert_ne. lia.
Qed.

Lemma lookup_store_eq arr (b : Z) (j : nat) :
  (j < length arr)%nat -> store arr (Z.of_nat j) b !! j = Some (JS.ToUint8 b).
Proof.
  intros Hlt. unfold store. destruct (Z.leb_spec 0 (Z.of_nat j)); [|lia].
  rewrite Nat2Z.id. apply list_lookup_insert_eq. exact Hlt.
Qed.

Lemma writeBytes_cons (b : Z) arr s :
  writeBytes (b :: arr) s = writeBytes arr (writeByte b s).
Proof. reflexivity. Qed.

Lemma pos_writeBytes arr s :
  pos (writeBytes arr s) = pos s + Z.of_nat (length arr).
Proof.
  revert s. induction arr as [|b arr IH]; intros s.
  - simpl. lia.
  - rewrite writeBytes_cons, IH. simpl. lia.
Qed.

Lemma length_writeBytes arr s :
  length (data (writeBytes arr s)) = length (data s).
Proof.
  revert s. induction arr as [|b arr IH]; intros s; [reflexivity|].
  rewrite writeBytes_cons, IH. simpl. apply length_store.
Qed.

(** Bytes outside the written range keep their value. *)
Lemma lookup_writeBytes_outside arr s (j : nat) :
  Z.of_nat j < pos s \/ pos s + Z.of_nat (length arr) <= Z.of_nat j ->
  data (writeBytes arr s) !! j = data s !! j.
Proof.
  revert s. induction arr as [|b arr IH]; intros s Hj; [reflexivity|].
  rewrite writeBytes_cons, IH.
  - simpl. apply lookup_store_ne. simpl in Hj. lia.
  - simpl in *. lia.
Qed.

(** Within the capacity, the range holds the bytes written. *)
Lemma lookup_writeBytes_inside arr s (k : nat) (x : Z) :
  0 <= pos s -> arr !! k = Some x ->
  (Z.to_nat (pos s) + k < length (data s))%nat ->
  data (writeBytes arr s) !! (Z.to_nat (pos s) + k)%nat = Some (JS.ToUint8 x).
Proof.
  revert s k. induction arr as [|b arr IH]; intros s k Hpos Hk Hcap; [discriminate|].
  rewrite writeBytes_cons. destruct k as [|k].
  - simpl in Hk. injection Hk as ->.
    rewrite lookup_writeBytes_outside by (simpl; lia).
    simpl. rewrite Nat.add_0_r in *.
    assert (Hj : pos s = Z.of_nat (Z.to_nat (pos s))) by lia.
    revert Hcap. generalize (Z.to_nat (pos s)) Hj. intros j -> Hcap.
    apply lookup_store_eq. exact Hcap.
  - simpl in Hk.
    replace (Z.to_nat (pos s) + S k)%nat
      with (Z.to_nat (pos (writeByte b s)) + k)%nat by (simpl; lia).
    apply IH; simpl; [lia|exact Hk|rewrite length_store; lia].
Qed.

Lemma slice_writeBytes arr s :
  0 <= pos s -> pos s + Z.of_nat (length arr) <= byteLength s ->
  slice (pos s) (length arr) (data (writeBytes arr s)) = map JS.ToUint8 arr.
Proof.
  intros Hpos Hcap. unfold byteLength in Hcap. unfold slice.
  apply list_eq. intros k. rewrite list_lookup_fmap.
  destruct (decide (k < length arr)%nat) as [Hk|Hk].
  - rewrite lookup_take_lt by exact Hk. rewrite lookup_drop.
    destruct (lookup_lt_is_Some_2 arr k Hk) as [x Hx]. rewrite Hx. simpl.
    apply lookup_writeBytes_inside; [exact Hpos|exact Hx|lia].
  - rewrite lookup_take_ge by lia. rewrite lookup_ge_None_2 by lia. reflexivity.
Qed.

End Stream.

(** ** EBML variable-length integers *)

Section VarInt.

Implicit Types (s : ABDS.t) (v w : Z).

Lemma writeEBMLVarIntWidth_written v w s :
  1 <= w <= 5 ->
  writeEBMLVarIntWidth v w s = ok (writeBytes (VINT.written v w) s).
Proof.
  intros Hw.
  assert (Hc : w = 1 \/ w = 2 \/ w = 3 \/ w = 4 \/ w = 5) by lia.
  destruct Hc as [->|[->|[->|[->| ->]]]]; reflexivity.
Qed.

Lemma length_written v w : 1 <= w <= 5 -> Z.of_nat (length (VINT.written v w)) = w.
Proof.
  intros Hw.
  assert (Hc : w = 1 \/ w = 2 \/ w = 3 \/ w = 4 \/ w = 5) by lia.
  destruct Hc as [->|[->|[->|[->| ->]]]]; reflexivity.
Qed.

Lemma sar_small v (n : Z) :
  0 <= n < 32 -> 0 <= v < 2 ^ 31 -> JS.sar v n = v / 2 ^ n.
Proof.
  intros Hn Hv. unfold JS.sar. rewrite ToInt32_small by lia.
  rewrite Z.mod_small by lia. apply Z.shiftr_div_pow2. lia.
Qed.

Lemma band_top3 v : 0 <= v < 2 ^ 35 -> JS.band (Z.quot v 4294967296) 7 = v / 2 ^ 32.
Proof.
  intros Hv. unfold JS.band. rewrite Z.quot_div_nonneg by lia.
  assert (0 <= v / 4294967296 < 8)
    by (change (2 ^ 35) with 34359738368 in Hv; Z.div_mod_to_equations; lia).
  rewrite !ToInt32_small by (change (2 ^ 31) with 2147483648; lia).
  change 7 with (Z.ones 3). rewrite Z.land_ones by lia.
  change (2 ^ 32) with 4294967296. apply Z.mod_small. change (2 ^ 3) with 8. lia.
Qed.

(** The first byte carries the marker of its width class. *)
Lemma width_marker (k hi : Z) :
  0 <= k <= 7 -> 0 <= hi < 2 ^ k -> VINT.width (2 ^ k + hi) = Some (Z.to_nat (8 - k)).
Proof.
  intros Hk Hhi.
  assert (Hc : k = 0 \/ k = 1 \/ k = 2 \/ k = 3 \/ k = 4 \/ k = 5 \/ k = 6 \/ k = 7) by lia.
  unfold VINT.width.
  destruct Hc as [->|[->|[->|[->|[->|[->|[->| ->]]]]]]];
    repeat match goal with
           | |- context [?a <=? ?b] => destruct (Z.leb_spec a b); try lia
           end; reflexivity.
Qed.

Lemma first_byte (k hi : Z) :
  0 <= k <= 7 -> 0 <= hi < 2 ^ k ->
  JS.ToUint8 (JS.bor (2 ^ k) hi) = 2 ^ k + hi.
Proof.
  intros Hk Hhi. rewrite bor_marker by lia.
  assert (2 ^ k + hi < 2 ^ (k + 1))
    by (rewrite Z.pow_add_r by lia; change (2 ^ 1) with 2; lia).
  assert (2 ^ (k + 1) <= 2 ^ 8) by (apply Z.pow_le_mono_r; lia).
  apply ToUint8_small. change 256 with (2 ^ 8). lia.
Qed.

(** Whatever is written with an explicit width from 1 to 5 decodes to the
    value, as long as the value fits the 7 bits per byte of that width. *)
Lemma decode_written v w :
  1 <= w <= 5 -> 0 <= v < 2 ^ (7 * w) ->
  VINT.decode (map JS.ToUint8 (VINT.written v w)) = Some (v, []).
Proof.
  intros Hw Hv.
  assert (Hc : w = 1 \/ w = 2 \/ w = 3 \/ w = 4 \/ w = 5) by lia.
  destruct Hc as [->|[->|[->|[->| ->]]]]; unfold VINT.written; simpl Z.eqb; cbv iota;
    cbn [map].
  - change (JS.shl 1 7) with (2 ^ 7). rewrite first_byte by lia.
    unfold VINT.decode. rewrite (width_marker 7) by lia.
    change (Z.to_nat (8 - 7)) with 1%nat. cbn.
    change (8 - Z.of_nat 1) with 7. f_equal. f_equal. lia.
  - change (JS.shl 1 6) with (2 ^ 6). change (7 * 2) with 14 in Hv.
    assert (2 ^ 14 < 2 ^ 31) by (apply Z.pow_lt_mono_r; lia).
    rewrite (sar_small v 8) by lia.
    assert (Hhi : 0 <= v / 2 ^ 8 < 2 ^ 6)
      by (change (2 ^ 14) with 16384 in Hv; change (2 ^ 8) with 256;
          change (2 ^ 6) with 64; Z.div_mod_to_equations; lia).
    rewrite first_byte by lia.
    unfold VINT.decode. rewrite (width_marker 6) by lia.
    change (Z.to_nat (8 - 6)) with 2%nat. cbn.
    change (8 - Z.of_nat 2) with 6. f_equal. f_equal. unfold VINT.accumulate, JS.ToUint8. simpl.
    change (2 ^ 8) with 256 in *. Z.div_mod_to_equations. lia.
  - change (JS.shl 1 5) with (2 ^ 5). change (7 * 3) with 21 in Hv.
    assert (2 ^ 21 < 2 ^ 31) by (apply Z.pow_lt_mono_r; lia).
    rewrite (sar_small v 16) by lia. rewrite ToUint8_sar_8.
    assert (Hhi : 0 <= v / 2 ^ 16 < 2 ^ 5)
      by (change (2 ^ 21) with 2097152 in Hv; change (2 ^ 16) with 65536;
          change (2 ^ 5) with 32; Z.div_mod_to_equations; lia).
    rewrite first_byte by lia.
    unfold VINT.decode. rewrite (width_marker 5) by lia.
    change (Z.to_nat (8 - 5)) with 3%nat. cbn.
    change (8 - Z.of_nat 3) with 5. f_equal. f_equal. unfold VINT.accumulate, JS.ToUint8. simpl.
    change (2 ^ 8) with 256 in *. change (2 ^ 16) with 65536 in *.
    Z.div_mod_to_equations. lia.
  - change (JS.shl 1 4) with (2 ^ 4). change (7 * 4) with 28 in Hv.
    assert (2 ^ 28 < 2 ^ 31) by (apply Z.pow_lt_mono_r; lia).
    rewrite (sar_small v 24) by lia. rewrite ToUint8_sar_8, ToUint8_sar_16.
    assert (Hhi : 0 <= v / 2 ^ 24 < 2 ^ 4)
      by (change (2 ^ 28) with 268435456 in Hv; change (2 ^ 24) with 16777216;
          change (2 ^ 4) with 16; Z.div_mod_to_equations; lia).
    rewrite first_byte by lia.
    unfold VINT.decode. rewrite (width_marker 4) by lia.
    change (Z.to_nat (8 - 4)) with 4%nat. cbn.
    change (8 - Z.of_nat 4) with 4. f_equal. f_equal. unfold VINT.accumulate, JS.ToUint8. simpl.
    change (2 ^ 8) with 256 in *. change (2 ^ 16) with 65536 in *.
    change (2 ^ 24) with 16777216 in *.
    Z.div_mod_to_equations. lia.
  - change (JS.shl 1 3) with (2 ^ 3). change (7 * 5) with 35 in Hv.
    rewrite band_top3 by lia.
    rewrite ToUint8_sar_8, ToUint8_sar_16, ToUint8_sar_24.
    assert (Hhi : 0 <= v / 2 ^ 32 < 2 ^ 3)
      by (change (2 ^ 35) with 34359738368 in Hv; change (2 ^ 32) with 4294967296;
          change (2 ^ 3) with 8; Z.div_mod_to_equations; lia).
    rewrite first_byte by lia.
    unfold VINT.decode. rewrite (width_marker 3) by lia.
    change (Z.to_nat (8 - 3)) with 5%nat. cbn.
    change (8 - Z.of_nat 5) with 3. f_equal. f_equal. unfold VINT.accumulate, JS.ToUint8. simpl.
    change (2 ^ 8) with 256 in *. change (2 ^ 16) with 65536 in *.
    change (2 ^ 24) with 16777216 in *. change (2 ^ 32) with 4294967296 in *.
    Z.div_mod_to_equations. lia.
Qed.

End VarInt.

Section VarIntClaims.

Lemma measureEBMLVarInt_cases (v : Z) :
  measureEBMLVarInt v =
    if v <? 127 then ok 1
    else if v <? 16383 then ok 2
    else if v <? 2097151 then ok 3
    else if v <? 268435455 then ok 4
    else if v <? 34359738367 then ok 5
    else throw (VINTSizeNotSupported v).
Proof. reflexivity. Qed.

Lemma measureEBMLVarInt_fits (v w : Z) :
  measureEBMLVarInt v = ok w -> 1 <= w <= 5 /\ v < 2 ^ (7 * w) - 1.
Proof.
  rewrite measureEBMLVarInt_cases.
  repeat match goal with
         | |- context [?a <? ?b] => destruct (Z.ltb_spec a b)
         end; intros [= <-]; (split; [lia|]);
    match goal with
    | |- context [2 ^ ?e] =>
        let x := eval vm_compute in (2 ^ e) in change (2 ^ e) with x
    end; lia.
Qed.

(** C1. VINT round trip: for every integer [v] with [0 <= v <= 2^35 - 2],
    [measureEBMLVarInt v] yields a width [w], and writing [v] with that width
    (at any cursor whose [w] bytes lie within the buffer) stores [w] bytes
    that the conformant decoder reads back as exactly [v]. *)
Theorem vint_round_trip (v : Z) (s : ABDS.t) :
  0 <= v <= 2 ^ 35 - 2 ->
  exists w,
    measureEBMLVarInt v = ok w /\
    (0 <= pos s -> pos s + w <= byteLength s ->
     exists s',
       writeEBMLVarIntWidth v w s = ok s' /\
       writeEBMLVarInt v s = ok s' /\
       pos s' = pos s + w /\
       VINT.decode (slice (pos s) (Z.to_nat w) (data s')) = Some (v, [])).
Proof.
  intros Hv.
  assert (Hm : exists w, measureEBMLVarInt v = ok w).
  { rewrite measureEBMLVarInt_cases.
    repeat match goal with
           | |- context [?a <? ?b] => destruct (Z.ltb_spec a b)
           end; eauto.
    change (2 ^ 35) with 34359738368 in Hv. lia. }
  destruct Hm as [w Hm]. exists w. split; [exact Hm|].
  intros Hpos Hcap. destruct (measureEBMLVarInt_fits v w Hm) as [Hw Hfit].
  exists (writeBytes (VINT.written v w) s).
  pose proof (length_written v w Hw) as Hlen.
  repeat split.
  - apply writeEBMLVarIntWidth_written. exact Hw.
  - unfold writeEBMLVarInt. rewrite Hm. simpl.
    apply writeEBMLVarIntWidth_written. exact Hw.
  - rewrite pos_writeBytes. lia.
  - replace (Z.to_nat w) with (length (VINT.written v w)) by lia.
    rewrite slice_writeBytes by lia.
    apply decode_written; lia.
Qed.

Lemma vint_round_trip_witness :
  exists w,
    measureEBMLVarInt 16383 = ok w /\
    (0 <= pos (ABDS.new 3) -> pos (ABDS.new 3) + w <= byteLength (ABDS.new 3) ->
     exists s',
       writeEBMLVarIntWidth 16383 w (ABDS.new 3) = ok s' /\
       writeEBMLVarInt 16383 (ABDS.new 3) = ok s' /\
       pos s' = pos (ABDS.new 3) + w /\
       VINT.decode (slice (pos (ABDS.new 3)) (Z.to_nat w) (data s')) = Some (16383, [])).
Proof. apply (vint_round_trip 16383 (ABDS.new 3)). lia. Defined.

(** The width boundaries named by the specification, written to a fresh
    five-byte buffer and read back. *)
Example vint_round_trip_boundaries :
  Forall (fun v =>
            (s ← writeEBMLVarInt v (ABDS.new 5);
             bytes ← getAsDataArray s;
             ok (VINT.decode bytes)) = ok (Some (v, [])))
         [0; 126; 127; 128; 16382; 16383; 2097150; 2097151; 268435454;
          268435455; 34359738366].
Proof. repeat constructor. Qed.

(** C6. [measureEBMLVarInt v] returns the smallest width [w] in 1..5 whose
    usable maximum [2^(7w) - 2] is at least [v]; it fails for every [v]
    beyond the usable maximum of width 5; and [writeEBMLVarIntWidth] fails
    for every width outside 1..5. *)
Theorem measureEBMLVarInt_smallest_width :
  (forall v, v <= VINT.usableMax 5 ->
     exists w, measureEBMLVarInt v = ok w /\ 1 <= w <= 5 /\
               v <= VINT.usableMax w /\
               forall w', 1 <= w' < w -> VINT.usableMax w' < v) /\
  (forall v, VINT.usableMax 5 < v ->
     measureEBMLVarInt v = throw (VINTSizeNotSupported v)) /\
  (forall i width s, ~ 1 <= width <= 5 ->
     writeEBMLVarIntWidth i width s = throw (BadVINTSize width)).
Proof.
  assert (Hmax : forall w, 1 <= w <= 5 ->
            w = 1 /\ VINT.usableMax w = 126 \/ w = 2 /\ VINT.usableMax w = 16382 \/
            w = 3 /\ VINT.usableMax w = 2097150 \/
            w = 4 /\ VINT.usableMax w = 268435454 \/
            w = 5 /\ VINT.usableMax w = 34359738366).
  { intros w Hw.
    assert (Hc : w = 1 \/ w = 2 \/ w = 3 \/ w = 4 \/ w = 5) by lia.
    destruct Hc as [->|[->|[->|[->| ->]]]]; vm_compute; tauto. }
  split; [|split].
  - intros v Hv. change (VINT.usableMax 5) with 34359738366 in Hv.
    rewrite measureEBMLVarInt_cases.
    repeat match goal with
           | |- context [?a <? ?b] => destruct (Z.ltb_spec a b)
           end; try lia;
      eexists; (split; [reflexivity|]); (split; [lia|]);
      (split;
       [match goal with
        | |- context [VINT.usableMax ?w] =>
            let x := eval vm_compute in (VINT.usableMax w) in
            change (VINT.usableMax w) with x
        end; lia|]);
      intros w' Hw'; destruct (Hmax w' ltac:(lia)) as [[? ->]|[[? ->]|[[? ->]|[[? ->]|[? ->]]]]];
      lia.
  - intros v Hv. change (VINT.usableMax 5) with 34359738366 in Hv.
    rewrite measureEBMLVarInt_cases.
    repeat match goal with
           | |- context [?a <? ?b] => destruct (Z.ltb_spec a b)
           end; try lia; reflexivity.
  - intros i width s Hw. unfold writeEBMLVarIntWidth.
    repeat match goal with
           | |- context [?a =? ?b] => destruct (Z.eqb_spec a b)
           end; try lia; reflexivity.
Qed.

End VarIntClaims.

(** ** The written prefix *)

Section DataArray.

Lemma data_writeBytes_new (arr : list Z) (n : Z) :
  Z.of_nat (length arr) <= n ->
  take (length arr) (data (writeBytes arr (ABDS.new n))) = map JS.ToUint8 arr.
Proof.
  intros Hn.
  pose proof (slice_writeBytes arr (ABDS.new n)) as H.
  unfold slice in H. simpl in H. apply H; [lia|].
  unfold byteLength. simpl. rewrite length_replicate. lia.
Qed.

Lemma getAsDataArray_prefix (s : ABDS.t) :
  0 <= pos s <= byteLength s ->
  getAsDataArray s = ok (take (Z.to_nat (pos s)) (data s)).
Proof.
  intros Hs. unfold getAsDataArray.
  destruct (Z.ltb_spec (pos s) (byteLength s)) as [Hlt|Hge].
  - unfold subarray0. fold (byteLength s).
    destruct (Z.ltb_spec (pos s) 0); [lia|].
    rewrite Z.min_l by lia. reflexivity.
  - destruct (Z.eqb_spec (pos s) (byteLength s)) as [Heq|Hne]; [|lia].
    unfold byteLength in Heq. rewrite Heq, Nat2Z.id, firstn_all. reflexivity.
Qed.

Lemma getAsDataArray_beyond (s : ABDS.t) :
  byteLength s < pos s -> getAsDataArray s = throw PosBeyondEnd.
Proof.
  intros Hs. unfold getAsDataArray.
  destruct (Z.ltb_spec (pos s) (byteLength s)); [lia|].
  destruct (Z.eqb_spec (pos s) (byteLength s)); [lia|reflexivity].
Qed.

(** C9. [getAsDataArray] returns the bytes of the buffer from offset 0 up to
    the cursor when the cursor is at or within the capacity, and throws for
    every cursor beyond the capacity; after writing [arr] to a fresh buffer
    that can hold it, these are exactly the bytes written. *)
Theorem getAsDataArray_written_prefix :
  (forall s, 0 <= pos s <= byteLength s ->
     getAsDataArray s = ok (take (Z.to_nat (pos s)) (data s))) /\
  (forall s, byteLength s < pos s -> getAsDataArray s = throw PosBeyondEnd) /\
  (forall arr n, Z.of_nat (length arr) <= n ->
     getAsDataArray (writeBytes arr (ABDS.new n)) = ok (map JS.ToUint8 arr)).
Proof.
  split; [exact getAsDataArray_prefix|split; [exact getAsDataArray_beyond|]].
  - intros arr n Hn.
    assert (Hlen : byteLength (writeBytes arr (ABDS.new n)) = n).
    { unfold byteLength. rewrite length_writeBytes. simpl.
      rewrite length_replicate. lia. }
    rewrite getAsDataArray_prefix.
    + rewrite pos_writeBytes.
      replace (Z.to_nat (pos (ABDS.new n) + Z.of_nat (length arr)))
        with (length arr) by (simpl; lia).
      rewrite data_writeBytes_new by exact Hn. reflexivity.
    + rewrite pos_writeBytes, Hlen. simpl. lia.
Qed.

End DataArray.

(** ** SimpleBlock *)

Section SimpleBlock.

Import WebMWriter.

(** The four header bytes of the block of a frame. *)
Lemma createSimpleBlockForframe_ok (f : Frame) :
  1 <= trackNumber f <= 126 ->
  createSimpleBlockForframe f =
    ok (EBML.elem 0xa3
          (EBML.Array
             [ EBML.Bytes
                 (map JS.ToUint8
                    [ JS.bor (JS.shl 1 7) (trackNumber f);
                      JS.sar (timecode f) 8;
                      timecode f;
                      JS.shl (if String.eqb (type f) "key" then 1 else 0) 7 ]);
               EBML.Bytes (frame f) ])).
Proof.
  intros Htn. unfold createSimpleBlockForframe.
  destruct (Z.ltb_spec 0 (trackNumber f)); [|lia].
  destruct (Z.ltb_spec (trackNumber f) 127); [|lia].
  cbn [andb negb]. unfold writeEBMLVarInt.
  rewrite measureEBMLVarInt_cases.
  destruct (Z.ltb_spec (trackNumber f) 127); [|lia].
  reflexivity.
Qed.

(** C7. [createSimpleBlockForframe] throws exactly when the frame's track
    number lies outside 1..126; inside the range it returns a SimpleBlock
    element.  In particular 0 and 127 fail, 1 and 126 succeed. *)
Theorem createSimpleBlockForframe_validates_track :
  (forall f, createSimpleBlockForframe f = throw BadTrackNumber <->
             ~ 1 <= trackNumber f <= 126) /\
  (forall f, 1 <= trackNumber f <= 126 ->
     exists header,
       createSimpleBlockForframe f =
         ok (EBML.elem 0xa3 (EBML.Array [EBML.Bytes header; EBML.Bytes (frame f)])) /\
       length header = 4%nat /\
       header !! 0%nat = Some (128 + trackNumber f)) /\
  (forall bytes t ty tc,
     createSimpleBlockForframe (Build_Frame bytes t ty 0 tc) = throw BadTrackNumber /\
     createSimpleBlockForframe (Build_Frame bytes t ty 127 tc) = throw BadTrackNumber /\
     (exists b, createSimpleBlockForframe (Build_Frame bytes t ty 1 tc) = ok b) /\
     (exists b, createSimpleBlockForframe (Build_Frame bytes t ty 126 tc) = ok b)).
Proof.
  assert (Hfail : forall f, ~ 1 <= trackNumber f <= 126 ->
            createSimpleBlockForframe f = throw BadTrackNumber).
  { intros f Htn. unfold createSimpleBlockForframe.
    destruct (Z.ltb_spec 0 (trackNumber f)); [|reflexivity].
    destruct (Z.ltb_spec (trackNumber f) 127); [lia|reflexivity]. }
  split; [|split].
  - intros f. split; [|apply Hfail].
    intros Hthrow Htn. rewrite createSimpleBlockForframe_ok in Hthrow by exact Htn.
    discriminate.
  - intros f Htn. eexists. split; [apply createSimpleBlockForframe_ok; exact Htn|].
    split; [reflexivity|].
    cbn [map lookup list_lookup]. f_equal.
    change (JS.shl 1 7) with (2 ^ 7). rewrite first_byte by lia. reflexivity.
  - intros bytes t ty tc. split; [|split; [|split]].
    + apply Hfail. simpl. lia.
    + apply Hfail. simpl. lia.
    + eexists. apply createSimpleBlockForframe_ok. simpl. lia.
    + eexists. apply createSimpleBlockForframe_ok. simpl. lia.
Qed.

End SimpleBlock.

(** ** The export loop *)

Section ExportLoop.

Import VideoBackend.

Variable renderFrame : Num.t -> Num.t -> Num.t -> result Canvas.t.
Variable options : RenderOptions.

Lemma frameLoop_S (fuel : nat) (k : Z) :
  frameLoop renderFrame options (S fuel) k =
    if Num.ltb (Num.ofZ k) (totalFrames options) then
      let frameStart :=
        Num.add (start options) (Num.mul (Num.ofZ k) (frameLength options)) in
      match renderFrame frameStart (width options) (height options) with
      | inl e => ([], Threw e)
      | inr frameCanvas =>
          let '(calls, outcome) := frameLoop renderFrame options fuel (k + 1) in
          ({| frameIndex := k; frameCanvas := frameCanvas;
              timestamp := frameStart; duration := frameLength options;
              keyFrame := JS.rem k KEYFRAME_FREQUENCY =? 0 |} :: calls, outcome)
      end
    else ([], Completed).
Proof. reflexivity. Qed.

Lemma frameLoop_calls (fuel : nat) (k : Z) (i : nat) (call : Encode) :
  (frameLoop renderFrame options fuel k).1 !! i = Some call ->
  frameIndex call = k + Z.of_nat i /\
  Num.ltb (Num.ofZ (frameIndex call)) (totalFrames options) = true /\
  keyFrame call = (JS.rem (frameIndex call) KEYFRAME_FREQUENCY =? 0).
Proof.
  revert k i. induction fuel as [|fuel IH]; intros k i.
  - simpl. rewrite lookup_nil. discriminate.
  - rewrite frameLoop_S.
    destruct (Num.ltb (Num.ofZ k) (totalFrames options)) eqn:Hlt;
      [|cbn [fst]; rewrite lookup_nil; discriminate].
    cbv zeta.
    destruct (renderFrame _ _ _) as [e|canvas];
      [cbn [fst]; rewrite lookup_nil; discriminate|].
    destruct (frameLoop renderFrame options fuel (k + 1)) as [calls outcome] eqn:Hloop.
    cbn [fst]. destruct i as [|i].
    + intros [= <-]. cbn [frameIndex keyFrame]. rewrite Z.add_0_r. auto.
    + intros Hi. specialize (IH (k + 1) i). rewrite Hloop in IH.
      destruct (IH Hi) as (Hidx & Hrest). split; [lia|exact Hrest].
Qed.

(** The loop condition [frameIndex < totalFrames] on a finite frame count. *)
Lemma ltb_ofZ_Fin (k : Z) (q : Q) :
  Num.ltb (Num.ofZ k) (Num.Fin q) = (k <? Qceiling q).
Proof.
  unfold Num.ltb, Num.ofZ.
  destruct (Z.ltb_spec k (Qceiling q)) as [Hlt|Hge].
  - destruct (Qle_bool q (inject_Z k)) eqn:Hle; [|reflexivity].
    apply Qle_bool_iff in Hle. exfalso.
    pose proof (Qceiling_lt q) as Hc.
    assert (Hk : (inject_Z k <= inject_Z (Qceiling q - 1))%Q)
      by (rewrite <- Zle_Qle; lia).
    apply (Qlt_irrefl q). eapply Qle_lt_trans; [exact Hle|].
    eapply Qle_lt_trans; [exact Hk|exact Hc].
  - assert (Hle : (q <= inject_Z k)%Q).
    { eapply Qle_trans; [apply Qle_ceiling|]. rewrite <- Zle_Qle. exact Hge. }
    apply Qle_bool_iff in Hle. rewrite Hle. reflexivity.
Qed.

(** With a finite frame count and a compositor that does not throw, the loop
    ends, having submitted every index below the count. *)
Lemma frameLoop_completes (q : Q) (fuel : nat) (k : Z) :
  totalFrames options = Num.Fin q ->
  (forall t w h, exists canvas, renderFrame t w h = ok canvas) ->
  Z.max 0 (Qceiling q - k) < Z.of_nat fuel ->
  (frameLoop renderFrame options fuel k).2 = Completed /\
  Z.of_nat (List.length (frameLoop renderFrame options fuel k).1)
    = Z.max 0 (Qceiling q - k).
Proof.
  intros Htotal Hrender. revert k.
  induction fuel as [|fuel IH]; intros k Hfuel; [lia|].
  rewrite frameLoop_S, Htotal, ltb_ofZ_Fin.
  destruct (Z.ltb_spec k (Qceiling q)) as [Hlt|Hge].
  - cbv zeta.
    destruct (Hrender (Num.add (start options)
                         (Num.mul (Num.ofZ k) (frameLength options)))
                      (width options) (height options)) as [canvas ->].
    specialize (IH (k + 1) ltac:(lia)).
    destruct (frameLoop renderFrame options fuel (k + 1)) as [calls outcome].
    cbn [fst snd List.length] in *. destruct IH as [-> Hlen]. split; [reflexivity|lia].
  - cbn [fst snd List.length]. split; [reflexivity|lia].
Qed.

End ExportLoop.

(** C8. Keyframe cadence: every frame submitted to the encoder has an index
    [i] with [0 <= i < totalFrames], and carries the forced-keyframe flag if
    and only if [i mod 150 = 0]; when the frame count is finite and the
    compositor does not throw, every such index is submitted; and the flags
    are the same whatever the compositor draws. *)
Theorem keyframe_cadence :
  (forall renderFrame options fuel (i : nat) call,
     (VideoBackend.renderToWritableStream renderFrame options fuel).1 !! i = Some call ->
     VideoBackend.frameIndex call = Z.of_nat i /\
     Num.ltb (Num.ofZ (Z.of_nat i)) (VideoBackend.totalFrames options) = true /\
     (VideoBackend.keyFrame call = true <-> Z.of_nat i mod 150 = 0)) /\
  (forall renderFrame options q fuel,
     VideoBackend.totalFrames options = Num.Fin q ->
     (forall t w h, exists canvas, renderFrame t w h = ok canvas) ->
     Z.max 0 (Qceiling q) < Z.of_nat fuel ->
     (VideoBackend.renderToWritableStream renderFrame options fuel).2
       = VideoBackend.Completed /\
     Z.of_nat (length (VideoBackend.renderToWritableStream renderFrame options fuel).1)
       = Z.max 0 (Qceiling q)) /\
  (forall renderFrame renderFrame' options q fuel,
     VideoBackend.totalFrames options = Num.Fin q ->
     (forall t w h, exists canvas, renderFrame t w h = ok canvas) ->
     (forall t w h, exists canvas, renderFrame' t w h = ok canvas) ->
     Z.max 0 (Qceiling q) < Z.of_nat fuel ->
     map VideoBackend.keyFrame
         (VideoBackend.renderToWritableStream renderFrame options fuel).1 =
     map VideoBackend.keyFrame
         (VideoBackend.renderToWritableStream renderFrame' options fuel).1).
Proof.
  assert (Hcalls : forall renderFrame options fuel (i : nat) call,
     (VideoBackend.renderToWritableStream renderFrame options fuel).1 !! i = Some call ->
     VideoBackend.frameIndex call = Z.of_nat i /\
     Num.ltb (Num.ofZ (Z.of_nat i)) (VideoBackend.totalFrames options) = true /\
     (VideoBackend.keyFrame call = true <-> Z.of_nat i mod 150 = 0)).
  { intros renderFrame options fuel i call Hcall.
    apply frameLoop_calls in Hcall. destruct Hcall as (Hidx & Hlt & Hkey).
    simpl in Hidx. rewrite Hidx in *. split; [reflexivity|]. split; [exact Hlt|].
    rewrite Hkey. unfold JS.rem, VideoBackend.KEYFRAME_FREQUENCY.
    rewrite Z.rem_mod_nonneg by lia. apply Z.eqb_eq. }
  assert (Hdone : forall renderFrame options q fuel,
     VideoBackend.totalFrames options = Num.Fin q ->
     (forall t w h, exists canvas, renderFrame t w h = ok canvas) ->
     Z.max 0 (Qceiling q) < Z.of_nat fuel ->
     (VideoBackend.renderToWritableStream renderFrame options fuel).2
       = VideoBackend.Completed /\
     Z.of_nat (length (VideoBackend.renderToWritableStream renderFrame options fuel).1)
       = Z.max 0 (Qceiling q)).
  { intros renderFrame options q fuel Htotal Hrender Hfuel.
    pose proof (frameLoop_completes renderFrame options q fuel 0 Htotal Hrender) as H.
    rewrite Z.sub_0_r in H. apply H. exact Hfuel. }
  split; [exact Hcalls|split; [exact Hdone|]].
  intros renderFrame renderFrame' options q fuel Htotal Hr Hr' Hfuel.
  destruct (Hdone renderFrame options q fuel Htotal Hr Hfuel) as [_ Hlen].
  destruct (Hdone renderFrame' options q fuel Htotal Hr' Hfuel) as [_ Hlen'].
  apply list_eq. intros i. rewrite !list_lookup_fmap.
  destruct ((VideoBackend.renderToWritableStream renderFrame options fuel).1 !! i)
    as [call|] eqn:Hc;
    destruct ((VideoBackend.renderToWritableStream renderFrame' options fuel).1 !! i)
      as [call'|] eqn:Hc'; simpl.
  - f_equal. destruct (Hcalls _ _ _ _ _ Hc) as (_ & _ & Hk).
    destruct (Hcalls _ _ _ _ _ Hc') as (_ & _ & Hk').
    destruct (VideoBackend.keyFrame call), (VideoBackend.keyFrame call'); try reflexivity.
    + assert (false = true) by (apply Hk', Hk; reflexivity). discriminate.
    + assert (false = true) by (apply Hk, Hk'; reflexivity). discriminate.
  - apply lookup_lt_Some in Hc. apply lookup_ge_None in Hc'. lia.
  - apply lookup_ge_None in Hc. apply lookup_lt_Some in Hc'. lia.
  - reflexivity.
Qed.

(** ** The image sequence clip *)

Section ImageSequence.

Import ImageSequenceClip.

(** Comparison of two numbers that hold integers. *)
Lemma ltb_int (p q : Q) (a b : Z) :
  (p == inject_Z a)%Q -> (q == inject_Z b)%Q ->
  Num.ltb (Num.Fin p) (Num.Fin q) = (a <? b).
Proof.
  intros Hp Hq. unfold Num.ltb.
  destruct (Z.ltb_spec a b) as [Hlt|Hge].
  - destruct (Qle_bool q p) eqn:Hle; [|reflexivity].
    apply Qle_bool_iff in Hle. rewrite Hp, Hq in Hle.
    rewrite <- Zle_Qle in Hle. lia.
  - assert (Hle : (q <= p)%Q) by (rewrite Hp, Hq, <- Zle_Qle; exact Hge).
    apply Qle_bool_iff in Hle. rewrite Hle. reflexivity.
Qed.

(** A number that holds a non-negative integer is that array index. *)
Lemma index_int (q : Q) (z : Z) :
  (q == inject_Z z)%Q -> 0 <= z -> Num.index (Num.Fin q) = Some (Z.to_nat z).
Proof.
  intros Hq Hz. unfold Num.index.
  assert (Hfloor : Qfloor q = z) by (rewrite Hq; apply Qfloor_Z).
  rewrite Hfloor.
  assert (Heq : Qeq_bool q (inject_Z z) = true) by (apply Qeq_bool_iff; exact Hq).
  rewrite Heq. destruct (Z.leb_spec 0 z); [reflexivity|lia].
Qed.

Lemma sign_pos (q : Q) : (0 < q)%Q -> Num.sign q = Gt.
Proof. intros H. unfold Num.sign. apply Qgt_alt. exact H. Qed.

(** The clamped index is an integer between [0] and [n - 1]. *)
Lemma resourceIndex_int (c : t) (mpc t : Q) :
  resources c <> [] ->
  microsecondsPerClip c = Num.Fin mpc -> (0 < mpc)%Q ->
  let n := Z.of_nat (length (resources c)) in
  exists q, resourceIndex c (Num.Fin t) = Num.Fin q /\
            (q == inject_Z (Z.min (Z.max (Qfloor (t / mpc)) 0) (n - 1)))%Q.
Proof.
  intros Hne Hmpc Hpos n.
  assert (Hn : 1 <= n) by (subst n; destruct (resources c); [congruence|simpl; lia]).
  unfold resourceIndex, clamp. rewrite Hmpc.
  unfold Num.div. rewrite (sign_pos mpc Hpos).
  unfold Num.floor, length_, Num.ofZ. fold n.
  set (f := Qfloor (t / mpc)).
  assert (Hmax : exists x, Num.max (Num.Fin (inject_Z f)) (Num.Fin (inject_Z 0))
                           = Num.Fin x /\ (x == inject_Z (Z.max f 0))%Q).
  { unfold Num.max. rewrite (ltb_int _ _ f 0) by reflexivity.
    destruct (Z.ltb_spec f 0); eexists; (split; [reflexivity|]).
    - rewrite Z.max_r by lia. reflexivity.
    - rewrite Z.max_l by lia. reflexivity. }
  destruct Hmax as (x & -> & Hx).
  assert (Hm : (inject_Z n - inject_Z 1 == inject_Z (n - 1))%Q).
  { unfold Z.sub. rewrite inject_Z_plus, inject_Z_opp. reflexivity. }
  unfold Num.sub, Num.min.
  rewrite (ltb_int _ _ (n - 1) (Z.max f 0) Hm Hx).
  destruct (Z.ltb_spec (n - 1) (Z.max f 0)); eexists; (split; [reflexivity|]).
  - rewrite Z.min_r by lia. exact Hm.
  - rewrite Z.min_l by lia. exact Hx.
Qed.

(** With any positive [microsecondsPerClip], also one that [update] has not
    refreshed, the access is within bounds. *)
Lemma simpleRender_access (c : t) (canvas : Canvas.t) (mpc q : Q) (w h : Num.t) :
  resources c <> [] ->
  microsecondsPerClip c = Num.Fin mpc -> (0 < mpc)%Q ->
  let n := Z.of_nat (length (resources c)) in
  let i := Z.min (Z.max (Qfloor (q / mpc)) 0) (n - 1) in
  0 <= i < n /\
  Num.index (resourceIndex c (Num.Fin q)) = Some (Z.to_nat i) /\
  exists resource,
    resources c !! Z.to_nat i = Some resource /\
    simpleRender c canvas (Num.Fin q) w h =
      (img ← ImageResource.asImage resource;
       ok (Canvas.drawImage img (Num.ofZ 0) (Num.ofZ 0) w h canvas)).
Proof.
  intros Hne Hmpc Hpos n i.
  assert (Hn : 1 <= n) by (subst n; destruct (resources c); [congruence|simpl; lia]).
  assert (Hi : 0 <= i < n) by (subst i; lia).
  destruct (resourceIndex_int c mpc q Hne Hmpc Hpos) as (x & Hx & Hint).
  cbv zeta in Hint. fold n in Hint. fold i in Hint.
  assert (Hidx : Num.index (resourceIndex c (Num.Fin q)) = Some (Z.to_nat i))
    by (rewrite Hx; apply index_int; [exact Hint|lia]).
  split; [exact Hi|]. split; [exact Hidx|].
  destruct (lookup_lt_is_Some_2 (resources c) (Z.to_nat i) ltac:(lia))
    as [resource Hres].
  exists resource. split; [exact Hres|].
  unfold simpleRender. rewrite Hidx.
  unfold length_. fold n.
  unfold Num.ofZ. rewrite (ltb_int _ _ n 1) by reflexivity.
  destruct (Z.ltb_spec n 1); [lia|].
  cbn [mbind option_bind]. rewrite Hres. reflexivity.
Qed.


(** A clip of two images shown for two seconds, asked for times before its
    start, inside and past its end. *)
Example simpleRender_clamps (props : Clip.ClipProperties) (canvas : Canvas.t)
    (w h : Num.t) :
  Clip.renderLength props = Num.ofZ 2000000 ->
  let c := new props [ImageResource.mk "a.png" (ok 1); ImageResource.mk "b.png" (ok 2)] in
  map (fun time => Num.index (resourceIndex c (Num.ofZ time)))
      [-500000; 0; 999999; 1000000; 2000000; 9000000]
    = map Some [0; 0; 0; 1; 1; 1]%nat.
Proof.
  intros Hlen c. subst c. unfold resourceIndex, new, update, length_.
  cbn [properties resources microsecondsPerClip]. rewrite Hlen. reflexivity.
Qed.

(** Outside that domain the index can be [NaN]: a clip of length zero asked
    for time zero reads [resources[NaN]], which is [undefined]. *)
Example simpleRender_zero_length (props : Clip.ClipProperties)
    (resource : ImageResource.t) (canvas : Canvas.t) (w h : Num.t) :
  Clip.renderLength props = Num.ofZ 0 ->
  simpleRender (new props [resource]) canvas (Num.ofZ 0) w h = throw TypeError.
Proof.
  intros Hlen. unfold simpleRender, resourceIndex, new, update, length_.
  cbn [properties resources microsecondsPerClip]. rewrite Hlen. reflexivity.
Qed.

End ImageSequence.

(** ** The compositor *)

Section Compositor.

Import Canvas.

Local Open Scope R_scope.

Lemma matrix_eq (m n : DOMMatrix) :
  ma m = ma n -> mb m = mb n -> mc m = mc n ->
  md m = md n -> me m = me n -> mf m = mf n -> m = n.
Proof. destruct m, n. simpl. intros -> -> -> -> -> ->. reflexivity. Qed.

(** The matrix [render] hands to [transform] scales a point and then
    translates it. *)
Lemma scale_then_translate (sx sy tx ty : R) :
  matrix sx 0 0 sy tx ty = multiply (translation tx ty) (scaling sx sy) /\
  forall x y, apply (matrix sx 0 0 sy tx ty) (x, y) = (sx * x + tx, sy * y + ty).
Proof.
  split.
  - apply matrix_eq; simpl; ring.
  - intros x y. unfold apply. simpl. f_equal; ring.
Qed.

Lemma apply_multiply (m n : DOMMatrix) (p : R * R) :
  apply (multiply m n) p = apply m (apply n p).
Proof. destruct p as [x y]. unfold apply, multiply. simpl. f_equal; ring. Qed.

End Compositor.



(** ** The element writer *)

Section Writer.

Implicit Types (s : ABDS.t) (e : EBML.t) (off : Z).

Lemma extends_refl s : extends s s.
Proof. unfold extends. auto with zarith. Qed.

Lemma extends_trans s1 s2 s3 : extends s1 s2 -> extends s2 s3 -> extends s1 s3.
Proof.
  intros (Hp & Hl & Hd) (Hp' & Hl' & Hd'). split; [lia|].
  split; [rewrite Hl'; exact Hl|].
  intros j Hj. rewrite Hd' by lia. apply Hd. exact Hj.
Qed.

Lemma extends_writeBytes arr s : extends s (writeBytes arr s).
Proof.
  split; [rewrite pos_writeBytes; lia|]. split; [apply length_writeBytes|].
  intros j Hj. apply lookup_writeBytes_outside. left. exact Hj.
Qed.

Lemma writeString_writeBytes (str : string) s :
  writeString str s = writeBytes (charCodes str) s.
Proof. reflexivity. Qed.

Lemma writeEBMLVarInt_inv (i : Z) s s' :
  writeEBMLVarInt i s = ok s' ->
  exists w, measureEBMLVarInt i = ok w /\ 1 <= w <= 5 /\
            s' = writeBytes (VINT.written i w) s.
Proof.
  unfold writeEBMLVarInt. destruct (measureEBMLVarInt i) as [err|w] eqn:Hm; [discriminate|].
  destruct (measureEBMLVarInt_fits i w Hm) as [Hw _].
  cbn [mbind result_bind]. rewrite writeEBMLVarIntWidth_written by exact Hw.
  intros [= <-]. eauto.
Qed.

Lemma writeUnsignedIntBE_written (u w : Z) s :
  1 <= w <= 5 ->
  writeUnsignedIntBE u (Some w) s = ok (writeBytes (VINT.writtenUInt u w) s).
Proof.
  intros Hw.
  assert (Hc : w = 1 \/ w = 2 \/ w = 3 \/ w = 4 \/ w = 5) by lia.
  destruct Hc as [->|[->|[->|[->| ->]]]]; reflexivity.
Qed.

Lemma length_writtenUInt (u w : Z) :
  1 <= w <= 5 -> Z.of_nat (length (VINT.writtenUInt u w)) = w.
Proof.
  intros Hw.
  assert (Hc : w = 1 \/ w = 2 \/ w = 3 \/ w = 4 \/ w = 5) by lia.
  destruct Hc as [->|[->|[->|[->| ->]]]]; reflexivity.
Qed.

Lemma measureUnsignedInt_range (u : Z) : 1 <= measureUnsignedInt u <= 5.
Proof.
  unfold measureUnsignedInt.
  repeat match goal with
         | |- context [?a <? ?b] => destruct (a <? b)
         end; lia.
Qed.

(** The id of an element is always written, in its minimal width. *)
Lemma writeUnsignedIntBE_id (id : Z) s :
  writeUnsignedIntBE id None s
    = ok (writeBytes (VINT.writtenUInt id (measureUnsignedInt id)) s).
Proof.
  pose proof (writeUnsignedIntBE_written id (measureUnsignedInt id) s
                (measureUnsignedInt_range id)) as H.
  exact H.
Qed.

Lemma writeUnsignedIntBE_inv (u : Z) (width : option Z) s s' :
  writeUnsignedIntBE u width s = ok s' ->
  exists w, w = default (measureUnsignedInt u) width /\ 1 <= w <= 5 /\
            s' = writeBytes (VINT.writtenUInt u w) s.
Proof.
  intros H. exists (default (measureUnsignedInt u) width).
  split; [reflexivity|].
  assert (Hw : 1 <= default (measureUnsignedInt u) width <= 5).
  { unfold writeUnsignedIntBE in H.
    destruct (Z.leb_spec 1 (default (measureUnsignedInt u) width));
      destruct (Z.leb_spec (default (measureUnsignedInt u) width) 5);
      try discriminate H. lia. }
  split; [exact Hw|].
  destruct width as [w|].
  - rewrite writeUnsignedIntBE_written in H by exact Hw.
    injection H as <-. reflexivity.
  - rewrite writeUnsignedIntBE_id in H. injection H as <-. reflexivity.
Qed.

End Writer.

Section WriterStructure.

Implicit Types (s : ABDS.t) (e : EBML.t) (off : Z).

Lemma writeEBML_Array s off (items : list EBML.t) :
  EBML.writeEBML s off (EBML.Array items) =
    '(s', items') ← EBML.writeSiblings off s items; ok (s', EBML.Array items').
Proof. reflexivity. Qed.

Lemma writeSiblings_cons s off e (l : list EBML.t) :
  EBML.writeSiblings off s (e :: l) =
    '(s1, e') ← EBML.writeEBML s off e;
    '(s2, l') ← EBML.writeSiblings off s1 l;
    ok (s2, e' :: l').
Proof. reflexivity. Qed.

(** A container with a determinate size: the id, four placeholder bytes,
    the children, and then the size field patched over the placeholder with
    the cursor put back after the children. *)
Lemma writeEBML_container s off (id : Z) (size : option Z)
    (children : list EBML.t) (o d : option Z) :
  id <> 0 -> EBML.unbounded size = false ->
  EBML.writeEBML s off (EBML.Element id size (EBML.Array children) o d) =
    let s1 := writeBytes (VINT.writtenUInt id (measureUnsignedInt id)) s in
    let s2 := writeBytes [0; 0; 0; 0] s1 in
    '(s3, data') ← EBML.writeEBML s2 off (EBML.Array children);
    let size' := pos s3 - pos s2 in
    ok (seek (pos s3) (writeBytes (VINT.written size' 4) (seek (pos s1) s3)),
        EBML.Element id (Some size') data' (Some (pos s + off)) (Some (pos s2 + off))).
Proof.
  intros Hid Hsize. cbn [EBML.writeEBML].
  destruct (Z.eqb_spec id 0) as [|_]; [contradiction|].
  rewrite writeUnsignedIntBE_id. cbn [mbind result_bind]. rewrite Hsize.
  fold (EBML.writeSiblings off).
  rewrite <- writeEBML_Array. cbv zeta.
  destruct (EBML.writeEBML _ off (EBML.Array children)) as [err|[s3 data']];
    [reflexivity|].
  cbn [mbind result_bind].
  rewrite writeEBMLVarIntWidth_written by lia. reflexivity.
Qed.

(** The unbounded container: the id, the byte [0xFF], the children. *)
Lemma writeEBML_unbounded s off (id : Z) (size : option Z)
    (children : list EBML.t) (o d : option Z) :
  id <> 0 -> EBML.unbounded size = true ->
  EBML.writeEBML s off (EBML.Element id size (EBML.Array children) o d) =
    let s1 := writeBytes (VINT.writtenUInt id (measureUnsignedInt id)) s in
    let s2 := writeByte 255 s1 in
    '(s3, data') ← EBML.writeEBML s2 off (EBML.Array children);
    ok (s3, EBML.Element id size data' (Some (pos s + off)) (Some (pos s2 + off))).
Proof.
  intros Hid Hsize. cbn [EBML.writeEBML].
  destruct (Z.eqb_spec id 0) as [|_]; [contradiction|].
  rewrite writeUnsignedIntBE_id. cbn [mbind result_bind]. rewrite Hsize.
  fold (EBML.writeSiblings off).
  rewrite <- writeEBML_Array. cbv zeta.
  destruct (EBML.writeEBML _ off (EBML.Array children)) as [err|[s3 data']];
    reflexivity.
Qed.

(** Patching the size field leaves everything outside the four bytes of
    the placeholder as the children left it. *)
Lemma lookup_patch (size sizePos : Z) s (j : nat) :
  Z.of_nat j < sizePos \/ sizePos + 4 <= Z.of_nat j ->
  data (seek (pos s) (writeBytes (VINT.written size 4) (seek sizePos s))) !! j
    = data s !! j.
Proof.
  intros Hj. cbn [seek data].
  rewrite lookup_writeBytes_outside; [reflexivity|].
  cbn [seek pos]. change (Z.of_nat (length (VINT.written size 4))) with 4. exact Hj.
Qed.

Lemma length_patch (size sizePos : Z) s :
  length (data (seek (pos s) (writeBytes (VINT.written size 4) (seek sizePos s))))
    = length (data s).
Proof. cbn [seek data]. rewrite length_writeBytes. reflexivity. Qed.

(** The placeholder holds the bytes of the size field. *)
Lemma slice_patch (size sizePos : Z) s :
  0 <= sizePos -> sizePos + 4 <= byteLength s ->
  slice sizePos 4 (data (seek (pos s) (writeBytes (VINT.written size 4) (seek sizePos s))))
    = map JS.ToUint8 (VINT.written size 4).
Proof.
  intros Hpos Hcap. cbn [seek data].
  apply (slice_writeBytes (VINT.written size 4) (seek sizePos s)).
  - exact Hpos.
  - cbn [seek pos]. exact Hcap.
Qed.

End WriterStructure.

Section WriterFrame.

Implicit Types (s : ABDS.t) (e : EBML.t) (off : Z).

Lemma extends_writeEBMLVarInt (i : Z) s s' :
  writeEBMLVarInt i s = ok s' -> extends s s'.
Proof.
  intros H. apply writeEBMLVarInt_inv in H. destruct H as (w & _ & _ & ->).
  apply extends_writeBytes.
Qed.

Lemma extends_writeUnsignedIntBE (u : Z) (width : option Z) s s' :
  writeUnsignedIntBE u width s = ok s' -> extends s s'.
Proof.
  intros H. apply writeUnsignedIntBE_inv in H. destruct H as (w & _ & _ & ->).
  apply extends_writeBytes.
Qed.

Lemma extends_patch (size sizePos : Z) s0 s :
  pos s0 <= sizePos -> extends s0 s ->
  extends s0 (seek (pos s) (writeBytes (VINT.written size 4) (seek sizePos s))).
Proof.
  intros Hpos (Hp & Hl & Hd). split; [exact Hp|]. split.
  - rewrite length_patch. exact Hl.
  - intros j Hj. rewrite lookup_patch by lia. apply Hd. exact Hj.
Qed.

Ltac bind_inv H :=
  match type of H with
  | (?m ≫= _) = ok _ =>
      let E := fresh "E" in
      destruct m as [?|?] eqn:E; [discriminate H|]; cbn [mbind result_bind] in H
  end.

(** [writeEBML] only moves forward: it never touches what lies before the
    cursor it is given, and never moves the cursor back. *)
Lemma writeEBML_extends e :
  forall s off s' e', EBML.writeEBML s off e = ok (s', e') -> extends s s'.
Proof.
  induction e as [items IH|str|b|n|bits|bits|id size data o d IH|]
    using EBML.t_ind; intros s off s' e' H; try discriminate H.
  - rewrite writeEBML_Array in H. bind_inv H. destruct p as [s1 items'].
    injection H as <- _. clear e'.
    revert s s1 items' E. induction IH as [|x l Hx _ IHl]; intros s s1 items' E.
    + injection E as <- _. apply extends_refl.
    + rewrite writeSiblings_cons in E. bind_inv E. destruct p as [sx x'].
      bind_inv E. destruct p as [sl l']. injection E as <- _.
      eapply extends_trans; [eapply Hx; eassumption|]. eapply IHl; eassumption.
  - injection H as <- _. rewrite writeString_writeBytes. apply extends_writeBytes.
  - injection H as <- _. apply extends_writeBytes.
  - destruct (Z.eq_dec id 0) as [->|Hid]; [discriminate H|].
    destruct data as [children|str|b|n|bits|bits| |].
    + destruct (EBML.unbounded size) eqn:Hsize.
      * rewrite writeEBML_unbounded in H by assumption. cbv zeta in H.
        bind_inv H. destruct p as [s3 data']. injection H as <- _.
        eapply extends_trans; [apply extends_writeBytes|].
        eapply extends_trans; [apply (extends_writeBytes [255])|].
        eapply IH. eassumption.
      * rewrite writeEBML_container in H by assumption. cbv zeta in H.
        bind_inv H. destruct p as [s3 data']. injection H as <- _.
        apply extends_patch; [rewrite pos_writeBytes; lia|].
        eapply extends_trans; [apply extends_writeBytes|].
        eapply extends_trans; [apply (extends_writeBytes [0; 0; 0; 0])|].
        eapply IH. eassumption.
    + cbn [EBML.writeEBML] in H.
      destruct (Z.eqb_spec id 0) as [|_]; [contradiction|].
      rewrite writeUnsignedIntBE_id in H. cbn [mbind result_bind] in H.
      bind_inv H. injection H as <- _.
      eapply extends_trans; [apply extends_writeBytes|].
      eapply extends_trans; [eapply extends_writeEBMLVarInt; eassumption|].
      rewrite writeString_writeBytes. apply extends_writeBytes.
    + cbn [EBML.writeEBML] in H.
      destruct (Z.eqb_spec id 0) as [|_]; [contradiction|].
      rewrite writeUnsignedIntBE_id in H. cbn [mbind result_bind] in H.
      bind_inv H. injection H as <- _.
      eapply extends_trans; [apply extends_writeBytes|].
      eapply extends_trans; [eapply extends_writeEBMLVarInt; eassumption|].
      apply extends_writeBytes.
    + cbn [EBML.writeEBML] in H.
      destruct (Z.eqb_spec id 0) as [|_]; [contradiction|].
      rewrite writeUnsignedIntBE_id in H. cbn [mbind result_bind] in H.
      bind_inv H. bind_inv H. injection H as <- _.
      eapply extends_trans; [apply extends_writeBytes|].
      eapply extends_trans; [eapply extends_writeEBMLVarInt; eassumption|].
      eapply extends_writeUnsignedIntBE; eassumption.
    + cbn [EBML.writeEBML] in H.
      destruct (Z.eqb_spec id 0) as [|_]; [contradiction|].
      rewrite writeUnsignedIntBE_id in H. cbn [mbind result_bind] in H.
      bind_inv H. injection H as <- _.
      eapply extends_trans; [apply extends_writeBytes|].
      eapply extends_trans; [eapply extends_writeEBMLVarInt; eassumption|].
      apply extends_writeBytes.
    + cbn [EBML.writeEBML] in H.
      destruct (Z.eqb_spec id 0) as [|_]; [contradiction|].
      rewrite writeUnsignedIntBE_id in H. cbn [mbind result_bind] in H.
      bind_inv H. injection H as <- _.
      eapply extends_trans; [apply extends_writeBytes|].
      eapply extends_trans; [eapply extends_writeEBMLVarInt; eassumption|].
      apply extends_writeBytes.
    + cbn [EBML.writeEBML] in H.
      destruct (Z.eqb_spec id 0) as [|_]; [contradiction|].
      rewrite writeUnsignedIntBE_id in H. discriminate H.
    + cbn [EBML.writeEBML] in H.
      destruct (Z.eqb_spec id 0) as [|_]; [contradiction|].
      rewrite writeUnsignedIntBE_id in H. discriminate H.
Qed.

End WriterFrame.

Section SizePatching.

Implicit Types (s : ABDS.t) (off : Z).

(** The bytes an element occupies before its children: the id, then the
    four bytes of the size field. *)
Lemma container_layout s (id : Z) :
  let s1 := writeBytes (VINT.writtenUInt id (measureUnsignedInt id)) s in
  let s2 := writeBytes [0; 0; 0; 0] s1 in
  pos s1 = pos s + measureUnsignedInt id /\ pos s2 = pos s1 + 4 /\
  byteLength s2 = byteLength s.
Proof.
  cbv zeta. rewrite !pos_writeBytes.
  rewrite (length_writtenUInt id _ (measureUnsignedInt_range id)).
  unfold byteLength. rewrite !length_writeBytes. simpl length. lia.
Qed.

(** What [writeEBML] stores for a container of determinate size, whatever
    the size: the id, the size field as [writeEBMLVarIntWidth(size, 4)]
    writes it, and the children's bytes. *)
Lemma writeEBML_container_stored s off (id : Z) (size : option Z)
    (children : list EBML.t) (o d : option Z) (s3 : ABDS.t) (children' : EBML.t) :
  id <> 0 -> EBML.unbounded size = false ->
  let s1 := writeBytes (VINT.writtenUInt id (measureUnsignedInt id)) s in
  let s2 := writeBytes [0; 0; 0; 0] s1 in
  EBML.writeEBML s2 off (EBML.Array children) = ok (s3, children') ->
  0 <= pos s -> pos s2 <= byteLength s ->
  exists s',
    EBML.writeEBML s off (EBML.Element id size (EBML.Array children) o d)
      = ok (s', EBML.Element id (Some (pos s3 - pos s2)) children'
                  (Some (pos s + off)) (Some (pos s2 + off))) /\
    pos s' = pos s3 /\
    0 <= pos s3 - pos s2 /\
    slice (pos s) (Z.to_nat (measureUnsignedInt id)) (data s')
      = map JS.ToUint8 (VINT.writtenUInt id (measureUnsignedInt id)) /\
    slice (pos s1) 4 (data s')
      = map JS.ToUint8 (VINT.written (pos s3 - pos s2) 4) /\
    forall j : nat, pos s2 <= Z.of_nat j -> data s' !! j = data s3 !! j.
Proof.
  intros Hid Hsize s1 s2 Hchildren Hpos Hcap.
  destruct (container_layout s id) as (Hp1 & Hp2 & Hlen). fold s1 s2 in Hp1, Hp2, Hlen.
  pose proof (measureUnsignedInt_range id) as Hw.
  pose proof (writeEBML_extends _ _ _ _ _ Hchildren) as (Hp3 & Hl3 & Hd3).
  eexists. split; [|split; [|split; [|split; [|split]]]].
  - rewrite writeEBML_container by assumption. cbv zeta. fold s1 s2.
    rewrite Hchildren. reflexivity.
  - reflexivity.
  - lia.
  - unfold slice. apply list_eq. intros k.
    pose proof (slice_writeBytes (VINT.writtenUInt id (measureUnsignedInt id)) s
                  Hpos ltac:(rewrite length_writtenUInt by exact Hw; lia)) as Hid_bytes.
    rewrite <- Hid_bytes. fold s1. unfold slice.
    replace (length (VINT.writtenUInt id (measureUnsignedInt id)))
      with (Z.to_nat (measureUnsignedInt id))
      by (pose proof (length_writtenUInt id _ Hw); lia).
    destruct (decide (k < Z.to_nat (measureUnsignedInt id))%nat) as [Hk|Hk].
    + rewrite !lookup_take_lt by exact Hk. rewrite !lookup_drop.
      rewrite lookup_patch by lia. rewrite Hd3 by lia.
      apply lookup_writeBytes_outside. left. lia.
    + rewrite !lookup_take_ge by lia. reflexivity.
  - apply slice_patch; [lia|]. unfold byteLength in *. rewrite Hl3. lia.
  - intros j Hj. apply lookup_patch. right. lia.
Qed.

(** C3. Element size patching: for a container whose size is not declared
    unbounded, whose size field lies within the buffer and whose children
    occupy fewer than [2^28] bytes, [writeEBML] writes the id, then the four
    bytes of the size field, then the children in order; the four bytes
    finally stored decode, as a VINT, to exactly the number of bytes the
    children occupy (end position minus data-start position), the children's
    bytes are as they were written, and the cursor rests at their end. *)
Theorem writeEBML_patches_size s off (id : Z) (size : option Z)
    (children : list EBML.t) (o d : option Z) (s3 : ABDS.t) (children' : EBML.t) :
  id <> 0 -> EBML.unbounded size = false ->
  let s1 := writeBytes (VINT.writtenUInt id (measureUnsignedInt id)) s in
  let s2 := writeBytes [0; 0; 0; 0] s1 in
  EBML.writeEBML s2 off (EBML.Array children) = ok (s3, children') ->
  0 <= pos s -> pos s2 <= byteLength s ->
  pos s3 - pos s2 < 2 ^ 28 ->
  exists s',
    EBML.writeEBML s off (EBML.Element id size (EBML.Array children) o d)
      = ok (s', EBML.Element id (Some (pos s3 - pos s2)) children'
                  (Some (pos s + off)) (Some (pos s2 + off))) /\
    pos s1 = pos s + measureUnsignedInt id /\ pos s2 = pos s1 + 4 /\
    slice (pos s) (Z.to_nat (measureUnsignedInt id)) (data s')
      = map JS.ToUint8 (VINT.writtenUInt id (measureUnsignedInt id)) /\
    VINT.decode (slice (pos s1) 4 (data s')) = Some (pos s3 - pos s2, []) /\
    (forall j : nat, pos s2 <= Z.of_nat j -> data s' !! j = data s3 !! j) /\
    pos s' = pos s3.
Proof.
  intros Hid Hsize s1 s2 Hchildren Hpos Hcap Hfits.
  destruct (writeEBML_container_stored s off id size children o d s3 children'
              Hid Hsize Hchildren Hpos Hcap)
    as (s' & Hwrite & Hend & Hnonneg & Hidbytes & Hfield & Hdata).
  destruct (container_layout s id) as (Hp1 & Hp2 & _).
  exists s'. split; [exact Hwrite|]. split; [exact Hp1|]. split; [exact Hp2|].
  split; [exact Hidbytes|]. split; [|split; [exact Hdata|exact Hend]].
  subst s1 s2. rewrite Hfield. apply decode_written; [lia|].
  change (7 * 4) with 28. lia.
Qed.

Lemma writeEBML_patches_size_witness :
  let s := ABDS.seek 2 (ABDS.new 32) in
  let children := [EBML.Bytes [1; 2; 3]; EBML.elem 0xe7 (EBML.Number 300)] in
  exists s',
    EBML.writeEBML s 10 (EBML.elem 0x1f43b675 (EBML.Array children))
      = ok (s', EBML.Element 0x1f43b675 (Some 7)
                  (EBML.Array
                     [EBML.Bytes [1; 2; 3];
                      EBML.Element 0xe7 (Some 2) (EBML.Number 300) (Some 23) (Some 25)])
                  (Some 12) (Some 20)) /\
    VINT.decode (slice 6 4 (data s')) = Some (7, []) /\
    pos s' = 17.
Proof.
  destruct (writeEBML_patches_size (ABDS.seek 2 (ABDS.new 32)) 10 0x1f43b675 None
              [EBML.Bytes [1; 2; 3]; EBML.elem 0xe7 (EBML.Number 300)] None None
              (ABDS.mk ([0; 0; 31; 67; 182; 117; 0; 0; 0; 0; 1; 2; 3; 231; 130; 1; 44]
                        ++ replicate 15 0) 17)
              (EBML.Array
                 [EBML.Bytes [1; 2; 3];
                  EBML.Element 0xe7 (Some 2) (EBML.Number 300) (Some 23) (Some 25)]))
    as (s' & Hwrite & _ & _ & _ & Hfield & _ & Hend);
    [discriminate|reflexivity|reflexivity|vm_compute; discriminate
    |vm_compute; discriminate|vm_compute; reflexivity|].
  exists s'. split; [exact Hwrite|]. split; [exact Hfield|exact Hend].
Defined.

End SizePatching.

Section SizeFieldLimit.

(** Four bytes hold 28 bits: a container whose children occupy [2^28] bytes
    has its size written as the four bytes [10 00 00 00], which decode to 0. *)
Lemma size_field_wraps (b : list Z) (s : ABDS.t) :
  Z.of_nat (length b) = 268435456 -> pos s = 0 -> byteLength s = 268435461 ->
  exists s' e',
    EBML.writeEBML s 0 (EBML.elem 0xa3 (EBML.Array [EBML.Bytes b])) = ok (s', e') /\
    EBML.sizeOf e' = Some 268435456 /\
    pos s' - 5 = 268435456 /\
    VINT.decode (slice 1 4 (data s')) = Some (0, []).
Proof.
  intros Hb Hpos Hcap.
  pose proof (container_layout s 0xa3) as (Hp1 & Hp2 & _). cbv zeta in Hp1, Hp2.
  change (measureUnsignedInt 163) with 1 in Hp1 at 2.
  remember (writeBytes (VINT.writtenUInt 163 (measureUnsignedInt 163)) s) as s1 eqn:Hs1.
  remember (writeBytes [0; 0; 0; 0] s1) as s2 eqn:Hs2.
  assert (Hchildren : EBML.writeEBML s2 0 (EBML.Array [EBML.Bytes b])
                      = ok (writeBytes b s2, EBML.Array [EBML.Bytes b]))
    by reflexivity.
  assert (Hpos0 : 0 <= pos s) by lia.
  assert (Hcap2 : pos s2 <= byteLength s) by lia.
  rewrite Hs2, Hs1 in Hchildren, Hcap2.
  destruct (writeEBML_container_stored s 0 0xa3 None [EBML.Bytes b] None None
              _ _
              ltac:(discriminate) eq_refl Hchildren Hpos0 Hcap2)
    as (s' & Hwrite & Hend & _ & _ & Hfield & _).
  rewrite <- Hs1 in Hwrite, Hfield, Hend. rewrite <- Hs2 in Hwrite, Hfield, Hend.
  assert (Hsize : pos (writeBytes b s2) - pos s2 = 268435456)
    by (rewrite pos_writeBytes; lia).
  rewrite Hsize in Hwrite, Hfield.
  exists s'. eexists. split; [exact Hwrite|]. split; [reflexivity|].
  split; [rewrite Hend, pos_writeBytes; lia|].
  replace (pos s1) with 1 in Hfield by lia. rewrite Hfield. reflexivity.
Qed.

(** The placeholder of C3 as stated, on a container of 256 MiB: the element
    [{id: 0xa3, data: [new Uint8Array(268435456)]}] written to a buffer that
    holds all of it.  The children occupy 268435456 bytes, and the size
    field decodes to 0. *)
Lemma writeEBML_size_field_overflow :
  exists s' e',
    EBML.writeEBML (ABDS.new 268435461) 0
      (EBML.elem 0xa3
         (EBML.Array [EBML.Bytes (replicate (Z.to_nat 268435456) 0)])) = ok (s', e') /\
    EBML.sizeOf e' = Some 268435456 /\
    pos s' - 5 = 268435456 /\
    VINT.decode (slice 1 4 (data s')) = Some (0, []).
Proof.
  apply size_field_wraps.
  - rewrite length_replicate. lia.
  - reflexivity.
  - unfold byteLength, ABDS.new. cbn [data]. rewrite length_replicate. lia.
Qed.

(** The size field is also lost when it lies beyond the capacity: the
    stores are dropped, and only the bytes within the array remain. *)
Example writeEBML_size_field_beyond_capacity :
  exists s' e',
    EBML.writeEBML (ABDS.new 3) 0
      (EBML.elem 0xa3 (EBML.Array [EBML.Bytes [1; 2; 3]])) = ok (s', e') /\
    pos s' = 8 /\ slice 1 4 (data s') = [16; 0].
Proof. eexists. eexists. split; [reflexivity|]. split; reflexivity. Qed.

End SizeFieldLimit.

(** ** The muxer *)

Section Muxer.

Import WebMWriter.

Implicit Types (st : WebMWriter.t) (s : ABDS.t).

Ltac bind_inv H :=
  match type of H with
  | (?m ≫= _) = ok _ =>
      let E := fresh "E" in
      destruct m as [?|?] eqn:E; [discriminate H|]; cbn [mbind result_bind] in H
  end.

Lemma byteLength_new (n : Z) : 0 <= n -> byteLength (ABDS.new n) = n.
Proof.
  intros Hn. unfold byteLength, ABDS.new. cbn [data].
  rewrite length_replicate. lia.
Qed.

(** A written container starts with its id, and remembers where it went. *)
Lemma writeEBML_container_id s (off id : Z) (size : option Z)
    (children : list EBML.t) (o d : option Z) (s' : ABDS.t) (e' : EBML.t) :
  id <> 0 -> EBML.unbounded size = false ->
  0 <= pos s -> pos s + measureUnsignedInt id + 4 <= byteLength s ->
  EBML.writeEBML s off (EBML.Element id size (EBML.Array children) o d) = ok (s', e') ->
  slice (pos s) (Z.to_nat (measureUnsignedInt id)) (data s')
    = map JS.ToUint8 (VINT.writtenUInt id (measureUnsignedInt id)) /\
  pos s + measureUnsignedInt id + 4 <= pos s' /\
  EBML.offsetOf e' = Some (pos s + off).
Proof.
  intros Hid Hsize Hpos Hcap H.
  pose proof H as H'. rewrite writeEBML_container in H' by assumption.
  cbv zeta in H'. bind_inv H'. destruct p as [s3 children'].
  destruct (container_layout s id) as (Hp1 & Hp2 & _). cbv zeta in Hp1, Hp2.
  assert (Hcap2 : pos (writeBytes [0; 0; 0; 0]
                         (writeBytes (VINT.writtenUInt id (measureUnsignedInt id)) s))
                  <= byteLength s) by lia.
  destruct (writeEBML_container_stored s off id size children o d s3 children'
              Hid Hsize E Hpos Hcap2)
    as (s'' & Hwrite & Hend & Hnonneg & Hidbytes & _).
  rewrite H in Hwrite. injection Hwrite as <- ->.
  split; [exact Hidbytes|]. split; [lia|reflexivity].
Qed.

Lemma rawImageSize_nonneg (frames : list Frame) (a : Z) :
  a <= fold_left (fun n f => n + Z.of_nat (length (frame f))) frames a.
Proof.
  revert a. induction frames as [|f frames IH]; intros a; simpl; [lia|].
  etransitivity; [|apply IH]. lia.
Qed.

(** What a flush of a non-empty buffer does, when it completes. *)
Lemma flushClusterFrameBuffer_spec st st' :
  clusterFrameBuffer st <> [] ->
  flushClusterFrameBuffer st = ok st' ->
  clusterFrameBuffer st' = [] /\
  clusterDuration st' = 0 /\
  (exists bytes seg dOff,
     ebmlSegment st = Some seg /\ EBML.dataOffsetOf seg = Some dOff /\
     blobBuffer st' = BlobBuffer.write bytes (blobBuffer st) /\
     take 4 bytes = clusterId /\
     cues st' = cues st ++
       [cuePoint DEFAULT_TRACK_NUMBER (round (clusterStartTime st))
          (BlobBuffer.pos (blobBuffer st) - dOff)]) /\
  clusterStartTime st' = clusterStartTime st /\
  lastTimeCode st' = lastTimeCode st /\
  earliestTimestamp st' = earliestTimestamp st /\
  firstTimestampEver st' = firstTimestampEver st /\
  writtenHeader st' = writtenHeader st /\
  ebmlSegment st' = ebmlSegment st.
Proof.
  intros Hne H. unfold flushClusterFrameBuffer in H.
  destruct (clusterFrameBuffer st) as [|f frames] eqn:Hbuf; [contradiction|].
  bind_inv H. rename l into blocks.
  bind_inv H. destruct p as [buffer cluster].
  bind_inv H. rename l into bytes.
  destruct (EBML.offsetOf cluster) as [offset|] eqn:Hoffset; [|discriminate H].
  bind_inv H. rename t0 into st2. injection H as <-.
  unfold addCuePoint, fileOffsetToSegmentRelative in E2.
  cbn [ebmlSegment set_blobBuffer] in E2.
  destruct (ebmlSegment st) as [seg|] eqn:Hseg; [|discriminate E2].
  destruct (EBML.dataOffsetOf seg) as [dOff|] eqn:HdOff; [|discriminate E2].
  cbn [mbind result_bind] in E2. injection E2 as <-.
  (* the bytes of the cluster *)
  set (cap := fold_left (fun n f0 => n + Z.of_nat (length (frame f0))) (f :: frames) 0
              + Z.of_nat (length (f :: frames)) * 64) in *.
  assert (Hcap : 64 <= cap).
  { subst cap. pose proof (rawImageSize_nonneg (f :: frames) 0). simpl length. lia. }
  unfold createCluster, EBML.elem in E0.
  apply writeEBML_container_id in E0;
    [|discriminate|reflexivity|simpl; lia
     |rewrite byteLength_new by lia; change (measureUnsignedInt 524531317) with 4;
      simpl; lia].
  destruct E0 as (Hid & Hend & Hoff).
  change (measureUnsignedInt 524531317) with 4 in Hid, Hend.
  change (pos (ABDS.new cap)) with 0 in Hid, Hend, Hoff.
  rewrite Hoffset in Hoff. injection Hoff as ->.
  assert (Hbytes : take 4 bytes = clusterId).
  { assert (Hle : pos buffer <= byteLength buffer).
    { destruct (Z.le_gt_cases (pos buffer) (byteLength buffer)) as [Hle|Hgt];
        [exact Hle|].
      rewrite getAsDataArray_beyond in E1 by lia. discriminate E1. }
    rewrite getAsDataArray_prefix in E1 by lia. injection E1 as <-.
    rewrite take_take. rewrite Nat.min_l by lia. exact Hid. }
  cbn. rewrite Z.add_0_l.
  split; [reflexivity|]. split; [reflexivity|].
  split; [|repeat split; first [reflexivity|exact Hseg]].
  exists bytes, seg, dOff.
  split; [first [reflexivity|exact Hseg]|]. split; [exact HdOff|].
  split; [reflexivity|]. split; [exact Hbytes|reflexivity].
Qed.

End Muxer.

Section MuxerHeader.

Import WebMWriter.

Implicit Types (st : WebMWriter.t) (s : ABDS.t).

Lemma extends_take s s' (n : nat) :
  extends s s' -> Z.of_nat n <= pos s -> take n (data s') = take n (data s).
Proof.
  intros (_ & _ & Hd) Hn. apply list_eq. intros j.
  destruct (decide (j < n)%nat) as [Hj|Hj].
  - rewrite !lookup_take_lt by exact Hj. apply Hd. lia.
  - rewrite !lookup_take_ge by lia. reflexivity.
Qed.

Lemma writeHeader_unfold st :
  writeHeader st =
    ('(bufferStream, written) ←
       EBML.writeEBML (ABDS.new 256) (BlobBuffer.pos (blobBuffer st))
         (EBML.Array [ebmlHeader;
          EBML.elemSized 0x18538067 (-1)
            (EBML.Array [createSeekHead; segmentInfo; tracks st])]);
     bytes ← ABDS.getAsDataArray bufferStream;
     match written with
     | EBML.Array [_; segment] =>
         match child 0 segment, child 1 segment, child 2 segment with
         | Some seekHead, Some segmentInfo, Some tracks =>
             match EBML.dataOffsetOf segment,
                   EBML.offsetOf segmentInfo, EBML.offsetOf tracks with
             | Some d, Some infoOffset, Some tracksOffset =>
                 ok (set_header (videoWidth st) (videoHeight st)
                       (Some segment) (Some seekHead)
                       {| seekCues := seekCues (seekPoints st);
                          seekSegmentInfo := infoOffset - d;
                          seekTracks := tracksOffset - d |}
                       (BlobBuffer.write bytes (blobBuffer st)) st)
             | _, _, _ => throw TypeError
             end
         | _, _, _ => throw TypeError
         end
     | _ => throw TypeError
     end).
Proof. reflexivity. Qed.

(** What [writeHeader] does, when it completes: one write, which is not a
    Cluster, and a segment that knows where its data starts. *)
Lemma writeHeader_spec st st' :
  writeHeader st = ok st' ->
  writtenHeader st' = true /\
  (exists seg dOff, ebmlSegment st' = Some seg /\ EBML.dataOffsetOf seg = Some dOff) /\
  (exists bytes, blobBuffer st' = BlobBuffer.write bytes (blobBuffer st) /\
                 take 4 bytes <> clusterId) /\
  cues st' = cues st /\
  clusterFrameBuffer st' = clusterFrameBuffer st /\
  clusterDuration st' = clusterDuration st /\
  clusterStartTime st' = clusterStartTime st /\
  lastTimeCode st' = lastTimeCode st /\
  earliestTimestamp st' = earliestTimestamp st /\
  firstTimestampEver st' = firstTimestampEver st.
Proof.
  intros H. rewrite writeHeader_unfold in H.
  bind_ok H as Ewrite. destruct p as [bufferStream written].
  bind_ok H as Ebytes. rename l into bytes.
  assert (Hbytes : take 4 bytes <> clusterId).
  { rewrite writeEBML_Array in Ewrite. bind_ok Ewrite as Eitems.
    destruct p as [sF items']. injection Ewrite as <- _.
    rewrite writeSiblings_cons in Eitems. bind_ok Eitems as Eheader.
    destruct p as [sA header']. bind_ok Eitems as Erest.
    destruct p as [sB rest']. injection Eitems as <- _.
    rewrite writeSiblings_cons in Erest. bind_ok Erest as Esegment.
    destruct p as [sC segment'].
    cbn [EBML.writeSiblings mbind result_bind] in Erest. injection Erest as <- _.
    apply writeEBML_extends in Esegment.
    unfold ebmlHeader, EBML.elem in Eheader.
    apply writeEBML_container_id in Eheader;
      [|discriminate|reflexivity|simpl; lia|vm_compute; discriminate].
    destruct Eheader as (Hid & Hend & _).
    change (measureUnsignedInt 440786851) with 4 in Hid, Hend.
    change (pos (ABDS.new 256)) with 0 in Hid, Hend.
    assert (Hle : pos sC <= byteLength sC).
    { destruct (Z.le_gt_cases (pos sC) (byteLength sC)) as [Hle|Hgt]; [exact Hle|].
      rewrite getAsDataArray_beyond in Ebytes by lia. discriminate Ebytes. }
    pose proof Esegment as (Hpos & _).
    rewrite getAsDataArray_prefix in Ebytes by lia. injection Ebytes as <-.
    rewrite take_take, Nat.min_l by lia.
    rewrite (extends_take sA sC 4 Esegment) by lia.
    unfold slice in Hid. change (Z.to_nat 0) with 0%nat in Hid.
    rewrite drop_0 in Hid. change (Z.to_nat 4) with 4%nat in Hid.
    rewrite Hid. vm_compute. discriminate. }
  destruct written as [items| | | | | | |]; try discriminate H.
  destruct items as [|hdr [|segment [|]]]; try discriminate H.
  destruct (child 0 segment) as [sh|]; [|discriminate H].
  destruct (child 1 segment) as [info|]; [|discriminate H].
  destruct (child 2 segment) as [tr|]; [|discriminate H].
  destruct (EBML.dataOffsetOf segment) as [dOff|] eqn:HdOff; [|discriminate H].
  destruct (EBML.offsetOf info) as [infoOffset|]; [|discriminate H].
  destruct (EBML.offsetOf tr) as [tracksOffset|]; [|discriminate H].
  injection H as <-.
  cbn [set_header writtenHeader ebmlSegment blobBuffer cues clusterFrameBuffer
       clusterDuration clusterStartTime lastTimeCode earliestTimestamp
       firstTimestampEver].
  split; [reflexivity|]. split; [exists segment, dOff; split; [reflexivity|exact HdOff]|].
  split; [exists bytes; split; [reflexivity|exact Hbytes]|].
  repeat split; reflexivity.
Qed.

End MuxerHeader.

Section ClusterInvariant.

Import WebMWriter.

Implicit Types (st : WebMWriter.t) (f : Frame).

Lemma clustersWritten_write (bytes : list Z) (b : BlobBuffer.t) :
  clustersWritten (BlobBuffer.write bytes b) =
    (clustersWritten b + (if decide (take 4 bytes = clusterId) then 1 else 0))%nat.
Proof.
  unfold clustersWritten, BlobBuffer.write. cbn [BlobBuffer.writes].
  rewrite filter_app, length_app. f_equal.
  rewrite filter_cons, filter_nil. cbn [snd].
  destruct (decide (take 4 bytes = clusterId)); reflexivity.
Qed.

(** The fields [queueFrame] assigns. *)
Lemma queueFrame_fields f st :
  let queued := queueFrame f st in
  exists timecode,
    clusterFrameBuffer queued = clusterFrameBuffer st ++
      [ {| frame := frame f; intime := intime f; type := type f;
           trackNumber := DEFAULT_TRACK_NUMBER; timecode := timecode |} ] /\
    timecode = round (lastTimeCode queued - clusterStartTime queued) /\
    clusterDuration queued = timecode + 1 /\
    lastTimeCode queued =
      (if firstTimestampEver st then 0%Q
       else (inject_Z (intime f) / 1000 - earliestTimestamp st)%Q) /\
    clusterStartTime queued =
      (if clusterDuration st =? 0 then lastTimeCode queued else clusterStartTime st) /\
    earliestTimestamp queued =
      (if firstTimestampEver st then (inject_Z (intime f) / 1000)%Q
       else earliestTimestamp st) /\
    firstTimestampEver queued = false /\
    cues queued = cues st /\ blobBuffer queued = blobBuffer st /\
    writtenHeader queued = writtenHeader st /\ ebmlSegment queued = ebmlSegment st.
Proof.
  cbv zeta. unfold queueFrame.
  destruct (firstTimestampEver st) eqn:Hfirst;
    destruct (Z.eqb_spec (clusterDuration st) 0) as [Hzero|Hnonzero];
    cbn; rewrite ?Hfirst;
    destruct (Z.eqb_spec (clusterDuration st) 0); try contradiction;
    eexists; repeat split; first [reflexivity|exact Hfirst].
Qed.

Lemma addFrameToCluster_unfold f st :
  addFrameToCluster f st =
    if MAX_CLUSTER_DURATION_MSEC <=? clusterDuration (queueFrame f st)
    then flushClusterFrameBuffer (queueFrame f st)
    else ok (queueFrame f st).
Proof. reflexivity. Qed.

Lemma addFrame_unfold (c : Chunk) st :
  addFrame c st =
    (st ← (if writtenHeader st then ok st
           else writeHeader (set_video (width (options st)) (height (options st)) st));
     match c with
     | EncodedVideoChunk bytes timestamp type =>
         addFrameToCluster
           {| frame := bytes; intime := timestamp; type := type;
              trackNumber := 0; timecode := 0 |} st
     | NotAChunk => ok st
     end).
Proof. reflexivity. Qed.

Lemma addFrameToCluster_invariant f st st' :
  length (cues st) = clustersWritten (blobBuffer st) ->
  addFrameToCluster f st = ok st' ->
  clusterDuration st' < MAX_CLUSTER_DURATION_MSEC /\
  length (cues st') = clustersWritten (blobBuffer st').
Proof.
  intros Hcues H. rewrite addFrameToCluster_unfold in H.
  destruct (queueFrame_fields f st)
    as (tc & Hbuf & _ & _ & _ & _ & _ & _ & Hc & Hb & _). cbv zeta in *.
  destruct (Z.leb_spec MAX_CLUSTER_DURATION_MSEC (clusterDuration (queueFrame f st)))
    as [Hfull|Hopen].
  - apply flushClusterFrameBuffer_spec in H;
      [|rewrite Hbuf; destruct (clusterFrameBuffer st); discriminate].
    destruct H as (_ & Hzero & (bytes & seg & dOff & _ & _ & Hblob & Hid & Hcue) & _).
    split; [rewrite Hzero; reflexivity|].
    rewrite Hcue, Hblob, length_app, clustersWritten_write, Hc, Hb, Hcues.
    destruct (decide (take 4 bytes = clusterId)); [reflexivity|contradiction].
  - injection H as <-. split; [exact Hopen|]. rewrite Hc, Hb. exact Hcues.
Qed.

Lemma addFrame_invariant (c : Chunk) st st' :
  clusterDuration st < MAX_CLUSTER_DURATION_MSEC ->
  length (cues st) = clustersWritten (blobBuffer st) ->
  addFrame c st = ok st' ->
  clusterDuration st' < MAX_CLUSTER_DURATION_MSEC /\
  length (cues st') = clustersWritten (blobBuffer st').
Proof.
  intros Hdur Hcues H. rewrite addFrame_unfold in H.
  bind_ok H as Hheader. rename t0 into sth.
  assert (Hsth : clusterDuration sth < MAX_CLUSTER_DURATION_MSEC /\
                 length (cues sth) = clustersWritten (blobBuffer sth)).
  { destruct (writtenHeader st).
    - injection Hheader as <-. auto.
    - apply writeHeader_spec in Hheader.
      destruct Hheader as (_ & _ & (bytes & Hblob & Hid) & Hc & _ & Hd & _).
      rewrite Hd, Hc, Hblob, clustersWritten_write. cbn.
      destruct (decide (take 4 bytes = clusterId)); [contradiction|].
      split; [exact Hdur|]. rewrite Hcues. lia. }
  destruct c as [bytes timestamp ty|].
  - eapply addFrameToCluster_invariant; [apply Hsth|exact H].
  - injection H as <-. exact Hsth.
Qed.

Lemma run_snoc (chunks : list Chunk) (c : Chunk) st :
  run (chunks ++ [c]) st = run chunks st ≫= addFrame c.
Proof. unfold run. rewrite foldl_app. reflexivity. Qed.

Lemma run_invariant (chunks : list Chunk) (options : Options) st :
  run chunks (new options) = ok st ->
  clusterDuration st < MAX_CLUSTER_DURATION_MSEC /\
  length (cues st) = clustersWritten (blobBuffer st).
Proof.
  revert st. induction chunks as [|c chunks IH] using rev_ind; intros st H.
  - injection H as <-. split; reflexivity.
  - rewrite run_snoc in H. bind_ok H as Hrun.
    destruct (IH _ eq_refl) as [Hdur Hcues].
    eapply addFrame_invariant; eassumption.
Qed.

End ClusterInvariant.

Section Timestamps.

Import WebMWriter.

Implicit Types (st : WebMWriter.t) (f : Frame).

Lemma round_nonneg (x : Q) : (0 <= x)%Q -> 0 <= round x.
Proof.
  intros Hx. unfold round.
  change 0 with (Qfloor 0). apply Qfloor_resp_le. Lqa.lra.
Qed.

Lemma round_zero : round (0 - 0) = 0.
Proof. reflexivity. Qed.

Lemma millis_le (a b : Z) : a <= b -> (inject_Z a / 1000 <= inject_Z b / 1000)%Q.
Proof.
  intros H. rewrite Zle_Qle in H. unfold Qdiv.
  apply Qmult_le_compat_r; [exact H|]. discriminate.
Qed.

(** Queueing a chunk that is not older than the latest one. *)
Lemma queueFrame_tracking (first latest : Z) f st :
  tracking first latest st -> latest <= intime f ->
  let queued := queueFrame f st in
  let time := (inject_Z (intime f) / 1000 - inject_Z first / 1000)%Q in
  lastTimeCode queued = time /\
  (exists fr,
     last (clusterFrameBuffer queued) = Some fr /\ frame fr = frame f /\
     timecode fr = round (time - clusterStartTime queued) /\
     0 <= timecode fr /\
     clusterDuration queued = timecode fr + 1) /\
  (clusterFrameBuffer st = [] -> clusterStartTime queued = time) /\
  (clusterFrameBuffer st <> [] -> clusterStartTime queued = clusterStartTime st) /\
  clusterFrameBuffer queued <> [] /\
  tracking first (intime f) queued.
Proof.
  intros (Hhdr & Hfirst & Hearliest & Hlast & Hstart & Hempty) Hle queued time.
  destruct (queueFrame_fields f st)
    as (tc & Hbuf & Htc & Hdur & Htime & Hcst & Hearly & Hfirst' & _ & _ & Hhdr' & _).
  cbv zeta in *. fold queued in Hbuf, Htc, Hdur, Htime, Hcst, Hearly, Hfirst', Hhdr'.
  rewrite Hfirst, Hearliest in Htime. fold time in Htime.
  rewrite Hfirst in Hearly.
  assert (Hmono : (lastTimeCode st <= time)%Q).
  { rewrite Hlast. subst time. pose proof (millis_le _ _ Hle). Lqa.lra. }
  assert (Hcst' : (clusterStartTime queued <= time)%Q).
  { rewrite Hcst. destruct (clusterDuration st =? 0).
    - rewrite Htime. Lqa.lra.
    - Lqa.lra. }
  assert (Htc0 : 0 <= tc).
  { rewrite Htc. apply round_nonneg. rewrite Htime. Lqa.lra. }
  split; [exact Htime|]. split; [|split; [|split; [|split]]].
  - eexists. rewrite Hbuf, last_snoc. split; [reflexivity|].
    cbn [frame timecode]. split; [reflexivity|].
    split; [rewrite Htc, Htime; reflexivity|]. split; [exact Htc0|exact Hdur].
  - intros Hnil. apply Hempty in Hnil. rewrite Hcst, Hnil. exact Htime.
  - intros Hne. rewrite Hcst.
    destruct (Z.eqb_spec (clusterDuration st) 0) as [Hz|_]; [|reflexivity].
    apply Hempty in Hz. contradiction.
  - rewrite Hbuf. destruct (clusterFrameBuffer st); discriminate.
  - unfold tracking. rewrite Hhdr', Hfirst', Hearly, Hearliest.
    split; [exact Hhdr|]. split; [reflexivity|]. split; [reflexivity|].
    split; [rewrite Htime; reflexivity|]. split; [rewrite Htime; exact Hcst'|].
    split.
    + intros Hnil. rewrite Hbuf in Hnil. destruct (clusterFrameBuffer st); discriminate.
    + intros Hz. lia.
Qed.

Lemma flush_tracking (first latest : Z) st st' :
  tracking first latest st -> clusterFrameBuffer st <> [] ->
  flushClusterFrameBuffer st = ok st' -> tracking first latest st'.
Proof.
  intros (Hhdr & Hfirst & Hearliest & Hlast & Hstart & Hempty) Hne H.
  destruct (flushClusterFrameBuffer_spec st st' Hne H)
    as (Hbuf & Hzero & _ & Hcst & Hltc & Hearly & Hfst & Hwh & _).
  unfold tracking. rewrite Hwh, Hfst, Hearly, Hltc, Hcst, Hbuf, Hzero.
  repeat split; assumption.
Qed.

Lemma addFrame_tracking (first latest : Z) (bytes : list Z) (ts : Z) (ty : string)
    st st' :
  tracking first latest st -> latest <= ts ->
  addFrame (EncodedVideoChunk bytes ts ty) st = ok st' ->
  tracking first ts st'.
Proof.
  intros Htr Hle H. pose proof Htr as (Hhdr & _).
  rewrite addFrame_unfold, Hhdr in H. cbn [mbind result_bind] in H.
  rewrite addFrameToCluster_unfold in H.
  match type of H with
  | context [queueFrame ?f0 st] =>
      destruct (queueFrame_tracking first latest f0 st Htr Hle)
        as (_ & _ & _ & _ & Hne & Htr')
  end.
  cbv zeta in *. cbn [intime] in Htr'.
  match type of H with
  | context [?a <=? ?b] => destruct (a <=? b)
  end.
  - eapply flush_tracking; eassumption.
  - injection H as <-. exact Htr'.
Qed.

(** The first chunk a writer sees. *)
Lemma addFrame_first_from (bytes : list Z) (ts : Z) (ty : string) st0 st :
  writtenHeader st0 = false -> firstTimestampEver st0 = true ->
  clusterDuration st0 = 0 -> clusterFrameBuffer st0 = [] ->
  addFrame (EncodedVideoChunk bytes ts ty) st0 = ok st ->
  lastTimeCode st = 0%Q /\
  earliestTimestamp st = (inject_Z ts / 1000)%Q /\
  clusterStartTime st = 0%Q /\
  clusterDuration st = 1 /\
  (exists fr, clusterFrameBuffer st = [fr] /\ frame fr = bytes /\ timecode fr = 0) /\
  tracking ts ts st.
Proof.
  intros Hnohdr Hfirst0 Hdur0 Hbuf0 H. rewrite addFrame_unfold, Hnohdr in H.
  bind_ok H as Hheader. rename t0 into sth.
  apply writeHeader_spec in Hheader.
  destruct Hheader as (Hwh & _ & _ & _ & Hbuf & Hdur & Hcst & Hltc & Hearly & Hfirst).
  cbn [set_video clusterFrameBuffer clusterDuration firstTimestampEver] in Hbuf, Hdur, Hfirst.
  rewrite Hbuf0 in Hbuf. rewrite Hdur0 in Hdur. rewrite Hfirst0 in Hfirst.
  clear Hcst Hltc Hearly.
  rewrite addFrameToCluster_unfold in H.
  match type of H with
  | context [queueFrame ?f0 sth] =>
      destruct (queueFrame_fields f0 sth)
        as (tc & Hqbuf & Htc & Hqdur & Htime & Hqcst & Hqearly & Hqfirst & _ & _
            & Hqhdr & _);
      cbv zeta in *; cbn [intime frame type] in Hqbuf, Htime, Hqearly;
      set (queued := queueFrame f0 sth) in *
  end.
  rewrite Hfirst in Htime, Hqearly. rewrite Hdur in Hqcst.
  change (0 =? 0) with true in Hqcst. cbv iota in Hqcst.
  rewrite Htime in Hqcst. rewrite Htime, Hqcst, round_zero in Htc. subst tc.
  rewrite Hqdur in H. change (MAX_CLUSTER_DURATION_MSEC <=? 0 + 1) with false in H.
  cbv iota in H. injection H as <-.
  rewrite Hbuf in Hqbuf. cbn [app] in Hqbuf.
  split; [exact Htime|]. split; [exact Hqearly|]. split; [exact Hqcst|].
  split; [exact Hqdur|]. split; [eexists; split; [exact Hqbuf|split; reflexivity]|].
  unfold tracking. rewrite Hqhdr, Hwh, Hqfirst, Hqearly, Htime, Hqcst, Hqbuf, Hqdur.
  split; [reflexivity|]. split; [reflexivity|]. split; [reflexivity|].
  split; [Lqa.lra|]. split; [Lqa.lra|]. split; [discriminate|discriminate].
Qed.

Lemma addFrame_first (options : Options) (bytes : list Z) (ts : Z) (ty : string) st :
  addFrame (EncodedVideoChunk bytes ts ty) (new options) = ok st ->
  lastTimeCode st = 0%Q /\
  earliestTimestamp st = (inject_Z ts / 1000)%Q /\
  clusterStartTime st = 0%Q /\
  clusterDuration st = 1 /\
  (exists fr, clusterFrameBuffer st = [fr] /\ frame fr = bytes /\ timecode fr = 0) /\
  tracking ts ts st.
Proof. apply addFrame_first_from; reflexivity. Qed.

Lemma nondecreasing_snoc (ts : list Z) (a b : Z) :
  nondecreasing ((ts ++ [a]) ++ [b]) -> nondecreasing (ts ++ [a]) /\ a <= b.
Proof.
  intros H. split.
  - intros i x y Hx Hy. apply (H i x y).
    + apply lookup_app_l_Some. exact Hx.
    + apply lookup_app_l_Some. exact Hy.
  - apply (H (length ts) a b).
    + rewrite <- app_assoc. apply list_lookup_middle. reflexivity.
    + rewrite lookup_app_r by (rewrite length_app; simpl; lia).
      rewrite length_app. simpl.
      replace (S (length ts) - (length ts + 1))%nat with 0%nat by lia. reflexivity.
Qed.

Lemma run_single (c : Chunk) st : run [c] st = addFrame c st.
Proof. reflexivity. Qed.

(** After the first chunk and any number of later ones, in order. *)
Lemma run_tracking (options : Options) (b0 : list Z) (ts0 : Z) (ty0 : string)
    (cs : list (list Z * Z * string)) st :
  nondecreasing (ts0 :: map (fun c => c.1.2) cs) ->
  run (EncodedVideoChunk b0 ts0 ty0 :: map chunk cs) (new options) = ok st ->
  tracking ts0 (List.last (map (fun c => c.1.2) cs) ts0) st.
Proof.
  revert st. induction cs as [|c cs IH] using rev_ind; intros st Hsorted H.
  - cbn [map] in H. rewrite run_single in H.
    apply addFrame_first in H. apply H.
  - rewrite map_app in H. cbn [map] in H.
    rewrite app_comm_cons, run_snoc in H. bind_ok H as Hrun. rename t0 into stp.
    rewrite map_app. cbn [map]. rewrite last_last.
    rewrite map_app in Hsorted. cbn [map] in Hsorted.
    assert (Hprev : nondecreasing (ts0 :: map (fun c => c.1.2) cs) /\
                    List.last (map (fun c => c.1.2) cs) ts0 <= c.1.2).
    { destruct (map (fun c => c.1.2) cs) as [|x xs] eqn:Hmap using rev_ind.
      - split.
        + intros i a b Ha Hb. destruct i; discriminate.
        + cbn. apply (Hsorted 0%nat); reflexivity.
      - clear IHxs. rewrite last_last.
        rewrite app_comm_cons in Hsorted.
        apply (nondecreasing_snoc (ts0 :: xs) x (c.1.2)) in Hsorted.
        destruct Hsorted as [Hs Hle]. split; [exact Hs|exact Hle]. }
    destruct Hprev as [Hsorted' Hle].
    specialize (IH stp Hsorted' eq_refl).
    unfold chunk in H at 1.
    eapply addFrame_tracking; [exact IH|exact Hle|exact H].
Qed.

End Timestamps.



(** ** The flush completes *)

Section FlushCompletes.

Import WebMWriter.

Implicit Types (st : WebMWriter.t) (s : ABDS.t) (f : Frame).

(** The SimpleBlock of a frame on a valid track. *)
Lemma createSimpleBlocks (frames : list Frame) :
  Forall (fun f => trackNumber f = DEFAULT_TRACK_NUMBER) frames ->
  exists blocks,
    mapM createSimpleBlockForframe frames = ok blocks /\
    Forall2 (fun f block =>
               exists header, length header = 4%nat /\
                 block = EBML.elem 0xa3
                           (EBML.Array [EBML.Bytes header; EBML.Bytes (frame f)]))
            frames blocks.
Proof.
  induction 1 as [|f frames Hf _ (blocks & Hblocks & Hshape)].
  - exists []. split; [reflexivity|constructor].
  - eexists. split.
    + cbn [mapM]. rewrite createSimpleBlockForframe_ok
        by (rewrite Hf; unfold DEFAULT_TRACK_NUMBER; lia).
      cbn [mbind result_bind]. rewrite Hblocks. reflexivity.
    + constructor; [|exact Hshape]. eexists. split; [|reflexivity]. reflexivity.
Qed.

(** A SimpleBlock is written whole: id, size field, header and frame. *)
Lemma writeEBML_block s (off : Z) (header bytes : list Z) :
  exists s' e',
    EBML.writeEBML s off
      (EBML.elem 0xa3 (EBML.Array [EBML.Bytes header; EBML.Bytes bytes])) = ok (s', e') /\
    pos s' = pos s + 5 + Z.of_nat (length header) + Z.of_nat (length bytes).
Proof.
  unfold EBML.elem.
  rewrite writeEBML_container by (discriminate || reflexivity). cbv zeta.
  change (measureUnsignedInt 163) with 1.
  set (s2 := writeBytes [0; 0; 0; 0] (writeBytes (VINT.writtenUInt 163 1) s)).
  assert (Hchildren : EBML.writeEBML s2 off
            (EBML.Array [EBML.Bytes header; EBML.Bytes bytes])
          = ok (writeBytes bytes (writeBytes header s2),
                EBML.Array [EBML.Bytes header; EBML.Bytes bytes]))
    by reflexivity.
  rewrite Hchildren. cbn [mbind result_bind].
  eexists. eexists. split; [reflexivity|].
  cbn [seek pos]. rewrite !pos_writeBytes. subst s2. rewrite !pos_writeBytes.
  simpl length. lia.
Qed.

Lemma rawImageSize_shift (frames : list Frame) (a : Z) :
  fold_left (fun n f => n + Z.of_nat (length (frame f))) frames a
    = a + fold_left (fun n f => n + Z.of_nat (length (frame f))) frames 0.
Proof.
  revert a. induction frames as [|x l IH]; intros a; cbn [fold_left]; [lia|].
  rewrite (IH (a + _)), (IH (0 + _)). lia.
Qed.

Lemma writeSiblings_blocks s (off : Z) (frames : list Frame) (blocks : list EBML.t) :
  Forall2 (fun f block =>
             exists header, length header = 4%nat /\
               block = EBML.elem 0xa3
                         (EBML.Array [EBML.Bytes header; EBML.Bytes (frame f)]))
          frames blocks ->
  exists s' blocks',
    EBML.writeSiblings off s blocks = ok (s', blocks') /\
    pos s' = pos s + fold_left (fun n f => n + Z.of_nat (length (frame f))) frames 0
             + 9 * Z.of_nat (length frames).
Proof.
  intros Hshape. revert s.
  induction Hshape as [|f block frames blocks (header & Hlen & ->) _ IH]; intros s.
  - exists s, []. split; [reflexivity|]. simpl. lia.
  - destruct (writeEBML_block s off header (frame f)) as (s1 & e1 & Hw & Hp).
    destruct (IH s1) as (s2 & blocks' & Hrest & Hp2).
    exists s2, (e1 :: blocks'). split.
    + rewrite writeSiblings_cons, Hw. cbn [mbind result_bind]. rewrite Hrest.
      reflexivity.
    + rewrite Hp2, Hp, Hlen. cbn [fold_left length].
      rewrite (rawImageSize_shift frames (0 + _)). lia.
Qed.

(** The Timecode element of a cluster: id, size field and at most five bytes. *)
Lemma writeEBML_timecode s (off n : Z) :
  exists s' e',
    EBML.writeEBML s off (EBML.elem 0xe7 (EBML.Number n)) = ok (s', e') /\
    pos s' = pos s + 2 + measureUnsignedInt n.
Proof.
  pose proof (measureUnsignedInt_range n) as Hw.
  unfold EBML.elem. cbn [EBML.writeEBML EBML.falsy].
  change (231 =? 0) with false. cbv iota.
  rewrite writeUnsignedIntBE_id. cbn [mbind result_bind].
  assert (Hm : measureEBMLVarInt (measureUnsignedInt n) = ok 1).
  { rewrite measureEBMLVarInt_cases.
    destruct (Z.ltb_spec (measureUnsignedInt n) 127); [reflexivity|lia]. }
  unfold writeEBMLVarInt. rewrite Hm. cbn [mbind result_bind].
  rewrite writeEBMLVarIntWidth_written by lia. cbn [mbind result_bind].
  rewrite writeUnsignedIntBE_written by exact Hw.
  eexists. eexists. split; [reflexivity|].
  rewrite !pos_writeBytes. rewrite (length_writtenUInt n _ Hw).
  change (measureUnsignedInt 231) with 1. simpl length. lia.
Qed.

(** On a ready muxer whose header is written, a flush of a non-empty buffer
    completes. *)
Lemma flushClusterFrameBuffer_completes st :
  ready st -> writtenHeader st = true -> clusterFrameBuffer st <> [] ->
  exists st', flushClusterFrameBuffer st = ok st'.
Proof.
  intros [Hseg Htracks] Hhdr Hne.
  destruct (Hseg Hhdr) as (seg & dOff & Hs & Hd).
  destruct (createSimpleBlocks _ Htracks) as (blocks & Hblocks & Hshape).
  unfold flushClusterFrameBuffer.
  destruct (clusterFrameBuffer st) as [|f0 frames0] eqn:Hbuf; [contradiction|].
  rewrite Hblocks. cbn [mbind result_bind].
  set (frames := f0 :: frames0) in *.
  set (raw := fold_left (fun n f => n + Z.of_nat (length (frame f))) frames 0).
  set (cap := raw + Z.of_nat (length frames) * 64).
  assert (Hraw : 0 <= raw) by apply rawImageSize_nonneg.
  assert (Hn : 1 <= Z.of_nat (length frames)) by (subst frames; simpl length; lia).
  set (tc := inject_Z (round (clusterStartTime st))).
  unfold createCluster, EBML.elem at 1.
  rewrite writeEBML_container by (discriminate || reflexivity). cbv zeta.
  change (measureUnsignedInt 524531317) with 4.
  set (s2 := writeBytes [0; 0; 0; 0] (writeBytes (VINT.writtenUInt 524531317 4) (ABDS.new cap))).
  assert (Hp2 : pos s2 = 8) by (subst s2; rewrite !pos_writeBytes; reflexivity).
  destruct (writeEBML_timecode s2 (BlobBuffer.pos (blobBuffer st)) (round tc))
    as (s3 & e3 & Htc & Hp3).
  destruct (writeSiblings_blocks s3 (BlobBuffer.pos (blobBuffer st)) frames blocks Hshape)
    as (s4 & blocks' & Hbl & Hp4).
  rewrite writeEBML_Array, writeSiblings_cons, Htc. cbn [mbind result_bind].
  rewrite Hbl. cbn [mbind result_bind].
  pose proof (measureUnsignedInt_range (round tc)) as Hw.
  fold raw in Hp4.
  assert (Hlen : byteLength s4 = cap).
  { apply writeEBML_extends in Htc. destruct Htc as (_ & Hl3 & _).
    assert (Hl4 : length (data s4) = length (data s3)).
    { assert (Hx : EBML.writeEBML s3 (BlobBuffer.pos (blobBuffer st)) (EBML.Array blocks)
                   = ok (s4, EBML.Array blocks'))
        by (rewrite writeEBML_Array, Hbl; reflexivity).
      apply writeEBML_extends in Hx. apply Hx. }
    unfold byteLength. rewrite Hl4, Hl3. subst s2. rewrite !length_writeBytes.
    fold (byteLength (ABDS.new cap)). apply byteLength_new. lia. }
  rewrite getAsDataArray_prefix
    by (unfold byteLength; cbn [seek pos data]; rewrite length_writeBytes;
        cbn [seek data]; fold (byteLength s4); subst cap; lia).
  cbn [mbind result_bind EBML.offsetOf].
  unfold addCuePoint, fileOffsetToSegmentRelative.
  cbn [set_blobBuffer ebmlSegment]. rewrite Hs, Hd. cbn [mbind result_bind].
  eexists. reflexivity.
Qed.

End FlushCompletes.

Section Readiness.

Import WebMWriter.

Implicit Types (st : WebMWriter.t) (f : Frame).

Lemma ready_new (options : Options) : ready (new options).
Proof. split; [discriminate|constructor]. Qed.

Lemma ready_queueFrame f st : ready st -> ready (queueFrame f st).
Proof.
  intros [Hseg Htracks].
  destruct (queueFrame_fields f st)
    as (tc & Hbuf & _ & _ & _ & _ & _ & _ & _ & _ & Hhdr & Hs). cbv zeta in *.
  split.
  - rewrite Hhdr, Hs. exact Hseg.
  - rewrite Hbuf. apply Forall_app. split; [exact Htracks|].
    constructor; [reflexivity|constructor].
Qed.

Lemma ready_flush st st' :
  ready st -> flushClusterFrameBuffer st = ok st' -> ready st'.
Proof.
  intros [Hseg Htracks] H.
  destruct (clusterFrameBuffer st) as [|f0 frames] eqn:Hbuf.
  - unfold flushClusterFrameBuffer in H. rewrite Hbuf in H. injection H as <-.
    split; [exact Hseg|rewrite Hbuf; constructor].
  - apply flushClusterFrameBuffer_spec in H; [|rewrite Hbuf; discriminate].
    destruct H as (Hempty & _ & _ & _ & _ & _ & _ & Hhdr & Hs).
    split; [rewrite Hhdr, Hs; exact Hseg|rewrite Hempty; constructor].
Qed.

Lemma ready_addFrame (c : Chunk) st st' :
  ready st -> addFrame c st = ok st' -> ready st' /\ writtenHeader st' = true.
Proof.
  intros Hready H. rewrite addFrame_unfold in H.
  bind_ok H as Hheader. rename t0 into sth.
  assert (Hsth : ready sth /\ writtenHeader sth = true).
  { destruct (writtenHeader st) eqn:Hhdr.
    - injection Hheader as <-. split; [exact Hready|exact Hhdr].
    - apply writeHeader_spec in Hheader.
      destruct Hheader as (Hwh & Hseg & _ & _ & Hbuf & _).
      split; [|exact Hwh]. split; [intros _; exact Hseg|].
      rewrite Hbuf. apply Hready. }
  destruct Hsth as [Hr Hwh].
  destruct c as [bytes timestamp ty|].
  - rewrite addFrameToCluster_unfold in H.
    match type of H with
    | context [queueFrame ?f0 sth] =>
        pose proof (ready_queueFrame f0 sth Hr) as Hq;
        destruct (queueFrame_fields f0 sth)
          as (_ & _ & _ & _ & _ & _ & _ & _ & _ & _ & Hqh & _);
        cbv zeta in Hqh; set (queued := queueFrame f0 sth) in *
    end.
    destruct (MAX_CLUSTER_DURATION_MSEC <=? clusterDuration queued).
    + split; [eapply ready_flush; eassumption|].
      destruct (clusterFrameBuffer queued) as [|f0 frames] eqn:Hbuf.
      * unfold flushClusterFrameBuffer in H. rewrite Hbuf in H.
        injection H as <-. congruence.
      * apply flushClusterFrameBuffer_spec in H; [|rewrite Hbuf; discriminate].
        destruct H as (_ & _ & _ & _ & _ & _ & _ & Hhdr & _). congruence.
    + injection H as <-. split; [exact Hq|congruence].
  - injection H as <-. split; assumption.
Qed.

Lemma ready_run (chunks : list Chunk) (options : Options) st :
  run chunks (new options) = ok st -> ready st.
Proof.
  revert st. induction chunks as [|c chunks IH] using rev_ind; intros st H.
  - injection H as <-. apply ready_new.
  - rewrite run_snoc in H. bind_ok H as Hrun.
    eapply ready_addFrame; [apply IH; reflexivity|exact H].
Qed.

(** Once the header is written, [addFrame] completes. *)
Lemma addFrame_completes (c : Chunk) st :
  ready st -> writtenHeader st = true -> exists st', addFrame c st = ok st'.
Proof.
  intros Hready Hhdr. rewrite addFrame_unfold, Hhdr. cbn [mbind result_bind].
  destruct c as [bytes timestamp ty|]; [|eexists; reflexivity].
  rewrite addFrameToCluster_unfold.
  match goal with
  | |- context [queueFrame ?f0 st] =>
      pose proof (ready_queueFrame f0 st Hready) as Hq;
      destruct (queueFrame_fields f0 st)
        as (tc & Hbuf & _ & _ & _ & _ & _ & _ & _ & _ & Hqh & _);
      cbv zeta in Hqh, Hbuf; set (queued := queueFrame f0 st) in *
  end.
  destruct (MAX_CLUSTER_DURATION_MSEC <=? clusterDuration queued);
    [|eexists; reflexivity].
  apply flushClusterFrameBuffer_completes; [exact Hq|congruence|].
  rewrite Hbuf. destruct (clusterFrameBuffer st); discriminate.
Qed.

End Readiness.

(** C2. Cluster invariant of the muxer.  After any sequence of completed
    [addFrame] calls on a new writer, the open cluster's [clusterDuration] is
    below 5000 and there are as many cue points as Cluster elements written;
    each completed [addFrame] preserves both.  [addFrameToCluster] queues the
    frame, which sets [clusterDuration] to the frame's timecode plus one,
    and flushes as soon as that reaches 5000.  A completed flush of a
    non-empty buffer empties the buffer, resets [clusterDuration] to 0,
    writes one Cluster element at the sink's cursor and appends one cue
    point holding that offset relative to the segment's data.  Once the
    header is written every [addFrame], and every flush of a non-empty
    buffer, does complete. *)
Theorem cluster_invariant :
  (forall options chunks st,
     WebMWriter.run chunks (WebMWriter.new options) = ok st ->
     WebMWriter.clusterDuration st < WebMWriter.MAX_CLUSTER_DURATION_MSEC /\
     length (WebMWriter.cues st) = clustersWritten (WebMWriter.blobBuffer st)) /\
  (forall c st st',
     WebMWriter.clusterDuration st < WebMWriter.MAX_CLUSTER_DURATION_MSEC ->
     length (WebMWriter.cues st) = clustersWritten (WebMWriter.blobBuffer st) ->
     WebMWriter.addFrame c st = ok st' ->
     WebMWriter.clusterDuration st' < WebMWriter.MAX_CLUSTER_DURATION_MSEC /\
     length (WebMWriter.cues st') = clustersWritten (WebMWriter.blobBuffer st')) /\
  (forall f st,
     let queued := WebMWriter.queueFrame f st in
     (exists queuedFrame,
        last (WebMWriter.clusterFrameBuffer queued) = Some queuedFrame /\
        WebMWriter.clusterDuration queued = WebMWriter.timecode queuedFrame + 1) /\
     WebMWriter.addFrameToCluster f st =
       if WebMWriter.MAX_CLUSTER_DURATION_MSEC <=? WebMWriter.clusterDuration queued
       then WebMWriter.flushClusterFrameBuffer queued else ok queued) /\
  (forall st st',
     WebMWriter.clusterFrameBuffer st <> [] ->
     WebMWriter.flushClusterFrameBuffer st = ok st' ->
     WebMWriter.clusterFrameBuffer st' = [] /\
     WebMWriter.clusterDuration st' = 0 /\
     exists bytes seg dOff,
       WebMWriter.ebmlSegment st = Some seg /\ EBML.dataOffsetOf seg = Some dOff /\
       WebMWriter.blobBuffer st'
         = BlobBuffer.write bytes (WebMWriter.blobBuffer st) /\
       take 4 bytes = clusterId /\
       clustersWritten (WebMWriter.blobBuffer st')
         = S (clustersWritten (WebMWriter.blobBuffer st)) /\
       WebMWriter.cues st' = WebMWriter.cues st ++
         [WebMWriter.cuePoint WebMWriter.DEFAULT_TRACK_NUMBER
            (WebMWriter.round (WebMWriter.clusterStartTime st))
            (BlobBuffer.pos (WebMWriter.blobBuffer st) - dOff)]) /\
  (forall options chunks st,
     WebMWriter.run chunks (WebMWriter.new options) = ok st ->
     WebMWriter.writtenHeader st = true ->
     (forall c, exists st', WebMWriter.addFrame c st = ok st') /\
     (WebMWriter.clusterFrameBuffer st <> [] ->
      exists st', WebMWriter.flushClusterFrameBuffer st = ok st')).
Proof.
  split; [|split; [|split; [|split]]].
  - intros options chunks st H. eapply run_invariant. exact H.
  - intros c st st'. apply addFrame_invariant.
  - intros f st queued. split; [|reflexivity].
    destruct (queueFrame_fields f st) as (tc & Hbuf & _ & Hdur & _). cbv zeta in *.
    eexists. subst queued. rewrite Hbuf, last_snoc.
    split; [reflexivity|exact Hdur].
  - intros st st' Hne H.
    destruct (flushClusterFrameBuffer_spec st st' Hne H)
      as (Hbuf & Hzero & (bytes & seg & dOff & Hseg & HdOff & Hblob & Hid & Hcue) & _).
    split; [exact Hbuf|]. split; [exact Hzero|].
    exists bytes, seg, dOff. repeat split; try assumption.
    rewrite Hblob, clustersWritten_write.
    destruct (decide (take 4 bytes = clusterId)); [lia|contradiction].
  - intros options chunks st Hrun Hhdr.
    pose proof (ready_run chunks options st Hrun) as Hready. split.
    + intros c. apply addFrame_completes; assumption.
    + intros Hne. apply flushClusterFrameBuffer_completes; assumption.
Qed.

(** Thirty frames a second for a little over five seconds: the frame whose
    timecode rounds to 5000 closes the first cluster, and the next one opens
    the second. *)
Example cluster_invariant_run :
  let options := {| WebMWriter.codec := "VP9"; WebMWriter.width := 1600;
                    WebMWriter.height := 900 |} in
  let chunks :=
    map (fun i => WebMWriter.EncodedVideoChunk [7; 8] (Z.of_nat i * 33333)
                    (if Z.of_nat i mod 150 =? 0 then "key" else "delta"))
        (seq 0 152) in
  match WebMWriter.run chunks (WebMWriter.new options) with
  | inr st =>
      (length (WebMWriter.cues st), clustersWritten (WebMWriter.blobBuffer st),
       length (WebMWriter.clusterFrameBuffer st), WebMWriter.clusterDuration st,
       map fst (BlobBuffer.writes (WebMWriter.blobBuffer st)))
      = (1%nat, 1%nat, 1%nat, 1, [0; 238])
  | inl _ => False
  end.
Proof. vm_compute. reflexivity. Qed.


(** ** The stream, the element writer and the muxer, further *)

Section UnsignedInt.

(** The bytes [writeUnsignedIntBE] hands to the array, read back big-endian. *)
Lemma accumulate_writtenUInt (u w : Z) :
  1 <= w <= 5 ->
  VINT.accumulate 0 (map JS.ToUint8 (VINT.writtenUInt u w)) = u mod 2 ^ (8 * w).
Proof.
  intros Hw.
  assert (Hc : w = 1 \/ w = 2 \/ w = 3 \/ w = 4 \/ w = 5) by lia.
  destruct Hc as [->|[->|[->|[->| ->]]]].
  - reflexivity.
  - change (VINT.writtenUInt u 2) with [JS.sar u 8; u]. cbn [map].
    rewrite ToUint8_sar_8. unfold JS.ToUint8, VINT.accumulate. cbn [fold_left].
    change (2 ^ (8 * 2)) with 65536. change (2 ^ 8) with 256.
    Z.div_mod_to_equations. lia.
  - change (VINT.writtenUInt u 3) with [JS.sar u 16; JS.sar u 8; u]. cbn [map].
    rewrite ToUint8_sar_8, ToUint8_sar_16.
    unfold JS.ToUint8, VINT.accumulate. cbn [fold_left].
    change (2 ^ (8 * 3)) with 16777216. change (2 ^ 8) with 256.
    change (2 ^ 16) with 65536.
    Z.div_mod_to_equations. lia.
  - change (VINT.writtenUInt u 4) with [JS.sar u 24; JS.sar u 16; JS.sar u 8; u].
    cbn [map]. rewrite ToUint8_sar_8, ToUint8_sar_16, ToUint8_sar_24.
    unfold JS.ToUint8, VINT.accumulate. cbn [fold_left].
    change (2 ^ (8 * 4)) with 4294967296. change (2 ^ 8) with 256.
    change (2 ^ 16) with 65536. change (2 ^ 24) with 16777216.
    Z.div_mod_to_equations. lia.
  - change (VINT.writtenUInt u 5)
      with [u / 4294967296; JS.sar u 24; JS.sar u 16; JS.sar u 8; u].
    cbn [map]. rewrite ToUint8_sar_8, ToUint8_sar_16, ToUint8_sar_24.
    unfold JS.ToUint8, VINT.accumulate. cbn [fold_left].
    change (2 ^ (8 * 5)) with 1099511627776. change (2 ^ 8) with 256.
    change (2 ^ 16) with 65536. change (2 ^ 24) with 16777216.
    Z.div_mod_to_equations. lia.
Qed.

(** X1. [measureUnsignedInt] returns the least number of bytes, from 1 to 5,
    that hold an unsigned integer below [2^40]; it answers 5 for every larger
    value, which five bytes cannot hold, and 1 for a negative one. *)
Theorem measureUnsignedInt_smallest_width :
  (forall u, 0 <= u < 2 ^ 40 ->
     1 <= measureUnsignedInt u <= 5 /\
     u < 2 ^ (8 * measureUnsignedInt u) /\
     forall w, 1 <= w < measureUnsignedInt u -> 2 ^ (8 * w) <= u) /\
  (forall u, 2 ^ 40 <= u -> measureUnsignedInt u = 5) /\
  (forall u, u < 0 -> measureUnsignedInt u = 1).
Proof.
  assert (Hcases : forall u,
    measureUnsignedInt u =
      if u <? 2 ^ 8 then 1 else if u <? 2 ^ 16 then 2
      else if u <? 2 ^ 24 then 3 else if u <? 2 ^ 32 then 4 else 5)
    by reflexivity.
  split; [|split].
  - intros u Hu. rewrite Hcases.
    destruct (Z.ltb_spec u (2 ^ 8)); [|destruct (Z.ltb_spec u (2 ^ 16));
      [|destruct (Z.ltb_spec u (2 ^ 24)); [|destruct (Z.ltb_spec u (2 ^ 32))]]].
    + split; [lia|]. split; [exact H|]. intros w Hw. lia.
    + split; [lia|]. split; [exact H0|]. intros w Hw.
      assert (w = 1) as -> by lia. exact H.
    + split; [lia|]. split; [exact H1|]. intros w Hw.
      assert (Hc : w = 1 \/ w = 2) by lia. destruct Hc as [->| ->]; lia.
    + split; [lia|]. split; [exact H2|]. intros w Hw.
      assert (Hc : w = 1 \/ w = 2 \/ w = 3) by lia.
      destruct Hc as [->|[->| ->]]; lia.
    + split; [lia|]. split; [apply Hu|]. intros w Hw.
      assert (Hc : w = 1 \/ w = 2 \/ w = 3 \/ w = 4) by lia.
      destruct Hc as [->|[->|[->| ->]]]; lia.
  - intros u Hu. rewrite Hcases.
    assert (2 ^ 8 < 2 ^ 40 /\ 2 ^ 16 < 2 ^ 40 /\ 2 ^ 24 < 2 ^ 40 /\ 2 ^ 32 < 2 ^ 40)
      as (? & ? & ? & ?) by (repeat split; reflexivity).
    repeat match goal with
           | |- context [?a <? ?b] => destruct (Z.ltb_spec a b); [lia|]
           end.
    reflexivity.
  - intros u Hu. rewrite Hcases.
    destruct (Z.ltb_spec u (2 ^ 8)) as [|H]; [reflexivity|].
    assert (0 < 2 ^ 8) by reflexivity. lia.
Qed.

(** X2. [writeUnsignedIntBE(u, width)] stores the [width] low-order bytes of
    [u], most significant first: read back big-endian they give
    [u mod 2^(8 width)], and the cursor advances by [width].  With the width
    omitted the bytes give back every [u] below [2^40] exactly.  A width
    outside 1..5 throws. *)
Theorem writeUnsignedIntBE_big_endian :
  (forall u w s,
     1 <= w <= 5 -> 0 <= pos s -> pos s + w <= byteLength s ->
     exists s',
       writeUnsignedIntBE u (Some w) s = ok s' /\
       pos s' = pos s + w /\ byteLength s' = byteLength s /\
       VINT.accumulate 0 (slice (pos s) (Z.to_nat w) (data s'))
         = u mod 2 ^ (8 * w)) /\
  (forall u s,
     0 <= u < 2 ^ 40 -> 0 <= pos s ->
     pos s + measureUnsignedInt u <= byteLength s ->
     exists s',
       writeUnsignedIntBE u None s = ok s' /\
       pos s' = pos s + measureUnsignedInt u /\
       VINT.accumulate 0
         (slice (pos s) (Z.to_nat (measureUnsignedInt u)) (data s')) = u) /\
  (forall u w s,
     ~ 1 <= w <= 5 -> writeUnsignedIntBE u (Some w) s = throw (BadUINTSize w)).
Proof.
  assert (Hgen : forall u w s,
     1 <= w <= 5 -> 0 <= pos s -> pos s + w <= byteLength s ->
     let s' := writeBytes (VINT.writtenUInt u w) s in
     pos s' = pos s + w /\ byteLength s' = byteLength s /\
     VINT.accumulate 0 (slice (pos s) (Z.to_nat w) (data s'))
       = u mod 2 ^ (8 * w)).
  { intros u w s Hw Hpos Hcap s'. subst s'.
    pose proof (length_writtenUInt u w Hw) as Hlen.
    split; [rewrite pos_writeBytes; lia|].
    split; [unfold byteLength; rewrite length_writeBytes; reflexivity|].
    replace (Z.to_nat w) with (length (VINT.writtenUInt u w)) by lia.
    rewrite slice_writeBytes by lia.
    apply accumulate_writtenUInt. exact Hw. }
  split; [|split].
  - intros u w s Hw Hpos Hcap. eexists. split.
    + apply writeUnsignedIntBE_written. exact Hw.
    + apply Hgen; assumption.
  - intros u s Hu Hpos Hcap. eexists. split.
    + apply writeUnsignedIntBE_id.
    + pose proof (measureUnsignedInt_range u) as Hw.
      destruct (Hgen u (measureUnsignedInt u) s Hw Hpos Hcap) as (Hp & _ & Hacc).
      split; [exact Hp|]. rewrite Hacc. apply Z.mod_small.
      split; [lia|].
      change (measureUnsignedInt u) with
        (if u <? 2 ^ 8 then 1 else if u <? 2 ^ 16 then 2
         else if u <? 2 ^ 24 then 3 else if u <? 2 ^ 32 then 4 else 5).
      repeat match goal with
             | |- context [?a <? ?b] => destruct (Z.ltb_spec a b)
             end; first [assumption | apply Hu].
  - intros u w s Hw. unfold writeUnsignedIntBE.
    change (default (measureUnsignedInt u) (Some w)) with w. cbv zeta.
    destruct (Z.leb_spec 1 w); destruct (Z.leb_spec w 5); try reflexivity. lia.
Qed.

Example writeUnsignedIntBE_truncates :
  (s ← writeUnsignedIntBE 0x1a45dfa3 None (ABDS.new 4); ok (data s))
    = ok [0x1a; 0x45; 0xdf; 0xa3] /\
  (s ← writeUnsignedIntBE 0x1a45dfa3 (Some 2) (ABDS.new 4); ok (data s))
    = ok [0xdf; 0xa3; 0; 0] /\
  (s ← writeUnsignedIntBE (2 ^ 40 + 7) None (ABDS.new 5); ok (data s))
    = ok [0; 0; 0; 0; 7].
Proof. repeat split. Qed.

End UnsignedInt.

Section VarIntWidth.

Lemma accumulate_bound (l : list Z) :
  forall a, 0 <= a -> Forall (fun b => 0 <= b < 256) l ->
  a * 256 ^ Z.of_nat (length l) <= VINT.accumulate a l
    < (a + 1) * 256 ^ Z.of_nat (length l).
Proof.
  induction l as [|b l IH]; intros a Ha Hl.
  - unfold VINT.accumulate. cbn [fold_left length]. change (256 ^ Z.of_nat 0) with 1. lia.
  - apply Forall_cons in Hl as [Hb Hl].
    change (VINT.accumulate a (b :: l)) with (VINT.accumulate (a * 256 + b) l).
    specialize (IH (a * 256 + b) ltac:(lia) Hl).
    cbn [length]. rewrite Nat2Z.inj_succ, Z.pow_succ_r by lia.
    assert (0 < 256 ^ Z.of_nat (length l)) by (apply Z.pow_pos_nonneg; lia).
    nia.
Qed.

(** A decoded VINT of [n] bytes is below [2^(7 n)]. *)
Lemma decode_bound (bytes : list Z) (v : Z) :
  Forall (fun b => 0 <= b < 256) bytes ->
  VINT.decode bytes = Some (v, []) ->
  0 <= v < 2 ^ (7 * Z.of_nat (length bytes)).
Proof.
  intros Hbytes H. destruct bytes as [|b0 rest]; [discriminate H|].
  apply Forall_cons in Hbytes as [Hb0 Hrest].
  unfold VINT.decode in H.
  destruct (VINT.width b0) as [w|] eqn:Hw; [|discriminate H].
  cbn [mbind option_bind] in H.
  destruct (length rest <? w - 1)%nat eqn:Hlen; [discriminate H|].
  apply Nat.ltb_ge in Hlen.
  injection H as Hv Hdrop.
  assert (Hrl : length rest = (w - 1)%nat).
  { apply (f_equal length) in Hdrop. rewrite length_drop in Hdrop.
    cbn [length] in Hdrop. lia. }
  rewrite take_ge in Hv by lia.
  assert (Hmark : 1 <= Z.of_nat w <= 8 /\
                  2 ^ (8 - Z.of_nat w) <= b0 < 2 * 2 ^ (8 - Z.of_nat w)).
  { unfold VINT.width in Hw.
    repeat match type of Hw with
           | (if ?a <=? ?b then _ else _) = _ =>
               destruct (Z.leb_spec a b); [injection Hw as <-; simpl; lia|]
           end.
    discriminate Hw. }
  destruct Hmark as (Hw8 & Hlo & Hhi).
  pose proof (accumulate_bound rest (b0 - 2 ^ (8 - Z.of_nat w)) ltac:(lia) Hrest)
    as Hacc.
  rewrite Hv in Hacc. rewrite Hrl in Hacc.
  cbn [length]. rewrite Hrl.
  replace (Z.of_nat (S (w - 1))) with (Z.of_nat w) by lia.
  replace (Z.of_nat (w - 1)) with (Z.of_nat w - 1) in Hacc by lia.
  assert (Hpow : 2 ^ (7 * Z.of_nat w)
                 = 2 ^ (8 - Z.of_nat w) * 256 ^ (Z.of_nat w - 1)).
  { change 256 with (2 ^ 8). rewrite <- Z.pow_mul_r, <- Z.pow_add_r by lia.
    f_equal. lia. }
  rewrite Hpow.
  assert (0 < 256 ^ (Z.of_nat w - 1)) by (apply Z.pow_pos_nonneg; lia).
  assert (0 < 2 ^ (8 - Z.of_nat w)) by (apply Z.pow_pos_nonneg; lia).
  nia.
Qed.

Lemma Forall_ToUint8 (l : list Z) : Forall (fun b => 0 <= b < 256) (map JS.ToUint8 l).
Proof. apply Forall_map, Forall_forall. intros x _. apply ToUint8_range. Qed.

End VarIntWidth.



Section Overflow.

Lemma data_writeBytes_overflow (arr : list Z) (n : Z) :
  0 <= n -> n <= Z.of_nat (length arr) ->
  data (writeBytes arr (ABDS.new n)) = map JS.ToUint8 (take (Z.to_nat n) arr).
Proof.
  intros Hn Hlen. apply list_eq. intros j.
  assert (Hl : length (data (writeBytes arr (ABDS.new n))) = Z.to_nat n).
  { rewrite length_writeBytes. cbn [ABDS.new data]. apply length_replicate. }
  destruct (decide (j < Z.to_nat n)%nat) as [Hj|Hj].
  - destruct (lookup_lt_is_Some_2 arr j ltac:(lia)) as [x Hx].
    pose proof (lookup_writeBytes_inside arr (ABDS.new n) j x) as H.
    cbn [ABDS.new pos data] in H. change (Z.to_nat 0) with 0%nat in H.
    cbn [Nat.add] in H. rewrite length_replicate in H.
    cbn [ABDS.new]. rewrite H by (first [lia|exact Hx]).
    rewrite list_lookup_fmap, lookup_take_lt, Hx by exact Hj. reflexivity.
  - rewrite (lookup_ge_None_2 _ j) by lia.
    symmetry. apply lookup_ge_None_2. rewrite length_map, length_take. lia.
Qed.

End Overflow.

(** X4. A write that runs past the end of the array is cut off: the array
    never grows, it keeps the bytes that fit, the cursor advances past the
    end all the same, and [getAsDataArray] then throws. *)
Theorem write_past_the_end_is_cut_off :
  (forall arr s, byteLength (writeBytes arr s) = byteLength s /\
                 pos (writeBytes arr s) = pos s + Z.of_nat (length arr)) /\
  (forall arr n, 0 <= n -> n < Z.of_nat (length arr) ->
     data (writeBytes arr (ABDS.new n)) = map JS.ToUint8 (take (Z.to_nat n) arr) /\
     getAsDataArray (writeBytes arr (ABDS.new n)) = throw PosBeyondEnd).
Proof.
  split.
  - intros arr s. split; [|apply pos_writeBytes].
    unfold byteLength. rewrite length_writeBytes. reflexivity.
  - intros arr n Hn Hlen. split; [apply data_writeBytes_overflow; lia|].
    apply getAsDataArray_beyond.
    unfold byteLength. rewrite length_writeBytes, pos_writeBytes.
    cbn [ABDS.new data pos]. rewrite length_replicate. lia.
Qed.

(** X5. The four bytes that head a SimpleBlock: the track number as a
    one-byte VINT, the frame's timecode as a 16-bit big-endian integer (two's
    complement, so the low 16 bits of the timecode), and a flags byte that is
    [0x80] for a frame of type "key" and 0 for any other. *)
Theorem createSimpleBlockForframe_header (f : WebMWriter.Frame) :
  1 <= WebMWriter.trackNumber f <= 126 ->
  exists hi lo flags,
    WebMWriter.createSimpleBlockForframe f =
      ok (EBML.elem 0xa3
            (EBML.Array [ EBML.Bytes [128 + WebMWriter.trackNumber f; hi; lo; flags];
                          EBML.Bytes (WebMWriter.frame f) ])) /\
    VINT.decode [128 + WebMWriter.trackNumber f; hi; lo; flags]
      = Some (WebMWriter.trackNumber f, [hi; lo; flags]) /\
    0 <= hi < 256 /\ 0 <= lo < 256 /\
    hi * 256 + lo = WebMWriter.timecode f mod 2 ^ 16 /\
    flags = (if String.eqb (WebMWriter.type f) "key" then 128 else 0).
Proof.
  intros Htrack.
  exists (JS.ToUint8 (JS.sar (WebMWriter.timecode f) 8)),
         (JS.ToUint8 (WebMWriter.timecode f)),
         (if String.eqb (WebMWriter.type f) "key" then 128 else 0).
  assert (Hb0 : JS.ToUint8 (JS.bor (JS.shl 1 7) (WebMWriter.trackNumber f))
                = 128 + WebMWriter.trackNumber f).
  { change (JS.shl 1 7) with (2 ^ 7). rewrite bor_marker by lia.
    rewrite ToUint8_small by lia. reflexivity. }
  split.
  - rewrite createSimpleBlockForframe_ok by exact Htrack. cbn [map].
    rewrite Hb0. destruct (String.eqb (WebMWriter.type f) "key"); reflexivity.
  - split.
    + unfold VINT.decode, VINT.width.
      destruct (Z.leb_spec 128 (128 + WebMWriter.trackNumber f)); [|lia].
      cbn [mbind option_bind]. cbn. f_equal. f_equal. lia.
    + split; [apply ToUint8_range|]. split; [apply ToUint8_range|].
      split; [|reflexivity].
      rewrite ToUint8_sar_8. unfold JS.ToUint8.
      change (2 ^ 8) with 256. change (2 ^ 16) with 65536.
      Z.div_mod_to_equations. lia.
Qed.

Lemma createSimpleBlockForframe_header_witness :
  exists hi lo flags,
    WebMWriter.createSimpleBlockForframe
      (WebMWriter.Build_Frame [7; 8; 9] 0 "key" 1 4660) =
      ok (EBML.elem 0xa3
            (EBML.Array [ EBML.Bytes [128 + 1; hi; lo; flags];
                          EBML.Bytes [7; 8; 9] ])) /\
    VINT.decode [128 + 1; hi; lo; flags] = Some (1, [hi; lo; flags]) /\
    0 <= hi < 256 /\ 0 <= lo < 256 /\
    hi * 256 + lo = 4660 mod 2 ^ 16 /\
    flags = (if String.eqb "key" "key" then 128 else 0).
Proof.
  apply (createSimpleBlockForframe_header
           (WebMWriter.Build_Frame [7; 8; 9] 0 "key" 1 4660)).
  simpl. lia.
Defined.

Section Encodes.

Import Encoding.

Lemma slice_add (a : Z) (n m : nat) (l : list Z) :
  0 <= a ->
  slice a (n + m) l = slice a n l ++ slice (a + Z.of_nat n) m l.
Proof.
  intros Ha. unfold slice.
  replace (Z.to_nat (a + Z.of_nat n)) with (Z.to_nat a + n)%nat by lia.
  rewrite <- drop_drop. symmetry. apply take_take_drop.
Qed.

(** Bytes below the cursor of a stream stay as they are in every stream
    that continues it. *)
Lemma slice_extends (s1 s2 : ABDS.t) (a : Z) (n : nat) :
  extends s1 s2 -> 0 <= a -> a + Z.of_nat n <= pos s1 ->
  slice a n (data s2) = slice a n (data s1).
Proof.
  intros (_ & Hlen & Hd) Ha Hn. unfold slice. apply list_eq. intros j.
  destruct (decide (j < n)%nat) as [Hj|Hj].
  - rewrite !lookup_take_lt by exact Hj. rewrite !lookup_drop. apply Hd. lia.
  - rewrite !lookup_take_ge by lia. reflexivity.
Qed.

Lemma extends_byteLength (s1 s2 : ABDS.t) :
  extends s1 s2 -> byteLength s2 = byteLength s1.
Proof. intros (_ & Hlen & _). unfold byteLength. rewrite Hlen. reflexivity. Qed.

(** Two writes in a row: the bytes of the first, then those of the second. *)
Lemma slice_sequence (s s1 s2 : ABDS.t) (A B : list Z) :
  0 <= pos s ->
  pos s1 = pos s + Z.of_nat (length A) ->
  slice (pos s) (length A) (data s1) = A ->
  extends s1 s2 ->
  slice (pos s1) (length B) (data s2) = B ->
  slice (pos s) (length (A ++ B)) (data s2) = A ++ B.
Proof.
  intros Hpos Hp1 HA Hext HB. rewrite length_app, slice_add by exact Hpos.
  rewrite (slice_extends s1 s2) by (first [exact Hext|lia]).
  rewrite HA. rewrite <- Hp1, HB. reflexivity.
Qed.

Lemma slice_lookup_eq (a : Z) (n : nat) (l1 l2 : list Z) :
  0 <= a ->
  (forall j : nat, a <= Z.of_nat j < a + Z.of_nat n -> l1 !! j = l2 !! j) ->
  slice a n l1 = slice a n l2.
Proof.
  intros Ha H. unfold slice. apply list_eq. intros k.
  destruct (decide (k < n)%nat) as [Hk|Hk].
  - rewrite !lookup_take_lt by exact Hk. rewrite !lookup_drop. apply H. lia.
  - rewrite !lookup_take_ge by lia. reflexivity.
Qed.

Lemma writeBytes_app (a b : list Z) (s : ABDS.t) :
  writeBytes (a ++ b) s = writeBytes b (writeBytes a s).
Proof. unfold writeBytes. apply fold_left_app. Qed.

Lemma wrote_writeBytes (arr : list Z) (s : ABDS.t) :
  wrote s (writeBytes arr s) (map JS.ToUint8 arr).
Proof.
  split; [apply extends_writeBytes|]. rewrite length_map.
  split; [apply pos_writeBytes|].
  intros Hpos Hcap. rewrite pos_writeBytes in Hcap.
  apply slice_writeBytes; lia.
Qed.

Lemma wrote_nil (s : ABDS.t) : wrote s s [].
Proof.
  split; [apply extends_refl|]. split; [cbn [length]; lia|].
  intros _ _. reflexivity.
Qed.

Lemma wrote_app (s s1 s2 : ABDS.t) (A B : list Z) :
  wrote s s1 A -> wrote s1 s2 B -> wrote s s2 (A ++ B).
Proof.
  intros (HeA & HpA & HA) (HeB & HpB & HB).
  split; [eapply extends_trans; eassumption|].
  split; [rewrite length_app; lia|].
  intros Hpos Hcap.
  pose proof (extends_byteLength _ _ HeA) as Hlen.
  assert (Hmono : pos s1 <= pos s2) by apply HeB.
  apply (slice_sequence s s1 s2); try assumption.
  - apply HA; [exact Hpos|lia].
  - apply HB; [lia|]. rewrite Hlen. exact Hcap.
Qed.

Lemma wrote_vint (n : Z) (s s' : ABDS.t) :
  writeEBMLVarInt n s = ok s' -> wrote s s' (vint n).
Proof.
  intros H. apply writeEBMLVarInt_inv in H as (w & Hm & _ & ->).
  unfold vint. rewrite Hm. apply wrote_writeBytes.
Qed.

Lemma wrote_id (id : Z) (s : ABDS.t) :
  wrote s (writeBytes (VINT.writtenUInt id (measureUnsignedInt id)) s) (idBytes id).
Proof. apply wrote_writeBytes. Qed.

(** The patch of a container: the id, the size field over the placeholder,
    and the children as they were written. *)
Lemma wrote_patch (id size : Z) (s s3 : ABDS.t) (P : list Z) :
  let s1 := writeBytes (VINT.writtenUInt id (measureUnsignedInt id)) s in
  let s2 := writeBytes [0; 0; 0; 0] s1 in
  wrote s2 s3 P -> size = Z.of_nat (length P) ->
  wrote s (seek (pos s3) (writeBytes (VINT.written size 4) (seek (pos s1) s3)))
        (idBytes id ++ vint4 (Z.of_nat (length P)) ++ P).
Proof.
  intros s1 s2 (He & Hp & HP) ->.
  destruct (container_layout s id) as (Hp1 & Hp2 & Hlen). fold s1 s2 in Hp1, Hp2, Hlen.
  pose proof (measureUnsignedInt_range id) as Hw.
  pose proof (length_writtenUInt id _ Hw) as Hidlen.
  assert (He1 : extends s s1) by apply extends_writeBytes.
  assert (He2 : extends s1 s2) by apply (extends_writeBytes [0; 0; 0; 0]).
  assert (He13 : extends s1 s3) by (eapply extends_trans; eassumption).
  assert (He3 : extends s s3) by (eapply extends_trans; eassumption).
  assert (Hlid : length (idBytes id) = Z.to_nat (measureUnsignedInt id)).
  { unfold idBytes. rewrite length_map. lia. }
  assert (Hl4 : length (vint4 (Z.of_nat (length P))) = 4%nat) by reflexivity.
  split; [apply extends_patch; [lia|exact He3]|].
  split.
  { cbn [seek pos]. rewrite !length_app, Hlid, Hl4. lia. }
  intros Hpos Hcap. cbn [seek pos] in Hcap.
  assert (Hmono : pos s2 <= pos s3) by apply He.
  pose proof (extends_byteLength _ _ He3) as Hlen3.
  rewrite !length_app, !slice_add by lia. f_equal; [|f_equal].
  - (* the id *)
    rewrite (slice_lookup_eq _ _ _ (data s3)); [|exact Hpos|].
    + rewrite (slice_extends s1 s3) by (first [exact He13|lia]).
      rewrite Hlid.
      replace (Z.to_nat (measureUnsignedInt id))
        with (length (VINT.writtenUInt id (measureUnsignedInt id))) by lia.
      apply slice_writeBytes; lia.
    + intros j Hj. apply lookup_patch. left. lia.
  - (* the size field *)
    rewrite Hlid, Hl4.
    replace (pos s + Z.of_nat (Z.to_nat (measureUnsignedInt id))) with (pos s1) by lia.
    apply slice_patch; lia.
  - (* the children *)
    rewrite Hlid, Hl4.
    replace (pos s + Z.of_nat (Z.to_nat (measureUnsignedInt id)) + Z.of_nat 4)
      with (pos s2) by lia.
    rewrite (slice_lookup_eq _ _ _ (data s3)); [|lia|].
    + apply HP; lia.
    + intros j Hj. apply lookup_patch. right. lia.
Qed.

Ltac bind_inv H :=
  match type of H with
  | (?m ≫= _) = ok _ =>
      let E := fresh "E" in
      destruct m as [?|?] eqn:E; [discriminate H|]; cbn [mbind result_bind] in H
  end.

(** [writeEBML] stores the encoding of the tree, from the cursor on. *)
Lemma writeEBML_wrote (e : EBML.t) :
  forall s off s' e', EBML.writeEBML s off e = ok (s', e') -> wrote s s' (encode e).
Proof.
  induction e as [items IH|str|b|n|bits|bits|id size data o d IH|]
    using EBML.t_ind; intros s off s' e' H; try discriminate H.
  - rewrite writeEBML_Array in H. bind_inv H. destruct p as [s1 items'].
    injection H as <- _. clear e'. cbn [encode].
    revert s s1 items' E. induction IH as [|x l Hx _ IHl]; intros s s1 items' E.
    + injection E as <- _. apply wrote_nil.
    + rewrite writeSiblings_cons in E. bind_inv E. destruct p as [sx x'].
      bind_inv E. destruct p as [sl l']. injection E as <- _.
      cbn [map concat].
      eapply wrote_app; [eapply Hx; eassumption|]. eapply IHl; eassumption.
  - injection H as <- _. rewrite writeString_writeBytes. apply wrote_writeBytes.
  - injection H as <- _. apply wrote_writeBytes.
  - destruct (Z.eq_dec id 0) as [->|Hid]; [discriminate H|].
    destruct data as [children|str|b|n|bits|bits| |].
    + destruct (EBML.unbounded size) eqn:Hsize.
      * rewrite writeEBML_unbounded in H by assumption. cbv zeta in H.
        bind_inv H. destruct p as [s3 data']. injection H as <- _.
        cbn [encode]. rewrite Hsize.
        eapply wrote_app; [apply wrote_id|].
        eapply (wrote_app _ _ _ [255]); [apply (wrote_writeBytes [255])|].
        eapply IH. eassumption.
      * rewrite writeEBML_container in H by assumption. cbv zeta in H.
        bind_inv H. destruct p as [s3 data']. injection H as <- _.
        cbn [encode]. rewrite Hsize. cbv zeta.
        pose proof (IH _ _ _ _ E) as Hchildren. cbn [encode] in Hchildren.
        destruct Hchildren as (He & Hp & HP).
        apply (wrote_patch id
                 (pos s3 - pos (writeBytes [0; 0; 0; 0]
                    (writeBytes (VINT.writtenUInt id (measureUnsignedInt id)) s)))
                 s s3 (concat (map encode children)));
          [split; [exact He|]; split; [exact Hp|exact HP]|lia].
    + cbn [EBML.writeEBML] in H.
      destruct (Z.eqb_spec id 0) as [|_]; [contradiction|].
      rewrite writeUnsignedIntBE_id in H. cbn [mbind result_bind] in H.
      bind_inv H. injection H as <- _. cbn [encode].
      eapply wrote_app; [apply wrote_id|].
      eapply wrote_app; [eapply wrote_vint; eassumption|].
      rewrite writeString_writeBytes. apply wrote_writeBytes.
    + cbn [EBML.writeEBML] in H.
      destruct (Z.eqb_spec id 0) as [|_]; [contradiction|].
      rewrite writeUnsignedIntBE_id in H. cbn [mbind result_bind] in H.
      bind_inv H. injection H as <- _. cbn [encode].
      eapply wrote_app; [apply wrote_id|].
      eapply wrote_app; [eapply wrote_vint; eassumption|].
      apply wrote_writeBytes.
    + cbn [EBML.writeEBML] in H.
      destruct (Z.eqb_spec id 0) as [|_]; [contradiction|].
      rewrite writeUnsignedIntBE_id in H. cbn [mbind result_bind] in H.
      bind_inv H. bind_inv H. injection H as <- _. cbn [encode].
      eapply wrote_app; [apply wrote_id|].
      eapply wrote_app; [eapply wrote_vint; eassumption|].
      apply writeUnsignedIntBE_inv in E0 as (w & Hwd & _ & ->).
      cbn [default from_option] in Hwd. subst w. apply wrote_writeBytes.
    + cbn [EBML.writeEBML] in H.
      destruct (Z.eqb_spec id 0) as [|_]; [contradiction|].
      rewrite writeUnsignedIntBE_id in H. cbn [mbind result_bind] in H.
      bind_inv H. injection H as <- _. cbn [encode].
      eapply wrote_app; [apply wrote_id|].
      eapply wrote_app; [eapply wrote_vint; eassumption|].
      apply wrote_writeBytes.
    + cbn [EBML.writeEBML] in H.
      destruct (Z.eqb_spec id 0) as [|_]; [contradiction|].
      rewrite writeUnsignedIntBE_id in H. cbn [mbind result_bind] in H.
      bind_inv H. injection H as <- _. cbn [encode].
      eapply wrote_app; [apply wrote_id|].
      eapply wrote_app; [eapply wrote_vint; eassumption|].
      apply wrote_writeBytes.
    + cbn [EBML.writeEBML] in H.
      destruct (Z.eqb_spec id 0) as [|_]; [contradiction|].
      rewrite writeUnsignedIntBE_id in H. discriminate H.
    + cbn [EBML.writeEBML] in H.
      destruct (Z.eqb_spec id 0) as [|_]; [contradiction|].
      rewrite writeUnsignedIntBE_id in H. discriminate H.
Qed.

Lemma completes_bind {A B : Type} (m : result A) (f : A -> result B) :
  completes (m ≫= f) = match m with inr a => completes (f a) | inl _ => false end.
Proof. destruct m; reflexivity. Qed.

Lemma completes_writeEBMLVarInt (n : Z) (s : ABDS.t) :
  completes (writeEBMLVarInt n s) = (n <? 34359738367).
Proof.
  unfold writeEBMLVarInt.
  destruct (measureEBMLVarInt n) as [err|w] eqn:Hm.
  - cbn [mbind result_bind completes]. symmetry. apply Z.ltb_ge.
    unfold measureEBMLVarInt in Hm.
    repeat match type of Hm with
           | (if ?a <? ?b then _ else _) = _ =>
               destruct (Z.ltb_spec a b); [discriminate Hm|]
           end.
    assumption.
  - cbn [mbind result_bind].
    destruct (measureEBMLVarInt_fits n w Hm) as [Hw _].
    rewrite writeEBMLVarIntWidth_written by exact Hw. cbn [completes].
    symmetry. apply Z.ltb_lt.
    unfold measureEBMLVarInt in Hm.
    change (JS.shl 1 7 - 1) with 127 in Hm.
    change (JS.shl 1 14 - 1) with 16383 in Hm.
    change (JS.shl 1 21 - 1) with 2097151 in Hm.
    change (JS.shl 1 28 - 1) with 268435455 in Hm.
    repeat match type of Hm with
           | (if ?a <? ?b then _ else _) = _ =>
               destruct (Z.ltb_spec a b); [lia|]
           end.
    discriminate Hm.
Qed.

Lemma completes_writeUnsignedIntBE (u w : Z) (s : ABDS.t) :
  completes (writeUnsignedIntBE u (Some w) s) = (1 <=? w) && (w <=? 5).
Proof.
  destruct (Z.leb_spec 1 w); destruct (Z.leb_spec w 5); cbn [andb];
    try (rewrite writeUnsignedIntBE_written by lia; reflexivity);
    unfold writeUnsignedIntBE;
    change (default (measureUnsignedInt u) (Some w)) with w; cbv zeta.
  - destruct (Z.leb_spec 1 w); [|lia]. destruct (Z.leb_spec w 5); [lia|]. reflexivity.
  - destruct (Z.leb_spec 1 w); [lia|]. reflexivity.
  - destruct (Z.leb_spec 1 w); [lia|]. reflexivity.
Qed.

(** [writeEBML] completes on the writable trees, and on no other, whatever
    the stream and the file offset. *)
Lemma completes_writeEBML (e : EBML.t) :
  forall s off, completes (EBML.writeEBML s off e) = writable e.
Proof.
  induction e as [items IH|str|b|n|bits|bits|id size data o d IH|]
    using EBML.t_ind; intros s off; try reflexivity.
  - rewrite writeEBML_Array, completes_bind. cbn [writable].
    revert s. induction IH as [|x l Hx _ IHl]; intros s; [reflexivity|].
    rewrite writeSiblings_cons. cbn [forallb]. rewrite <- (Hx s off).
    destruct (EBML.writeEBML s off x) as [err|[s1 x']]; [reflexivity|].
    cbn [mbind result_bind completes andb]. specialize (IHl s1).
    destruct (EBML.writeSiblings off s1 l) as [err|[s2 l']]; exact IHl.
  - cbn [writable]. destruct (Z.eq_dec id 0) as [->|Hid]; [reflexivity|].
    assert (Hnz : negb (id =? 0) = true).
    { destruct (Z.eqb_spec id 0); [contradiction|reflexivity]. }
    rewrite Hnz. cbn [andb].
    destruct data as [children|str|b|n|bits|bits| |].
    + specialize (IH (writeBytes
                        (if EBML.unbounded size then [255] else [0; 0; 0; 0])
                        (writeBytes (VINT.writtenUInt id (measureUnsignedInt id)) s))
                     off).
      cbn [writable] in IH. rewrite <- IH.
      destruct (EBML.unbounded size) eqn:Hsize.
      * rewrite writeEBML_unbounded by assumption. cbv zeta.
        rewrite completes_bind.
        change (writeByte 255 ?x) with (writeBytes [255] x).
        destruct (EBML.writeEBML _ off (EBML.Array children)) as [err|[s3 d']];
          reflexivity.
      * rewrite writeEBML_container by assumption. cbv zeta.
        rewrite completes_bind.
        destruct (EBML.writeEBML _ off (EBML.Array children)) as [err|[s3 d']];
          reflexivity.
    + cbn [EBML.writeEBML]. destruct (Z.eqb_spec id 0) as [|_]; [contradiction|].
      rewrite writeUnsignedIntBE_id. cbn [mbind result_bind].
      rewrite completes_bind.
      rewrite <- (completes_writeEBMLVarInt _
        (writeBytes (VINT.writtenUInt id (measureUnsignedInt id)) s)).
      destruct (writeEBMLVarInt _ _); reflexivity.
    + cbn [EBML.writeEBML]. destruct (Z.eqb_spec id 0) as [|_]; [contradiction|].
      rewrite writeUnsignedIntBE_id. cbn [mbind result_bind].
      rewrite completes_bind.
      rewrite <- (completes_writeEBMLVarInt _
        (writeBytes (VINT.writtenUInt id (measureUnsignedInt id)) s)).
      destruct (writeEBMLVarInt _ _); reflexivity.
    + cbn [EBML.writeEBML]. destruct (Z.eqb_spec id 0) as [|_]; [contradiction|].
      rewrite writeUnsignedIntBE_id. cbn [mbind result_bind].
      fold (numberSize size n).
      rewrite completes_bind.
      pose proof (completes_writeEBMLVarInt (numberSize size n)
        (writeBytes (VINT.writtenUInt id (measureUnsignedInt id)) s)) as Hv.
      destruct (writeEBMLVarInt _ _) as [err|s1].
      * cbn [completes] in Hv. symmetry in Hv. apply Z.ltb_ge in Hv.
        symmetry. apply andb_false_iff. right. apply Z.leb_gt. lia.
      * rewrite completes_bind.
        rewrite <- (completes_writeUnsignedIntBE n (numberSize size n) s1).
        destruct (writeUnsignedIntBE _ _ _); reflexivity.
    + cbn [EBML.writeEBML]. destruct (Z.eqb_spec id 0) as [|_]; [contradiction|].
      rewrite writeUnsignedIntBE_id. reflexivity.
    + cbn [EBML.writeEBML]. destruct (Z.eqb_spec id 0) as [|_]; [contradiction|].
      rewrite writeUnsignedIntBE_id. reflexivity.
    + cbn [EBML.writeEBML]. destruct (Z.eqb_spec id 0) as [|_]; [contradiction|].
      rewrite writeUnsignedIntBE_id. reflexivity.
    + cbn [EBML.writeEBML]. destruct (Z.eqb_spec id 0) as [|_]; [contradiction|].
      rewrite writeUnsignedIntBE_id. reflexivity.
Qed.

(** The fields [writeEBML] assigns to an element. *)
Lemma writeEBML_fields (id : Z) (size : option Z) (data : EBML.t) (o d : option Z)
    (s s' : ABDS.t) (off : Z) (e' : EBML.t) :
  let e := EBML.Element id size data o d in
  EBML.writeEBML s off e = ok (s', e') ->
  EBML.offsetOf e' = Some (pos s + off) /\
  EBML.dataOffsetOf e' = Some (pos s' - Z.of_nat (length (payload e)) + off) /\
  EBML.sizeOf e' =
    (if sizeAssigned e then Some (Z.of_nat (length (payload e))) else size).
Proof.
  intros e H. subst e.
  destruct (Z.eq_dec id 0) as [->|Hid]; [discriminate H|].
  destruct data as [children|str|b|n|bits|bits| |].
  - destruct (EBML.unbounded size) eqn:Hsize.
    + rewrite writeEBML_unbounded in H by assumption. cbv zeta in H.
      bind_inv H. destruct p as [s3 data']. injection H as <- <-.
      apply writeEBML_wrote in E as (_ & Hp & _). cbn [encode] in Hp.
      cbn [payload sizeAssigned EBML.offsetOf EBML.dataOffsetOf EBML.sizeOf].
      rewrite Hsize. cbn [negb]. cbn [writeByte pos] in Hp.
      repeat split. f_equal. lia.
    + rewrite writeEBML_container in H by assumption. cbv zeta in H.
      bind_inv H. destruct p as [s3 data'].
      pose proof (writeEBML_wrote _ _ _ _ _ E) as (_ & Hp & _). cbn [encode] in Hp.
      match type of H with
      | ok (?a, ?b) = _ => assert (Hs : pos a = pos s3) by reflexivity;
                           assert (He : e' = b) by congruence;
                           assert (Hs' : s' = a) by congruence
      end.
      rewrite Hs', Hs, He.
      cbn [payload sizeAssigned EBML.offsetOf EBML.dataOffsetOf EBML.sizeOf].
      rewrite Hsize. cbn [negb].
      rewrite (pos_writeBytes [0; 0; 0; 0]) in Hp. cbn [length] in Hp.
      repeat split; f_equal; cbn [writeBytes fold_left writeByte pos]; lia.
  - cbn [EBML.writeEBML] in H.
    destruct (Z.eqb_spec id 0) as [|_]; [contradiction|].
    rewrite writeUnsignedIntBE_id in H. cbn [mbind result_bind] in H.
    bind_inv H. injection H as <- <-.
    cbn [payload sizeAssigned EBML.offsetOf EBML.dataOffsetOf EBML.sizeOf].
    repeat split. f_equal. rewrite writeString_writeBytes, pos_writeBytes, length_map. lia.
  - cbn [EBML.writeEBML] in H.
    destruct (Z.eqb_spec id 0) as [|_]; [contradiction|].
    rewrite writeUnsignedIntBE_id in H. cbn [mbind result_bind] in H.
    bind_inv H. injection H as <- <-.
    cbn [payload sizeAssigned EBML.offsetOf EBML.dataOffsetOf EBML.sizeOf].
    repeat split. f_equal. rewrite pos_writeBytes, length_map. lia.
  - cbn [EBML.writeEBML] in H.
    destruct (Z.eqb_spec id 0) as [|_]; [contradiction|].
    rewrite writeUnsignedIntBE_id in H. cbn [mbind result_bind] in H.
    fold (numberSize size n) in H.
    bind_inv H. bind_inv H. injection H as <- <-.
    pose proof E0 as Hw. apply writeUnsignedIntBE_inv in Hw as (w & Hwd & Hw & ->).
    change (default (measureUnsignedInt n) (Some (numberSize size n)))
      with (numberSize size n) in Hwd. subst w.
    cbn [payload sizeAssigned EBML.offsetOf EBML.dataOffsetOf EBML.sizeOf].
    rewrite length_map. pose proof (length_writtenUInt n _ Hw) as Hl.
    split; [reflexivity|]. split; f_equal; [rewrite pos_writeBytes|]; lia.
  - cbn [EBML.writeEBML] in H.
    destruct (Z.eqb_spec id 0) as [|_]; [contradiction|].
    rewrite writeUnsignedIntBE_id in H. cbn [mbind result_bind] in H.
    bind_inv H. injection H as <- <-.
    cbn [payload sizeAssigned EBML.offsetOf EBML.dataOffsetOf EBML.sizeOf].
    repeat split. f_equal. unfold writeDoubleBE. rewrite pos_writeBytes.
    unfold floatBytes. rewrite !length_map. lia.
  - cbn [EBML.writeEBML] in H.
    destruct (Z.eqb_spec id 0) as [|_]; [contradiction|].
    rewrite writeUnsignedIntBE_id in H. cbn [mbind result_bind] in H.
    bind_inv H. injection H as <- <-.
    cbn [payload sizeAssigned EBML.offsetOf EBML.dataOffsetOf EBML.sizeOf].
    repeat split. f_equal. unfold writeFloatBE. rewrite pos_writeBytes.
    unfold floatBytes. rewrite !length_map. lia.
  - cbn [EBML.writeEBML] in H.
    destruct (Z.eqb_spec id 0) as [|_]; [contradiction|].
    rewrite writeUnsignedIntBE_id in H. discriminate H.
  - cbn [EBML.writeEBML] in H.
    destruct (Z.eqb_spec id 0) as [|_]; [contradiction|].
    rewrite writeUnsignedIntBE_id in H. discriminate H.
Qed.

Lemma length_charCodes (str : string) :
  length (charCodes str) = String.length str.
Proof.
  unfold charCodes. rewrite length_map.
  induction str as [|c str IH]; [reflexivity|]. cbn. rewrite IH. reflexivity.
Qed.

Lemma encode_element (id : Z) (size : option Z) (data : EBML.t) (o d : option Z) :
  let e := EBML.Element id size data o d in
  writable e = true ->
  encode e = idBytes id ++ sizeField e ++ payload e.
Proof.
  intros e Hw. subst e. cbn [writable] in Hw.
  apply andb_prop in Hw as [_ Hw].
  destruct data as [children|str|b|n|bits|bits| |]; try discriminate Hw;
    cbn [encode sizeField payload]; try reflexivity.
  - rewrite length_map, length_charCodes. reflexivity.
  - rewrite length_map. reflexivity.
  - apply andb_prop in Hw as [H1 H5].
    rewrite length_map. rewrite length_writtenUInt by lia. reflexivity.
Qed.

Lemma writable_of_ok (e : EBML.t) (s : ABDS.t) (off : Z) (r : ABDS.t * EBML.t) :
  EBML.writeEBML s off e = ok r -> writable e = true.
Proof.
  intros H. rewrite <- (completes_writeEBML e s off), H. reflexivity.
Qed.

Lemma placed_container (p id : Z) (size : option Z) (l : list EBML.t)
    (o d : option Z) :
  placed p (EBML.Element id size (EBML.Array l) o d) =
    let dataOffset :=
      p + measureUnsignedInt id + (if EBML.unbounded size then 1 else 4) in
    EBML.Element id
      (if EBML.unbounded size then size
       else Some (Z.of_nat (length (concat (map encode l)))))
      (placed dataOffset (EBML.Array l)) (Some p) (Some dataOffset).
Proof.
  cbv zeta.
  assert (Hd : p + Z.of_nat (length (idBytes id))
               + Z.of_nat (length (sizeField (EBML.Element id size (EBML.Array l) o d)))
               = p + measureUnsignedInt id + (if EBML.unbounded size then 1 else 4)).
  { unfold idBytes. rewrite length_map.
    rewrite (length_writtenUInt id _ (measureUnsignedInt_range id)).
    cbn [sizeField]. destruct (EBML.unbounded size); reflexivity. }
  rewrite <- Hd. cbn [placed sizeAssigned payload].
  destruct (EBML.unbounded size); reflexivity.
Qed.

(** The tree [writeEBML] returns is the tree placed at the file position
    of the cursor. *)
Lemma writeEBML_placed (e : EBML.t) :
  forall s off s' e',
    EBML.writeEBML s off e = ok (s', e') -> e' = placed (pos s + off) e.
Proof.
  induction e as [items IH|str|b|n|bits|bits|id size data o d IH|]
    using EBML.t_ind; intros s off s' e' H; try discriminate H.
  - rewrite writeEBML_Array in H. bind_inv H. destruct p as [s1 items'].
    injection H as _ <-. cbn [placed]. f_equal.
    revert s s1 items' E. induction IH as [|x l Hx _ IHl]; intros s s1 items' E.
    + injection E as _ <-. reflexivity.
    + rewrite writeSiblings_cons in E. bind_inv E. destruct p as [sx x'].
      bind_inv E. destruct p as [sl l']. injection E as _ <-.
      rewrite (Hx _ _ _ _ E0).
      pose proof (writeEBML_wrote _ _ _ _ _ E0) as (_ & Hp & _).
      rewrite (IHl _ _ _ E1). rewrite Hp. f_equal. f_equal. lia.
  - injection H as _ <-. reflexivity.
  - injection H as _ <-. reflexivity.
  - pose proof (writable_of_ok _ _ _ _ H) as Hw.
    pose proof (encode_element id size data o d Hw) as Henc. cbv zeta in Henc.
    pose proof (writeEBML_wrote _ _ _ _ _ H) as (_ & Hp & _).
    pose proof (writeEBML_fields id size data o d _ _ _ _ H) as (Ho & Hd & Hs).
    rewrite Henc, !length_app in Hp.
    assert (Hdo : pos s' - Z.of_nat (length (payload (EBML.Element id size data o d))) + off
                  = pos s + off + Z.of_nat (length (idBytes id))
                    + Z.of_nat (length (sizeField (EBML.Element id size data o d))))
      by lia.
    rewrite Hdo in Hd. clear Hdo Hp Henc.
    destruct (Z.eq_dec id 0) as [->|Hid]; [discriminate H|].
    destruct data as [children|str|b|n|bits|bits| |].
    + rewrite placed_container. cbv zeta.
      pose proof (length_writtenUInt id _ (measureUnsignedInt_range id)) as Hlid.
      destruct (EBML.unbounded size) eqn:Hsize.
      * rewrite writeEBML_unbounded in H by assumption. cbv zeta in H.
        bind_inv H. destruct p as [s3 data'].
        apply IH in E. cbn [writeByte pos] in E. rewrite pos_writeBytes in E.
        assert (He : e' = EBML.Element id size data' (Some (pos s + off))
                  (Some (pos (writeByte 255
                     (writeBytes (VINT.writtenUInt id (measureUnsignedInt id)) s)) + off)))
          by congruence.
        clear H. subst e'. cbn [writeByte pos]. rewrite pos_writeBytes.
        rewrite E. f_equal; f_equal; lia.
      * rewrite writeEBML_container in H by assumption. cbv zeta in H.
        bind_inv H. destruct p as [s3 data'].
        assert (He : e' = EBML.Element id
                  (Some (pos s3 - pos (writeBytes [0; 0; 0; 0]
                     (writeBytes (VINT.writtenUInt id (measureUnsignedInt id)) s))))
                  data' (Some (pos s + off))
                  (Some (pos (writeBytes [0; 0; 0; 0]
                     (writeBytes (VINT.writtenUInt id (measureUnsignedInt id)) s)) + off)))
          by congruence.
        clear H. subst e'.
        pose proof (writeEBML_wrote _ _ _ _ _ E) as (_ & Hp3 & _).
        cbn [encode] in Hp3.
        apply IH in E.
        rewrite !(pos_writeBytes [0; 0; 0; 0]) in *. rewrite !pos_writeBytes in *.
        cbn [length] in *.
        rewrite E. f_equal; f_equal; lia.
    + cbn [EBML.writeEBML] in H.
      destruct (Z.eqb_spec id 0) as [|_]; [contradiction|].
      rewrite writeUnsignedIntBE_id in H. cbn [mbind result_bind] in H.
      bind_inv H. injection H as _ <-.
      cbn [EBML.dataOffsetOf] in Hd. cbn [placed sizeAssigned]. rewrite Hd. reflexivity.
    + cbn [EBML.writeEBML] in H.
      destruct (Z.eqb_spec id 0) as [|_]; [contradiction|].
      rewrite writeUnsignedIntBE_id in H. cbn [mbind result_bind] in H.
      bind_inv H. injection H as _ <-.
      cbn [EBML.dataOffsetOf] in Hd. cbn [placed sizeAssigned]. rewrite Hd. reflexivity.
    + cbn [EBML.writeEBML] in H.
      destruct (Z.eqb_spec id 0) as [|_]; [contradiction|].
      rewrite writeUnsignedIntBE_id in H. cbn [mbind result_bind] in H.
      bind_inv H. bind_inv H. injection H as _ <-.
      cbn [EBML.dataOffsetOf EBML.sizeOf sizeAssigned] in Hd, Hs.
      cbn [placed sizeAssigned]. rewrite Hd, Hs. reflexivity.
    + cbn [EBML.writeEBML] in H.
      destruct (Z.eqb_spec id 0) as [|_]; [contradiction|].
      rewrite writeUnsignedIntBE_id in H. cbn [mbind result_bind] in H.
      bind_inv H. injection H as _ <-.
      cbn [EBML.dataOffsetOf] in Hd. cbn [placed sizeAssigned]. rewrite Hd. reflexivity.
    + cbn [EBML.writeEBML] in H.
      destruct (Z.eqb_spec id 0) as [|_]; [contradiction|].
      rewrite writeUnsignedIntBE_id in H. cbn [mbind result_bind] in H.
      bind_inv H. injection H as _ <-.
      cbn [EBML.dataOffsetOf] in Hd. cbn [placed sizeAssigned]. rewrite Hd. reflexivity.
    + cbn [EBML.writeEBML] in H.
      destruct (Z.eqb_spec id 0) as [|_]; [contradiction|].
      rewrite writeUnsignedIntBE_id in H. discriminate H.
    + cbn [EBML.writeEBML] in H.
      destruct (Z.eqb_spec id 0) as [|_]; [contradiction|].
      rewrite writeUnsignedIntBE_id in H. discriminate H.
Qed.

(** Writing a tree into a fresh buffer that can hold it: the whole buffer
    content up to the cursor is the encoding. *)
Lemma writeEBML_new (e : EBML.t) (n off : Z) :
  writable e = true -> Z.of_nat (length (encode e)) <= n ->
  exists s',
    EBML.writeEBML (ABDS.new n) off e = ok (s', placed off e) /\
    pos s' = Z.of_nat (length (encode e)) /\
    getAsDataArray s' = ok (encode e).
Proof.
  intros Hw Hn.
  pose proof (completes_writeEBML e (ABDS.new n) off) as Hc. rewrite Hw in Hc.
  destruct (EBML.writeEBML (ABDS.new n) off e) as [err|[s' e']] eqn:H;
    [discriminate Hc|].
  pose proof (writeEBML_placed _ _ _ _ _ H) as ->.
  pose proof (writeEBML_wrote _ _ _ _ _ H) as (He & Hp & Hs).
  change (pos (ABDS.new n)) with 0 in *. rewrite Z.add_0_l in *.
  assert (Hlen : byteLength (ABDS.new n) = n).
  { unfold byteLength, ABDS.new. cbn [data]. rewrite length_replicate. lia. }
  exists s'. split; [reflexivity|]. split; [exact Hp|].
  rewrite getAsDataArray_prefix
    by (rewrite (extends_byteLength _ _ He), Hlen; lia).
  f_equal. rewrite Hp, Nat2Z.id.
  etransitivity; [|apply Hs; rewrite ?Hlen; lia].
  unfold slice. change (Z.to_nat 0) with 0%nat. rewrite drop_0. reflexivity.
Qed.

(** ... and into one that cannot: the cursor ends beyond the array. *)
Lemma writeEBML_new_overflow (e : EBML.t) (n off : Z) (s' : ABDS.t) (e' : EBML.t) :
  0 <= n -> n < Z.of_nat (length (encode e)) ->
  EBML.writeEBML (ABDS.new n) off e = ok (s', e') ->
  getAsDataArray s' = throw PosBeyondEnd.
Proof.
  intros Hn Hlt H.
  pose proof (writeEBML_wrote _ _ _ _ _ H) as (He & Hp & _).
  change (pos (ABDS.new n)) with 0 in Hp.
  apply getAsDataArray_beyond. rewrite (extends_byteLength _ _ He).
  unfold byteLength, ABDS.new. cbn [data]. rewrite length_replicate. lia.
Qed.

End Encodes.

Section ReadBack.

Import Encoding Reader.

Lemma decode_app (bytes tail : list Z) (v : Z) :
  VINT.decode bytes = Some (v, []) -> VINT.decode (bytes ++ tail) = Some (v, tail).
Proof.
  destruct bytes as [|b0 rest]; [discriminate|]. unfold VINT.decode.
  cbn [app]. destruct (VINT.width b0) as [w|]; [|discriminate].
  cbn [mbind option_bind].
  destruct (length rest <? w - 1)%nat eqn:Hlen; [discriminate|].
  apply Nat.ltb_ge in Hlen. intros [= Hv Hdrop].
  assert (Hrl : length rest = (w - 1)%nat).
  { apply (f_equal length) in Hdrop. rewrite length_drop in Hdrop.
    cbn [length] in Hdrop. lia. }
  assert (Hlen' : (length (rest ++ tail) <? w - 1)%nat = false).
  { apply Nat.ltb_ge. rewrite length_app. lia. }
  rewrite Hlen'. rewrite <- Hrl, take_app_length, drop_app_length.
  rewrite take_ge in Hv by lia. rewrite Hv. reflexivity.
Qed.

Lemma length_idBytes (id : Z) :
  length (idBytes id) = Z.to_nat (measureUnsignedInt id).
Proof.
  unfold idBytes. rewrite length_map.
  pose proof (length_writtenUInt id _ (measureUnsignedInt_range id)). lia.
Qed.

Lemma validId_range (id : Z) :
  validId id = true ->
  let w := measureUnsignedInt id in
  1 <= w <= 4 /\ 2 ^ (7 * w) <= id < 2 ^ (7 * w + 1).
Proof.
  unfold validId. cbv zeta. intros H.
  apply andb_prop in H as [H H3]. apply andb_prop in H as [H1 H2].
  pose proof (measureUnsignedInt_range id). lia.
Qed.

Lemma readId_idBytes (id : Z) (tail : list Z) :
  validId id = true -> readId (idBytes id ++ tail) = Some (id, tail).
Proof.
  intros Hvalid. apply validId_range in Hvalid. cbv zeta in Hvalid.
  destruct Hvalid as (Hw & Hlo & Hhi).
  pose proof (length_idBytes id) as Hlen.
  pose proof (accumulate_writtenUInt id _ (measureUnsignedInt_range id)) as Hacc.
  fold (idBytes id) in Hacc.
  set (w := measureUnsignedInt id) in *.
  assert (Hid : id mod 2 ^ (8 * w) = id).
  { apply Z.mod_small. split; [pose proof (Z.pow_pos_nonneg 2 (7 * w)); lia|].
    eapply Z.lt_le_trans; [exact Hhi|]. apply Z.pow_le_mono_r; lia. }
  rewrite Hid in Hacc.
  destruct (idBytes id) as [|b0 rest] eqn:Hbytes; [cbn [length] in Hlen; lia|].
  unfold readId. cbn [app].
  (* the first byte is the top byte of the id *)
  assert (Hb0 : b0 = id / 2 ^ (8 * (w - 1))).
  { unfold idBytes in Hbytes. fold w in Hbytes.
    assert (Hc : w = 1 \/ w = 2 \/ w = 3 \/ w = 4) by lia.
    destruct Hc as [Hc|[Hc|[Hc|Hc]]]; rewrite Hc in *.
    - change (VINT.writtenUInt id 1) with [id] in Hbytes.
      injection Hbytes as <- _. unfold JS.ToUint8.
      change (8 * (1 - 1)) with 0. rewrite Z.pow_0_r, Z.div_1_r.
      apply Z.mod_small. change (2 ^ (7 * 1 + 1)) with 256 in Hhi.
      change (2 ^ (7 * 1)) with 128 in Hlo. change (2 ^ 8) with 256. lia.
    - change (VINT.writtenUInt id 2) with [JS.sar id 8; id] in Hbytes.
      injection Hbytes as <- _. rewrite ToUint8_sar_8.
      change (8 * (2 - 1)) with 8. apply Z.mod_small.
      change (2 ^ (7 * 2 + 1)) with 32768 in Hhi.
      change (2 ^ (7 * 2)) with 16384 in Hlo. change (2 ^ 8) with 256.
      Z.div_mod_to_equations. lia.
    - change (VINT.writtenUInt id 3) with [JS.sar id 16; JS.sar id 8; id] in Hbytes.
      injection Hbytes as <- _. rewrite ToUint8_sar_16.
      change (8 * (3 - 1)) with 16. apply Z.mod_small.
      change (2 ^ (7 * 3 + 1)) with 4194304 in Hhi.
      change (2 ^ (7 * 3)) with 2097152 in Hlo. change (2 ^ 8) with 256.
      change (2 ^ 16) with 65536.
      Z.div_mod_to_equations. lia.
    - change (VINT.writtenUInt id 4)
        with [JS.sar id 24; JS.sar id 16; JS.sar id 8; id] in Hbytes.
      injection Hbytes as <- _. rewrite ToUint8_sar_24.
      change (8 * (4 - 1)) with 24. apply Z.mod_small.
      change (2 ^ (7 * 4 + 1)) with 536870912 in Hhi.
      change (2 ^ (7 * 4)) with 268435456 in Hlo. change (2 ^ 8) with 256.
      change (2 ^ 24) with 16777216.
      Z.div_mod_to_equations. lia. }
  assert (Hwidth : VINT.width b0 = Some (Z.to_nat w)).
  { rewrite Hb0. unfold VINT.width.
    assert (Hc : w = 1 \/ w = 2 \/ w = 3 \/ w = 4) by lia.
    destruct Hc as [Hc|[Hc|[Hc|Hc]]]; rewrite Hc in *.
    - change (8 * (1 - 1)) with 0. rewrite Z.pow_0_r, Z.div_1_r.
      change (2 ^ (7 * 1)) with 128 in Hlo.
      destruct (Z.leb_spec 128 id); [reflexivity|lia].
    - change (8 * (2 - 1)) with 8. change (2 ^ 8) with 256.
      change (2 ^ (7 * 2 + 1)) with 32768 in Hhi.
      change (2 ^ (7 * 2)) with 16384 in Hlo.
      assert (64 <= id / 256 < 128) by (Z.div_mod_to_equations; lia).
      destruct (Z.leb_spec 128 (id / 256)); [lia|].
      destruct (Z.leb_spec 64 (id / 256)); [reflexivity|lia].
    - change (8 * (3 - 1)) with 16. change (2 ^ 16) with 65536.
      change (2 ^ (7 * 3 + 1)) with 4194304 in Hhi.
      change (2 ^ (7 * 3)) with 2097152 in Hlo.
      assert (32 <= id / 65536 < 64) by (Z.div_mod_to_equations; lia).
      destruct (Z.leb_spec 128 (id / 65536)); [lia|].
      destruct (Z.leb_spec 64 (id / 65536)); [lia|].
      destruct (Z.leb_spec 32 (id / 65536)); [reflexivity|lia].
    - change (8 * (4 - 1)) with 24. change (2 ^ 24) with 16777216.
      change (2 ^ (7 * 4 + 1)) with 536870912 in Hhi.
      change (2 ^ (7 * 4)) with 268435456 in Hlo.
      assert (16 <= id / 16777216 < 32) by (Z.div_mod_to_equations; lia).
      destruct (Z.leb_spec 128 (id / 16777216)); [lia|].
      destruct (Z.leb_spec 64 (id / 16777216)); [lia|].
      destruct (Z.leb_spec 32 (id / 16777216)); [lia|].
      destruct (Z.leb_spec 16 (id / 16777216)); [reflexivity|lia]. }
  rewrite Hwidth. cbn [mbind option_bind].
  assert (H4 : (4 <? Z.to_nat w)%nat = false) by (apply Nat.ltb_ge; lia).
  assert (Hl : (length (b0 :: rest ++ tail) <? Z.to_nat w)%nat = false).
  { apply Nat.ltb_ge. cbn [length] in *. rewrite length_app. lia. }
  rewrite H4, Hl. cbn [orb].
  change (b0 :: rest ++ tail) with ((b0 :: rest) ++ tail).
  rewrite <- Hlen, take_app_length, drop_app_length, Hacc. reflexivity.
Qed.

(** The size field of a leaf reads back as the size, and is never the
    all-ones pattern of its width. *)
Lemma decode_vint (n : Z) (tail : list Z) :
  0 <= n < 34359738367 ->
  VINT.decode (vint n ++ tail) = Some (n, tail) /\
  n <> 2 ^ (7 * Z.of_nat (length (vint n))) - 1.
Proof.
  intros Hn. unfold vint.
  destruct (measureEBMLVarInt n) as [err|w] eqn:Hm.
  - rewrite measureEBMLVarInt_cases in Hm.
    repeat match type of Hm with
           | (if ?a <? ?b then _ else _) = _ =>
               destruct (Z.ltb_spec a b); [try discriminate Hm; lia|]
           end.
    lia.
  - destruct (measureEBMLVarInt_fits n w Hm) as [Hw Hfit].
    split.
    + apply decode_app, decode_written; [exact Hw|lia].
    + rewrite length_map. rewrite (length_written n w Hw). lia.
Qed.

Lemma decode_vint4 (n : Z) (tail : list Z) :
  0 <= n < 2 ^ 28 ->
  VINT.decode (vint4 n ++ tail) = Some (n, tail).
Proof.
  intros Hn. apply decode_app, decode_written; [lia|].
  change (2 ^ (7 * 4)) with (2 ^ 28). exact Hn.
Qed.

Lemma sizeField_nonneg (e : EBML.t) : 0 <= Z.of_nat (length (payload e)).
Proof. lia. Qed.

(** An element of known size reads back as its id and its payload, and
    leaves what follows it. *)
Lemma readElement_encode (e : EBML.t) (tail : list Z) :
  framed e = true -> writable e = true ->
  readElement (encode e ++ tail) = Some (idOf e, payload e, tail).
Proof.
  intros Hf Hw. destruct e as [| | | | | |id size data o d|]; try discriminate Hf.
  rewrite encode_element by exact Hw. cbn [framed] in Hf.
  apply andb_prop in Hf as [Hid Hf]. cbn [idOf].
  unfold readElement. rewrite <- !app_assoc, readId_idBytes by exact Hid.
  cbn [mbind option_bind].
  set (e := EBML.Element id size data o d) in *.
  set (P := payload e) in *.
  assert (Hsf : VINT.decode (sizeField e ++ P ++ tail)
                  = Some (Z.of_nat (length P), P ++ tail) /\
                Z.of_nat (length P)
                  <> 2 ^ (7 * Z.of_nat (length (sizeField e))) - 1).
  { subst P e. cbn [writable] in Hw. apply andb_prop in Hw as [_ Hw].
    destruct data as [children|str|b|n|bits|bits| |]; try discriminate Hw;
      cbn [sizeField].
    - apply andb_prop in Hf as [Hu Hsmall]. apply negb_true_iff in Hu.
      rewrite Hu. apply Z.ltb_lt in Hsmall.
      split; [apply decode_vint4; lia|].
      match goal with
      | |- context [length (vint4 ?n)] =>
          change (Z.of_nat (length (vint4 n))) with 4
      end.
      change (2 ^ (7 * 4)) with (2 ^ 28). lia.
    - apply decode_vint. apply Z.ltb_lt in Hw.
      cbn [payload]. rewrite length_map, length_charCodes. lia.
    - apply decode_vint. apply Z.ltb_lt in Hw.
      cbn [payload]. rewrite length_map. lia.
    - apply decode_vint. apply andb_prop in Hw as [H1 H5].
      cbn [payload]. rewrite length_map, length_writtenUInt by lia. lia.
    - apply decode_vint. cbn. lia.
    - apply decode_vint. cbn. lia. }
  destruct Hsf as [Hdec Hnot]. rewrite Hdec. cbn [mbind option_bind].
  rewrite !length_app.
  replace (length (sizeField e) + (length P + length tail) - (length P + length tail))%nat
    with (length (sizeField e)) by lia.
  destruct (Z.eqb_spec (Z.of_nat (length P))
              (2 ^ (7 * Z.of_nat (length (sizeField e))) - 1)); [contradiction|].
  destruct (Z.ltb_spec (Z.of_nat (length P + length tail)) (Z.of_nat (length P)));
    [lia|].
  rewrite Nat2Z.id, take_app_length, drop_app_length. reflexivity.
Qed.

(** An element declared unbounded reads back with all that follows as its
    payload. *)
Lemma readElement_unbounded (id : Z) (size : option Z) (children : list EBML.t)
    (o d : option Z) (tail : list Z) :
  let e := EBML.Element id size (EBML.Array children) o d in
  validId id = true -> EBML.unbounded size = true ->
  readElement (encode e ++ tail) = Some (id, payload e ++ tail, []).
Proof.
  intros e Hid Hu. subst e. cbn [encode payload]. rewrite Hu.
  unfold readElement. rewrite <- !app_assoc, readId_idBytes by exact Hid.
  cbn [mbind option_bind app].
  change (VINT.decode (255 :: ?l)) with (Some (127, l)).
  cbn [mbind option_bind length].
  replace (S (length (concat (map encode children) ++ tail))
           - length (concat (map encode children) ++ tail))%nat with 1%nat by lia.
  reflexivity.
Qed.

(** A sequence of elements of known size reads back element by element. *)
Lemma readElements_encode (es : list EBML.t) :
  Forall (fun e => framed e = true /\ writable e = true) es ->
  readElements (length es) (concat (map encode es))
    = Some (map (fun e => (idOf e, payload e)) es).
Proof.
  induction 1 as [|e es [Hf Hw] _ IH]; [reflexivity|].
  cbn [map concat length].
  pose proof (readElement_encode e (concat (map encode es)) Hf Hw) as Hr.
  destruct (encode e ++ concat (map encode es)) as [|b l] eqn:Hbytes.
  - discriminate Hr.
  - cbn [readElements]. rewrite Hr. cbn [mbind option_bind].
    rewrite IH. reflexivity.
Qed.

End ReadBack.

Section Sizes.

Import Encoding.

Lemma size_Array_nil : size (EBML.Array []) = 0.
Proof. reflexivity. Qed.

Lemma size_Array_cons (e : EBML.t) (l : list EBML.t) :
  size (EBML.Array (e :: l)) = size e + size (EBML.Array l).
Proof. unfold size. cbn [encode map concat]. rewrite length_app. lia. Qed.

Lemma size_idBytes (id : Z) : Z.of_nat (length (idBytes id)) = measureUnsignedInt id.
Proof. rewrite length_idBytes. pose proof (measureUnsignedInt_range id). lia. Qed.

Lemma size_vint_small (n : Z) : n < 127 -> Z.of_nat (length (vint n)) = 1.
Proof.
  intros Hn. unfold vint. rewrite measureEBMLVarInt_cases.
  destruct (Z.ltb_spec n 127); [reflexivity|lia].
Qed.

Lemma size_vint_pos (n : Z) : n < 34359738367 -> 1 <= Z.of_nat (length (vint n)).
Proof.
  intros Hn. unfold vint.
  destruct (measureEBMLVarInt n) as [err|w] eqn:Hm.
  - rewrite measureEBMLVarInt_cases in Hm.
    repeat match type of Hm with
           | (if ?a <? ?b then _ else _) = _ =>
               destruct (Z.ltb_spec a b); [try discriminate Hm; lia|]
           end.
    lia.
  - destruct (measureEBMLVarInt_fits n w Hm) as [Hw _].
    rewrite length_map, (length_written n w Hw). lia.
Qed.

Lemma size_number (id n : Z) (o d : option Z) :
  size (EBML.Element id None (EBML.Number n) o d)
    = measureUnsignedInt id + 1 + measureUnsignedInt n.
Proof.
  unfold size. cbn [encode]. rewrite !length_app, !Nat2Z.inj_add.
  rewrite size_idBytes.
  change (numberSize None n) with (measureUnsignedInt n).
  pose proof (measureUnsignedInt_range n) as Hw.
  rewrite size_vint_small by lia.
  rewrite length_map, (length_writtenUInt n _ Hw). lia.
Qed.

Lemma size_numberSized (id sz n : Z) (o d : option Z) :
  1 <= sz <= 5 ->
  size (EBML.Element id (Some sz) (EBML.Number n) o d) = measureUnsignedInt id + 1 + sz.
Proof.
  intros Hsz. unfold size. cbn [encode].
  rewrite !length_app, !Nat2Z.inj_add, size_idBytes.
  assert (Hns : numberSize (Some sz) n = sz).
  { unfold numberSize. cbn [EBML.falsy]. destruct (Z.eqb_spec sz 0); [lia|reflexivity]. }
  rewrite Hns. rewrite size_vint_small by lia.
  rewrite length_map, (length_writtenUInt n _ Hsz). lia.
Qed.

Lemma size_string (id : Z) (sz : option Z) (str : string) (o d : option Z) :
  size (EBML.Element id sz (EBML.Str str) o d)
    = measureUnsignedInt id + Z.of_nat (length (vint (Z.of_nat (String.length str))))
      + Z.of_nat (String.length str).
Proof.
  unfold size. cbn [encode]. rewrite !length_app, !Nat2Z.inj_add.
  rewrite size_idBytes, length_map, length_charCodes. lia.
Qed.

Lemma size_bytes (id : Z) (sz : option Z) (b : list Z) (o d : option Z) :
  size (EBML.Element id sz (EBML.Bytes b) o d)
    = measureUnsignedInt id + Z.of_nat (length (vint (Z.of_nat (length b))))
      + Z.of_nat (length b).
Proof.
  unfold size. cbn [encode]. rewrite !length_app, !Nat2Z.inj_add.
  rewrite size_idBytes, length_map. lia.
Qed.

Lemma size_float64 (id : Z) (sz : option Z) (bits : Z) (o d : option Z) :
  size (EBML.Element id sz (EBML.Float64 bits) o d) = measureUnsignedInt id + 9.
Proof.
  unfold size. cbn [encode]. rewrite !length_app, !Nat2Z.inj_add.
  rewrite size_idBytes. reflexivity.
Qed.

Lemma size_container (id : Z) (sz : option Z) (l : list EBML.t) (o d : option Z) :
  size (EBML.Element id sz (EBML.Array l) o d)
    = measureUnsignedInt id + (if EBML.unbounded sz then 1 else 4)
      + size (EBML.Array l).
Proof.
  unfold size. cbn [encode]. rewrite !length_app, !Nat2Z.inj_add, size_idBytes.
  destruct (EBML.unbounded sz); cbn [encode]; [change (Z.of_nat (length [255])) with 1|
    match goal with |- context [length (vint4 ?n)] =>
      change (Z.of_nat (length (vint4 n))) with 4 end]; lia.
Qed.

End Sizes.

Section HeaderSize.

Import WebMWriter Encoding.

Ltac measure_ids :=
  repeat match goal with
         | |- context [measureUnsignedInt (Zpos ?p)] =>
             let v := eval vm_compute in (measureUnsignedInt (Zpos p)) in
             change (measureUnsignedInt (Zpos p)) with v
         end.

Lemma size_tracks (st : WebMWriter.t) :
  size (tracks st)
    = 53 + measureUnsignedInt (videoWidth st) + measureUnsignedInt (videoHeight st)
      + Z.of_nat (length (vint (codecLength st + 2))) + (codecLength st + 2).
Proof.
  unfold tracks, EBML.elem. 
  repeat first [ rewrite size_Array_cons | rewrite size_Array_nil
               | rewrite size_container | rewrite size_number
               | rewrite size_string ].
  change DEFAULT_TRACK_NUMBER with 1. change (measureUnsignedInt 0) with 1.
  measure_ids.
  change (EBML.unbounded None) with false. cbv iota.
  change (Z.of_nat (length (vint (Z.of_nat (String.length "und"))))) with 1.
  change (Z.of_nat (String.length "und")) with 3.
  change (String.length (String.append "V_" (codec (options st))))
    with (S (S (String.length (codec (options st))))).
  replace (Z.of_nat (S (S (String.length (codec (options st))))))
    with (codecLength st + 2) by (unfold codecLength; lia).
  lia.
Qed.

Lemma size_ebmlHeader : size ebmlHeader = 39.
Proof. reflexivity. Qed.

Lemma size_createSeekHead : size createSeekHead = 71.
Proof. reflexivity. Qed.

Lemma size_segmentInfo : size segmentInfo = 60.
Proof. reflexivity. Qed.

Lemma size_headerTree (st : WebMWriter.t) :
  size (headerTree st) = 175 + size (tracks st).
Proof.
  unfold headerTree, EBML.elemSized.
  rewrite !size_Array_cons, size_Array_nil, size_container, !size_Array_cons,
    size_Array_nil.
  rewrite size_ebmlHeader, size_createSeekHead, size_segmentInfo.
  change (measureUnsignedInt 408125543) with 4.
  change (EBML.unbounded (Some (-1))) with true. cbv iota. lia.
Qed.

Lemma writable_tracks (st : WebMWriter.t) :
  writable (tracks st) = (codecLength st + 2 <? 34359738367).
Proof.
  unfold tracks, EBML.elem. cbn [writable forallb negb andb].
  change DEFAULT_TRACK_NUMBER with 1.
  change (String.length (String.append "V_" (codec (options st))))
    with (S (S (String.length (codec (options st))))).
  replace (Z.of_nat (S (S (String.length (codec (options st))))))
    with (codecLength st + 2) by (unfold codecLength; lia).
  assert (Hn : forall n, (1 <=? numberSize None n) && (numberSize None n <=? 5) = true).
  { intros n. change (numberSize None n) with (measureUnsignedInt n).
    pose proof (measureUnsignedInt_range n).
    apply andb_true_intro. split; [apply Z.leb_le|apply Z.leb_le]; lia. }
  rewrite !Hn. cbn. rewrite !andb_true_r. reflexivity.
Qed.

Lemma writable_headerTree (st : WebMWriter.t) :
  writable (headerTree st) = (codecLength st + 2 <? 34359738367).
Proof.
  rewrite <- writable_tracks. unfold headerTree, EBML.elemSized.
  change (writable (EBML.Array [ebmlHeader;
            EBML.Element 408125543 (Some (-1))
              (EBML.Array [createSeekHead; segmentInfo; tracks st]) None None]))
    with (writable ebmlHeader && (writable createSeekHead
            && (writable segmentInfo && (writable (tracks st) && true)) && true)).
  change (writable ebmlHeader) with true.
  change (writable createSeekHead) with true.
  change (writable segmentInfo) with true.
  cbn [andb]. rewrite !andb_true_r. reflexivity.
Qed.

Lemma placed_Array (p : Z) (l : list EBML.t) :
  placed p (EBML.Array l) = EBML.Array (placedSiblings p l).
Proof. reflexivity. Qed.

Lemma placedSiblings_cons (p : Z) (x : EBML.t) (l : list EBML.t) :
  placedSiblings p (x :: l) = placed p x :: placedSiblings (p + size x) l.
Proof. reflexivity. Qed.

Lemma offsetOf_placed (p id : Z) (sz : option Z) (data : EBML.t) (o d : option Z) :
  EBML.offsetOf (placed p (EBML.Element id sz data o d)) = Some p.
Proof. reflexivity. Qed.

Lemma placed_headerTree (off : Z) (st : WebMWriter.t) :
  placed off (headerTree st) = EBML.Array [placed off ebmlHeader; placedSegment off st].
Proof.
  unfold headerTree, EBML.elemSized, placedSegment.
  rewrite placed_Array, !placedSiblings_cons. f_equal. f_equal. f_equal.
  rewrite placed_container. cbv zeta.
  change (EBML.unbounded (Some (-1))) with true. cbv iota.
  change (measureUnsignedInt 408125543) with 4.
  rewrite size_ebmlHeader.
  rewrite placed_Array, !placedSiblings_cons.
  rewrite size_createSeekHead, size_segmentInfo.
  replace (off + 39 + 4 + 1) with (off + 44) by lia.
  replace (off + 44 + 71 + 60) with (off + 44 + 131) by lia.
  reflexivity.
Qed.

(** [writeHeader], when the header fits the 256 bytes of its buffer. *)
Lemma writeHeader_fits (st : WebMWriter.t) :
  codecLength st + 2 < 34359738367 -> size (headerTree st) <= 256 ->
  let off := BlobBuffer.pos (blobBuffer st) in
  writeHeader st =
    ok (set_header (videoWidth st) (videoHeight st)
          (Some (placedSegment off st))
          (Some (placed (off + 44) createSeekHead))
          {| seekCues := seekCues (seekPoints st);
             seekSegmentInfo := 71; seekTracks := 131 |}
          (BlobBuffer.write (encode (headerTree st)) (blobBuffer st)) st).
Proof.
  intros Hc Hsize off.
  assert (Hw : writable (headerTree st) = true).
  { rewrite writable_headerTree. apply Z.ltb_lt. exact Hc. }
  destruct (writeEBML_new (headerTree st) 256 off Hw Hsize) as (s' & Hwrite & _ & Hbytes).
  rewrite writeHeader_unfold. fold (headerTree st). fold off.
  rewrite Hwrite. cbn [mbind result_bind]. rewrite Hbytes. cbn [mbind result_bind].
  rewrite placed_headerTree. unfold placedSegment at 1 2 3 4.
  cbn [child lookup list_lookup EBML.dataOffsetOf].
  change (EBML.offsetOf (placed (off + 44 + 71) segmentInfo))
    with (Some (off + 44 + 71)).
  change (EBML.offsetOf (placed (off + 44 + 131) (tracks st)))
    with (Some (off + 44 + 131)).
  cbv iota beta.
  replace (off + 44 + 71 - (off + 44)) with 71 by lia.
  replace (off + 44 + 131 - (off + 44)) with 131 by lia.
  reflexivity.
Qed.

(** ... and when it does not. *)
Lemma writeHeader_overflows (st : WebMWriter.t) :
  codecLength st + 2 < 34359738367 -> 256 < size (headerTree st) ->
  writeHeader st = throw PosBeyondEnd.
Proof.
  intros Hc Hsize.
  assert (Hw : writable (headerTree st) = true).
  { rewrite writable_headerTree. apply Z.ltb_lt. exact Hc. }
  rewrite writeHeader_unfold. fold (headerTree st).
  pose proof (completes_writeEBML (headerTree st) (ABDS.new 256)
                (BlobBuffer.pos (blobBuffer st))) as Hcomp.
  rewrite Hw in Hcomp.
  destruct (EBML.writeEBML (ABDS.new 256) _ (headerTree st)) as [err|[s' e']] eqn:H;
    [discriminate Hcomp|].
  cbn [mbind result_bind].
  rewrite (writeEBML_new_overflow (headerTree st) 256
             (BlobBuffer.pos (blobBuffer st)) s' e');
    [reflexivity|lia|exact Hsize|exact H].
Qed.

End HeaderSize.

(** ** The muxer as a function of its state *)

Section Flush.

Import WebMWriter Encoding.

Implicit Types (st : WebMWriter.t) (f : Frame).

Lemma mapM_simpleBlock (frames : list Frame) :
  onDefaultTrack frames ->
  mapM createSimpleBlockForframe frames = ok (map simpleBlock frames).
Proof.
  induction 1 as [|f frames Hf _ IH]; [reflexivity|].
  cbn [mapM map]. rewrite createSimpleBlockForframe_ok
    by (rewrite Hf; unfold DEFAULT_TRACK_NUMBER; lia).
  cbn [mbind result_bind]. rewrite IH. reflexivity.
Qed.

Lemma size_simpleBlock f :
  size (simpleBlock f) = 9 + Z.of_nat (length (frame f)).
Proof.
  unfold simpleBlock, EBML.elem. rewrite size_container.
  change (measureUnsignedInt 163) with 1. change (EBML.unbounded None) with false.
  cbv iota. unfold size. cbn [encode map concat].
  rewrite !length_app, !length_map. cbn [length]. lia.
Qed.

Lemma size_simpleBlocks (frames : list Frame) :
  size (EBML.Array (map simpleBlock frames))
    = fold_left (fun n f => n + Z.of_nat (length (frame f))) frames 0
      + 9 * Z.of_nat (length frames).
Proof.
  induction frames as [|f frames IH]; [reflexivity|].
  cbn [map]. rewrite size_Array_cons, size_simpleBlock, IH.
  cbn [fold_left length]. rewrite (rawImageSize_shift frames (0 + _)). lia.
Qed.

Lemma writable_simpleBlocks (frames : list Frame) :
  forallb writable (map simpleBlock frames) = true.
Proof. induction frames as [|f frames IH]; [reflexivity|]. cbn [map forallb]. rewrite IH. reflexivity. Qed.

Lemma size_clusterOf st :
  size (clusterOf st)
    = 10 + measureUnsignedInt (round (inject_Z (round (clusterStartTime st))))
      + fold_left (fun n f => n + Z.of_nat (length (frame f))) (clusterFrameBuffer st) 0
      + 9 * Z.of_nat (length (clusterFrameBuffer st)).
Proof.
  unfold clusterOf, createCluster, EBML.elem.
  rewrite size_container, size_Array_cons, size_number, size_simpleBlocks.
  change (measureUnsignedInt 524531317) with 4. change (measureUnsignedInt 231) with 1.
  change (EBML.unbounded None) with false. cbv iota. lia.
Qed.

Lemma writable_clusterOf st : writable (clusterOf st) = true.
Proof.
  unfold clusterOf, createCluster, EBML.elem. cbn [writable forallb negb andb].
  change (524531317 =? 0) with false. change (231 =? 0) with false. cbn [negb andb].
  rewrite writable_simpleBlocks.
  change (numberSize None ?n) with (measureUnsignedInt n).
  pose proof (measureUnsignedInt_range (round (inject_Z (round (clusterStartTime st))))).
  destruct (Z.leb_spec 1 (measureUnsignedInt (round (inject_Z (round (clusterStartTime st))))));
    [|lia].
  destruct (Z.leb_spec (measureUnsignedInt (round (inject_Z (round (clusterStartTime st))))) 5);
    [|lia].
  reflexivity.
Qed.

(** A flush of a non-empty buffer, as a function of the state. *)
Lemma flush_result st (seg : EBML.t) (d : Z) :
  clusterFrameBuffer st <> [] -> onDefaultTrack (clusterFrameBuffer st) ->
  ebmlSegment st = Some seg -> EBML.dataOffsetOf seg = Some d ->
  flushClusterFrameBuffer st = ok (flushed d st).
Proof.
  intros Hne Htracks Hseg Hd. unfold flushClusterFrameBuffer.
  destruct (clusterFrameBuffer st) as [|f0 frames0] eqn:Hbuf; [contradiction|].
  rewrite mapM_simpleBlock by exact Htracks. cbn [mbind result_bind].
  set (frames := f0 :: frames0) in *.
  assert (Hcluster : createCluster (inject_Z (round (clusterStartTime st)))
                       (map simpleBlock frames) = clusterOf st).
  { unfold clusterOf. rewrite Hbuf. reflexivity. }
  rewrite Hcluster.
  set (cap := fold_left (fun n f => n + Z.of_nat (length (frame f))) frames 0
              + Z.of_nat (length frames) * 64).
  assert (Hfit : size (clusterOf st) <= cap).
  { rewrite size_clusterOf, Hbuf. fold frames. subst cap.
    pose proof (measureUnsignedInt_range (round (inject_Z (round (clusterStartTime st))))).
    assert (1 <= Z.of_nat (length frames)) by (subst frames; cbn [length]; lia).
    lia. }
  destruct (writeEBML_new (clusterOf st) cap (BlobBuffer.pos (blobBuffer st))
              (writable_clusterOf st) Hfit) as (s' & Hwrite & _ & Hbytes).
  rewrite Hwrite. cbn [mbind result_bind]. rewrite Hbytes. cbn [mbind result_bind].
  change (EBML.offsetOf (placed (BlobBuffer.pos (blobBuffer st)) (clusterOf st)))
    with (Some (BlobBuffer.pos (blobBuffer st))).
  cbv iota beta. unfold addCuePoint, fileOffsetToSegmentRelative.
  cbn [set_blobBuffer ebmlSegment]. rewrite Hseg, Hd. reflexivity.
Qed.

End Flush.

(** ** The file

    Modelled from the spec: the sink puts every write at the cursor it was
    given, over what is there.  [fileOf] replays the log; a gap would be
    filled with zeros. *)

Section File.

Lemma overwrite_end (file bytes : list Z) :
  overwrite file (Z.of_nat (length file)) bytes = file ++ bytes.
Proof.
  unfold overwrite. rewrite Nat2Z.id, Nat.sub_diag. cbn [replicate].
  rewrite app_nil_r, firstn_all, drop_ge by lia. rewrite app_nil_r. reflexivity.
Qed.

Lemma length_overwrite (file : list Z) (o : Z) (bytes : list Z) :
  0 <= o -> o + Z.of_nat (length bytes) <= Z.of_nat (length file) ->
  length (overwrite file o bytes) = length file.
Proof.
  intros Ho Hin. unfold overwrite.
  rewrite !length_app, length_take, length_app, length_replicate, length_drop. lia.
Qed.

Lemma lookup_overwrite (file : list Z) (o : Z) (bytes : list Z) (j : nat) :
  0 <= o -> o <= Z.of_nat (length file) ->
  overwrite file o bytes !! j =
    if decide (Z.of_nat j < o) then file !! j
    else if decide (Z.of_nat j < o + Z.of_nat (length bytes))
         then bytes !! (j - Z.to_nat o)%nat
         else file !! j.
Proof.
  intros Ho Hin. unfold overwrite.
  replace (Z.to_nat o - length file)%nat with 0%nat by lia.
  cbn [replicate]. rewrite app_nil_r.
  assert (Hlt : length (take (Z.to_nat o) file) = Z.to_nat o)
    by (rewrite length_take; lia).
  destruct (decide (Z.of_nat j < o)) as [H1|H1].
  - rewrite lookup_app_l by lia. apply lookup_take_lt. lia.
  - rewrite lookup_app_r by lia. rewrite Hlt.
    destruct (decide (Z.of_nat j < o + Z.of_nat (length bytes))) as [H2|H2].
    + rewrite lookup_app_l by lia. reflexivity.
    + rewrite lookup_app_r by lia. rewrite lookup_drop. f_equal. lia.
Qed.

Lemma slice_overwrite_outside (file : list Z) (o : Z) (bytes : list Z) (a : Z) (n : nat) :
  0 <= o -> o <= Z.of_nat (length file) -> 0 <= a ->
  a + Z.of_nat n <= o \/ o + Z.of_nat (length bytes) <= a ->
  slice a n (overwrite file o bytes) = slice a n file.
Proof.
  intros Ho Hin Ha Hout. apply slice_lookup_eq; [exact Ha|].
  intros j Hj. rewrite lookup_overwrite by assumption.
  destruct (decide (Z.of_nat j < o)); [reflexivity|].
  destruct (decide (Z.of_nat j < o + Z.of_nat (length bytes))); [lia|reflexivity].
Qed.

Lemma slice_overwrite_inside (file : list Z) (o : Z) (bytes : list Z) :
  0 <= o -> o <= Z.of_nat (length file) ->
  slice o (length bytes) (overwrite file o bytes) = bytes.
Proof.
  intros Ho Hin. unfold slice, overwrite.
  replace (Z.to_nat o - length file)%nat with 0%nat by lia.
  cbn [replicate]. rewrite app_nil_r.
  rewrite drop_app_length' by (rewrite length_take; lia).
  apply take_app_length.
Qed.

Lemma fileOf_write (bytes : list Z) (b : BlobBuffer.t) :
  fileOf (BlobBuffer.write bytes b) = overwrite (fileOf b) (BlobBuffer.pos b) bytes.
Proof. unfold fileOf, BlobBuffer.write. cbn [BlobBuffer.writes]. rewrite foldl_app. reflexivity. Qed.

Lemma fileOf_seek (o : Z) (b : BlobBuffer.t) : fileOf (BlobBuffer.seek o b) = fileOf b.
Proof. reflexivity. Qed.

End File.

(** ** The muxer between two calls *)

Section Muxing.

Import WebMWriter Encoding.

Implicit Types (st : WebMWriter.t) (f : Frame).

Lemma static_queueFrame f st : static st (queueFrame f st).
Proof.
  unfold queueFrame.
  destruct (firstTimestampEver st); destruct (clusterDuration st =? 0) eqn:Hz;
    cbn; rewrite ?Hz; cbn; repeat split.
Qed.

Lemma static_flushed (d : Z) st : static st (flushed d st).
Proof. repeat split. Qed.

Lemma tracks_static st st' : static st st' -> tracks st' = tracks st.
Proof. intros (Ho & Hw & Hh & _). unfold tracks. rewrite Ho, Hw, Hh. reflexivity. Qed.

Lemma headerTree_static st st' : static st st' -> headerTree st' = headerTree st.
Proof. intros H. unfold headerTree. rewrite (tracks_static _ _ H). reflexivity. Qed.

Lemma placedSegment_static (off : Z) st st' :
  static st st' -> placedSegment off st' = placedSegment off st.
Proof. intros H. unfold placedSegment. rewrite (tracks_static _ _ H). reflexivity. Qed.

Lemma muxing_static (o : Options) st st' :
  muxing o st -> static st st' ->
  onDefaultTrack (clusterFrameBuffer st') -> Forall isCue (cues st') ->
  (exists more, fileOf (blobBuffer st') = fileOf (blobBuffer st) ++ more) ->
  BlobBuffer.pos (blobBuffer st') = Z.of_nat (length (fileOf (blobBuffer st'))) ->
  muxing o st'.
Proof.
  intros [] Hs Hf Hc (more & Hfile) Hpos.
  pose proof Hs as (Ho & Hw & Hh & Hwh & Hseg & Hsh & Hsp).
  constructor.
  - congruence.
  - congruence.
  - rewrite Hseg, (placedSegment_static _ _ _ Hs). assumption.
  - congruence.
  - congruence.
  - assumption.
  - assumption.
  - destruct mux_file0 as (clusters & Hcl). exists (clusters ++ more).
    rewrite Hfile, Hcl, (headerTree_static _ _ Hs), app_assoc. reflexivity.
  - assumption.
Qed.

Lemma muxing_queueFrame (o : Options) f st :
  muxing o st -> muxing o (queueFrame f st).
Proof.
  intros Hm.
  destruct (queueFrame_fields f st)
    as (tc & Hbuf & _ & _ & _ & _ & _ & _ & Hc & Hb & _). cbv zeta in *.
  apply (muxing_static o st); [exact Hm|apply static_queueFrame| | | |].
  - rewrite Hbuf. apply Forall_app. split; [apply Hm|].
    constructor; [reflexivity|constructor].
  - rewrite Hc. apply Hm.
  - exists []. rewrite Hb, app_nil_r. reflexivity.
  - rewrite Hb. apply Hm.
Qed.

Lemma muxing_flushed (o : Options) st :
  muxing o st -> muxing o (flushed 44 st).
Proof.
  intros Hm.
  apply (muxing_static o st); [exact Hm|apply static_flushed| | | |].
  - constructor.
  - cbn [flushed set_cluster set_cues cues]. apply Forall_app. split; [apply Hm|].
    constructor; [|constructor]. eexists. eexists. reflexivity.
  - cbn [flushed set_cluster set_cues set_blobBuffer blobBuffer].
    rewrite fileOf_write, (mux_pos _ _ Hm), overwrite_end. eexists. reflexivity.
  - cbn [flushed set_cluster set_cues set_blobBuffer blobBuffer].
    rewrite fileOf_write, (mux_pos _ _ Hm), overwrite_end.
    cbn [BlobBuffer.write BlobBuffer.pos]. rewrite (mux_pos _ _ Hm), length_app. lia.
Qed.

Lemma queued_nonempty f st : clusterFrameBuffer (queueFrame f st) <> [].
Proof.
  destruct (queueFrame_fields f st) as (tc & Hbuf & _). cbv zeta in Hbuf.
  rewrite Hbuf. destruct (clusterFrameBuffer st); discriminate.
Qed.

(** [addFrame] on a muxing writer, as a function of the state. *)
Lemma addFrame_muxing (o : Options) (c : Chunk) st :
  muxing o st -> addFrame c st = ok (afterFrame c st) /\ muxing o (afterFrame c st).
Proof.
  intros Hm. rewrite addFrame_unfold, (mux_header _ _ Hm). cbn [mbind result_bind].
  destruct c as [bytes ts ty|]; [|split; [reflexivity|exact Hm]].
  rewrite addFrameToCluster_unfold. cbn [afterFrame].
  set (queued := queueFrame _ st).
  pose proof (muxing_queueFrame o _ st Hm : muxing o queued) as Hq.
  destruct (MAX_CLUSTER_DURATION_MSEC <=? clusterDuration queued).
  - split; [|apply muxing_flushed; exact Hq].
    apply (flush_result queued (placedSegment 0 queued));
      [apply queued_nonempty|apply Hq|apply Hq|reflexivity].
  - split; [reflexivity|exact Hq].
Qed.

End Muxing.

Section FirstFrame.

Import WebMWriter Encoding.

Implicit Types (st : WebMWriter.t) (o : Options).

Lemma size_headerTree_fits st :
  measureUnsignedInt (videoWidth st) + measureUnsignedInt (videoHeight st)
    + codecLength st <= 25 ->
  codecLength st + 2 < 34359738367 /\
  size (headerTree st)
    = 231 + measureUnsignedInt (videoWidth st) + measureUnsignedInt (videoHeight st)
      + codecLength st.
Proof.
  intros Hfit.
  pose proof (measureUnsignedInt_range (videoWidth st)).
  pose proof (measureUnsignedInt_range (videoHeight st)).
  assert (0 <= codecLength st) by (unfold codecLength; lia).
  split; [lia|].
  rewrite size_headerTree, size_tracks, size_vint_small by lia. lia.
Qed.

Lemma size_headerTree_lower st :
  codecLength st + 2 < 34359738367 ->
  231 + measureUnsignedInt (videoWidth st) + measureUnsignedInt (videoHeight st)
    + codecLength st <= size (headerTree st).
Proof.
  intros Hc. rewrite size_headerTree, size_tracks.
  pose proof (size_vint_pos (codecLength st + 2) Hc). lia.
Qed.

Lemma muxing_afterHeader o (w h : Z) : muxing o (afterHeader w h o).
Proof.
  constructor; try reflexivity.
  - constructor.
  - constructor.
  - exists []. rewrite app_nil_r. unfold afterHeader.
    cbn [set_header blobBuffer]. rewrite fileOf_write.
    apply (overwrite_end []).
  - unfold afterHeader. cbn [set_header blobBuffer]. rewrite fileOf_write.
    rewrite (overwrite_end []). reflexivity.
Qed.

Lemma writeHeader_new o (w h : Z) :
  fits w h o ->
  writeHeader (set_video w h (new o)) = ok (afterHeader w h o).
Proof.
  intros Hfit.
  set (st := set_video w h (new o)).
  assert (Hfit' : measureUnsignedInt (videoWidth st)
                  + measureUnsignedInt (videoHeight st) + codecLength st <= 25)
    by exact Hfit.
  destruct (size_headerTree_fits st Hfit') as [Hc Hsize].
  assert (Hle : size (headerTree st) <= 256) by (rewrite Hsize; lia).
  rewrite (writeHeader_fits st Hc Hle). reflexivity.
Qed.

Lemma addFrame_new o (c : Chunk) :
  fits (width o) (height o) o ->
  addFrame c (new o) = ok (afterFrame c (afterHeader (width o) (height o) o)).
Proof.
  intros Hfit. rewrite addFrame_unfold.
  change (writtenHeader (new o)) with false. cbv iota.
  change (width (options (new o))) with (width o).
  change (height (options (new o))) with (height o).
  rewrite (writeHeader_new o _ _ Hfit). cbn [mbind result_bind].
  pose proof (addFrame_muxing o c _ (muxing_afterHeader o (width o) (height o))) as [H _].
  rewrite addFrame_unfold in H.
  rewrite (mux_header _ _ (muxing_afterHeader o (width o) (height o))) in H.
  exact H.
Qed.

(** After at least one chunk, a writer whose header fits is muxing. *)
Lemma run_muxing o (chunks : list Chunk) :
  fits (width o) (height o) o -> chunks <> [] ->
  exists st, run chunks (new o) = ok st /\ muxing o st.
Proof.
  intros Hfit. induction chunks as [|c chunks IH] using rev_ind; [contradiction|].
  intros _. rewrite run_snoc.
  destruct chunks as [|c0 chunks].
  - cbn [run foldl mbind result_bind]. rewrite (addFrame_new o c Hfit).
    eexists. split; [reflexivity|].
    apply addFrame_muxing, muxing_afterHeader.
  - destruct (IH ltac:(discriminate)) as (st & Hrun & Hm).
    rewrite Hrun. cbn [mbind result_bind].
    destruct (addFrame_muxing o c st Hm) as [H Hm'].
    rewrite H. eexists. split; [reflexivity|exact Hm'].
Qed.

End FirstFrame.

Section Finish.

Import WebMWriter Encoding Completion.

Implicit Types (st : WebMWriter.t) (o : Options).

Lemma size_cuePoint (track time position : Z) :
  size (cuePoint track time position)
    = 16 + measureUnsignedInt time + measureUnsignedInt track
      + measureUnsignedInt position.
Proof.
  unfold cuePoint, EBML.elem.
  repeat first [ rewrite size_Array_cons | rewrite size_Array_nil
               | rewrite size_container | rewrite size_number ].
  change (measureUnsignedInt 187) with 1. change (measureUnsignedInt 179) with 1.
  change (measureUnsignedInt 183) with 1. change (measureUnsignedInt 247) with 1.
  change (measureUnsignedInt 241) with 1.
  change (EBML.unbounded None) with false. cbv iota. lia.
Qed.

Lemma writable_number (id n : Z) (o d : option Z) :
  id <> 0 -> writable (EBML.Element id None (EBML.Number n) o d) = true.
Proof.
  intros Hid. cbn [writable]. change (numberSize None n) with (measureUnsignedInt n).
  pose proof (measureUnsignedInt_range n).
  destruct (Z.eqb_spec id 0); [contradiction|].
  destruct (Z.leb_spec 1 (measureUnsignedInt n)); [|lia].
  destruct (Z.leb_spec (measureUnsignedInt n) 5); [|lia]. reflexivity.
Qed.

Lemma writable_cuePoint (track time position : Z) :
  writable (cuePoint track time position) = true.
Proof.
  unfold cuePoint, EBML.elem. cbn [writable forallb].
  change (writable (EBML.Element 179 None (EBML.Number time) None None))
    with (negb (179 =? 0) && ((1 <=? numberSize None time) && (numberSize None time <=? 5))).
  pose proof (writable_number 179 time None None ltac:(discriminate)) as H1.
  pose proof (writable_number 247 track None None ltac:(discriminate)) as H2.
  pose proof (writable_number 241 position None None ltac:(discriminate)) as H3.
  cbn [writable] in H1, H2, H3. rewrite H1, H2, H3. reflexivity.
Qed.

Lemma cues_fit (cs : list EBML.t) :
  Forall isCue cs ->
  forallb writable cs = true /\
  size (EBML.Array cs) <= 27 * Z.of_nat (length cs).
Proof.
  induction 1 as [|c cs (time & position & ->) _ [IHw IHs]]; [split; [reflexivity|]; rewrite size_Array_nil; cbn [length]; lia|].
  split.
  - cbn [forallb]. rewrite writable_cuePoint, IHw. reflexivity.
  - rewrite size_Array_cons, size_cuePoint. cbn [length].
    pose proof (measureUnsignedInt_range time).
    pose proof (measureUnsignedInt_range position).
    change (measureUnsignedInt DEFAULT_TRACK_NUMBER) with 1. lia.
Qed.

Lemma size_cuesElement st :
  size (cuesElement st) = 8 + size (EBML.Array (cues st)).
Proof.
  unfold cuesElement, EBML.elem. rewrite size_container.
  change (measureUnsignedInt 475249515) with 4.
  change (EBML.unbounded None) with false. cbv iota. lia.
Qed.

(** [writeCues], the first time. *)
Lemma writeCues_result (o : Options) st :
  muxing o st ->
  let P := BlobBuffer.pos (blobBuffer st) in
  writeCues {| writer := st; firstCueWritten := false |} =
    ok {| writer :=
            set_seekCues (P - 44)
              (set_cues (children (placed P (cuesElement st)))
                 (set_blobBuffer
                    (BlobBuffer.write (encode (cuesElement st)) (blobBuffer st)) st));
          firstCueWritten := true |}.
Proof.
  intros Hm P. unfold writeCues. cbn [firstCueWritten writer].
  fold (cuesElement st). fold P.
  destruct (cues_fit (cues st) (mux_cues _ _ Hm)) as [Hw Hs].
  assert (Hwr : writable (cuesElement st) = true).
  { unfold cuesElement, EBML.elem. cbn [writable]. rewrite Hw. reflexivity. }
  assert (Hfit : size (cuesElement st) <= 16 + Z.of_nat (length (cues st)) * 32).
  { rewrite size_cuesElement. lia. }
  destruct (writeEBML_new (cuesElement st) _ P Hwr Hfit) as (s' & Hwrite & _ & Hbytes).
  rewrite Hwrite. cbn [mbind result_bind]. rewrite Hbytes. cbn [mbind result_bind].
  change (EBML.offsetOf (placed P (cuesElement st))) with (Some P). cbv iota beta.
  unfold fileOffsetToSegmentRelative. cbn [set_blobBuffer ebmlSegment].
  rewrite (mux_segment _ _ Hm). cbn [placedSegment EBML.dataOffsetOf].
  reflexivity.
Qed.

Lemma writable_seekEntries (c i t : Z) : writable (seekEntries c i t) = true.
Proof. reflexivity. Qed.

Lemma size_seekEntries (c i t : Z) : size (seekEntries c i t) = 63.
Proof. reflexivity. Qed.

(** [rewriteSeekHead], on a header as [writeHeader] left it. *)
Lemma rewriteSeekHead_result st (c i t : Z) :
  seekHead st = Some (placed 44 createSeekHead) ->
  seekPoints st = {| seekCues := c; seekSegmentInfo := i; seekTracks := t |} ->
  rewriteSeekHead st =
    ok (set_blobBuffer
          (BlobBuffer.seek (BlobBuffer.pos (blobBuffer st))
             (BlobBuffer.write (encode (seekEntries c i t))
                (BlobBuffer.seek 52 (blobBuffer st))))
          (set_seekHead
             (withData (placed 52 (seekEntries c i t)) (placed 44 createSeekHead))
             st)).
Proof.
  intros Hsh Hsp. unfold rewriteSeekHead. rewrite Hsh.
  change (EBML.sizeOf (placed 44 createSeekHead)) with (Some 63).
  change (EBML.dataOffsetOf (placed 44 createSeekHead)) with (Some 52).
  cbv iota beta zeta.
  assert (Hdata : seekHeadData st (placed 44 createSeekHead) = seekEntries c i t).
  { unfold seekHeadData, seekEntries. rewrite Hsp. reflexivity. }
  rewrite Hdata.
  destruct (writeEBML_new (seekEntries c i t) 63 52 (writable_seekEntries c i t)
              ltac:(change (size (seekEntries c i t) <= 63); rewrite size_seekEntries; lia)) as (s' & Hwrite & _ & Hbytes).
  rewrite Hwrite. cbn [mbind result_bind]. rewrite Hbytes. reflexivity.
Qed.

Lemma segmentDurationDataOffset_muxing (o : Options) st :
  muxing o st -> segmentDurationDataOffset st = Some 167.
Proof.
  intros Hm. unfold segmentDurationDataOffset. rewrite (mux_segment _ _ Hm).
  reflexivity.
Qed.

Lemma getAsDataArray_double (bits : Z) :
  getAsDataArray (writeDoubleBE bits (ABDS.new 8))
    = ok (floatBytes bits [7; 6; 5; 4; 3; 2; 1; 0]).
Proof. reflexivity. Qed.

Lemma muxing_set_earliest (o : Options) st :
  muxing o st -> muxing o (set_earliest true (earliestTimestamp st) st).
Proof.
  intros Hm. apply (muxing_static o st); [exact Hm|repeat split|apply Hm|apply Hm| |apply Hm].
  exists []. rewrite app_nil_r. reflexivity.
Qed.

Lemma muxing_drained (o : Options) st : muxing o st -> muxing o (drained st).
Proof.
  intros Hm. apply muxing_set_earliest in Hm. unfold drained. cbv zeta.
  destruct (clusterFrameBuffer (set_earliest true (earliestTimestamp st) st));
    [exact Hm|apply muxing_flushed; exact Hm].
Qed.

Lemma flush_drained (o : Options) st :
  muxing o st ->
  flushClusterFrameBuffer (set_earliest true (earliestTimestamp st) st)
    = ok (drained st).
Proof.
  intros Hm. apply muxing_set_earliest in Hm. unfold drained. cbv zeta.
  set (st1 := set_earliest true (earliestTimestamp st) st) in *.
  destruct (clusterFrameBuffer st1) as [|f frames] eqn:Hbuf.
  - unfold flushClusterFrameBuffer. rewrite Hbuf. reflexivity.
  - apply (flush_result st1 (placedSegment 0 st1));
      [rewrite Hbuf; discriminate|apply Hm|apply Hm|reflexivity].
Qed.

Lemma drained_buffer st : clusterFrameBuffer (drained st) = [].
Proof.
  unfold drained. cbv zeta.
  destruct (clusterFrameBuffer (set_earliest true (earliestTimestamp st) st)) eqn:Hbuf;
    [exact Hbuf|reflexivity].
Qed.

Lemma lastTimeCode_drained st : lastTimeCode (drained st) = lastTimeCode st.
Proof.
  unfold drained. cbv zeta.
  destruct (clusterFrameBuffer (set_earliest true (earliestTimestamp st) st));
    reflexivity.
Qed.

Section Float64.

Variable float64 : Q -> Z.

Lemma rewriteDuration_result st (d : Z) :
  segmentDurationDataOffset st = Some d ->
  rewriteDuration float64 st =
    ok (set_blobBuffer
          (BlobBuffer.seek (BlobBuffer.pos (blobBuffer st))
             (BlobBuffer.write (durationBytes float64 st)
                (BlobBuffer.seek d (blobBuffer st)))) st).
Proof.
  intros Hd. unfold rewriteDuration. cbv zeta. rewrite Hd.
  rewrite getAsDataArray_double. reflexivity.
Qed.

(** [complete] on a muxing writer that has not written its cues, as a
    function of the state. *)
Lemma complete_result (o : Options) st :
  muxing o st ->
  complete float64 {| writer := st; firstCueWritten := false |} =
    ok {| writer := patched (durationBytes float64 st) (indexed (drained st));
          firstCueWritten := true |}.
Proof.
  intros Hm. unfold complete. cbn [writer firstCueWritten].
  rewrite (mux_header _ _ Hm). cbn [mbind result_bind].
  rewrite (flush_drained o st Hm). cbn [mbind result_bind].
  pose proof (muxing_drained o st Hm) as Hd.
  rewrite (writeCues_result o (drained st) Hd). cbv zeta. cbn [mbind result_bind writer].
  fold (indexed (drained st)).
  set (x := indexed (drained st)).
  assert (Hsh : seekHead x = Some (placed 44 createSeekHead)) by apply Hd.
  assert (Hsp : seekPoints x =
                  {| seekCues := BlobBuffer.pos (blobBuffer (drained st)) - 44;
                     seekSegmentInfo := 71; seekTracks := 131 |}).
  { subst x. unfold indexed, set_seekCues. cbn [seekPoints set_cues set_blobBuffer].
    rewrite (mux_seekPoints _ _ Hd). reflexivity. }
  assert (Hseg : ebmlSegment x = Some (placedSegment 0 (drained st))) by apply Hd.
  assert (Hlast : lastTimeCode x = lastTimeCode st).
  { subst x. unfold indexed, set_seekCues. cbn [lastTimeCode set_cues set_blobBuffer].
    apply lastTimeCode_drained. }
  rewrite (rewriteSeekHead_result x _ _ _ Hsh Hsp). cbn [mbind result_bind].
  match goal with
  | |- context [rewriteDuration float64 ?y] =>
      rewrite (rewriteDuration_result y 167)
  end.
  - cbn [mbind result_bind]. unfold patched, durationBytes.
    cbn [set_blobBuffer set_seekHead lastTimeCode blobBuffer].
    rewrite Hsp, Hlast. reflexivity.
  - unfold segmentDurationDataOffset. cbn [set_blobBuffer set_seekHead ebmlSegment].
    rewrite Hseg. reflexivity.
Qed.

End Float64.

End Finish.

Section FinalFile.

Import WebMWriter Encoding Completion.

Implicit Types (st : WebMWriter.t) (o : Options).

Lemma overwrite_app (A B C new : list Z) :
  length new = length B ->
  overwrite (A ++ B ++ C) (Z.of_nat (length A)) new = A ++ new ++ C.
Proof.
  intros Hlen. unfold overwrite. rewrite Nat2Z.id.
  replace (length A - length (A ++ B ++ C))%nat with 0%nat
    by (rewrite length_app; lia).
  cbn [replicate]. rewrite app_nil_r, take_app_length. f_equal. f_equal.
  rewrite Hlen, drop_app_add', drop_app_length by reflexivity. reflexivity.
Qed.

Lemma encode_headerTree st :
  encode (headerTree st) =
    beforeSeekHead ++ payload createSeekHead
      ++ beforeDuration ++ drop 52 (encode segmentInfo) ++ encode (tracks st).
Proof.
  unfold headerTree, EBML.elemSized.
  change (encode (EBML.Array [ebmlHeader;
            EBML.Element 408125543 (Some (-1))
              (EBML.Array [createSeekHead; segmentInfo; tracks st]) None None]))
    with (encode ebmlHeader ++
          (idBytes 408125543 ++ [255] ++
           (encode createSeekHead ++ encode segmentInfo ++ encode (tracks st) ++ []))
          ++ []).
  rewrite !app_nil_r.
  assert (Hsh : encode createSeekHead
                = idBytes 0x114d9b74 ++ vint4 63 ++ payload createSeekHead)
    by reflexivity.
  rewrite Hsh. unfold beforeSeekHead, beforeDuration.
  rewrite <- (take_drop 52 (encode segmentInfo)) at 1.
  rewrite <- !app_assoc. reflexivity.
Qed.

Lemma length_beforeSeekHead : length beforeSeekHead = 52%nat.
Proof. reflexivity. Qed.

Lemma length_payload_createSeekHead : length (payload createSeekHead) = 63%nat.
Proof. reflexivity. Qed.

Lemma length_beforeDuration : length beforeDuration = 52%nat.
Proof. reflexivity. Qed.

Lemma length_oldDuration : length (drop 52 (encode segmentInfo)) = 8%nat.
Proof. reflexivity. Qed.

Lemma length_encode_seekEntries (c i t : Z) : length (encode (seekEntries c i t)) = 63%nat.
Proof. reflexivity. Qed.

Lemma static_drained st : static st (drained st).
Proof.
  unfold drained. cbv zeta.
  destruct (clusterFrameBuffer (set_earliest true (earliestTimestamp st) st));
    repeat split.
Qed.

Lemma blobBuffer_patched (D : list Z) st :
  blobBuffer (patched D st) =
    BlobBuffer.seek (BlobBuffer.pos (blobBuffer st))
      (BlobBuffer.write D
         (BlobBuffer.seek 167
            (BlobBuffer.seek (BlobBuffer.pos (blobBuffer st))
               (BlobBuffer.write
                  (encode (seekEntries (seekCues (seekPoints st))
                             (seekSegmentInfo (seekPoints st))
                             (seekTracks (seekPoints st))))
                  (BlobBuffer.seek 52 (blobBuffer st)))))).
Proof. reflexivity. Qed.

Lemma blobBuffer_indexed st :
  blobBuffer (indexed st)
    = BlobBuffer.write (encode (cuesElement st)) (blobBuffer st).
Proof. reflexivity. Qed.

Lemma seekPoints_indexed st :
  seekPoints (indexed st) =
    {| seekCues := BlobBuffer.pos (blobBuffer st) - 44;
       seekSegmentInfo := seekSegmentInfo (seekPoints st);
       seekTracks := seekTracks (seekPoints st) |}.
Proof. reflexivity. Qed.

(** The file that [complete] leaves: the file as it was when the buffer
    was drained, with the Cues element appended, the payload of the seek head
    replaced and the payload of the Duration replaced. *)
Lemma final_file (o : Options) st (D : list Z) :
  muxing o st -> length D = 8%nat ->
  exists clusters,
    fileOf (blobBuffer (drained st)) = encode (headerTree st) ++ clusters /\
    BlobBuffer.pos (blobBuffer (drained st))
      = Z.of_nat (length (encode (headerTree st) ++ clusters)) /\
    fileOf (blobBuffer (patched D (indexed (drained st)))) =
      beforeSeekHead
        ++ encode (seekEntries (BlobBuffer.pos (blobBuffer (drained st)) - 44) 71 131)
        ++ beforeDuration ++ D ++ encode (tracks st) ++ clusters
        ++ encode (cuesElement (drained st)) /\
    BlobBuffer.pos (blobBuffer (patched D (indexed (drained st))))
      = Z.of_nat (length (fileOf (blobBuffer (patched D (indexed (drained st)))))).
Proof.
  intros Hm HD.
  pose proof (muxing_drained o st Hm) as Hd.
  destruct (mux_file _ _ Hd) as (clusters & Hfile).
  rewrite (headerTree_static _ _ (static_drained st)) in Hfile.
  pose proof (mux_pos _ _ Hd) as Hpos. rewrite Hfile in Hpos.
  exists clusters. split; [exact Hfile|]. split; [exact Hpos|].
  set (d := drained st) in *.
  set (C := encode (cuesElement d)).
  set (S := encode (seekEntries (BlobBuffer.pos (blobBuffer d) - 44) 71 131)).
  assert (HS : length S = 63%nat) by apply length_encode_seekEntries.
  assert (Hfi : fileOf (blobBuffer (indexed d))
                = (encode (headerTree st) ++ clusters) ++ C).
  { rewrite blobBuffer_indexed, fileOf_write, Hpos, Hfile. apply overwrite_end. }
  assert (Hfp : fileOf (blobBuffer (patched D (indexed d)))
                = beforeSeekHead ++ S ++ beforeDuration ++ D
                    ++ encode (tracks st) ++ clusters ++ C).
  { rewrite blobBuffer_patched, fileOf_seek, fileOf_write, fileOf_seek, fileOf_seek,
      fileOf_write, fileOf_seek.
    rewrite seekPoints_indexed. cbn [seekCues seekSegmentInfo seekTracks].
    rewrite (mux_seekPoints _ _ Hd). cbn [seekSegmentInfo seekTracks].
    fold S. cbn [BlobBuffer.seek BlobBuffer.pos].
    rewrite Hfi, encode_headerTree, <- !app_assoc.
    change 52 with (Z.of_nat (length beforeSeekHead)).
    rewrite overwrite_app
      by (rewrite HS; symmetry; apply length_payload_createSeekHead).
    rewrite (app_assoc beforeSeekHead S), (app_assoc _ beforeDuration).
    replace 167 with (Z.of_nat (length ((beforeSeekHead ++ S) ++ beforeDuration)))
      by (rewrite !length_app, HS, length_beforeSeekHead, length_beforeDuration;
          reflexivity).
    rewrite overwrite_app by (rewrite HD; symmetry; apply length_oldDuration).
    rewrite <- !app_assoc. reflexivity. }
  split; [exact Hfp|].
  rewrite Hfp, blobBuffer_patched. cbn [BlobBuffer.seek BlobBuffer.pos].
  rewrite blobBuffer_indexed. cbn [BlobBuffer.write BlobBuffer.pos]. fold C.
  rewrite Hpos, encode_headerTree, !length_app, HS, HD, length_beforeSeekHead,
    length_payload_createSeekHead, length_beforeDuration, length_oldDuration.
  lia.
Qed.

End FinalFile.

Section Written.

Import Encoding Reader.

(** X6. [writeEBML] completes on the writable trees and on no other,
    whatever the stream it writes to and the file offset: it throws exactly
    when some element has the id 0, holds a string or a byte array of
    [2^35 - 1] bytes or more, holds a number with a declared size outside
    1..5, or holds data of a kind it does not know. *)
Theorem writeEBML_completes_iff_writable (e : EBML.t) (s : ABDS.t) (off : Z) :
  (exists r, EBML.writeEBML s off e = ok r) <-> writable e = true.
Proof.
  rewrite <- (completes_writeEBML e s off).
  destruct (EBML.writeEBML s off e) as [err|r]; cbn [completes]; split.
  - intros [r H]. discriminate H.
  - discriminate.
  - reflexivity.
  - intros _. exists r. reflexivity.
Qed.

(** X7. A writable tree written to a new buffer of [n] bytes: the written
    part of the buffer is the encoding of the tree when the encoding takes
    at most [n] bytes, and [getAsDataArray] throws when it takes more. *)
Theorem writeEBML_stores_the_encoding (e : EBML.t) (n off : Z) :
  writable e = true -> 0 <= n ->
  ('(s, _) ← EBML.writeEBML (ABDS.new n) off e; getAsDataArray s)
    = if Z.of_nat (length (encode e)) <=? n then ok (encode e)
      else throw PosBeyondEnd.
Proof.
  intros Hw Hn. destruct (Z.leb_spec (Z.of_nat (length (encode e))) n) as [Hle|Hlt].
  - destruct (writeEBML_new e n off Hw Hle) as (s' & -> & _ & Hbytes).
    exact Hbytes.
  - pose proof (completes_writeEBML e (ABDS.new n) off) as Hc. rewrite Hw in Hc.
    destruct (EBML.writeEBML (ABDS.new n) off e) as [err|[s' e']] eqn:H;
      [discriminate Hc|].
    cbn [mbind result_bind].
    exact (writeEBML_new_overflow e n off s' e' Hn Hlt H).
Qed.

Lemma writeEBML_stores_the_encoding_witness :
  ('(s, _) ← EBML.writeEBML (ABDS.new 64) 0 WebMWriter.ebmlHeader; getAsDataArray s)
    = ok (encode WebMWriter.ebmlHeader).
Proof.
  apply (writeEBML_stores_the_encoding WebMWriter.ebmlHeader 64 0);
    [vm_compute; reflexivity|lia].
Defined.

(** X8. The tree [writeEBML] returns is the tree it was given with, on
    every element, [offset] set to the file position of the first byte of
    the element, [dataOffset] to the file position of its payload, and
    [size] to the length of the payload for a number and for a container of
    determinate size; the cursor advances by the length of the encoding. *)
Theorem writeEBML_records_offsets (e e' : EBML.t) (s s' : ABDS.t) (off : Z) :
  EBML.writeEBML s off e = ok (s', e') ->
  e' = placed (pos s + off) e /\ pos s' = pos s + Z.of_nat (length (encode e)).
Proof.
  intros H. split.
  - exact (writeEBML_placed e s off s' e' H).
  - apply (writeEBML_wrote e s off s' e' H).
Qed.

Lemma writeEBML_records_offsets_witness :
  exists s',
    EBML.writeEBML (ABDS.new 64) 100 WebMWriter.ebmlHeader
      = ok (s', placed 100 WebMWriter.ebmlHeader) /\
    pos s' = 39.
Proof.
  destruct (EBML.writeEBML (ABDS.new 64) 100 WebMWriter.ebmlHeader)
    as [err|[s' e']] eqn:H; [vm_compute in H; discriminate H|].
  destruct (writeEBML_records_offsets _ _ _ _ _ H) as [-> Hp].
  exists s'. split; [reflexivity|exact Hp].
Defined.

(** X9. Elements of known size that were written one after the other can
    be read back one after the other: the reader finds, for each, its id and
    its payload. *)
Theorem written_elements_read_back (es : list EBML.t) (n off : Z) (bytes : list Z) :
  Forall (fun e => framed e = true) es -> 0 <= n ->
  ('(s, _) ← EBML.writeEBML (ABDS.new n) off (EBML.Array es); getAsDataArray s)
    = ok bytes ->
  readElements (length es) bytes = Some (map (fun e => (idOf e, payload e)) es).
Proof.
  intros Hf Hn H.
  assert (Hw : writable (EBML.Array es) = true).
  { rewrite <- (completes_writeEBML (EBML.Array es) (ABDS.new n) off).
    destruct (EBML.writeEBML (ABDS.new n) off (EBML.Array es)); [discriminate H|].
    reflexivity. }
  assert (Hb : bytes = encode (EBML.Array es)).
  { destruct (Z.leb_spec (Z.of_nat (length (encode (EBML.Array es)))) n) as [Hle|Hlt].
    - destruct (writeEBML_new _ n off Hw Hle) as (s' & Hwr & _ & Hbytes).
      rewrite Hwr in H. cbn [mbind result_bind] in H. congruence.
    - destruct (EBML.writeEBML (ABDS.new n) off (EBML.Array es))
        as [err|[s' e']] eqn:Hwr; [discriminate H|].
      cbn [mbind result_bind] in H.
      rewrite (writeEBML_new_overflow _ n off s' e' Hn Hlt Hwr) in H.
      discriminate H. }
  subst bytes. cbn [encode]. apply readElements_encode.
  cbn [writable] in Hw. rewrite forallb_forall in Hw.
  rewrite Forall_forall in Hf |- *. intros e He. split; [apply Hf, He|].
  apply Hw. apply list_elem_of_In. exact He.
Qed.

Lemma written_elements_read_back_witness :
  readElements 2
    [0x42; 0x86; 0x81; 1; 0x42; 0x82; 0x84; 0x77; 0x65; 0x62; 0x6d]
    = Some [(0x4286, [1]); (0x4282, [0x77; 0x65; 0x62; 0x6d])].
Proof.
  apply (written_elements_read_back
           [EBML.elem 0x4286 (EBML.Number 1); EBML.elem 0x4282 (EBML.Str "webm")]
           16 0).
  - repeat constructor.
  - lia.
  - vm_compute. reflexivity.
Defined.

End Written.

Section Muxer.

Import WebMWriter Encoding Reader.

Implicit Types (st : WebMWriter.t) (o : Options).

(** X10. The header is built in a buffer of 256 bytes.  It takes 231 bytes
    and the bytes of the width, of the height and of the name of the codec:
    [writeHeader] writes it when these are at most 25, and throws when they
    are more. *)
Theorem writeHeader_needs_room st :
  (fits (videoWidth st) (videoHeight st) (options st) ->
   exists st',
     writeHeader st = ok st' /\ writtenHeader st' = true /\
     blobBuffer st' = BlobBuffer.write (encode (headerTree st)) (blobBuffer st) /\
     Z.of_nat (length (encode (headerTree st)))
       = 231 + measureUnsignedInt (videoWidth st)
         + measureUnsignedInt (videoHeight st) + codecLength st) /\
  (~ fits (videoWidth st) (videoHeight st) (options st) ->
   codecLength st + 2 < 34359738367 ->
   writeHeader st = throw PosBeyondEnd).
Proof.
  split.
  - intros Hfit. destruct (size_headerTree_fits st Hfit) as [Hc Hsize].
    assert (Hle : size (headerTree st) <= 256) by (rewrite Hsize; unfold fits in Hfit; fold (codecLength st) in Hfit; lia).
    eexists. split; [apply (writeHeader_fits st Hc Hle)|].
    split; [reflexivity|]. split; [reflexivity|exact Hsize].
  - intros Hno Hc. apply (writeHeader_overflows st Hc).
    pose proof (size_headerTree_lower st Hc). unfold fits in Hno.
    fold (codecLength st) in Hno. lia.
Qed.

Lemma static_refl st : static st st.
Proof. repeat split. Qed.

Lemma static_trans st1 st2 st3 : static st1 st2 -> static st2 st3 -> static st1 st3.
Proof.
  intros (H1 & H2 & H3 & H4 & H5 & H6 & H7) (K1 & K2 & K3 & K4 & K5 & K6 & K7).
  repeat split; congruence.
Qed.

Lemma static_afterFrame (c : Chunk) st : static st (afterFrame c st).
Proof.
  destruct c as [bytes ts ty|]; [|apply static_refl]. cbn [afterFrame].
  set (queued := queueFrame _ st).
  assert (Hq : static st queued) by apply static_queueFrame.
  destruct (MAX_CLUSTER_DURATION_MSEC <=? clusterDuration queued); [|exact Hq].
  apply (static_trans _ queued); [exact Hq|apply static_flushed].
Qed.

(** Frames given to a muxing writer. *)
Lemma run_from_muxing o (chunks : list Chunk) st :
  muxing o st ->
  exists st', run chunks st = ok st' /\ muxing o st' /\ static st st'.
Proof.
  intros Hm. induction chunks as [|c chunks IH] using rev_ind.
  - exists st. split; [reflexivity|]. split; [exact Hm|apply static_refl].
  - destruct IH as (st1 & Hrun & Hm1 & Hs1). rewrite run_snoc, Hrun.
    cbn [mbind result_bind].
    destruct (addFrame_muxing o c st1 Hm1) as [H Hm'].
    exists (afterFrame c st1). split; [exact H|]. split; [exact Hm'|].
    apply (static_trans _ st1); [exact Hs1|apply static_afterFrame].
Qed.

Lemma run_cons (c : Chunk) (chunks : list Chunk) st :
  run (c :: chunks) st = addFrame c st ≫= run chunks.
Proof.
  unfold run. cbn [foldl]. change (ok st ≫= addFrame c) with (addFrame c st).
  destruct (addFrame c st) as [err|st1]; [|reflexivity].
  cbn [mbind result_bind]. induction chunks as [|c' chunks IH]; [reflexivity|].
  cbn [foldl mbind result_bind]. exact IH.
Qed.

(** Frames given to a new writer: the header is written with the first. *)
Lemma run_new o (chunks : list Chunk) :
  fits (width o) (height o) o -> chunks <> [] ->
  exists st,
    run chunks (new o) = ok st /\ muxing o st /\
    static (afterHeader (width o) (height o) o) st.
Proof.
  intros Hfit Hne. destruct chunks as [|c chunks]; [contradiction|].
  rewrite run_cons, (addFrame_new o c Hfit). cbn [mbind result_bind].
  pose proof (muxing_afterHeader o (width o) (height o)) as Hm0.
  destruct (addFrame_muxing o c _ Hm0) as [_ Hm1].
  destruct (run_from_muxing o chunks _ Hm1) as (st & Hrun & Hm & Hs).
  exists st. split; [exact Hrun|]. split; [exact Hm|].
  apply (static_trans _ (afterFrame c (afterHeader (width o) (height o) o)));
    [apply static_afterFrame|exact Hs].
Qed.

(** X11. When the header fits its buffer, no call of [addFrame] throws,
    whatever the chunks: the buffer that a flush sizes with 64 bytes a frame
    is always large enough.  After the first call the file is the header,
    written once, for the width and the height of the options, followed by
    what the flushes appended, and the cursor is at its end. *)
Theorem addFrame_never_throws o (chunks : list Chunk) :
  fits (width o) (height o) o ->
  exists st,
    run chunks (new o) = ok st /\
    (chunks <> [] ->
     writtenHeader st = true /\
     videoWidth st = width o /\ videoHeight st = height o /\
     (exists clusters,
        fileOf (blobBuffer st) = encode (headerTree st) ++ clusters) /\
     BlobBuffer.pos (blobBuffer st) = Z.of_nat (length (fileOf (blobBuffer st)))).
Proof.
  intros Hfit. destruct chunks as [|c chunks].
  - exists (new o). split; [reflexivity|]. intros H. contradiction.
  - destruct (run_new o (c :: chunks) Hfit ltac:(discriminate)) as (st & Hrun & Hm & Hs).
    exists st. split; [exact Hrun|]. intros _.
    destruct Hs as (_ & Hw & Hh & _).
    split; [apply Hm|]. split; [exact Hw|]. split; [exact Hh|].
    split; [apply Hm|apply Hm].
Qed.

Lemma addFrame_never_throws_witness :
  exists st,
    run [EncodedVideoChunk [1; 2; 3] 0 "key"; NotAChunk;
         EncodedVideoChunk [4; 5] 33333 "delta"]
      (new {| codec := "VP8"; width := 640; height := 480 |}) = ok st.
Proof.
  destruct (addFrame_never_throws {| codec := "VP8"; width := 640; height := 480 |}
              [EncodedVideoChunk [1; 2; 3] 0 "key"; NotAChunk;
               EncodedVideoChunk [4; 5] 33333 "delta"])
    as (st & Hrun & _).
  - unfold fits. vm_compute. discriminate.
  - exists st. exact Hrun.
Defined.

Lemma ToUint8_idem (x : Z) : JS.ToUint8 (JS.ToUint8 x) = JS.ToUint8 x.
Proof. apply ToUint8_small, ToUint8_range. Qed.

Lemma payload_simpleBlock (f : Frame) : payload (simpleBlock f) = blockBytes f.
Proof.
  unfold simpleBlock, blockBytes, EBML.elem. cbn [payload map concat encode].
  rewrite app_nil_r, !ToUint8_idem. reflexivity.
Qed.

Lemma length_payload_simpleBlock (f : Frame) :
  Z.of_nat (length (payload (simpleBlock f))) = 4 + Z.of_nat (length (frame f)).
Proof.
  rewrite payload_simpleBlock. unfold blockBytes.
  rewrite length_app, !length_map. cbn [length]. lia.
Qed.

Lemma length_concat_blocks (frames : list Frame) (f : Frame) :
  f ∈ frames ->
  9 + Z.of_nat (length (frame f))
    <= Z.of_nat (length (concat (map encode (map simpleBlock frames)))).
Proof.
  induction 1 as [f frames|f g frames _ IH]; cbn [map concat]; rewrite length_app.
  - pose proof (size_simpleBlock f) as Hs. unfold size in Hs. lia.
  - lia.
Qed.

(** X12. The bytes a flush appends read back as one Cluster element of
    known size, which holds the Timecode of the cluster and then one
    SimpleBlock for each buffered frame, in order, each with the four bytes
    of its header and the frame.  This needs a cluster of less than
    [2^28 - 1] bytes, the most that the four bytes of its size field can
    tell. *)
Theorem flushed_cluster_reads_back st (seg : EBML.t) (d : Z) :
  clusterFrameBuffer st <> [] -> onDefaultTrack (clusterFrameBuffer st) ->
  ebmlSegment st = Some seg -> EBML.dataOffsetOf seg = Some d ->
  Z.of_nat (length (payload (clusterOf st))) < 2 ^ 28 - 1 ->
  exists st' bytes inner,
    flushClusterFrameBuffer st = ok st' /\
    blobBuffer st' = BlobBuffer.write bytes (blobBuffer st) /\
    readElement bytes = Some (0x1f43b675, inner, []) /\
    readElements (S (length (clusterFrameBuffer st))) inner
      = Some ((0xe7, clusterTimecodeBytes st)
                :: map (fun f => (0xa3, blockBytes f)) (clusterFrameBuffer st)).
Proof.
  intros Hne Htracks Hseg Hd Hsmall.
  exists (flushed d st), (encode (clusterOf st)), (payload (clusterOf st)).
  split; [exact (flush_result st seg d Hne Htracks Hseg Hd)|].
  split; [reflexivity|].
  pose proof (writable_clusterOf st) as Hw.
  split.
  - rewrite <- (app_nil_r (encode (clusterOf st))).
    apply (readElement_encode (clusterOf st) []); [|exact Hw].
    unfold clusterOf, createCluster, EBML.elem in Hsmall |- *.
    cbn [framed]. change (validId 524531317) with true.
    change (EBML.unbounded None) with false. cbn [negb andb].
    apply Z.ltb_lt. exact Hsmall.
  - unfold clusterOf, createCluster, EBML.elem in Hw, Hsmall |- *.
    cbn [payload] in Hsmall |- *.
    set (tc := EBML.Element 231 None
                 (EBML.Number (round (inject_Z (round (clusterStartTime st)))))
                 None None) in *.
    cbn [writable] in Hw. apply andb_prop in Hw as [_ Hw].
    cbn [forallb] in Hw. apply andb_prop in Hw as [Htc Hbl].
    replace (S (length (clusterFrameBuffer st)))
      with (length (tc :: map simpleBlock (clusterFrameBuffer st)))
      by (cbn [length]; rewrite length_map; reflexivity).
    rewrite readElements_encode.
    + cbn [map]. f_equal. f_equal. rewrite map_map. apply map_ext.
      intros f. rewrite payload_simpleBlock. reflexivity.
    + constructor; [split; [reflexivity|exact Htc]|].
      apply Forall_forall. intros b Hb.
      apply list_elem_of_fmap in Hb as (f & -> & Hf). split.
      * unfold simpleBlock at 1, EBML.elem. cbn [framed].
        change (validId 163) with true. change (EBML.unbounded None) with false.
        cbn [negb andb]. apply Z.ltb_lt.
        fold (EBML.elem 163 (EBML.Array
                [EBML.Bytes (map JS.ToUint8
                   [JS.bor (JS.shl 1 7) (trackNumber f); JS.sar (timecode f) 8;
                    timecode f;
                    JS.shl (if String.eqb (type f) "key" then 1 else 0) 7]);
                 EBML.Bytes (frame f)])).
        fold (simpleBlock f). rewrite length_payload_simpleBlock.
        pose proof (length_concat_blocks _ f Hf) as Hle.
        cbn [map concat] in Hsmall. rewrite length_app in Hsmall.
        assert (1 <= Z.of_nat (length (encode tc))).
        { pose proof (size_number 231 (round (inject_Z (round (clusterStartTime st))))
                        None None) as Hn.
          unfold size in Hn. subst tc.
          pose proof (measureUnsignedInt_range
                        (round (inject_Z (round (clusterStartTime st))))).
          change (measureUnsignedInt 231) with 1 in Hn. lia. }
        lia.
      * rewrite forallb_forall in Hbl. apply Hbl. apply list_elem_of_In.
        apply list_elem_of_fmap. exists f. split; [reflexivity|exact Hf].
Qed.

End Muxer.

Section Sessions.

Import WebMWriter Encoding Reader Completion.

Implicit Types (st : WebMWriter.t) (o : Options).

Variable float64 : Q -> Z.

Lemma run_writer (chunks : list Chunk) (x : Completion.t) :
  Completion.run chunks x =
    (st ← WebMWriter.run chunks (writer x);
     ok {| writer := st; firstCueWritten := firstCueWritten x |}).
Proof.
  induction chunks as [|c chunks IH] using rev_ind.
  - destruct x. reflexivity.
  - unfold Completion.run in *. rewrite foldl_app. cbn [foldl]. rewrite IH.
    rewrite run_snoc.
    destruct (WebMWriter.run chunks (writer x)) as [err|st]; [reflexivity|].
    cbn [mbind result_bind]. unfold Completion.addFrame. cbn [writer firstCueWritten].
    reflexivity.
Qed.

Lemma fits_least o (w h : Z) : fits w h o -> fits 0 0 o.
Proof.
  unfold fits. pose proof (measureUnsignedInt_range w).
  pose proof (measureUnsignedInt_range h).
  change (measureUnsignedInt 0) with 1. lia.
Qed.

(** [complete] on a new writer writes the header for a video of 0 by 0. *)
Lemma complete_new o :
  fits 0 0 o ->
  complete float64 (Completion.new o)
    = ok {| writer := finished float64 (afterHeader 0 0 o);
            firstCueWritten := true |}.
Proof.
  intros Hfit. unfold finished.
  rewrite <- (complete_result float64 o _ (muxing_afterHeader o 0 0)).
  unfold complete. cbn [writer firstCueWritten Completion.new].
  change (writtenHeader (WebMWriter.new o)) with false.
  change (writtenHeader (afterHeader 0 0 o)) with true. cbv iota.
  change (WebMWriter.new o) with (set_video 0 0 (WebMWriter.new o)).
  rewrite (writeHeader_new o 0 0 Hfit). reflexivity.
Qed.

(** A session, as a function of the chunks. *)
Lemma session_result o (chunks : list Chunk) :
  fits (width o) (height o) o ->
  exists st,
    muxing o st /\
    (chunks <> [] ->
     WebMWriter.run chunks (WebMWriter.new o) = ok st /\
     static (afterHeader (width o) (height o) o) st) /\
    (chunks = [] -> st = afterHeader 0 0 o) /\
    session float64 o chunks
      = ok {| writer := finished float64 st; firstCueWritten := true |}.
Proof.
  intros Hfit. destruct chunks as [|c chunks].
  - exists (afterHeader 0 0 o). split; [apply muxing_afterHeader|].
    split; [intros H; contradiction|]. split; [reflexivity|].
    unfold session. cbn [Completion.run foldl mbind result_bind].
    apply complete_new. exact (fits_least o _ _ Hfit).
  - destruct (run_new o (c :: chunks) Hfit ltac:(discriminate)) as (st & Hrun & Hm & Hs).
    exists st. split; [exact Hm|]. split; [intros _; split; assumption|].
    split; [discriminate|].
    unfold session. rewrite run_writer. cbn [writer firstCueWritten Completion.new].
    rewrite Hrun. cbn [mbind result_bind].
    apply (complete_result float64 o st Hm).
Qed.

Lemma length_durationBytes st : length (durationBytes float64 st) = 8%nat.
Proof. reflexivity. Qed.

Lemma clusterFrameBuffer_finished st : clusterFrameBuffer (finished float64 st) = [].
Proof. exact (drained_buffer st). Qed.

Lemma lastTimeCode_finished st : lastTimeCode (finished float64 st) = lastTimeCode st.
Proof. exact (lastTimeCode_drained st). Qed.

Lemma firstTimestampEver_finished st : firstTimestampEver (finished float64 st) = true.
Proof.
  unfold finished, patched, indexed, drained. cbv zeta.
  destruct (clusterFrameBuffer (set_earliest true (earliestTimestamp st) st));
    reflexivity.
Qed.

(** X13. When the header fits its buffer, a session never throws, whatever
    the chunks and even without any: the buffer that [writeCues] sizes with
    [16 + 32 n] bytes for [n] cue points is always large enough.  [complete]
    leaves no frame in the cluster buffer, has written the cues, expects a
    first timestamp again, and leaves the cursor of the sink at the end of
    the file. *)
Theorem session_never_throws o (chunks : list Chunk) :
  fits (width o) (height o) o ->
  exists x,
    session float64 o chunks = ok x /\
    firstCueWritten x = true /\
    clusterFrameBuffer (writer x) = [] /\
    firstTimestampEver (writer x) = true /\
    BlobBuffer.pos (blobBuffer (writer x))
      = Z.of_nat (length (fileOf (blobBuffer (writer x)))).
Proof.
  intros Hfit. destruct (session_result o chunks Hfit) as (st & Hm & _ & _ & Hs).
  eexists. split; [exact Hs|]. cbn [writer firstCueWritten].
  split; [reflexivity|]. split; [apply clusterFrameBuffer_finished|].
  split; [apply firstTimestampEver_finished|].
  destruct (final_file o st (durationBytes float64 st) Hm (length_durationBytes st))
    as (clusters & _ & _ & _ & Hpos).
  exact Hpos.
Qed.

End Sessions.

Section Finished.

Import WebMWriter Encoding Reader Completion.

Implicit Types (st : WebMWriter.t) (o : Options).

Variable float64 : Q -> Z.

Lemma readSeekHead_seekEntries (c i t : Z) :
  readSeekHead (encode (seekEntries c i t))
    = Some [(0x1c53bb6b, c mod 2 ^ 40); (0x1549a966, i mod 2 ^ 40);
            (0x1654ae6b, t mod 2 ^ 40)].
Proof.
  change (2 ^ 40) with (2 ^ (8 * 5)).
  rewrite <- (accumulate_writtenUInt c 5), <- (accumulate_writtenUInt i 5),
    <- (accumulate_writtenUInt t 5) by lia.
  reflexivity.
Qed.

Lemma length_encode_headerTree st :
  Z.of_nat (length (encode (headerTree st)))
    = 175 + Z.of_nat (length (encode (tracks st))).
Proof.
  rewrite encode_headerTree, !length_app, length_beforeSeekHead,
    length_payload_createSeekHead, length_beforeDuration, length_oldDuration.
  lia.
Qed.

(** The file that [complete] leaves, and the place of its parts. *)
Lemma finished_file o st :
  muxing o st ->
  let d := drained st in
  let P := BlobBuffer.pos (blobBuffer d) in
  let file := fileOf (blobBuffer (finished float64 st)) in
  exists clusters,
    fileOf (blobBuffer d) = encode (headerTree st) ++ clusters /\
    P = 175 + Z.of_nat (length (encode (tracks st))) + Z.of_nat (length clusters) /\
    file = beforeSeekHead ++ encode (seekEntries (P - 44) 71 131)
             ++ beforeDuration ++ durationBytes float64 st
             ++ encode (tracks st) ++ clusters ++ encode (cuesElement d) /\
    Z.of_nat (length file) = P + Z.of_nat (length (encode (cuesElement d))).
Proof.
  intros Hm d P file.
  destruct (final_file o st (durationBytes float64 st) Hm (length_durationBytes float64 st))
    as (clusters & Hfile & Hpos & Hfin & _).
  fold d in Hfile, Hpos, Hfin. fold P in Hpos, Hfin.
  change (fileOf (blobBuffer (patched (durationBytes float64 st) (indexed d))))
    with file in Hfin.
  exists clusters. split; [exact Hfile|].
  assert (HP : P = 175 + Z.of_nat (length (encode (tracks st)))
                   + Z.of_nat (length clusters)).
  { rewrite Hpos, length_app, Nat2Z.inj_add, length_encode_headerTree. lia. }
  split; [exact HP|]. split; [exact Hfin|].
  rewrite Hfin, !length_app, length_beforeSeekHead, length_encode_seekEntries,
    length_beforeDuration, length_durationBytes, HP.
  lia.
Qed.

(** X14. The seek head of a completed file tells where the Cues, the
    segment information and the Tracks are: the three entries read back from
    the file give a position each, relative to the start of the data of the
    segment at byte 44, and at each of these positions the file holds the id
    the entry names.  The five bytes of a position hold it for a file of
    less than [2^40] bytes. *)
Theorem seek_head_locates_elements o (chunks : list Chunk) (x : Completion.t) :
  fits (width o) (height o) o ->
  session float64 o chunks = ok x ->
  Z.of_nat (length (fileOf (blobBuffer (writer x)))) < 2 ^ 40 ->
  exists cues,
    readSeekHead (slice 52 63 (fileOf (blobBuffer (writer x))))
      = Some [(0x1c53bb6b, cues); (0x1549a966, 71); (0x1654ae6b, 131)] /\
    (exists rest,
       readId (drop (Z.to_nat (44 + cues)) (fileOf (blobBuffer (writer x))))
         = Some (0x1c53bb6b, rest)) /\
    (exists rest,
       readId (drop (Z.to_nat (44 + 71)) (fileOf (blobBuffer (writer x))))
         = Some (0x1549a966, rest)) /\
    (exists rest,
       readId (drop (Z.to_nat (44 + 131)) (fileOf (blobBuffer (writer x))))
         = Some (0x1654ae6b, rest)).
Proof.
  intros Hfit Hs Hsmall.
  destruct (session_result float64 o chunks Hfit) as (st & Hm & _ & _ & Hs').
  rewrite Hs' in Hs. injection Hs as <-. cbn [writer] in *.
  destruct (finished_file o st Hm) as (clusters & _ & HP & Hfile & Hlen).
  cbv zeta in HP, Hfile, Hlen.
  set (d := drained st) in *. set (P := BlobBuffer.pos (blobBuffer d)) in *.
  set (file := fileOf (blobBuffer (finished float64 st))) in *.
  set (S := encode (seekEntries (P - 44) 71 131)) in *.
  assert (HS : length S = 63%nat) by apply length_encode_seekEntries.
  exists (P - 44). split; [|split; [|split]].
  - assert (Hslice : slice 52 63 file = S).
    { rewrite Hfile. unfold slice. change (Z.to_nat 52) with (length beforeSeekHead).
      rewrite drop_app_length. rewrite <- HS. apply take_app_length. }
    rewrite Hslice. subst S. rewrite readSeekHead_seekEntries.
    rewrite (Z.mod_small (P - 44)) by lia. reflexivity.
  - replace (44 + (P - 44)) with P by lia.
    assert (Hdrop : drop (Z.to_nat P) file = encode (cuesElement d)).
    { rewrite Hfile, !app_assoc. apply drop_app_length'.
      rewrite !length_app, HS, length_beforeSeekHead, length_beforeDuration,
        length_durationBytes. lia. }
    rewrite Hdrop. eexists.
    change (encode (cuesElement d))
      with (idBytes 0x1c53bb6b
              ++ (vint4 (Z.of_nat (length (payload (cuesElement d))))
                    ++ payload (cuesElement d))).
    apply readId_idBytes. reflexivity.
  - assert (Hdrop : drop (Z.to_nat (44 + 71)) file
                    = beforeDuration ++ durationBytes float64 st
                        ++ encode (tracks st) ++ clusters ++ encode (cuesElement d)).
    { rewrite Hfile, (app_assoc beforeSeekHead). apply drop_app_length'.
      rewrite length_app, HS, length_beforeSeekHead. reflexivity. }
    rewrite Hdrop. eexists.
    change beforeDuration with (idBytes 0x1549a966 ++ drop 4 beforeDuration).
    rewrite <- app_assoc. apply readId_idBytes. reflexivity.
  - assert (Hdrop : drop (Z.to_nat (44 + 131)) file
                    = encode (tracks st) ++ clusters ++ encode (cuesElement d)).
    { rewrite Hfile, (app_assoc beforeSeekHead), (app_assoc _ beforeDuration),
        (app_assoc _ (durationBytes float64 st)).
      apply drop_app_length'.
      rewrite !length_app, HS, length_beforeSeekHead, length_beforeDuration,
        length_durationBytes. reflexivity. }
    rewrite Hdrop.
    assert (Ht : exists r, encode (tracks st) = idBytes 0x1654ae6b ++ r)
      by (eexists; reflexivity).
    destruct Ht as (r & ->). rewrite <- app_assoc. eexists.
    apply readId_idBytes. reflexivity.
Qed.

End Finished.

Section Patches.

Import WebMWriter Encoding Reader Completion.

Implicit Types (st : WebMWriter.t) (o : Options).

Variable float64 : Q -> Z.


Lemma fileOf_drained o st :
  muxing o st ->
  exists more, fileOf (blobBuffer (drained st)) = fileOf (blobBuffer st) ++ more.
Proof.
  intros Hm. unfold drained. cbv zeta.
  destruct (clusterFrameBuffer (set_earliest true (earliestTimestamp st) st)).
  - exists []. rewrite app_nil_r. reflexivity.
  - cbn [flushed set_cluster set_cues set_blobBuffer blobBuffer set_earliest].
    rewrite fileOf_write, (mux_pos _ _ Hm), overwrite_end. eexists. reflexivity.
Qed.

Lemma fileOf_finished o st :
  muxing o st ->
  let d := drained st in
  fileOf (blobBuffer (finished float64 st)) =
    overwrite
      (overwrite (fileOf (blobBuffer d) ++ encode (cuesElement d)) 52
         (encode (seekEntries (BlobBuffer.pos (blobBuffer d) - 44) 71 131)))
      167 (durationBytes float64 st).
Proof.
  intros Hm d. pose proof (muxing_drained o st Hm) as Hd. fold d in Hd.
  unfold finished. fold d.
  rewrite blobBuffer_patched, fileOf_seek, fileOf_write, fileOf_seek, fileOf_seek,
    fileOf_write, fileOf_seek.
  rewrite seekPoints_indexed. cbn [seekCues seekSegmentInfo seekTracks].
  rewrite (mux_seekPoints _ _ Hd). cbn [seekSegmentInfo seekTracks].
  cbn [BlobBuffer.seek BlobBuffer.pos].
  rewrite blobBuffer_indexed, fileOf_write, (mux_pos _ _ Hd), overwrite_end.
  reflexivity.
Qed.

(** X16. [complete] changes nothing of what the file held before, but the
    63 bytes of the payload of the seek head, from byte 52 on, and the 8
    bytes of the Duration, from byte 167 on; all else that it writes comes
    after. *)
Theorem complete_rewrites_in_place o (chunks : list Chunk) st :
  fits (width o) (height o) o -> chunks <> [] ->
  WebMWriter.run chunks (WebMWriter.new o) = ok st ->
  exists x,
    complete float64 {| writer := st; firstCueWritten := false |} = ok x /\
    forall (j : nat) (b : Z),
      fileOf (blobBuffer st) !! j = Some b ->
      (j < 52 \/ 115 <= j < 167 \/ 175 <= j)%nat ->
      fileOf (blobBuffer (writer x)) !! j = Some b.
Proof.
  intros Hfit Hne Hrun.
  destruct (run_new o chunks Hfit Hne) as (st' & Hrun' & Hm & _).
  assert (st' = st) by congruence. subst st'.
  eexists. split; [apply (complete_result float64 o st Hm)|].
  cbn [writer]. fold (finished float64 st).
  intros j b Hj Hout.
  rewrite (fileOf_finished o st Hm). cbv zeta.
  destruct (fileOf_drained o st Hm) as (more & Hmore).
  destruct (mux_file _ _ (muxing_drained o st Hm)) as (clusters & Hfile).
  set (d := drained st) in *.
  set (S := encode (seekEntries _ 71 131)).
  assert (HS : length S = 63%nat) by apply length_encode_seekEntries.
  set (D := durationBytes float64 st).
  assert (HD : length D = 8%nat) by apply length_durationBytes.
  set (F := fileOf (blobBuffer d) ++ encode (cuesElement d)).
  assert (HF : 175 <= Z.of_nat (length F)).
  { subst F. rewrite Hfile, !length_app.
    pose proof (length_encode_headerTree d). lia. }
  assert (HF' : length (overwrite F 52 S) = length F)
    by (apply length_overwrite; lia).
  apply lookup_lt_Some in Hj as Hlt.
  assert (Hold : F !! j = Some b).
  { subst F. rewrite Hmore, <- app_assoc. apply lookup_app_l_Some. exact Hj. }
  rewrite lookup_overwrite by lia. rewrite HD.
  destruct (decide (Z.of_nat j < 167)) as [H1|H1].
  - rewrite lookup_overwrite by lia. rewrite HS.
    destruct (decide (Z.of_nat j < 52)); [exact Hold|].
    destruct (decide (Z.of_nat j < 52 + Z.of_nat 63)); [lia|exact Hold].
  - destruct (decide (Z.of_nat j < 167 + Z.of_nat 8)); [lia|].
    rewrite lookup_overwrite by lia. rewrite HS.
    destruct (decide (Z.of_nat j < 52)); [lia|].
    destruct (decide (Z.of_nat j < 52 + Z.of_nat 63)); [lia|exact Hold].
Qed.

(** X17. [complete] on a writer that was given no frame writes the header
    itself, for a video of 0 by 0 whatever the options say, and then a Cues
    element without a cue point: the file is the header, with the seek head
    and a Duration of 0 filled in, and the eight bytes of the empty Cues.
    The PixelWidth and the PixelHeight, six bytes from byte 28 of the Tracks
    on, are both 0. *)
Theorem complete_without_frames o :
  fits 0 0 o ->
  exists x,
    session float64 o [] = ok x /\
    videoWidth (writer x) = 0 /\ videoHeight (writer x) = 0 /\
    fileOf (blobBuffer (writer x)) =
      beforeSeekHead
        ++ encode (seekEntries
                     (131 + Z.of_nat (length (encode (tracks (WebMWriter.new o)))))
                     71 131)
        ++ beforeDuration
        ++ floatBytes (float64 0) [7; 6; 5; 4; 3; 2; 1; 0]
        ++ encode (tracks (WebMWriter.new o))
        ++ [0x1c; 0x53; 0xbb; 0x6b; 0x10; 0; 0; 0] /\
    slice 28 6 (encode (tracks (WebMWriter.new o)))
      = [0xb0; 0x81; 0; 0xba; 0x81; 0].
Proof.
  intros Hfit. eexists. split; [apply (complete_new float64 o Hfit)|].
  cbn [writer]. split; [reflexivity|]. split; [reflexivity|]. split.
  - rewrite (fileOf_finished o _ (muxing_afterHeader o 0 0)). cbv zeta.
    set (st := afterHeader 0 0 o).
    assert (Hd : drained st = set_earliest true 0 st) by reflexivity.
    rewrite Hd.
    assert (Hfile : fileOf (blobBuffer (set_earliest true 0 st))
                    = encode (headerTree (WebMWriter.new o))).
    { subst st. unfold afterHeader. cbn [set_earliest set_header blobBuffer].
      rewrite fileOf_write. apply (overwrite_end []). }
    assert (Hpos : BlobBuffer.pos (blobBuffer (set_earliest true 0 st))
                   = Z.of_nat (length (encode (headerTree (WebMWriter.new o)))))
      by reflexivity.
    rewrite Hfile, Hpos, length_encode_headerTree.
    replace (175 + Z.of_nat (length (encode (tracks (WebMWriter.new o)))) - 44)
      with (131 + Z.of_nat (length (encode (tracks (WebMWriter.new o))))) by lia.
    set (S := encode (seekEntries _ 71 131)).
    assert (HS : length S = 63%nat) by apply length_encode_seekEntries.
    change (encode (cuesElement (set_earliest true 0 st)))
      with [0x1c; 0x53; 0xbb; 0x6b; 0x10; 0; 0; 0].
    change (durationBytes float64 st)
      with (floatBytes (float64 0) [7; 6; 5; 4; 3; 2; 1; 0]).
    set (D := floatBytes (float64 0) [7; 6; 5; 4; 3; 2; 1; 0]).
    rewrite encode_headerTree, <- !app_assoc.
    change 52 with (Z.of_nat (length beforeSeekHead)).
    rewrite overwrite_app
      by (rewrite HS; symmetry; apply length_payload_createSeekHead).
    rewrite (app_assoc beforeSeekHead S), (app_assoc _ beforeDuration).
    replace 167 with (Z.of_nat (length ((beforeSeekHead ++ S) ++ beforeDuration)))
      by (rewrite !length_app, HS, length_beforeSeekHead, length_beforeDuration;
          reflexivity).
    rewrite overwrite_app by (symmetry; apply length_oldDuration).
    rewrite <- !app_assoc. reflexivity.
  - reflexivity.
Qed.

End Patches.

Section Again.

Import WebMWriter Encoding Reader Completion.

Implicit Types (st : WebMWriter.t) (o : Options).

Variable float64 : Q -> Z.

Lemma rewriteSeekHead_again st (c : Z) :
  seekHead st = Some (rewrittenSeekHead c) ->
  seekPoints st = {| seekCues := c; seekSegmentInfo := 71; seekTracks := 131 |} ->
  rewriteSeekHead st =
    ok (set_blobBuffer
          (BlobBuffer.seek (BlobBuffer.pos (blobBuffer st))
             (BlobBuffer.write (encode (seekEntries c 71 131))
                (BlobBuffer.seek 52 (blobBuffer st))))
          (set_seekHead (rewrittenSeekHead c) st)).
Proof.
  intros Hsh Hsp. unfold rewriteSeekHead. rewrite Hsh.
  change (EBML.sizeOf (rewrittenSeekHead c)) with (Some 63).
  change (EBML.dataOffsetOf (rewrittenSeekHead c)) with (Some 52).
  cbv iota beta zeta.
  assert (Hdata : seekHeadData st (rewrittenSeekHead c) = seekEntries c 71 131).
  { unfold seekHeadData. rewrite Hsp. reflexivity. }
  rewrite Hdata.
  destruct (writeEBML_new (seekEntries c 71 131) 63 52 (writable_seekEntries c 71 131)
              ltac:(change (size (seekEntries c 71 131) <= 63);
                    rewrite size_seekEntries; lia))
    as (s' & Hwrite & _ & Hbytes).
  rewrite Hwrite. cbn [mbind result_bind]. rewrite Hbytes. reflexivity.
Qed.

(** [complete], on a writer that has written its cues. *)
Lemma complete_again (y : WebMWriter.t) (c : Z) :
  writtenHeader y = true -> clusterFrameBuffer y = [] ->
  seekHead y = Some (rewrittenSeekHead c) ->
  seekPoints y = {| seekCues := c; seekSegmentInfo := 71; seekTracks := 131 |} ->
  segmentDurationDataOffset y = Some 167 ->
  exists x',
    complete float64 {| writer := y; firstCueWritten := true |} = ok x' /\
    firstCueWritten x' = true /\ cues (writer x') = cues y /\
    blobBuffer (writer x') =
      BlobBuffer.seek (BlobBuffer.pos (blobBuffer y))
        (BlobBuffer.write (durationBytes float64 y)
           (BlobBuffer.seek 167
              (BlobBuffer.seek (BlobBuffer.pos (blobBuffer y))
                 (BlobBuffer.write (encode (seekEntries c 71 131))
                    (BlobBuffer.seek 52 (blobBuffer y)))))).
Proof.
  intros Hh Hb Hsh Hsp Hd. unfold complete. cbn [writer firstCueWritten].
  rewrite Hh. cbn [mbind result_bind].
  set (y1 := set_earliest true (earliestTimestamp y) y).
  assert (Hb1 : clusterFrameBuffer y1 = []) by exact Hb.
  unfold flushClusterFrameBuffer. rewrite Hb1. cbn [mbind result_bind].
  unfold writeCues. cbn [firstCueWritten mbind result_bind writer].
  assert (Hsh1 : seekHead y1 = Some (rewrittenSeekHead c)) by exact Hsh.
  assert (Hsp1 : seekPoints y1
                 = {| seekCues := c; seekSegmentInfo := 71; seekTracks := 131 |})
    by exact Hsp.
  rewrite (rewriteSeekHead_again y1 c Hsh1 Hsp1). cbn [mbind result_bind].
  match goal with
  | |- context [rewriteDuration float64 ?z] =>
      rewrite (rewriteDuration_result float64 z 167)
  end.
  - cbn [mbind result_bind]. eexists. split; [reflexivity|].
    cbn [firstCueWritten writer]. split; [reflexivity|]. split; reflexivity.
  - exact Hd.
Qed.

Lemma overwrite_same (A B C : list Z) :
  overwrite (A ++ B ++ C) (Z.of_nat (length A)) B = A ++ B ++ C.
Proof. apply overwrite_app. reflexivity. Qed.

(** X18. A second call of [complete] writes no second Cues element: it
    writes the payload of the seek head and the Duration again, with the
    bytes they have, and leaves the file, the cue points and the cursor of
    the sink as they were. *)
Theorem complete_twice o (chunks : list Chunk) (x : Completion.t) :
  fits (width o) (height o) o ->
  session float64 o chunks = ok x ->
  exists x',
    complete float64 x = ok x' /\
    fileOf (blobBuffer (writer x')) = fileOf (blobBuffer (writer x)) /\
    cues (writer x') = cues (writer x) /\
    BlobBuffer.pos (blobBuffer (writer x')) = BlobBuffer.pos (blobBuffer (writer x)).
Proof.
  intros Hfit Hs.
  destruct (session_result float64 o chunks Hfit) as (st & Hm & _ & _ & Hs').
  rewrite Hs' in Hs. injection Hs as <-. cbn [writer].
  pose proof (muxing_drained o st Hm) as Hd.
  destruct (finished_file float64 o st Hm) as (clusters & _ & _ & Hfile & _).
  cbv zeta in Hfile.
  assert (Hh : writtenHeader (finished float64 st) = true) by apply Hd.
  assert (Hb : clusterFrameBuffer (finished float64 st) = [])
    by apply clusterFrameBuffer_finished.
  assert (Hsp : seekPoints (finished float64 st)
                = {| seekCues := BlobBuffer.pos (blobBuffer (drained st)) - 44;
                     seekSegmentInfo := 71; seekTracks := 131 |}).
  { unfold finished, patched. cbn [seekPoints set_blobBuffer set_seekHead].
    rewrite seekPoints_indexed, (mux_seekPoints _ _ Hd). reflexivity. }
  assert (Hsh : seekHead (finished float64 st)
                = Some (rewrittenSeekHead (BlobBuffer.pos (blobBuffer (drained st)) - 44))).
  { unfold finished, patched. cbn [seekHead set_blobBuffer set_seekHead].
    rewrite seekPoints_indexed, (mux_seekPoints _ _ Hd). reflexivity. }
  assert (Hdur : segmentDurationDataOffset (finished float64 st) = Some 167)
    by exact (segmentDurationDataOffset_muxing o _ Hd).
  assert (HD : durationBytes float64 (finished float64 st) = durationBytes float64 st).
  { unfold durationBytes. rewrite lastTimeCode_finished. reflexivity. }
  revert Hfile Hh Hb Hsp Hsh Hdur HD.
  generalize (BlobBuffer.pos (blobBuffer (drained st)) - 44).
  generalize (encode (tracks st) ++ clusters ++ encode (cuesElement (drained st))).
  generalize (durationBytes float64 st).
  generalize (finished float64 st).
  clear. intros y D tail c Hfile Hh Hb Hsp Hsh Hdur HD.
  destruct (complete_again y c Hh Hb Hsh Hsp Hdur) as (x' & Hx' & _ & Hcues & Hblob).
  exists x'. split; [exact Hx'|].
  split; [|split; [exact Hcues|rewrite Hblob; reflexivity]].
  rewrite Hblob, fileOf_seek, fileOf_write, fileOf_seek, fileOf_seek, fileOf_write,
    fileOf_seek.
  cbn [BlobBuffer.seek BlobBuffer.pos].
  rewrite HD, Hfile.
  set (S := encode (seekEntries c 71 131)).
  assert (HS : length S = 63%nat) by apply length_encode_seekEntries.
  change 52 with (Z.of_nat (length beforeSeekHead)).
  rewrite overwrite_same.
  rewrite (app_assoc beforeSeekHead S), (app_assoc _ beforeDuration).
  replace 167 with (Z.of_nat (length ((beforeSeekHead ++ S) ++ beforeDuration)))
    by (rewrite !length_app, HS, length_beforeSeekHead, length_beforeDuration;
        reflexivity).
  rewrite overwrite_same. reflexivity.
Qed.

End Again.

Section Samples.

Import WebMWriter Encoding Reader Completion.

Example float64_samples :
  IEEE.float64 0 = 0 /\
  IEEE.float64 1 = 0x3ff0000000000000 /\
  IEEE.float64 (-1) = 0xbff0000000000000 /\
  IEEE.float64 (1 # 10) = 0x3fb999999999999a /\
  IEEE.float64 (33333 # 1000) = 0x4040aa9fbe76c8b4 /\
  IEEE.float64 5000 = 0x40b3880000000000.
Proof. vm_compute. repeat split. Qed.

Lemma flushed_cluster_reads_back_witness :
  exists st' bytes inner,
    flushClusterFrameBuffer sampleQueued = ok st' /\
    blobBuffer st' = BlobBuffer.write bytes (blobBuffer sampleQueued) /\
    readElement bytes = Some (0x1f43b675, inner, []) /\
    readElements 2 inner = Some [(0xe7, [0]); (0xa3, [129; 0; 0; 128; 1; 2; 3])].
Proof.
  apply (flushed_cluster_reads_back sampleQueued (placedSegment 0 sampleQueued) 44).
  - vm_compute. discriminate.
  - vm_compute. repeat constructor.
  - reflexivity.
  - reflexivity.
  - vm_compute. reflexivity.
Defined.

Lemma session_never_throws_witness :
  exists x, session IEEE.float64 sampleOptions sampleChunks = ok x.
Proof.
  destruct (session_never_throws IEEE.float64 sampleOptions sampleChunks)
    as (x & Hx & _).
  - vm_compute. discriminate.
  - exists x. exact Hx.
Defined.

Lemma seek_head_locates_elements_witness :
  exists x,
    session IEEE.float64 sampleOptions sampleChunks = ok x /\
    exists cues,
      readSeekHead (slice 52 63 (fileOf (blobBuffer (writer x))))
        = Some [(0x1c53bb6b, cues); (0x1549a966, 71); (0x1654ae6b, 131)].
Proof.
  destruct (session IEEE.float64 sampleOptions sampleChunks) as [err|x] eqn:Hs.
  - vm_compute in Hs. discriminate Hs.
  - exists x. split; [reflexivity|].
    destruct (seek_head_locates_elements IEEE.float64 sampleOptions sampleChunks x)
      as (cues & Hread & _).
    + vm_compute. discriminate.
    + exact Hs.
    + vm_compute in Hs. injection Hs as <-. vm_compute. reflexivity.
    + exists cues. exact Hread.
Defined.


Lemma complete_rewrites_in_place_witness :
  exists st,
    WebMWriter.run sampleChunks (WebMWriter.new sampleOptions) = ok st /\
    exists x,
      complete IEEE.float64 {| writer := st; firstCueWritten := false |} = ok x /\
      forall (j : nat) (b : Z),
        fileOf (blobBuffer st) !! j = Some b ->
        (j < 52 \/ 115 <= j < 167 \/ 175 <= j)%nat ->
        fileOf (blobBuffer (writer x)) !! j = Some b.
Proof.
  destruct (WebMWriter.run sampleChunks (WebMWriter.new sampleOptions))
    as [err|st] eqn:Hrun.
  - vm_compute in Hrun. discriminate Hrun.
  - exists st. split; [reflexivity|].
    apply (complete_rewrites_in_place IEEE.float64 sampleOptions sampleChunks st).
    + vm_compute. discriminate.
    + discriminate.
    + exact Hrun.
Defined.

Lemma complete_without_frames_witness :
  exists x,
    session IEEE.float64 sampleOptions [] = ok x /\
    videoWidth (writer x) = 0 /\ videoHeight (writer x) = 0.
Proof.
  destruct (complete_without_frames IEEE.float64 sampleOptions)
    as (x & Hs & Hw & Hh & _).
  - vm_compute. discriminate.
  - exists x. split; [exact Hs|]. split; [exact Hw|exact Hh].
Defined.

Lemma complete_twice_witness :
  exists x,
    session IEEE.float64 sampleOptions sampleChunks = ok x /\
    exists x',
      complete IEEE.float64 x = ok x' /\
      fileOf (blobBuffer (writer x')) = fileOf (blobBuffer (writer x)).
Proof.
  destruct (session IEEE.float64 sampleOptions sampleChunks) as [err|x] eqn:Hs.
  - vm_compute in Hs. discriminate Hs.
  - exists x. split; [reflexivity|].
    destruct (complete_twice IEEE.float64 sampleOptions sampleChunks x)
      as (x' & Hx' & Hfile & _).
    + vm_compute. discriminate.
    + exact Hs.
    + exists x'. split; [exact Hx'|exact Hfile].
Defined.

(** The file of the two chunks: its length, the payload of its seek head
    and its Duration. *)
Example sample_file :
  match session IEEE.float64 sampleOptions sampleChunks with
  | inr x =>
      length (fileOf (blobBuffer (writer x))) = 299%nat /\
      slice 52 63 (fileOf (blobBuffer (writer x)))
        = [0x4d; 0xbb; 0x10; 0; 0; 15; 0x53; 0xab; 0x84; 0x1c; 0x53; 0xbb; 0x6b;
           0x53; 0xac; 0x85; 0; 0; 0; 0; 228;
           0x4d; 0xbb; 0x10; 0; 0; 15; 0x53; 0xab; 0x84; 0x15; 0x49; 0xa9; 0x66;
           0x53; 0xac; 0x85; 0; 0; 0; 0; 71;
           0x4d; 0xbb; 0x10; 0; 0; 15; 0x53; 0xab; 0x84; 0x16; 0x54; 0xae; 0x6b;
           0x53; 0xac; 0x85; 0; 0; 0; 0; 131] /\
      slice 167 8 (fileOf (blobBuffer (writer x)))
        = [0x40; 0x40; 0xaa; 0x9f; 0xbe; 0x76; 0xc8; 0xb4]
  | inl _ => False
  end.
Proof. vm_compute. repeat split. Qed.

End Samples.

Section Lists.

Import JSArray Items.

Context {Item : Type} (id : Item -> Q).

Lemma findIndexFrom_shift (p : Item -> bool) (i : Z) (arr : list Item) :
  findIndexFrom p i arr = -1 \/
  (0 <= findIndexFrom p i arr - i < Z.of_nat (length arr)).
Proof.
  revert i. induction arr as [|x arr IH]; intros i; [left; reflexivity|].
  cbn [findIndexFrom length]. destruct (p x); [right; lia|].
  destruct (IH (i + 1)) as [->|H]; [left; reflexivity|right; lia].
Qed.

(** [findIndex] finds the first element that satisfies the predicate. *)
Lemma findIndexFrom_found (p : Item -> bool) (i : Z) (before after : list Item)
    (x : Item) :
  Forall (fun y => p y = false) before -> p x = true ->
  findIndexFrom p i (before ++ x :: after) = i + Z.of_nat (length before).
Proof.
  intros Hb Hx. revert i. induction Hb as [|y before Hy _ IH]; intros i.
  - cbn [app findIndexFrom length]. rewrite Hx. lia.
  - cbn [app findIndexFrom length]. rewrite Hy, IH. lia.
Qed.

Lemma findIndexFrom_missing (p : Item -> bool) (i : Z) (arr : list Item) :
  Forall (fun y => p y = false) arr -> findIndexFrom p i arr = -1.
Proof.
  intros H. revert i. induction H as [|y arr Hy _ IH]; intros i; [reflexivity|].
  cbn [findIndexFrom]. rewrite Hy. apply IH.
Qed.

(** A list splits at the first element that satisfies a predicate. *)
Lemma split_first (p : Item -> bool) (arr : list Item) :
  Forall (fun y => p y = false) arr \/
  exists before x after,
    arr = before ++ x :: after /\ Forall (fun y => p y = false) before /\ p x = true.
Proof.
  induction arr as [|y arr IH]; [left; constructor|].
  destruct (p y) eqn:Hy.
  - right. exists [], y, arr. split; [reflexivity|]. split; [constructor|exact Hy].
  - destruct IH as [H|(before & x & after & -> & Hb & Hx)].
    + left. constructor; assumption.
    + right. exists (y :: before), x, after. split; [reflexivity|].
      split; [constructor; assumption|exact Hx].
Qed.

Lemma splice_one (before after : list Item) (x : Item) :
  splice (Z.of_nat (length before)) 1 (before ++ x :: after) = before ++ after.
Proof.
  unfold splice. cbv zeta. rewrite length_app. cbn [length].
  destruct (Z.ltb_spec (Z.of_nat (length before)) 0); [lia|].
  rewrite Z.min_l by lia. rewrite Z.max_l by lia. rewrite Z.min_l by lia.
  rewrite Nat2Z.id, take_app_length. f_equal.
  replace (Z.to_nat (Z.of_nat (length before) + 1)) with (length before + 1)%nat by lia.
  rewrite drop_app_add'  by reflexivity. reflexivity.
Qed.

Lemma splice_last (arr : list Item) : splice (-1) 1 arr = removelast arr.
Proof.
  destruct arr as [|x arr] using rev_ind; [reflexivity|].
  rewrite removelast_last.
  unfold splice. cbv zeta. rewrite length_app. cbn [length].
  change (-1 <? 0) with true. cbv iota.
  rewrite Z.max_l by lia. rewrite Z.max_l by lia. rewrite Z.min_l by lia.
  replace (Z.to_nat (Z.of_nat (length arr + 1) + -1)) with (length arr) by lia.
  replace (Z.to_nat (Z.of_nat (length arr + 1) + -1 + 1)) with (length arr + 1)%nat by lia.
  rewrite take_app_length, drop_app_add' by reflexivity.
  cbn [drop]. rewrite app_nil_r. reflexivity.
Qed.

Lemma removeById_first (x : Q) (before after : list Item) (item : Item) :
  Forall (fun y => hasId Item id x y = false) before -> hasId Item id x item = true ->
  removeById Item id x (before ++ item :: after) = before ++ after.
Proof.
  intros Hb Hx. unfold removeById, findIndex.
  rewrite (findIndexFrom_found _ 0 before after item Hb Hx).
  rewrite Z.add_0_l. apply splice_one.
Qed.

Lemma removeById_none (x : Q) (items : list Item) :
  Forall (fun y => hasId Item id x y = false) items ->
  removeById Item id x items = removelast items.
Proof.
  intros H. unfold removeById, findIndex. rewrite (findIndexFrom_missing _ 0 items H).
  apply splice_last.
Qed.

(** X19. [removeResourceById] and [removeClipById] remove the first item
    that has the id, and no other.  When no item has the id they remove the
    last item of the list all the same: [findIndex] answers [-1], which
    [splice] counts from the end. *)
Theorem removeById_removes_first_or_last (x : Q) (items : list Item) :
  (forall before item after,
     items = before ++ item :: after ->
     Forall (fun y => ~ (id y == x)%Q) before -> (id item == x)%Q ->
     removeById Item id x items = before ++ after) /\
  (Forall (fun y => ~ (id y == x)%Q) items ->
   removeById Item id x items = removelast items).
Proof.
  assert (Hno : forall l, Forall (fun y => ~ (id y == x)%Q) l ->
                          Forall (fun y => hasId Item id x y = false) l).
  { intros l Hl. apply (Forall_impl _ _ _ Hl). intros y Hy. unfold hasId.
    destruct (Qeq_bool (id y) x) eqn:E; [|reflexivity].
    apply Qeq_bool_iff in E. contradiction. }
  split.
  - intros before item after -> Hb Hx. apply removeById_first; [apply Hno, Hb|].
    apply Qeq_bool_iff. exact Hx.
  - intros H. apply removeById_none, Hno, H.
Qed.

Lemma fromId_first (x : Q) (before after : list Item) (item : Item) :
  Forall (fun y => hasId Item id x y = false) before -> hasId Item id x item = true ->
  fromId Item id x (before ++ item :: after) = Some item.
Proof.
  intros Hb Hx. unfold fromId. induction Hb as [|y before Hy _ IH].
  - cbn [app find]. rewrite Hx. reflexivity.
  - cbn [app find]. rewrite Hy. exact IH.
Qed.

Lemma fromId_none (x : Q) (items : list Item) :
  Forall (fun y => hasId Item id x y = false) items -> fromId Item id x items = None.
Proof.
  intros H. unfold fromId. induction H as [|y items Hy _ IH]; [reflexivity|].
  cbn [find]. rewrite Hy. exact IH.
Qed.

Lemma fromId_app (x : Q) (l1 l2 : list Item) :
  fromId Item id x (l1 ++ l2) =
    match fromId Item id x l1 with
    | Some item => Some item
    | None => fromId Item id x l2
    end.
Proof.
  unfold fromId. induction l1 as [|y l1 IH]; [reflexivity|].
  cbn [app find]. destruct (hasId Item id x y); [reflexivity|exact IH].
Qed.

Lemma distinctIds_split (before after : list Item) (item : Item) :
  distinctIds Item id (before ++ item :: after) ->
  Forall (fun y => ~ (id y == id item)%Q) (before ++ after).
Proof.
  intros Hd. apply Forall_app. split; apply Forall_lookup_2; intros i y Hy Heq.
  - assert (Hi : (before ++ item :: after) !! i = Some y)
      by (apply lookup_app_l_Some; exact Hy).
    assert (Hj : (before ++ item :: after) !! length before = Some item)
      by (rewrite lookup_app_r, Nat.sub_diag by lia; reflexivity).
    pose proof (Hd _ _ _ _ Hi Hj Heq) as ->.
    apply lookup_lt_Some in Hy. lia.
  - assert (Hi : (before ++ item :: after) !! (length before + S i)%nat = Some y).
    { rewrite lookup_app_r by lia.
      replace (length before + S i - length before)%nat with (S i) by lia.
      exact Hy. }
    assert (Hj : (before ++ item :: after) !! length before = Some item)
      by (rewrite lookup_app_r, Nat.sub_diag by lia; reflexivity).
    pose proof (Hd _ _ _ _ Hi Hj Heq). lia.
Qed.

(** X20. Among items with pairwise different ids, an item that was removed
    by its id is no longer found, and every other id still finds what it
    found before. *)
Theorem removeById_then_fromId (x : Q) (items : list Item) (item : Item) :
  distinctIds Item id items -> fromId Item id x items = Some item ->
  fromId Item id x (removeById Item id x items) = None /\
  forall y, ~ (y == x)%Q ->
    fromId Item id y (removeById Item id x items) = fromId Item id y items.
Proof.
  intros Hd Hfound.
  destruct (split_first (hasId Item id x) items)
    as [Hnone|(before & found & after & -> & Hb & Hx)].
  - rewrite (fromId_none x items Hnone) in Hfound. discriminate Hfound.
  - rewrite (fromId_first x before after found Hb Hx) in Hfound.
    injection Hfound as ->.
    rewrite (removeById_first x before after item Hb Hx).
    pose proof (distinctIds_split before after item Hd) as Hothers.
    assert (Hxq : (id item == x)%Q) by (apply Qeq_bool_iff; exact Hx).
    split.
    + apply fromId_none. apply (Forall_impl _ _ _ Hothers). intros y Hy.
      unfold hasId. destruct (Qeq_bool (id y) x) eqn:E; [|reflexivity].
      apply Qeq_bool_iff in E. exfalso. apply Hy. rewrite E, Hxq. reflexivity.
    + intros y Hy. rewrite !fromId_app.
      destruct (fromId Item id y before); [reflexivity|].
      unfold fromId at 2. cbn [find].
      assert (Hne : hasId Item id y item = false).
      { unfold hasId. destruct (Qeq_bool (id item) y) eqn:E; [|reflexivity].
        apply Qeq_bool_iff in E. exfalso. apply Hy. rewrite <- E, Hxq. reflexivity. }
      rewrite Hne. reflexivity.
Qed.

Lemma fromId_self (items : list Item) (k : nat) (item : Item) :
  distinctIds Item id items -> items !! k = Some item ->
  fromId Item id (id item) items = Some item.
Proof.
  intros Hd Hk.
  pose proof (take_drop_middle items k item Hk) as Hsplit.
  rewrite <- Hsplit in Hd |- *.
  pose proof (distinctIds_split _ _ _ Hd) as Hothers.
  apply Forall_app in Hothers as [Hbefore _].
  apply fromId_first.
  - apply (Forall_impl _ _ _ Hbefore). intros y Hy. unfold hasId.
    destruct (Qeq_bool (id y) (id item)) eqn:E; [|reflexivity].
    apply Qeq_bool_iff in E. contradiction.
  - unfold hasId. apply Qeq_bool_iff. reflexivity.
Qed.

Lemma filter_all (p : Q -> bool) (l : list Q) :
  Forall (fun q => p q = true) l -> JSArray.filter p l = l.
Proof.
  induction 1 as [|q l Hq _ IH]; [reflexivity|].
  cbn [JSArray.filter]. rewrite Hq, IH. reflexivity.
Qed.

(** Every item of a list is found by its id in a list that holds it first. *)
Lemma omap_fromId (items l : list Item) :
  (forall k y, l !! k = Some y -> fromId Item id (id y) items = Some y) ->
  omap (fun resourceId => fromId Item id resourceId items) (map id l) = l.
Proof.
  induction l as [|y l IH]; intros Hall; [reflexivity|].
  cbn [map omap list_omap]. rewrite (Hall 0%nat y eq_refl). f_equal.
  apply IH. intros k z Hz. apply (Hall (S k) z Hz).
Qed.

(** X21. The button of an entry of the list of resources calls
    [removeResource] with the index of the entry, not with the id of its
    resource.  For every entry but the first, no id is that number: the
    state of [App] keeps all its ids, the backend loses its last resource,
    and, when the state and the backend agreed, the list shows all the
    resources but the last, whichever entry was clicked. *)
Theorem deleteButton_removes_last (app : App.t Item) (i : nat) :
  Forall (fun item => random (id item)) (App.backendResources Item app) ->
  Forall random (App.resources Item app) ->
  (1 <= i)%nat ->
  App.deleteButton Item id i app =
    {| App.backendResources := removelast (App.backendResources Item app);
       App.resources := App.resources Item app |} /\
  (distinctIds Item id (App.backendResources Item app) ->
   App.resources Item app = map id (App.backendResources Item app) ->
   App.shown Item id (App.deleteButton Item id i app)
     = removelast (App.backendResources Item app)).
Proof.
  intros Hb Hr Hi.
  assert (Hindex : (1 <= inject_Z (Z.of_nat i))%Q).
  { change 1%Q with (inject_Z 1). rewrite <- Zle_Qle. lia. }
  assert (Hclick :
    App.deleteButton Item id i app =
      {| App.backendResources := removelast (App.backendResources Item app);
         App.resources := App.resources Item app |}).
  { unfold App.deleteButton, App.removeResource. f_equal.
    - apply removeById_none. apply (Forall_impl _ _ _ Hb). intros y [_ Hy].
      unfold hasId. destruct (Qeq_bool (id y) (inject_Z (Z.of_nat i))) eqn:E;
        [|reflexivity].
      apply Qeq_bool_iff in E. rewrite E in Hy. exfalso.
      apply (Qlt_not_le _ _ Hy Hindex).
    - apply filter_all. apply (Forall_impl _ _ _ Hr). intros q [_ Hq].
      destruct (Qeq_bool q (inject_Z (Z.of_nat i))) eqn:E; [|reflexivity].
      apply Qeq_bool_iff in E. rewrite E in Hq. exfalso.
      apply (Qlt_not_le _ _ Hq Hindex). }
  split; [exact Hclick|].
  intros Hd Hsync. rewrite Hclick. unfold App.shown.
  cbn [App.backendResources App.resources]. rewrite Hsync.
  destruct (App.backendResources Item app) as [|x items] using rev_ind;
    [reflexivity|].
  clear IHitems. rewrite removelast_last, map_app, omap_app. cbn [map omap list_omap].
  assert (Hlast : fromId Item id (id x) items = None).
  { apply fromId_none. pose proof (distinctIds_split items [] x Hd) as Ho.
    rewrite app_nil_r in Ho. apply (Forall_impl _ _ _ Ho). intros y Hy.
    unfold hasId. destruct (Qeq_bool (id y) (id x)) eqn:E; [|reflexivity].
    apply Qeq_bool_iff in E. contradiction. }
  rewrite Hlast, app_nil_r.
  assert (Hd' : distinctIds Item id items).
  { intros a b u v Ha Hb' Heq.
    apply (Hd a b u v); [apply lookup_app_l_Some, Ha|apply lookup_app_l_Some, Hb'|exact Heq]. }
  apply omap_fromId. intros k y Hy. apply (fromId_self items k y Hd' Hy).
Qed.

End Lists.

Lemma removeById_then_fromId_witness :
  Items.fromId (Q * string) fst (5 # 8)
    (Items.removeById (Q * string) fst (5 # 8) (App.backendResources _ sampleApp))
    = None.
Proof.
  apply (removeById_then_fromId (Item := Q * string) fst (5 # 8)
           (App.backendResources _ sampleApp) ((5 # 8)%Q, "b.png"%string)).
  - intros [|[|[|i]]] [|[|[|j]]] a b Ha Hb Heq; try discriminate Ha;
      try discriminate Hb; try reflexivity;
      injection Ha as <-; injection Hb as <-; vm_compute in Heq; discriminate Heq.
  - reflexivity.
Defined.

Lemma deleteButton_removes_last_witness :
  App.deleteButton (Q * string) fst 1 sampleApp =
    {| App.backendResources := [((1 # 4)%Q, "a.png"%string); ((5 # 8)%Q, "b.png"%string)];
       App.resources := [(1 # 4)%Q; (5 # 8)%Q; (7 # 8)%Q] |}.
Proof.
  apply (deleteButton_removes_last (Item := Q * string) fst sampleApp 1).
  - repeat constructor; vm_compute; congruence.
  - repeat constructor; vm_compute; congruence.
  - lia.
Defined.

Section Frames.

Import RenderFrame.

Implicit Types (st : RenderFrame.t) (clip : AnyClip) (task : Task).

Lemma resume_simpleRender clip (f : Clip.SimpleRender) (canvas : Canvas.t)
    (time width height : Num.t) :
  Clip.simpleRender (asClip clip) = Some f ->
  resume (simpleRender clip time width height) canvas = f canvas time width height.
Proof.
  destruct clip as [c|c]; intros [= <-].
  - reflexivity.
  - unfold simpleRender, ImageSequenceClip.simpleRender.
    destruct (Num.ltb (ImageSequenceClip.length_ c) (Num.ofZ 1)); [reflexivity|].
    destruct (Num.index (ImageSequenceClip.resourceIndex c time)
                ≫= (ImageSequenceClip.resources c !!.)); reflexivity.
Qed.

Lemma asClip_simpleRender clip : exists f, Clip.simpleRender (asClip clip) = Some f.
Proof. destruct clip; eexists; reflexivity. Qed.

(** The call on a clip that needs rendering: the task it leaves runs to
    what [render] gives. *)
Lemma call_active (time width height : Num.t) st clip :
  Clip.needsRender (asClip clip) time = true ->
  exists task,
    tasks (call time width height st clip) = tasks st ++ [task] /\
    finish task (canvas (call time width height st clip))
      = Clip.render (asClip clip) (canvas st) time width height /\
    rejection (call time width height st clip)
      = match task with
        | Rejected e => reject e (rejection st)
        | _ => rejection st
        end.
Proof.
  intros Hneeds. unfold call. rewrite Hneeds. cbv zeta.
  destruct (asClip_simpleRender clip) as [f Hf].
  pose proof (resume_simpleRender clip f
                (place (Clip.properties (asClip clip)) (canvas st))
                (Num.sub time (Clip.renderStart (Clip.properties (asClip clip))))
                width height Hf) as Hresume.
  unfold Clip.render. rewrite Hf. cbv zeta. fold (place (Clip.properties (asClip clip)) (canvas st)).
  rewrite <- Hresume.
  destruct (simpleRender clip _ width height) as [|resource w h|e];
    eexists; (split; [reflexivity|]); (split; [|reflexivity]); cbn [canvas finish resume].
  - reflexivity.
  - destruct (ImageResource.asImage resource); reflexivity.
  - reflexivity.
Qed.

Lemma call_inactive (time width height : Num.t) st clip :
  Clip.needsRender (asClip clip) time = false ->
  call time width height st clip =
    {| canvas := canvas st; tasks := tasks st ++ [Fulfilled];
       rejection := rejection st |}.
Proof. intros H. unfold call. rewrite H. reflexivity. Qed.

Lemma calls_inactive (time width height : Num.t) (clips : list AnyClip) st :
  Forall (fun clip => Clip.needsRender (asClip clip) time = false) clips ->
  foldl (call time width height) st clips =
    {| canvas := canvas st; tasks := tasks st ++ replicate (length clips) Fulfilled;
       rejection := rejection st |}.
Proof.
  intros H. revert st. induction H as [|clip clips Hc _ IH]; intros st.
  - cbn [foldl length replicate]. rewrite app_nil_r. destruct st; reflexivity.
  - cbn [foldl length replicate]. rewrite IH, (call_inactive _ _ _ _ _ Hc).
    cbn [canvas tasks rejection]. rewrite <- app_assoc. reflexivity.
Qed.

Lemma step_idle (k : nat) st :
  Forall (fun task => task = Fulfilled) (tasks st) -> step k st = st.
Proof.
  intros H. unfold step. destruct (tasks st !! k) as [task|] eqn:Hk; [|reflexivity].
  rewrite (proj1 (Forall_lookup _ _) H k task Hk). reflexivity.
Qed.

Lemma run_idle (schedule : list nat) st :
  Forall (fun task => task = Fulfilled) (tasks st) -> run schedule st = st.
Proof.
  intros H. induction schedule as [|k schedule IH] using rev_ind; [reflexivity|].
  unfold run in *. rewrite foldl_app, IH. cbn [foldl]. apply step_idle, H.
Qed.

Lemma forallb_replicate_Fulfilled (n : nat) :
  forallb isFulfilled (replicate n Fulfilled) = true.
Proof. induction n as [|n IH]; [reflexivity|exact IH]. Qed.

Lemma lookup_single (n1 n2 : nat) task :
  (replicate n1 Fulfilled ++ task :: replicate n2 Fulfilled) !! n1 = Some task.
Proof.
  rewrite lookup_app_r by (rewrite length_replicate; lia).
  rewrite length_replicate, Nat.sub_diag. reflexivity.
Qed.

Lemma lookup_others (n1 n2 k : nat) task :
  k <> n1 ->
  (replicate n1 Fulfilled ++ task :: replicate n2 Fulfilled) !! k = Some Fulfilled \/
  (replicate n1 Fulfilled ++ task :: replicate n2 Fulfilled) !! k = None.
Proof.
  intros Hk. destruct (Nat.lt_ge_cases k n1) as [Hlt|Hge].
  - left. rewrite lookup_app_l by (rewrite length_replicate; lia).
    apply lookup_replicate_2. exact Hlt.
  - rewrite lookup_app_r by (rewrite length_replicate; lia).
    rewrite length_replicate.
    destruct (k - n1)%nat as [|j] eqn:Hj; [lia|]. cbn [lookup list_lookup].
    destruct (Nat.lt_ge_cases j n2) as [Hlt|Hge2].
    + left. apply lookup_replicate_2. exact Hlt.
    + right. apply lookup_ge_None. rewrite length_replicate. exact Hge2.
Qed.

Lemma insert_single (n1 n2 : nat) task task' :
  <[n1 := task']> (replicate n1 Fulfilled ++ task :: replicate n2 Fulfilled)
    = replicate n1 Fulfilled ++ task' :: replicate n2 Fulfilled.
Proof.
  rewrite insert_app_r_alt by (rewrite length_replicate; lia).
  rewrite length_replicate, Nat.sub_diag. reflexivity.
Qed.

(** A step keeps the outcome that the one call runs to. *)
Lemma step_one_call (n1 n2 k : nat) (outcome : result Canvas.t) st :
  single n1 n2 outcome st -> single n1 n2 outcome (step k st).
Proof.
  intros (task & Htasks & Hfinish & Hrej). unfold step. rewrite Htasks.
  destruct (decide (k = n1)) as [->|Hk].
  - rewrite lookup_single.
    destruct task as [|resource w h old|old|e].
    + exists Fulfilled. rewrite Htasks. auto.
    + cbn [finish] in Hfinish.
      destruct (ImageResource.asImage resource) as [e|img] eqn:Himg.
      * exists (Rejected e). cbn [tasks canvas rejection finish].
        rewrite insert_single, Hrej. split; [reflexivity|]. split; [exact Hfinish|reflexivity].
      * exists (InRender old). cbn [tasks canvas rejection finish].
        rewrite insert_single. split; [reflexivity|]. split; [exact Hfinish|exact Hrej].
    + exists Fulfilled. cbn [tasks canvas rejection finish].
      rewrite insert_single. split; [reflexivity|]. split; [exact Hfinish|exact Hrej].
    + exists (Rejected e). rewrite Htasks. auto.
  - destruct (lookup_others n1 n2 k task Hk) as [-> | ->];
      exists task; rewrite Htasks; auto.
Qed.

Lemma run_one_call (n1 n2 : nat) (outcome : result Canvas.t) (schedule : list nat) st :
  single n1 n2 outcome st -> single n1 n2 outcome (run schedule st).
Proof.
  intros H. induction schedule as [|k schedule IH] using rev_ind; [exact H|].
  unfold run in *. rewrite foldl_app. cbn [foldl]. apply step_one_call, IH.
Qed.

Lemma settled_one_call (n1 n2 : nat) (outcome outcome' : result Canvas.t) st :
  single n1 n2 outcome st -> settled st = Some outcome' -> outcome' = outcome.
Proof.
  intros (task & Htasks & Hfinish & Hrej). unfold settled. rewrite Hrej, Htasks.
  destruct task as [|resource w h old|old|e]; cbn [finish] in Hfinish.
  - rewrite forallb_app. cbn [forallb isFulfilled].
    rewrite !forallb_replicate_Fulfilled. cbn [andb]. intros [= <-]. exact Hfinish.
  - rewrite forallb_app. cbn [forallb isFulfilled]. rewrite andb_false_r. discriminate.
  - rewrite forallb_app. cbn [forallb isFulfilled]. rewrite andb_false_r. discriminate.
  - intros [= <-]. exact Hfinish.
Qed.

(** The step of the one call. *)
Lemma step_at (n1 n2 : nat) st task :
  tasks st = replicate n1 Fulfilled ++ task :: replicate n2 Fulfilled ->
  step n1 st =
    match task with
    | InSimpleRender resource width height oldTransform =>
        match ImageResource.asImage resource with
        | inr img =>
            {| canvas := Canvas.drawImage img (Num.ofZ 0) (Num.ofZ 0) width height
                           (canvas st);
               tasks := replicate n1 Fulfilled ++ InRender oldTransform
                          :: replicate n2 Fulfilled;
               rejection := rejection st |}
        | inl e =>
            {| canvas := canvas st;
               tasks := replicate n1 Fulfilled ++ Rejected e :: replicate n2 Fulfilled;
               rejection := reject e (rejection st) |}
        end
    | InRender oldTransform =>
        {| canvas := Canvas.setTransform oldTransform (canvas st);
           tasks := replicate n1 Fulfilled ++ Fulfilled :: replicate n2 Fulfilled;
           rejection := rejection st |}
    | _ => st
    end.
Proof.
  intros Htasks. unfold step. rewrite Htasks, lookup_single.
  destruct task as [|resource w h old|old|e]; try reflexivity.
  - destruct (ImageResource.asImage resource); rewrite insert_single; reflexivity.
  - rewrite insert_single. reflexivity.
Qed.

Lemma settled_Fulfilled (n1 n2 : nat) st :
  tasks st = replicate n1 Fulfilled ++ Fulfilled :: replicate n2 Fulfilled ->
  rejection st = None ->
  settled st = Some (ok (canvas st)).
Proof.
  intros Htasks Hrej. unfold settled. rewrite Hrej, Htasks, forallb_app.
  cbn [forallb isFulfilled]. rewrite !forallb_replicate_Fulfilled. reflexivity.
Qed.

(** Two steps take the one call to its end. *)
Lemma settled_twice (n1 n2 : nat) (outcome : result Canvas.t) st :
  single n1 n2 outcome st -> settled (step n1 (step n1 st)) = Some outcome.
Proof.
  intros (task & Htasks & Hfinish & Hrej).
  rewrite (step_at n1 n2 st task Htasks).
  destruct task as [|resource w h old|old|e]; cbn [finish] in Hfinish.
  - rewrite (step_at n1 n2 st Fulfilled Htasks), <- Hfinish.
    apply (settled_Fulfilled n1 n2); assumption.
  - destruct (ImageResource.asImage resource) as [e|img].
    + match goal with
      | |- context [step n1 ?s] => rewrite (step_at n1 n2 s (Rejected e) eq_refl)
      end.
      rewrite <- Hfinish.
      unfold settled. cbn [rejection]. rewrite Hrej. reflexivity.
    + match goal with
      | |- context [step n1 ?s] => rewrite (step_at n1 n2 s (InRender old) eq_refl)
      end.
      rewrite <- Hfinish.
      cbn [canvas tasks rejection]. apply (settled_Fulfilled n1 n2); [reflexivity|exact Hrej].
  - match goal with
      | |- context [step n1 ?s] => rewrite (step_at n1 n2 s Fulfilled eq_refl)
      end.
      rewrite <- Hfinish.
    apply (settled_Fulfilled n1 n2); [reflexivity|exact Hrej].
  - rewrite (step_at n1 n2 st (Rejected e) Htasks), <- Hfinish.
    unfold settled. rewrite Hrej. reflexivity.
Qed.

(** The calls on clips of which one needs rendering. *)
Lemma start_one_call (time width height : Num.t) (before after : list AnyClip) clip :
  Forall (fun c => Clip.needsRender (asClip c) time = false) before ->
  Forall (fun c => Clip.needsRender (asClip c) time = false) after ->
  Clip.needsRender (asClip clip) time = true ->
  single (length before) (length after)
    (Clip.render (asClip clip) createCanvas time width height)
    (start (before ++ clip :: after) time width height).
Proof.
  intros Hb Ha Hc. unfold start. rewrite foldl_app. cbn [foldl].
  rewrite (calls_inactive _ _ _ before _ Hb). cbn [canvas tasks rejection app].
  set (st := {| canvas := createCanvas;
                tasks := replicate (length before) Fulfilled; rejection := None |}).
  destruct (call_active time width height st clip Hc) as (task & Htasks & Hfinish & Hrej).
  rewrite (calls_inactive _ _ _ after _ Ha). cbn [canvas tasks rejection].
  exists task. rewrite Htasks. cbn [tasks st]. rewrite <- app_assoc.
  split; [reflexivity|]. split; [exact Hfinish|].
  rewrite Hrej. destruct task; reflexivity.
Qed.

(** With one clip that needs rendering, [renderFrame] comes to what
    [render] gives on a new canvas. *)
Lemma renderFrame_single (time width height : Num.t) (before after : list AnyClip)
    clip (schedule : list nat) (outcome : result Canvas.t) :
  Forall (fun c => Clip.needsRender (asClip c) time = false) before ->
  Forall (fun c => Clip.needsRender (asClip c) time = false) after ->
  Clip.needsRender (asClip clip) time = true ->
  renderFrame schedule (before ++ clip :: after) time width height = Some outcome ->
  outcome = Clip.render (asClip clip) createCanvas time width height.
Proof.
  intros Hb Ha Hc Hout.
  apply (settled_one_call (length before) (length after) _ _
           (run schedule (start (before ++ clip :: after) time width height)));
    [|exact Hout].
  apply run_one_call, start_one_call; assumption.
Qed.

(** With no clip that needs rendering, [renderFrame] returns the new
    canvas. *)
Lemma renderFrame_idle (time width height : Num.t) (clips : list AnyClip)
    (schedule : list nat) :
  Forall (fun c => Clip.needsRender (asClip c) time = false) clips ->
  renderFrame schedule clips time width height = Some (ok createCanvas).
Proof.
  intros Hc. unfold renderFrame, start.
  rewrite (calls_inactive _ _ _ clips _ Hc). cbn [canvas tasks rejection app].
  rewrite run_idle by (cbn [tasks]; apply Forall_replicate; reflexivity).
  unfold settled. cbn [rejection tasks canvas].
  rewrite forallb_replicate_Fulfilled. reflexivity.
Qed.

(** X22. [renderFrame] with no clip that needs rendering at the time
    returns the new canvas, with nothing drawn.  With one clip that needs
    rendering, among any others, it comes to what [render] of that clip
    gives on a new canvas, the canvas or the exception, in whatever order
    the parts of the calls run; and it comes to it once the call on that
    clip has gone on twice. *)
Theorem renderFrame_one_clip (time width height : Num.t) :
  (forall clips schedule,
     Forall (fun c => Clip.needsRender (asClip c) time = false) clips ->
     renderFrame schedule clips time width height = Some (ok createCanvas)) /\
  (forall before clip after,
     Forall (fun c => Clip.needsRender (asClip c) time = false) before ->
     Forall (fun c => Clip.needsRender (asClip c) time = false) after ->
     Clip.needsRender (asClip clip) time = true ->
     (forall schedule outcome,
        renderFrame schedule (before ++ clip :: after) time width height = Some outcome ->
        outcome = Clip.render (asClip clip) createCanvas time width height) /\
     renderFrame [length before; length before] (before ++ clip :: after)
         time width height
       = Some (Clip.render (asClip clip) createCanvas time width height)).
Proof.
  split.
  - intros clips schedule. apply renderFrame_idle.
  - intros before clip after Hb Ha Hc. split.
    + intros schedule outcome. apply renderFrame_single; assumption.
    + unfold renderFrame, run. cbn [foldl].
      apply (settled_twice (length before) (length after)).
      apply start_one_call; assumption.
Qed.

End Frames.

Section TwoCalls.

Import RenderFrame.

Variables (file1 file2 : string) (img1 img2 : Canvas.HTMLImageElement).
Variables (width height : Num.t) (m0 m1 both : Canvas.DOMMatrix).

Ltac among :=
  repeat first [apply list_elem_of_here | apply list_elem_of_further].

(** A step after the beginning of an interleaving gives the beginning of an
    interleaving: the step is its next part, or it does nothing. *)
Lemma interleaving_step (k : nat) (p : list nat) :
  p ∈ interleavings ->
  exists p', p' ∈ interleavings /\
    step k (run p (twoCalls file1 file2 img1 img2 width height m0 m1 both))
      = run p' (twoCalls file1 file2 img1 img2 width height m0 m1 both).
Proof.
  intros Hp. unfold interleavings in Hp.
  repeat (apply elem_of_cons in Hp as [->|Hp]);
    [..|apply elem_of_nil in Hp; contradiction];
    destruct k as [|[|k]];
    match goal with
    | |- exists p', _ /\ step ?k (run ?p _) = _ =>
        first [ exists (p ++ [k]); split; [cbn [app]; solve [among]|reflexivity]
              | exists p; split; [solve [among]|reflexivity] ]
    end.
Qed.

Lemma run_interleaving (schedule : list nat) :
  exists p, p ∈ interleavings /\
    run schedule (twoCalls file1 file2 img1 img2 width height m0 m1 both)
      = run p (twoCalls file1 file2 img1 img2 width height m0 m1 both).
Proof.
  induction schedule as [|k schedule IH] using rev_ind.
  - exists []. split; [among|reflexivity].
  - destruct IH as (p & Hp & Hrun).
    destruct (interleaving_step k p Hp) as (p' & Hp' & Hstep).
    exists p'. split; [exact Hp'|].
    unfold run in *. rewrite foldl_app. cbn [foldl]. rewrite Hrun. exact Hstep.
Qed.

(** The canvases that two calls can leave. *)
Lemma twoCalls_settled (schedule : list nat) (canvas : Canvas.t) :
  settled (run schedule (twoCalls file1 file2 img1 img2 width height m0 m1 both))
    = Some (ok canvas) ->
  let draw := fun img m =>
    {| Canvas.image := img; Canvas.dx := Num.ofZ 0; Canvas.dy := Num.ofZ 0;
       Canvas.dw := width; Canvas.dh := height; Canvas.under := m |} in
  (Canvas.drawn canvas = [draw img1 both; draw img2 both] \/
   Canvas.drawn canvas = [draw img2 both; draw img1 both] \/
   (Canvas.drawn canvas = [draw img1 both; draw img2 m0] /\
    Canvas.currentTransform canvas = m1) \/
   (Canvas.drawn canvas = [draw img2 both; draw img1 m1] /\
    Canvas.currentTransform canvas = m0)) /\
  (Canvas.currentTransform canvas = m0 \/ Canvas.currentTransform canvas = m1).
Proof.
  intros Hs draw. destruct (run_interleaving schedule) as (p & Hp & Hrun).
  rewrite Hrun in Hs. clear Hrun. unfold interleavings in Hp.
  repeat (apply elem_of_cons in Hp as [->|Hp]);
    [..|apply elem_of_nil in Hp; contradiction];
    first [ discriminate Hs | injection Hs as <- ];
    (split; [|first [left; reflexivity|right; reflexivity]]).
  - (* 0 0 1 1 *) right. right. left. split; reflexivity.
  - (* 0 1 0 1 *) left. reflexivity.
  - (* 0 1 1 0 *) left. reflexivity.
  - (* 1 0 0 1 *) right. left. reflexivity.
  - (* 1 0 1 0 *) right. left. reflexivity.
  - (* 1 1 0 0 *) right. right. right. split; reflexivity.
Qed.

End TwoCalls.

Section Overlap.

Import RenderFrame.

(** The calls on two clips that both need rendering and load an image. *)
Lemma start_two (c1 c2 : AnyClip) (file1 file2 : string)
    (img1 img2 : Canvas.HTMLImageElement) (time width height : Num.t) :
  Clip.needsRender (asClip c1) time = true ->
  Clip.needsRender (asClip c2) time = true ->
  simpleRender c1 (Num.sub time (Clip.renderStart (Clip.properties (asClip c1))))
      width height
    = AwaitImage (ImageResource.mk file1 (ok img1)) width height ->
  simpleRender c2 (Num.sub time (Clip.renderStart (Clip.properties (asClip c2))))
      width height
    = AwaitImage (ImageResource.mk file2 (ok img2)) width height ->
  start [c1; c2] time width height =
    twoCalls file1 file2 img1 img2 width height
      (Canvas.matrix 1 0 0 1 0 0)
      (Canvas.currentTransform (place (Clip.properties (asClip c1)) createCanvas))
      (Canvas.currentTransform
         (place (Clip.properties (asClip c2))
            (place (Clip.properties (asClip c1)) createCanvas))).
Proof.
  intros Hn1 Hn2 Hs1 Hs2. unfold start. cbn [foldl]. unfold call at 2.
  rewrite Hn1. cbv zeta. rewrite Hs1. unfold call. cbn [canvas tasks rejection].
  rewrite Hn2. cbv zeta. rewrite Hs2. reflexivity.
Qed.

(** [render] of a clip that loads an image. *)
Lemma render_image (clip : AnyClip) (file : string) (img : Canvas.HTMLImageElement)
    (canvas : Canvas.t) (time width height : Num.t) :
  simpleRender clip (Num.sub time (Clip.renderStart (Clip.properties (asClip clip))))
      width height
    = AwaitImage (ImageResource.mk file (ok img)) width height ->
  Clip.render (asClip clip) canvas time width height =
    ok (Canvas.setTransform (Canvas.getTransform canvas)
          (Canvas.drawImage img (Num.ofZ 0) (Num.ofZ 0) width height
             (place (Clip.properties (asClip clip)) canvas))).
Proof.
  intros Hs. destruct (asClip_simpleRender clip) as [f Hf].
  pose proof (resume_simpleRender clip f
                (place (Clip.properties (asClip clip)) canvas)
                (Num.sub time (Clip.renderStart (Clip.properties (asClip clip))))
                width height Hf) as Hresume.
  rewrite Hs in Hresume. unfold Clip.render. rewrite Hf. cbv zeta.
  fold (place (Clip.properties (asClip clip)) canvas). rewrite <- Hresume. reflexivity.
Qed.

(** X23. Two clips that need rendering at the same time, each with an
    image that loads.  Both calls of [render] multiply their matrix onto
    that of the canvas before either image is drawn, and each puts back the
    matrix it found.  So, in whatever order the images arrive, the image
    that is drawn first is drawn under the product of both matrices; the
    other one too, unless the call of the first has ended, and then under
    the matrix that call put back: the identity for the image of the second
    clip, the matrix of the first clip for its own image.  The canvas is
    left with the identity or with the matrix of the first clip.  Rendering
    one clip after the other draws the first image under [m1] and the
    second under [m2], and leaves the identity; the frame has these
    drawings only if the matrix of the second clip, multiplied onto that of
    the first, changes nothing. *)
Theorem renderFrame_two_clips (c1 c2 : AnyClip) (r1 r2 : ImageResource.t)
    (img1 img2 : Canvas.HTMLImageElement) (time width height : Num.t) :
  Clip.needsRender (asClip c1) time = true ->
  Clip.needsRender (asClip c2) time = true ->
  simpleRender c1 (Num.sub time (Clip.renderStart (Clip.properties (asClip c1))))
      width height = AwaitImage r1 width height ->
  simpleRender c2 (Num.sub time (Clip.renderStart (Clip.properties (asClip c2))))
      width height = AwaitImage r2 width height ->
  ImageResource.asImage r1 = ok img1 ->
  ImageResource.asImage r2 = ok img2 ->
  let identity := Canvas.matrix 1 0 0 1 0 0 in
  let m1 := Canvas.currentTransform (place (Clip.properties (asClip c1)) createCanvas) in
  let m2 := Canvas.currentTransform (place (Clip.properties (asClip c2)) createCanvas) in
  let both :=
    Canvas.currentTransform
      (place (Clip.properties (asClip c2))
         (place (Clip.properties (asClip c1)) createCanvas)) in
  let draw := fun img m =>
    {| Canvas.image := img; Canvas.dx := Num.ofZ 0; Canvas.dy := Num.ofZ 0;
       Canvas.dw := width; Canvas.dh := height; Canvas.under := m |} in
  (forall schedule canvas,
     renderFrame schedule [c1; c2] time width height = Some (ok canvas) ->
     (Canvas.drawn canvas = [draw img1 both; draw img2 both] \/
      Canvas.drawn canvas = [draw img2 both; draw img1 both] \/
      (Canvas.drawn canvas = [draw img1 both; draw img2 identity] /\
       Canvas.currentTransform canvas = m1) \/
      (Canvas.drawn canvas = [draw img2 both; draw img1 m1] /\
       Canvas.currentTransform canvas = identity)) /\
     (Canvas.currentTransform canvas = identity \/
      Canvas.currentTransform canvas = m1) /\
     (Canvas.drawn canvas = [draw img1 m1; draw img2 m2] -> both = m1)) /\
  renderFrame [0; 0; 1; 1]%nat [c1; c2] time width height
    = Some (ok {| Canvas.currentTransform := m1;
                  Canvas.drawn := [draw img1 both; draw img2 identity] |}) /\
  (canvas ← Clip.render (asClip c1) createCanvas time width height;
   Clip.render (asClip c2) canvas time width height)
    = ok {| Canvas.currentTransform := identity;
            Canvas.drawn := [draw img1 m1; draw img2 m2] |}.
Proof.
  intros Hn1 Hn2 Hs1 Hs2 Hi1 Hi2.
  destruct r1 as [file1 a1], r2 as [file2 a2].
  cbn [ImageResource.asImage] in Hi1, Hi2. subst a1 a2.
  intros identity m1 m2 both draw.
  pose proof (start_two c1 c2 file1 file2 img1 img2 time width height Hn1 Hn2 Hs1 Hs2)
    as Hstart.
  fold identity m1 both in Hstart.
  split; [|split].
  - intros schedule canvas Hout. unfold renderFrame in Hout. rewrite Hstart in Hout.
    destruct (twoCalls_settled file1 file2 img1 img2 width height identity m1 both
                schedule canvas Hout) as [Hdrawn Hmatrix].
    split; [exact Hdrawn|]. split; [exact Hmatrix|].
    intros Heq. cbv zeta in Hdrawn.
    destruct Hdrawn as [H|[H|[[H _]|[H _]]]]; rewrite H in Heq; subst draw;
      cbv beta in Heq; congruence.
  - unfold renderFrame. rewrite Hstart. reflexivity.
  - rewrite (render_image c1 file1 img1 createCanvas time width height Hs1).
    cbn [mbind result_bind].
    rewrite (render_image c2 file2 img2 _ time width height Hs2). reflexivity.
Qed.

Lemma renderFrame_two_clips_witness :
  exists canvas,
    RenderFrame.renderFrame [1; 1; 0; 0]%nat [sampleLeft; sampleRight]
      (Num.ofZ 0) (Num.ofZ 1600) (Num.ofZ 900) = Some (ok canvas) /\
    (Canvas.currentTransform canvas = Canvas.matrix 1 0 0 1 0 0 \/
     Canvas.currentTransform canvas
       = Canvas.currentTransform
           (place (Clip.properties (asClip sampleLeft)) createCanvas)).
Proof.
  eexists. split; [reflexivity|].
  refine (proj1 (proj2 (proj1 (renderFrame_two_clips sampleLeft sampleRight
                          (ImageResource.mk "left.png" (ok 1))
                          (ImageResource.mk "right.png" (ok 2)) 1 2
                          (Num.ofZ 0) (Num.ofZ 1600) (Num.ofZ 900)
                          _ _ _ _ _ _) [1; 1; 0; 0]%nat _ _))); reflexivity.
Defined.

End Overlap.

Section ExportedClip.

Import RenderFrame.

Local Open Scope R_scope.

(** The matrix of a clip over the whole frame, turned by half a turn, takes
    a point to the opposite one. *)
Lemma half_turn (x y : R) :
  Canvas.apply
    (Canvas.multiply
       (Canvas.multiply (Canvas.matrix 1 0 0 1 0 0) (Canvas.matrix 1 0 0 1 0 0))
       (Canvas.rotation PI)) (x, y) = (- x, - y).
Proof.
  unfold Canvas.apply, Canvas.multiply, Canvas.rotation.
  cbn [Canvas.ma Canvas.mb Canvas.mc Canvas.md Canvas.me Canvas.mf fst snd].
  rewrite cos_PI, sin_PI. f_equal; ring.
Qed.

(** [simpleRender] of an image sequence draws one image, or none. *)
Lemma simpleRender_draws (c : ImageSequenceClip.t) (canvas drawn : Canvas.t)
    (time width height : Num.t) :
  ImageSequenceClip.simpleRender c canvas time width height = ok drawn ->
  drawn = canvas \/
  exists img, drawn = Canvas.drawImage img (Num.ofZ 0) (Num.ofZ 0) width height canvas.
Proof.
  unfold ImageSequenceClip.simpleRender.
  destruct (Num.ltb _ _); [intros [= <-]; left; reflexivity|].
  destruct (Num.index _ ≫= _) as [resource|]; [|discriminate].
  destruct (ImageResource.asImage resource) as [e|img]; [discriminate|].
  cbn [mbind result_bind]. intros [= <-]. right. exists img. reflexivity.
Qed.

(** X24. The clip that [render] of [App] makes is turned by half a turn
    about the corner of the frame.  Whatever the resources, the frame rate,
    the time and the size, a frame of the export has at most one image, given
    the rectangle from [(0, 0)] to [(width, height)], and drawn under a
    matrix that takes every point [(x, y)] to [(- x, - y)]: the image lies
    on the other side of the corner, beside the canvas. *)
Theorem export_draws_beside_the_canvas (fps : Num.t)
    (resources : list ImageResource.t) (schedule : list nat)
    (time width height : Num.t) (canvas : Canvas.t) :
  renderFrame schedule [Sequence (exportClip fps resources)] time width height
    = Some (ok canvas) ->
  Canvas.currentTransform canvas = Canvas.matrix 1 0 0 1 0 0 /\
  (length (Canvas.drawn canvas) <= 1)%nat /\
  forall d, d ∈ Canvas.drawn canvas ->
    Canvas.dx d = Num.ofZ 0 /\ Canvas.dy d = Num.ofZ 0 /\
    Canvas.dw d = width /\ Canvas.dh d = height /\
    forall x y, Canvas.apply (Canvas.under d) (x, y) = (- x, - y).
Proof.
  intros Hout.
  set (clip := Sequence (exportClip fps resources)) in *.
  destruct (Clip.needsRender (asClip clip) time) eqn:Hneeds.
  - pose proof (renderFrame_single time width height [] [] clip schedule (ok canvas)
                  (Forall_nil_2 _) (Forall_nil_2 _) Hneeds Hout) as Hrender.
    unfold Clip.render in Hrender. cbn [asClip clip ImageSequenceClip.asClip
      Clip.simpleRender] in Hrender. cbv zeta in Hrender.
    match type of Hrender with
    | _ = mbind _ ?m => destruct m as [e|drawn] eqn:Hdraw
    end; cbn [mbind result_bind] in Hrender; [discriminate Hrender|].
    injection Hrender as ->.
    cbn [Canvas.setTransform Canvas.currentTransform Canvas.drawn].
    split; [reflexivity|].
    destruct (simpleRender_draws _ _ _ _ _ _ Hdraw) as [->|[img ->]].
    + cbn [Canvas.drawn Canvas.rotate Canvas.transform Canvas.setTransform
        createCanvas length].
      split; [lia|]. intros d Hd. apply elem_of_nil in Hd. contradiction.
    + cbn [Canvas.drawn Canvas.drawImage Canvas.rotate Canvas.transform
        Canvas.setTransform Canvas.currentTransform Canvas.getTransform
        createCanvas app length].
      split; [lia|].
      intros d Hd. apply list_elem_of_singleton in Hd. subst d.
      cbn [Canvas.dx Canvas.dy Canvas.dw Canvas.dh Canvas.under].
      repeat (split; [reflexivity|]).
      intros x y. apply half_turn.
  - assert (Hblank : renderFrame schedule [clip] time width height
                     = Some (ok createCanvas)).
    { apply renderFrame_idle. constructor; [exact Hneeds|constructor]. }
    rewrite Hblank in Hout. injection Hout as <-.
    split; [reflexivity|]. split; [cbn; lia|].
    intros d Hd. apply elem_of_nil in Hd. contradiction.
Qed.

Lemma export_draws_beside_the_canvas_witness :
  exists canvas,
    renderFrame [0; 0]%nat
      [Sequence (exportClip (Num.ofZ 8%Z)
                   [ImageResource.mk "a.png" (ok 1%Z); ImageResource.mk "b.png" (ok 2%Z)])]
      (Num.ofZ 125000%Z) (Num.ofZ 1600%Z) (Num.ofZ 900%Z) = Some (ok canvas) /\
    map Canvas.image (Canvas.drawn canvas) = [2%Z] /\
    forall d, d ∈ Canvas.drawn canvas ->
      forall x y, Canvas.apply (Canvas.under d) (x, y) = (- x, - y).
Proof.
  eexists. split; [reflexivity|]. split; [reflexivity|].
  destruct (export_draws_beside_the_canvas (Num.ofZ 8%Z)
              [ImageResource.mk "a.png" (ok 1%Z); ImageResource.mk "b.png" (ok 2%Z)]
              [0; 0]%nat (Num.ofZ 125000%Z) (Num.ofZ 1600%Z) (Num.ofZ 900%Z) _ eq_refl)
    as (_ & _ & Hall).
  intros d Hd. destruct (Hall d Hd) as (_ & _ & _ & _ & Happly). exact Happly.
Defined.

End ExportedClip.

Section ClipsInTime.

Import Clip.

Lemma leb_Fin (p q : Q) : Num.leb (Num.Fin p) (Num.Fin q) = Qle_bool p q.
Proof. unfold Num.leb, Num.ltb. apply negb_involutive. Qed.

Lemma needsRender_Fin (clip : Clip.t) (s l t : Q) :
  renderStart (properties clip) = Num.Fin s ->
  renderLength (properties clip) = Num.Fin l ->
  needsRender clip (Num.Fin t) = true <-> (s <= t /\ t < s + l)%Q.
Proof.
  intros Hs Hl. unfold needsRender. rewrite Hs, Hl. cbn [Num.add].
  rewrite leb_Fin. unfold Num.ltb. rewrite andb_true_iff, negb_true_iff.
  rewrite Qle_bool_iff. split; intros [H1 H2]; (split; [exact H1|]).
  - apply Qnot_le_lt. intros Hle. apply Qle_bool_iff in Hle. congruence.
  - destruct (Qle_bool (s + l) t) eqn:E; [|reflexivity].
    apply Qle_bool_iff in E. exfalso. apply (Qlt_not_le _ _ H2 E).
Qed.

(** X25. A clip needs rendering from its start, included, to its start
    plus its length, excluded, and never at a time that is not a number.
    Of two clips of which the second starts where the first ends, no time
    needs both; and, when the lengths are not negative, every time from
    the start of the first to the end of the second needs one of them. *)
Theorem needsRender_end_to_end (first second : Clip.t) (s l1 l2 t : Q) :
  renderStart (properties first) = Num.Fin s ->
  renderLength (properties first) = Num.Fin l1 ->
  renderStart (properties second) = Num.Fin (s + l1) ->
  renderLength (properties second) = Num.Fin l2 ->
  (needsRender first (Num.Fin t) = true <-> (s <= t /\ t < s + l1)%Q) /\
  needsRender first (Num.Fin t) && needsRender second (Num.Fin t) = false /\
  ((0 <= l1)%Q -> (0 <= l2)%Q ->
   (needsRender first (Num.Fin t) || needsRender second (Num.Fin t) = true
    <-> (s <= t /\ t < s + l1 + l2)%Q)) /\
  needsRender first Num.NaN = false.
Proof.
  intros Hs1 Hl1 Hs2 Hl2.
  pose proof (needsRender_Fin first s l1 t Hs1 Hl1) as H1.
  pose proof (needsRender_Fin second (s + l1) l2 t Hs2 Hl2) as H2.
  split; [exact H1|]. split; [|split].
  - destruct (needsRender first (Num.Fin t)) eqn:E1; [|reflexivity].
    destruct (needsRender second (Num.Fin t)) eqn:E2; [|reflexivity].
    destruct (proj1 H1 eq_refl) as [_ Hlt]. destruct (proj1 H2 eq_refl) as [Hle _].
    exfalso. apply (Qlt_not_le _ _ Hlt Hle).
  - intros Hp1 Hp2. rewrite orb_true_iff, H1, H2. split.
    + intros [[Ha Hb]|[Ha Hb]]; split; lra.
    + intros [Ha Hb]. destruct (Qlt_le_dec t (s + l1)) as [Hlt|Hge].
      * left. split; assumption.
      * right. split; assumption.
  - unfold needsRender. rewrite Hs1. reflexivity.
Qed.

Lemma needsRender_end_to_end_witness :
  needsRender (RenderFrame.asClip sampleLeft) (Num.Fin 1000000) = false.
Proof.
  destruct (needsRender_end_to_end (RenderFrame.asClip sampleLeft)
              (Clip.mk {| renderStart := Num.Fin (0 + 1000000);
                          renderLength := Num.Fin 1000000;
                          posTop := 0; posLeft := 0; posWidth := 1; posHeight := 1;
                          rotation := 0 |} None)
              0 1000000 1000000 1000000 eq_refl eq_refl eq_refl eq_refl)
    as (_ & Hboth & _ & _).
  apply andb_false_iff in Hboth. destruct Hboth as [H|H]; [exact H|].
  vm_compute in H. discriminate H.
Defined.

End ClipsInTime.

Section ExportWriter.

Import WebMWriter Completion.

(** X26. The writer of an export is made for the codec ["VP9"]: whatever
    the width and the height, its header fits the buffer of [writeHeader],
    and neither [addFrame] nor [complete] throws, whatever the chunks the
    encoder puts out, and even when it puts out none. *)
Theorem export_writer_never_throws (float64 : Q -> Z) (w h : Z)
    (chunks : list Chunk) :
  fits w h (exportWriter w h) /\
  exists x,
    session float64 (exportWriter w h) chunks = ok x /\
    firstCueWritten x = true /\
    clusterFrameBuffer (writer x) = [].
Proof.
  assert (Hfit : fits w h (exportWriter w h)).
  { unfold fits, exportWriter. cbn [codec String.length].
    pose proof (measureUnsignedInt_range w). pose proof (measureUnsignedInt_range h).
    lia. }
  split; [exact Hfit|].
  destruct (session_result float64 (exportWriter w h) chunks Hfit)
    as (st & _ & _ & _ & Hs).
  eexists. split; [exact Hs|]. cbn [writer firstCueWritten].
  split; [reflexivity|apply clusterFrameBuffer_finished].
Qed.

End ExportWriter.
